(** * Point Transformer (ml3d/torch/models/point_transformer.py)

    A shallow embedding of the batched neighbour search, the grouping
    operator, the interpolation and the encoder / decoder blocks of the
    Point Transformer model, of the network assembled from them and of the
    data preparation ([transform]), together with the properties of its
    specification and further properties of the code.

    Conventions.
    - A tensor is its shape, its row-major data and its contiguity flag.
      Float tensors hold rationals ([Q]): arithmetic is exact, rounding of
      IEEE floats is not modelled.  Index tensors hold integers ([Z]).
    - A Python exception is a value of [exn]; a call that may raise returns
      [res].
    - The neighbour search primitive of Open3D
      ([o3c.nns.NearestNeighborSearch]) and the furthest point sampling
      kernel ([furthest_point_sample_v2]) are parameters of the model, and
      so are [np.random.randint] and [np.argsort] in the data preparation. *)

From Stdlib Require Import QArith Qminmax Lia Lqa String.
From stdpp Require Import base numbers list.

#[local] Unset Default Proof Using.
#[local] Open Scope nat_scope.

(** ** Exceptions and results *)

Inductive exn : Set :=
| AssertionError
| AttributeError
| IndexError
| RuntimeError
| ValueError
| ZeroDivisionError.

Inductive res (A : Type) : Type :=
| Ok (a : A)
| Raise (e : exn).
Arguments Ok {A} a.
Arguments Raise {A} e.

#[global] Instance res_ret : MRet res := fun A a => Ok a.
#[global] Instance res_bind : MBind res := fun A B k m =>
  match m with
  | Ok a => k a
  | Raise e => Raise e
  end.

Definition assert (b : bool) : res unit :=
  if b then Ok tt else Raise AssertionError.

Definition guard (e : exn) (b : bool) : res unit :=
  if b then Ok tt else Raise e.

(** Monadic map over a list: stops at the first exception. *)
Fixpoint mapM {A B} (f : A -> res B) (l : list A) : res (list B) :=
  match l with
  | [] => Ok []
  | a :: l' => b ← f a; bs ← mapM f l'; Ok (b :: bs)
  end.

(** ** Tensors *)

Record Tensor (A : Type) : Type := mkTensor {
  shape : list nat;
  data : list A;
  contig : bool
}.
Arguments mkTensor {A} shape data contig.
Arguments shape {A} t.
Arguments data {A} t.
Arguments contig {A} t.

#[global] Instance Q_inhabited : Inhabited Q := populate 0%Q.
#[global] Instance Z_inhabited0 : Inhabited Z := populate 0%Z.

(** Number of elements of a shape. *)
Definition prodn (shp : list nat) : nat := fold_right Nat.mul 1 shp.

Definition numel {A} (t : Tensor A) : nat := prodn (shape t).

(** A tensor is well formed when its data fill its shape. *)
Definition wf {A} (t : Tensor A) : Prop := length (data t) = numel t.

(** Row-major position of a multi-index, and its inverse. *)
Fixpoint ravel (shp idx : list nat) : nat :=
  match shp, idx with
  | _ :: ds, i :: is_ => i * prodn ds + ravel ds is_
  | _, _ => 0
  end.

Fixpoint unravel (shp : list nat) (p : nat) : list nat :=
  match shp with
  | [] => []
  | _ :: ds => (p / prodn ds) :: unravel ds (p mod prodn ds)
  end.

Definition in_bounds (shp idx : list nat) : Prop := Forall2 lt idx shp.

Definition get {A} `{Inhabited A} (t : Tensor A) (idx : list nat) : A :=
  nth (ravel (shape t) idx) (data t) inhabitant.

(** A contiguous tensor given by its shape and its entries. *)
Definition tab {A} (shp : list nat) (f : list nat -> A) : Tensor A :=
  mkTensor shp (map (fun p => f (unravel shp p)) (seq 0 (prodn shp))) true.

(** Python index normalisation: negative indices count from the end. *)
Definition py_index (n : nat) (i : Z) : res nat :=
  if (0 <=? i)%Z && (i <? Z.of_nat n)%Z then Ok (Z.to_nat i)
  else if (- Z.of_nat n <=? i)%Z && (i <? 0)%Z then Ok (Z.to_nat (i + Z.of_nat n))
  else Raise IndexError.

(** Python slice [a:b] over a sequence of length [n]: the first position and
    the number of positions kept. *)
Definition py_clip (n : nat) (a : Z) : nat :=
  if (a <? 0)%Z then Z.to_nat (Z.max 0 (a + Z.of_nat n))
  else Nat.min (Z.to_nat a) n.

Definition py_slice (n : nat) (a b : Z) : nat * nat :=
  let s := py_clip n a in
  let e := py_clip n b in
  (s, e - s).

(** ** Tensor operations (torch) *)

Module torch.

Section Structural.
Context {A : Type} `{Inhabited A}.

(** [t.shape[i]] *)
Definition size (t : Tensor A) (i : nat) : res nat :=
    match shape t !! i with
    | Some d => Ok d
    | None => Raise IndexError
    end.

(** [t.contiguous()] *)
Definition contiguous (t : Tensor A) : Tensor A :=
    mkTensor (shape t) (data t) true.

(** [t.view(shp)]: the same data under another shape; a tensor that is not
      contiguous cannot be viewed. *)
Definition view (t : Tensor A) (shp : list nat) : res (Tensor A) :=
    _ ← guard RuntimeError (contig t && (prodn shp =? numel t));
    Ok (mkTensor shp (data t) true).

(** [t.view(-1)] *)
Definition flatten (t : Tensor A) : res (Tensor A) := view t [numel t].

(** [t.reshape(-1, w)] *)
Definition reshape_rows (t : Tensor A) (w : nat) : res (Tensor A) :=
    _ ← guard RuntimeError (negb (w =? 0) && (numel t mod w =? 0));
    Ok (mkTensor [numel t / w; w] (data t) true).

(** [t.unsqueeze(d)] *)
Definition unsqueeze (t : Tensor A) (d : nat) : res (Tensor A) :=
    _ ← guard IndexError (d <=? length (shape t));
    Ok (mkTensor (take d (shape t) ++ 1 :: drop d (shape t)) (data t) (contig t)).

(** [t.squeeze(-1)] *)
Definition squeeze_last (t : Tensor A) : Tensor A :=
    match last (shape t) with
    | Some 1 => mkTensor (removelast (shape t)) (data t) (contig t)
    | _ => t
    end.

(** [t[idx, :]] with an index tensor [idx] of rank one: a fresh tensor whose
      rows are the rows of [t] the indices name. *)
Definition index_rows (t : Tensor A) (idx : list Z) : res (Tensor A) :=
    match shape t with
    | [] => Raise IndexError
    | n :: rest =>
        is_ ← mapM (py_index n) idx;
        Ok (tab (length is_ :: rest)
              (fun ix => match ix with
                         | r :: ix' => get t (nth r is_ 0 :: ix')
                         | [] => inhabitant
                         end))
    end.

(** [t[a:b]] and [t[a:b, :]]: a range of rows. *)
Definition slice_rows (t : Tensor A) (a b : Z) : res (Tensor A) :=
    match shape t with
    | [] => Raise IndexError
    | n :: rest =>
        let '(s, len) := py_slice n a b in
        Ok (mkTensor (len :: rest)
              (take (len * prodn rest) (drop (s * prodn rest) (data t)))
              (contig t))
    end.

(** [t.narrow(d, s, len)], the slice [s : s + len] along dimension [d]. *)
Definition narrow (t : Tensor A) (d s len : nat) : Tensor A :=
    let shp := <[d := len]> (shape t) in
    mkTensor shp
      (data (tab shp (fun ix => get t (<[d := s + nth d ix 0]> ix))))
      ((len =? nth d (shape t) 0) || (prodn shp <=? 1)).

(** [t[:, :, a:b]] on a tensor of rank three ([None] stands for an omitted
      bound). *)
Definition slice_dim2 (t : Tensor A) (a : Z) (b : option Z) : res (Tensor A) :=
    match shape t with
    | [_; _; w] =>
        let '(s, len) := py_slice w a (default (Z.of_nat w) b) in
        Ok (narrow t 2 s len)
    | _ => Raise IndexError
    end.

(** [t[:, i]] on a tensor of rank two. *)
Definition select_col (t : Tensor A) (i : nat) : res (Tensor A) :=
    match shape t with
    | [n; w] =>
        _ ← guard IndexError (i <? w);
        Ok (mkTensor [n] (data (tab [n] (fun ix => get t (ix ++ [i])))) (w =? 1))
    | _ => Raise IndexError
    end.

(** [t.transpose(1, 2).contiguous()] *)
Definition swap12 (ix : list nat) : list nat :=
    match ix with
    | a :: b :: c :: r => a :: c :: b :: r
    | _ => ix
    end.

Definition transpose12 (t : Tensor A) : res (Tensor A) :=
    _ ← guard IndexError (3 <=? length (shape t));
    Ok (tab (swap12 (shape t)) (fun ix => get t (swap12 ix))).

(** [torch.cat(ts, 0)] *)
Definition cat0 (ts : list (Tensor A)) : res (Tensor A) :=
    match ts with
    | [] => Raise RuntimeError
    | t0 :: _ =>
        match shape t0 with
        | [] => Raise RuntimeError
        | _ :: rest =>
            _ ← guard RuntimeError
                  (forallb (fun t => bool_decide (tail (shape t) = rest)
                                     && negb (length (shape t) =? 0)) ts);
            Ok (mkTensor (sum_list (map (fun t => hd 0 (shape t)) ts) :: rest)
                  (concat (map data ts)) true)
        end
    end.

(** [torch.cat((a, b), d)] *)
Definition cat2 (d : nat) (a b : Tensor A) : res (Tensor A) :=
    _ ← guard IndexError (d <? length (shape a));
    _ ← guard RuntimeError (bool_decide (<[d := 0]> (shape a) = <[d := 0]> (shape b)));
    let da := nth d (shape a) 0 in
    Ok (tab (<[d := da + nth d (shape b) 0]> (shape a))
          (fun ix => if nth d ix 0 <? da then get a ix
                     else get b (<[d := nth d ix 0 - da]> ix))).

(** [t.repeat(count, 1)] on a tensor of rank two. *)
Definition repeat_rows (t : Tensor A) (count : nat) : res (Tensor A) :=
    match shape t with
    | [n; w] => Ok (mkTensor [count * n; w] (concat (replicate count (data t))) true)
    | _ => Raise RuntimeError
    end.

(** Broadcasting: the shape two operands broadcast to, and the entry of an
      operand that an index of the broadcast shape reads. *)
Fixpoint broadcast_rev (a b : list nat) : res (list nat) :=
    match a, b with
    | [], _ => Ok b
    | _, [] => Ok a
    | x :: a', y :: b' =>
        r ← broadcast_rev a' b';
        if x =? y then Ok (x :: r)
        else if x =? 1 then Ok (y :: r)
        else if y =? 1 then Ok (x :: r)
        else Raise RuntimeError
    end.

Definition broadcast_shapes (a b : list nat) : res (list nat) :=
    r ← broadcast_rev (rev a) (rev b); Ok (rev r).

Definition bix (shp ix : list nat) : list nat :=
    zip_with (fun d i => if d =? 1 then 0 else i) shp
      (drop (length ix - length shp) ix).

Definition map2 {B C} `{Inhabited B} (f : A -> B -> C)
      (a : Tensor A) (b : Tensor B) : res (Tensor C) :=
    shp ← broadcast_shapes (shape a) (shape b);
    Ok (tab shp (fun ix => f (get a (bix (shape a) ix)) (get b (bix (shape b) ix)))).

(** In place: the result must have the shape of the left operand. *)
Definition map2_ {B} `{Inhabited B} (f : A -> B -> A)
      (a : Tensor A) (b : Tensor B) : res (Tensor A) :=
    shp ← broadcast_shapes (shape a) (shape b);
    _ ← guard RuntimeError (bool_decide (shp = shape a));
    Ok (mkTensor (shape a)
          (data (tab (shape a)
                   (fun ix => f (get a ix) (get b (bix (shape b) ix)))))
          (contig a)).

End Structural.

(** Arithmetic on float tensors. *)

Definition sumQ (l : list Q) : Q := fold_right Qplus 0%Q l.

Definition add := map2 Qplus.
Definition sub := map2 Qminus.
Definition mul := map2 Qmult.
Definition div := map2 Qdiv.
Definition iadd := map2_ Qplus.
Definition isub := map2_ Qminus.

Definition map1 {A B} (f : A -> B) (t : Tensor A) : Tensor B :=
  mkTensor (shape t) (map f (data t)) true.

Definition zeros (shp : list nat) : Tensor Q := tab shp (fun _ => 0%Q).

(** [t.sum(d, keepdim)] *)
Definition sum_dim (t : Tensor Q) (d : nat) (keepdim : bool) : res (Tensor Q) :=
  _ ← guard IndexError (d <? length (shape t));
  let n := nth d (shape t) 0 in
  Ok (if keepdim
      then tab (<[d := 1]> (shape t))
             (fun ix => sumQ (map (fun i => get t (<[d := i]> ix)) (seq 0 n)))
      else tab (take d (shape t) ++ drop (S d) (shape t))
             (fun ix => sumQ (map (fun i => get t (take d ix ++ i :: drop d ix))
                                (seq 0 n)))).

End torch.

(** ** Layers (torch.nn)

    The learned parameters are fields of the layers.  Square root and
    exponential are not rational functions: they are parameters of the
    model, and no property below depends on their values. *)

Module nn.

Definition relu (x : Q) : Q := if Qle_bool 0 x then x else 0%Q.

Definition maxQ (l : list Q) : Q :=
  match l with
  | [] => 0%Q
  | x :: l' => fold_left (fun a b => if Qle_bool a b then b else a) l' x
  end.

Definition Qnat (n : nat) : Q := inject_Z (Z.of_nat n).

Record Linear : Type := mkLinear {
  in_features : nat;
  out_features : nat;
  weight : Tensor Q;
  bias : option (Tensor Q)
}.

Record BatchNorm1d : Type := mkBatchNorm1d {
  num_features : nat;
  bn_weight : Tensor Q;
  bn_bias : Tensor Q;
  running_mean : Tensor Q;
  running_var : Tensor Q;
  eps : Q;
  training : bool
}.

Inductive Layer : Type :=
| LinearL (l : Linear)
| BatchNorm1dL (b : BatchNorm1d)
| ReLUL.

(** [nn.Sequential] *)
Definition Sequential : Type := list Layer.

Section Forward.
Variables sqrtQ expQ : Q -> Q.

(** [nn.Linear]: acts on the last dimension. *)
Definition Linear_forward (l : Linear) (x : Tensor Q) : res (Tensor Q) :=
    match last (shape x) with
    | None => Raise RuntimeError
    | Some w =>
        _ ← guard RuntimeError (w =? in_features l);
        Ok (tab (removelast (shape x) ++ [out_features l])
              (fun ix =>
                 let pre := removelast ix in
                 let o := List.last ix 0 in
                 (torch.sumQ (map (fun i => get x (pre ++ [i]) * get (weight l) [o; i])
                                (seq 0 (in_features l)))
                  + match bias l with
                    | Some b => get b [o]
                    | None => 0
                    end)%Q))
    end.

(** [nn.ReLU] *)
Definition ReLU_forward (x : Tensor Q) : Tensor Q := torch.map1 relu x.

(** [nn.BatchNorm1d]: input (N, C) or (N, C, L); in training mode the
      statistics of the batch are used and a single value per channel is
      refused. *)
Definition BatchNorm1d_forward (b : BatchNorm1d) (x : Tensor Q) : res (Tensor Q) :=
    '(n, c, len) ← match shape x with
                   | [n; c] => Ok (n, c, 1)
                   | [n; c; len] => Ok (n, c, len)
                   | _ => Raise ValueError
                   end;
    _ ← guard RuntimeError (c =? num_features b);
    _ ← guard ValueError (negb (training b && (n * len =? 1)));
    let entry i ch l := get x (take (length (shape x)) [i; ch; l]) in
    let vals ch := flat_map (fun i => map (entry i ch) (seq 0 len)) (seq 0 n) in
    let mean ch :=
      if training b then (torch.sumQ (vals ch) / Qnat (n * len))%Q
      else get (running_mean b) [ch] in
    let var ch :=
      if training b
      then (torch.sumQ (map (fun v => (v - mean ch) * (v - mean ch)) (vals ch))
            / Qnat (n * len))%Q
      else get (running_var b) [ch] in
    Ok (tab (shape x)
          (fun ix =>
             let ch := nth 1 ix 0 in
             ((get x ix - mean ch) / sqrtQ (var ch + eps b)
              * get (bn_weight b) [ch] + get (bn_bias b) [ch])%Q)).

(** [nn.Softmax(dim=1)] *)
Definition Softmax1_forward (x : Tensor Q) : res (Tensor Q) :=
    _ ← guard IndexError (2 <=? length (shape x));
    let n := nth 1 (shape x) 0 in
    Ok (tab (shape x)
          (fun ix =>
             (expQ (get x ix)
              / torch.sumQ (map (fun i => expQ (get x (<[1%nat := i]> ix))) (seq 0 n)))%Q)).

(** [nn.MaxPool1d(k)]: input (N, C, L), windows of [k] entries, stride [k]. *)
Definition MaxPool1d_forward (k : nat) (x : Tensor Q) : res (Tensor Q) :=
    match shape x with
    | [n; c; len] =>
        _ ← guard RuntimeError (negb (k =? 0) && (k <=? len));
        Ok (tab [n; c; len / k]
              (fun ix =>
                 match ix with
                 | [i; ch; j] => maxQ (map (fun o => get x [i; ch; j * k + o]) (seq 0 k))
                 | _ => 0%Q
                 end))
    | _ => Raise RuntimeError
    end.

Definition Layer_forward (l : Layer) (x : Tensor Q) : res (Tensor Q) :=
    match l with
    | LinearL l => Linear_forward l x
    | BatchNorm1dL b => BatchNorm1d_forward b x
    | ReLUL => Ok (ReLU_forward x)
    end.

Fixpoint Sequential_forward (ls : Sequential) (x : Tensor Q) : res (Tensor Q) :=
    match ls with
    | [] => Ok x
    | l :: ls' => y ← Layer_forward l x; Sequential_forward ls' y
    end.

End Forward.

End nn.

(** ** The model *)

(** Row splits are tensors of rank one: the list of their entries. *)
Definition item (rs : list Z) (i : nat) : res Z :=
  match rs !! i with
  | Some v => Ok v
  | None => Raise IndexError
  end.

(** A (point, feature, row-splits) triple. *)
Definition PXO : Type := Tensor Q * Tensor Q * list Z.

(** One run of the neighbour search primitive: the source points it indexed,
    the queries and the neighbour count. *)
Definition SearchCall : Type := Tensor Q * Tensor Q * nat.

Record Transformer : Type := mkTransformer {
  mid_planes : nat;
  out_planes : nat;
  share_planes : nat;
  tr_nsample : nat;
  linear_q : nn.Linear;
  linear_k : nn.Linear;
  linear_v : nn.Linear;
  linear_p : nn.Sequential;
  linear_w : nn.Sequential
}.

Record TransitionDown : Type := mkTransitionDown {
  stride : Z;
  td_nsample : nat;
  td_linear : nn.Linear;
  td_bn : nn.BatchNorm1d
}.

Record TransitionUp : Type := mkTransitionUp {
  tu_linear1 : nn.Sequential;
  tu_linear2 : nn.Sequential
}.

Record Bottleneck : Type := mkBottleneck {
  linear1 : nn.Linear;
  bn1 : nn.BatchNorm1d;
  transformer2 : Transformer;
  bn2 : nn.BatchNorm1d;
  linear3 : nn.Linear;
  bn3 : nn.BatchNorm1d
}.

Definition expansion : nat := 1.

(** [1e-8] *)
Definition epsilon : Q := 1 # 100000000.

Section Model.
Variables sqrtQ expQ : Q -> Q.

(** [o3c.nns.NearestNeighborSearch(points)], [knn_index()] and
      [knn_search(queries, k)]: indices local to [points] and distances. *)
Variable knn_search : Tensor Q -> Tensor Q -> nat -> res (Tensor Z * Tensor Q).

(** [furthest_point_sample_v2(point, row_splits, new_row_splits)] *)
Variable furthest_point_sample_v2 :
    Tensor Q -> list Z -> list Z -> res (Tensor Z).

(** *** knn_batch *)

(** The loop [for i in range(0, points_row_splits.shape[0] - 1)], with the
      lists [idxs] and [dists] it appends to and the searches run so far. *)
Fixpoint knn_clouds (points queries : Tensor Q) (k : nat)
      (points_row_splits queries_row_splits : list Z) (range : list nat)
      (idxs : list (Tensor Z)) (dists : list (Tensor Q)) (calls : list SearchCall)
      : list SearchCall * res (list (Tensor Z) * list (Tensor Q)) :=
    match range with
    | [] => (calls, Ok (idxs, dists))
    | i :: range' =>
        match (a ← item points_row_splits i;
               b ← item points_row_splits (i + 1);
               curr_points ← torch.slice_rows points a b;
               qa ← item queries_row_splits i;
               qb ← item queries_row_splits (i + 1);
               curr_queries ← torch.slice_rows queries qa qb;
               Ok (a, curr_points, curr_queries)) with
        | Raise e => (calls, Raise e)
        | Ok (a, curr_points, curr_queries) =>
            let calls' := calls ++ [(curr_points, curr_queries, k)] in
            match knn_search curr_points curr_queries k with
            | Raise e => (calls', Raise e)
            | Ok (idx, dist) =>
                (* idx += points_row_splits[i] *)
                let idx := torch.map1 (fun v => (v + a)%Z) idx in
                knn_clouds points queries k points_row_splits queries_row_splits
                  range' (idxs ++ [idx]) (dists ++ [dist]) calls'
            end
        end
    end.

Definition knn_batch_run (points queries : Tensor Q) (k : nat)
      (points_row_splits queries_row_splits : list Z) (return_distances : bool)
      : list SearchCall * res (Tensor Z * option (Tensor Q)) :=
    if negb (length points_row_splits =? length queries_row_splits)
    then ([], Raise AssertionError)
    else
      let '(calls, r) :=
        knn_clouds points queries k points_row_splits queries_row_splits
          (seq 0 (length points_row_splits - 1)) [] [] [] in
      (calls,
       '(idxs, dists) ← r;
       if return_distances
       then i ← torch.cat0 idxs; d ← torch.cat0 dists; Ok (i, Some d)
       else i ← torch.cat0 idxs; Ok (i, None)).

Definition knn_batch (points queries : Tensor Q) (k : nat)
      (points_row_splits queries_row_splits : list Z) (return_distances : bool)
      : res (Tensor Z * option (Tensor Q)) :=
    snd (knn_batch_run points queries k points_row_splits queries_row_splits
           return_distances).

(** *** queryandgroup *)

(** [x.is_contiguous()] on a Python value that may be [None]. *)
Definition is_contiguous {A} (x : option (Tensor A)) : res bool :=
    match x with
    | Some t => Ok (contig t)
    | None => Raise AttributeError
    end.

(** Python's short-circuit [and]. *)
Definition and_then (a : res bool) (b : res bool) : res bool :=
    a ≫= fun x : bool => if x then b else Ok false.

Definition queryandgroup (nsample : nat) (points : Tensor Q)
      (queries : option (Tensor Q)) (feat : Tensor Q) (idx : option (Tensor Z))
      (points_row_splits queries_row_splits : list Z) (use_xyz : bool)
      : res (Tensor Q) :=
    ok ← and_then (is_contiguous (Some points))
           (and_then (is_contiguous queries) (is_contiguous (Some feat)));
    _ ← assert ok;
    let queries := match queries with None => points | Some q => q end in
    idx ← match idx with
          | Some idx => Ok idx
          | None =>
              r ← knn_batch points queries nsample points_row_splits
                    queries_row_splits false;
              Ok (fst r)
          end;
    n ← torch.size points 0;
    m ← torch.size queries 0;
    c ← torch.size feat 1;
    flat ← torch.flatten idx;
    g ← torch.index_rows points (data flat);
    grouped_xyz ← torch.view g [m; nsample; 3];
    q1 ← torch.unsqueeze queries 1;
    grouped_xyz ← torch.isub grouped_xyz q1;
    g ← torch.index_rows feat (data flat);
    grouped_feat ← torch.view g [m; nsample; c];
    if use_xyz then torch.cat2 2 grouped_xyz grouped_feat
    else Ok grouped_feat.

(** *** interpolation *)

(** The loop [for i in range(k)]. *)
Fixpoint interpolation_loop (feat : Tensor Q) (idx : Tensor Z)
      (weight : Tensor Q) (range : list nat) (new_feat : Tensor Q)
      : res (Tensor Q) :=
    match range with
    | [] => Ok new_feat
    | i :: range' =>
        col ← torch.select_col idx i;
        rows ← torch.index_rows feat (data col);
        wcol ← torch.select_col weight i;
        w1 ← torch.unsqueeze wcol 1;
        term ← torch.mul rows w1;
        new_feat ← torch.iadd new_feat term;
        interpolation_loop feat idx weight range' new_feat
    end.

Definition interpolation (points queries feat : Tensor Q)
      (points_row_splits queries_row_splits : list Z) (k : nat)
      : res (Tensor Q) :=
    _ ← assert (contig points && contig queries && contig feat);
    r ← knn_batch points queries k points_row_splits queries_row_splits true;
    let idx := fst r in
    dist ← match snd r with Some d => Ok d | None => Raise RuntimeError end;
    idx ← torch.reshape_rows idx 3;
    dist ← torch.reshape_rows dist 3;
    let dist_recip := torch.map1 (fun d => 1 / (d + epsilon))%Q dist in
    norm ← torch.sum_dim dist_recip 1 true;
    weight ← torch.div dist_recip norm;
    nq ← torch.size queries 0;
    c ← torch.size feat 1;
    interpolation_loop feat idx weight (seq 0 k) (torch.zeros [nq; c]).

(** *** Transformer *)

(** [layer(x.transpose(1, 2).contiguous()).transpose(1, 2).contiguous()] *)
Definition transposed (l : nn.Layer) (x : Tensor Q) : res (Tensor Q) :=
    t ← torch.transpose12 x;
    t ← nn.Layer_forward sqrtQ l t;
    torch.transpose12 t.

(** [for i, layer in enumerate(layers)]: the layers whose position
      satisfies [tr] run on the transposed tensor. *)
Fixpoint enumerate_forward (tr : nat -> bool) (i : nat) (ls : nn.Sequential)
      (x : Tensor Q) : res (Tensor Q) :=
    match ls with
    | [] => Ok x
    | l :: ls' =>
        y ← (if tr i then transposed l x else nn.Layer_forward sqrtQ l x);
        enumerate_forward tr (S i) ls' y
    end.

Definition Transformer_forward (self : Transformer) (pxo : PXO) : res (Tensor Q) :=
    let '(point, feat, row_splits) := pxo in
    feat_q ← nn.Linear_forward (linear_q self) feat;
    feat_k ← nn.Linear_forward (linear_k self) feat;
    feat_v ← nn.Linear_forward (linear_v self) feat;
    feat_k ← queryandgroup (tr_nsample self) point (Some point) feat_k None
               row_splits row_splits true;
    feat_v ← queryandgroup (tr_nsample self) point (Some point) feat_v None
               row_splits row_splits false;
    point_r ← torch.slice_dim2 feat_k 0 (Some 3%Z);
    feat_k ← torch.slice_dim2 feat_k 3 None;
    point_r ← enumerate_forward (fun i => i =? 1) 0 (linear_p self) point_r;
    d0 ← torch.size point_r 0;
    d1 ← torch.size point_r 1;
    _ ← guard ZeroDivisionError (negb (mid_planes self =? 0));
    pv ← torch.view point_r
           [d0; d1; out_planes self / mid_planes self; mid_planes self];
    ps ← torch.sum_dim pv 2 false;
    fq ← torch.unsqueeze feat_q 1;
    w ← torch.sub feat_k fq;
    w ← torch.add w ps;
    w ← enumerate_forward (fun i => i mod 3 =? 0) 0 (linear_w self) w;
    w ← nn.Softmax1_forward expQ w;
    '(n, nsample, c) ← match shape feat_v with
                       | [n; nsample; c] => Ok (n, nsample, c)
                       | _ => Raise ValueError
                       end;
    let s := share_planes self in
    _ ← guard ZeroDivisionError (negb (s =? 0));
    a ← torch.add feat_v point_r;
    a ← torch.view a [n; nsample; s; c / s];
    w2 ← torch.unsqueeze w 2;
    p ← torch.mul a w2;
    r ← torch.sum_dim p 1 false;
    torch.view r [n; c].

(** *** TransitionDown *)

(** The loop [for i in range(1, row_splits.shape[0])] that accumulates
      [count] and appends it to [new_row_splits]. *)
Fixpoint new_splits_loop (stride : Z) (row_splits : list Z) (range : list nat)
      (count : Z) (new_row_splits : list Z) : res (list Z) :=
    match range with
    | [] => Ok new_row_splits
    | i :: range' =>
        a ← item row_splits i;
        b ← item row_splits (i - 1);
        _ ← guard ZeroDivisionError (negb (stride =? 0)%Z);
        let count := (count + (a - b) / stride)%Z in
        new_splits_loop stride row_splits range' count (new_row_splits ++ [count])
    end.

Definition TransitionDown_forward (self : TransitionDown) (pxo : PXO) : res PXO :=
    let '(point, feat, row_splits) := pxo in
    if negb (stride self =? 1)%Z then
      new_row_splits ← new_splits_loop (stride self) row_splits
                         (seq 1 (length row_splits - 1)) 0 [0%Z];
      idx ← furthest_point_sample_v2 point row_splits new_row_splits;
      new_point ← torch.index_rows point (data idx);
      feat ← queryandgroup (td_nsample self) point (Some new_point) feat None
               row_splits new_row_splits true;
      feat ← nn.Linear_forward (td_linear self) feat;
      feat ← torch.transpose12 feat;
      feat ← nn.BatchNorm1d_forward sqrtQ (td_bn self) feat;
      let feat := nn.ReLU_forward feat in
      feat ← nn.MaxPool1d_forward (td_nsample self) feat;
      let feat := torch.squeeze_last feat in
      Ok (new_point, feat, new_row_splits)
    else
      feat ← nn.Linear_forward (td_linear self) feat;
      feat ← nn.BatchNorm1d_forward sqrtQ (td_bn self) feat;
      let feat := nn.ReLU_forward feat in
      Ok (point, feat, row_splits).

(** *** TransitionUp *)

(** One round of the loop over the clouds: the rows of cloud [i], each
      followed by the projected mean of the cloud. *)
Definition cloud_block (self : TransitionUp) (feat : Tensor Q)
      (row_splits : list Z) (i : nat) : res (Tensor Q) :=
    start_i ← item row_splits i;
    end_i ← item row_splits (i + 1);
    let count := (end_i - start_i)%Z in
    _ ← guard IndexError (2 <=? length (shape feat));
    feat_b ← torch.slice_rows feat start_i end_i;
    total ← torch.sum_dim feat_b 0 true;
    let mean := torch.map1 (fun v => v / inject_Z count)%Q total in
    g ← nn.Sequential_forward sqrtQ (tu_linear2 self) mean;
    _ ← guard RuntimeError (0 <=? count)%Z;
    rep ← torch.repeat_rows g (Z.to_nat count);
    torch.cat2 1 feat_b rep.

Definition TransitionUp_forward (self : TransitionUp) (pxo1 : PXO)
      (pxo2 : option PXO) : res (Tensor Q) :=
    match pxo2 with
    | None =>
        let '(point, feat, row_splits) := pxo1 in
        feat_tmp ← mapM (cloud_block self feat row_splits)
                     (seq 0 (length row_splits - 1));
        feat ← torch.cat0 feat_tmp;
        nn.Sequential_forward sqrtQ (tu_linear1 self) feat
    | Some pxo2 =>
        let '(point_1, feat_1, row_splits_1) := pxo1 in
        let '(point_2, feat_2, row_splits_2) := pxo2 in
        f1 ← nn.Sequential_forward sqrtQ (tu_linear1 self) feat_1;
        f2 ← nn.Sequential_forward sqrtQ (tu_linear2 self) feat_2;
        it ← interpolation point_2 point_1 f2 row_splits_2 row_splits_1 3;
        torch.add f1 it
    end.

(** *** Bottleneck *)

Definition Bottleneck_forward (self : Bottleneck) (pxo : PXO) : res PXO :=
    let '(point, feat, row_splits) := pxo in
    let identity := feat in
    feat ← nn.Linear_forward (linear1 self) feat;
    feat ← nn.BatchNorm1d_forward sqrtQ (bn1 self) feat;
    let feat := nn.ReLU_forward feat in
    feat ← Transformer_forward (transformer2 self) (point, feat, row_splits);
    feat ← nn.BatchNorm1d_forward sqrtQ (bn2 self) feat;
    let feat := nn.ReLU_forward feat in
    feat ← nn.Linear_forward (linear3 self) feat;
    feat ← nn.BatchNorm1d_forward sqrtQ (bn3 self) feat;
    feat ← torch.iadd feat identity;
    let feat := nn.ReLU_forward feat in
    Ok (point, feat, row_splits).

End Model.

(** ** Reference primitives

    Executable instances of the two parameters: an exhaustive neighbour
    search that returns squared distances, as the Open3D search does, and a
    furthest point sampling.  The properties of the model hold for every
    primitive that meets the contracts stated further down; these instances
    meet them. *)

Definition row (t : Tensor Q) (r : nat) : list Q :=
  map (fun c => get t [r; c]) (seq 0 (nth 1 (shape t) 0)).

Definition sqdist (p q : list Q) : Q :=
  torch.sumQ (zip_with (fun a b => (a - b) * (a - b))%Q p q).

Fixpoint insert_by (x : Q * nat) (l : list (Q * nat)) : list (Q * nat) :=
  match l with
  | [] => [x]
  | y :: l' => if Qle_bool (fst x) (fst y) then x :: l else y :: insert_by x l'
  end.

Definition sort_by (l : list (Q * nat)) : list (Q * nat) :=
  fold_right insert_by [] l.

Definition nearest (points : Tensor Q) (q : list Q) (w : nat) : list (Q * nat) :=
  take w (sort_by (map (fun i => (sqdist (row points i) q, i))
                     (seq 0 (hd 0 (shape points))))).

Definition brute_knn (points queries : Tensor Q) (k : nat)
    : res (Tensor Z * Tensor Q) :=
  match shape points, shape queries with
  | [n; _], [nq; _] =>
      _ ← guard RuntimeError (negb (k =? 0) && negb (n =? 0));
      let w := Nat.min k n in
      let nb ix := nth (nth 1 ix 0) (nearest points (row queries (nth 0 ix 0)) w)
                     (0%Q, 0) in
      Ok (tab [nq; w] (fun ix => Z.of_nat (snd (nb ix))),
          tab [nq; w] (fun ix => fst (nb ix)))
  | _, _ => Raise RuntimeError
  end.

Definition minQ (l : list Q) : Q :=
  match l with
  | [] => 0%Q
  | x :: l' => fold_left (fun a b => if Qle_bool a b then a else b) l' x
  end.

Definition argmax (f : nat -> Q) (cands : list nat) (d : nat) : nat :=
  fold_left (fun best i => if Qle_bool (f i) (f best) then best else i) cands d.

(** Modelled from the spec: the furthest point sampling kernel
    [furthest_point_sample_v2] (ml3d/torch/utils/pointnet/pointnet2_utils.py)
    is missing from the sources.  Per cloud it picks the requested number of
    points of that cloud, each one maximising the minimum distance to the
    points picked before it, and returns their global indices. *)
Fixpoint fps_cloud (point : Tensor Q) (cands : list nat) (m : nat)
    (sel : list nat) : list nat :=
  match m with
  | 0 => sel
  | S m' =>
      let far i := minQ (map (fun s => sqdist (row point s) (row point i)) sel) in
      fps_cloud point cands m' (sel ++ [argmax far cands (hd 0 cands)])
  end.

Definition fps_reference (point : Tensor Q) (row_splits new_row_splits : list Z)
    : res (Tensor Z) :=
  let cloud i :=
    let s := Z.to_nat (nth i row_splits 0%Z) in
    let e := Z.to_nat (nth (i + 1) row_splits 0%Z) in
    let m := Z.to_nat (nth (i + 1) new_row_splits 0 - nth i new_row_splits 0)%Z in
    fps_cloud point (seq s (e - s)) m [] in
  let picks := flat_map cloud (seq 0 (length row_splits - 1)) in
  Ok (mkTensor [length picks] (map Z.of_nat picks) true).

(** ** Tensors in storage

    [queryandgroup] updates a tensor in place ([grouped_xyz -= ...]).  To
    tell which buffer that update writes, the same function is modelled
    over a store of buffers: a tensor is a reference to a buffer with a
    shape, indexing with an index tensor allocates a fresh buffer, a view
    shares the buffer it views. *)

Module Heap.

(** The store: one list of entries per buffer. *)
Record ref : Type := mkRef {
  loc : nat;
  rshape : list nat;
  rcontig : bool
}.

Definition load (h : list (list Q)) (r : ref) : res (Tensor Q) :=
  match h !! loc r with
  | Some d => Ok (mkTensor (rshape r) d (rcontig r))
  | None => Raise RuntimeError
  end.

(** A fresh buffer holding [t]. *)
Definition alloc (t : Tensor Q) (h : list (list Q)) : ref * list (list Q) :=
  (mkRef (length h) (shape t) (contig t), h ++ [data t]).

(** The buffer of [r] overwritten with the data of [t]. *)
Definition write (r : ref) (t : Tensor Q) (h : list (list Q)) : list (list Q) :=
  <[loc r := data t]> h.

(** A reference to the buffer of [r] with the shape of [t]. *)
Definition alias (r : ref) (t : Tensor Q) : ref :=
  mkRef (loc r) (shape t) (contig t).

Definition is_contiguous (x : option ref) : res bool :=
  match x with
  | Some r => Ok (rcontig r)
  | None => Raise AttributeError
  end.

Section Grouping.
Variable knn_search : Tensor Q -> Tensor Q -> nat -> res (Tensor Z * Tensor Q).

Definition queryandgroup (nsample : nat) (points : ref) (queries : option ref)
    (feat : ref) (idx : option (Tensor Z))
    (points_row_splits queries_row_splits : list Z) (use_xyz : bool) (h : list (list Q))
    : res (ref * list (list Q)) :=
  ok ← and_then (is_contiguous (Some points))
         (and_then (is_contiguous queries) (is_contiguous (Some feat)));
  _ ← assert ok;
  let queries := match queries with None => points | Some q => q end in
  idx ← match idx with
        | Some idx => Ok idx
        | None =>
            p ← load h points;
            q ← load h queries;
            r ← knn_batch knn_search p q nsample points_row_splits
                  queries_row_splits false;
            Ok (fst r)
        end;
  n ← (p ← load h points; torch.size p 0);
  m ← (q ← load h queries; torch.size q 0);
  c ← (f ← load h feat; torch.size f 1);
  flat ← torch.flatten idx;
  (* grouped_xyz = points[idx.view(-1).long(), :].view(m, nsample, 3) *)
  p ← load h points;
  g ← torch.index_rows p (data flat);
  let '(g, h) := alloc g h in
  t ← load h g;
  v ← torch.view t [m; nsample; 3];
  let grouped_xyz := alias g v in
  (* grouped_xyz -= queries.unsqueeze(1) *)
  q ← load h queries;
  q1 ← torch.unsqueeze q 1;
  let q1 := alias queries q1 in
  a ← load h grouped_xyz;
  b ← load h q1;
  r ← torch.isub a b;
  let h := write grouped_xyz r h in
  (* grouped_feat = feat[idx.view(-1).long(), :].view(m, nsample, c) *)
  f ← load h feat;
  g ← torch.index_rows f (data flat);
  let '(g, h) := alloc g h in
  t ← load h g;
  v ← torch.view t [m; nsample; c];
  let grouped_feat := alias g v in
  if use_xyz then
    a ← load h grouped_xyz;
    b ← load h grouped_feat;
    r ← torch.cat2 2 a b;
    Ok (alloc r h)
  else Ok (grouped_feat, h).

End Grouping.

End Heap.

(** ** Row splits, valid inputs and the contracts of the primitives *)

(** [t.shape[0]], the number of rows (the length) of a tensor. *)
Definition rows {A} (t : Tensor A) : nat := hd 0 (shape t).

Definition nondecreasing (rs : list Z) : Prop :=
  forall i a b, rs !! i = Some a -> rs !! (i + 1) = Some b -> (a <= b)%Z.

(** Row splits of a buffer of [n] rows: they start at 0, end at [n] and do
    not decrease. *)
Definition valid_splits (rs : list Z) (n : nat) : Prop :=
  rs !! 0 = Some 0%Z /\ last rs = Some (Z.of_nat n) /\ nondecreasing rs.

(** Cloud [i] of the row splits [rs] is the range [[a, b)]. *)
Definition cloud (rs : list Z) (i : nat) (a b : Z) : Prop :=
  rs !! i = Some a /\ rs !! (i + 1) = Some b.

(** The invariant of a PXO triple:
    [point.length == feature.length == RowSplits[-1]]. *)
Definition pxo_invariant (pxo : PXO) : Prop :=
  let '(point, feat, row_splits) := pxo in
  rows point = rows feat /\ last row_splits = Some (Z.of_nat (rows point)).

(** A valid PXO triple: [n] points of three coordinates, [n] feature rows,
    and row splits of [n] rows that start at 0 and do not decrease. *)
Definition valid_pxo (pxo : PXO) : Prop :=
  let '(point, feat, row_splits) := pxo in
  exists n c, shape point = [n; 3] /\ shape feat = [n; c] /\
              valid_splits row_splits n.

(** The contract of the neighbour search: one row per query, the same
    number of columns for indices and distances, [k] columns when the source
    has at least [k] points, indices local to the source points, distances
    that are not negative. *)
Definition knn_contract
    (search : Tensor Q -> Tensor Q -> nat -> res (Tensor Z * Tensor Q)) : Prop :=
  forall points queries k idx dist,
    search points queries k = Ok (idx, dist) ->
    exists w,
      shape idx = [rows queries; w] /\ shape dist = [rows queries; w] /\
      wf idx /\ wf dist /\
      Forall (fun i => (0 <= i < Z.of_nat (rows points))%Z) (data idx) /\
      Forall (fun d => (0 <= d)%Q) (data dist) /\
      (k <= rows points -> w = k).

(** The search reports its own failures, not those of an [assert]. *)
Definition knn_no_assert
    (search : Tensor Q -> Tensor Q -> nat -> res (Tensor Z * Tensor Q)) : Prop :=
  forall points queries k, search points queries k <> Raise AssertionError.

(** The contract of the furthest point sampling: for every cloud it returns
    as many indices as [new_row_splits] asks for, each the global index of a
    point of that cloud. *)
Definition fps_contract
    (fps : Tensor Q -> list Z -> list Z -> res (Tensor Z)) : Prop :=
  forall point row_splits new_row_splits idx m,
    valid_splits row_splits (rows point) ->
    valid_splits new_row_splits m ->
    length new_row_splits = length row_splits ->
    (forall i a b a' b', cloud row_splits i a b -> cloud new_row_splits i a' b' ->
       (b' - a' <= b - a)%Z) ->
    fps point row_splits new_row_splits = Ok idx ->
    shape idx = [m] /\ wf idx /\
    forall i a b a' b' j,
      cloud row_splits i a b -> cloud new_row_splits i a' b' ->
      (a' <= Z.of_nat j < b')%Z ->
      (a <= nth j (data idx) 0 < b)%Z.


(** ** Construction of the layers

    What [__init__] fixes: the sizes of the layers.  The weights are free. *)

Definition Linear_init (in_f out_f : nat) (l : nn.Linear) : Prop :=
  nn.in_features l = in_f /\ nn.out_features l = out_f.

Definition BatchNorm1d_init (c : nat) (b : nn.BatchNorm1d) : Prop :=
  nn.num_features b = c.

(** [Transformer(in_planes, out_planes, share_planes, nsample)] *)
Definition Transformer_init (in_planes out_planes_ share nsample : nat)
    (self : Transformer) : Prop :=
  share <> 0 /\
  mid_planes self = out_planes_ / 1 /\
  out_planes self = out_planes_ /\
  share_planes self = share /\
  tr_nsample self = nsample /\
  Linear_init in_planes (mid_planes self) (linear_q self) /\
  Linear_init in_planes (mid_planes self) (linear_k self) /\
  Linear_init in_planes out_planes_ (linear_v self) /\
  (exists l0 b1 l3,
     linear_p self = [nn.LinearL l0; nn.BatchNorm1dL b1; nn.ReLUL; nn.LinearL l3] /\
     Linear_init 3 3 l0 /\ BatchNorm1d_init 3 b1 /\ Linear_init 3 out_planes_ l3) /\
  (exists b0 l2 b3 l5,
     linear_w self = [nn.BatchNorm1dL b0; nn.ReLUL; nn.LinearL l2;
                      nn.BatchNorm1dL b3; nn.ReLUL; nn.LinearL l5] /\
     BatchNorm1d_init (mid_planes self) b0 /\
     Linear_init (mid_planes self) (mid_planes self / share) l2 /\
     BatchNorm1d_init (mid_planes self / share) b3 /\
     Linear_init (out_planes_ / share) (out_planes_ / share) l5).


(** ** Notions used by the properties *)

(** Entry [(q, j)] of an index tensor read as [(m, nsample)]: the [j]-th
    neighbour of query [q]. *)
Definition neighbor (idx : Tensor Z) (nsample q j : nat) : Z :=
  nth (q * nsample + j) (data idx) 0%Z.

(** The index tensor a call of [queryandgroup] works with: the one it is
      given, or the one the batched search computes. *)
Definition index_used
    (knn_search : Tensor Q -> Tensor Q -> nat -> res (Tensor Z * Tensor Q))
    (nsample : nat) (points queries : Tensor Q)
      (oidx : option (Tensor Z)) (prs qrs : list Z) (idx : Tensor Z) : Prop :=
    match oidx with
    | Some i => i = idx
    | None => exists r, knn_batch knn_search points queries nsample prs qrs false = Ok r
                        /\ idx = fst r
    end.

(** What the search of cloud [i] contributes: the indices of cloud [i],
    global, and their distances, one row per query of the cloud. *)
Definition cloud_result (points queries : Tensor Q) (k : nat) (prs qrs : list Z)
    (i : nat) (bi : Tensor Z) (bd : Tensor Q) : Prop :=
  exists a b qa qb cp cq w,
    cloud prs i a b /\ cloud qrs i qa qb /\
    torch.slice_rows points a b = Ok cp /\
    torch.slice_rows queries qa qb = Ok cq /\
    shape bi = [rows cq; w] /\ shape bd = [rows cq; w] /\ wf bi /\ wf bd /\
    Forall (fun v => (a <= v < a + Z.of_nat (rows cp))%Z) (data bi) /\
    Forall (fun d => (0 <= d)%Q) (data bd) /\
    (k <= rows cp -> w = k).

(** Reciprocal distances and the weights they give to the three neighbours
    of query [q]. *)
Definition recip (dist : Tensor Q) (q j : nat) : Q :=
  (1 / (get dist [q; j] + epsilon))%Q.

Definition norm_of (dist : Tensor Q) (q : nat) : Q :=
  (recip dist q 0%nat + (recip dist q 1%nat + (recip dist q 2%nat + 0)))%Q.

Definition weight_of (dist : Tensor Q) (q j : nat) : Q :=
  (recip dist q j / norm_of dist q)%Q.

(** ** Concrete instances *)

(** A square root that is exact at 1 and an exponential with positive
    values; the properties above hold for every choice of the two. *)
Definition ex_sqrt (x : Q) : Q := 1%Q.
Definition ex_exp (x : Q) : Q := (1 + x * x)%Q.

Definition ones (shp : list nat) : Tensor Q := tab shp (fun _ => 1%Q).

Definition ones_Linear (in_f out_f : nat) : nn.Linear :=
  nn.mkLinear in_f out_f (ones [out_f; in_f]) None.

(** [nn.BatchNorm1d(c)] as constructed, in evaluation mode. *)
Definition unit_BatchNorm1d (c : nat) : nn.BatchNorm1d :=
  nn.mkBatchNorm1d c (ones [c]) (torch.zeros [c]) (torch.zeros [c]) (ones [c])
    (1 # 100000) false.

(** [Transformer(in_planes, out_planes, share_planes, nsample)] with every
    weight set to 1. *)
Definition ones_Transformer (in_planes out_planes_ share nsample : nat)
    : Transformer :=
  let mid := out_planes_ / 1 in
  mkTransformer mid out_planes_ share nsample
    (ones_Linear in_planes mid) (ones_Linear in_planes mid)
    (ones_Linear in_planes out_planes_)
    [nn.LinearL (ones_Linear 3 3); nn.BatchNorm1dL (unit_BatchNorm1d 3); nn.ReLUL;
     nn.LinearL (ones_Linear 3 out_planes_)]
    [nn.BatchNorm1dL (unit_BatchNorm1d mid); nn.ReLUL;
     nn.LinearL (ones_Linear mid (mid / share));
     nn.BatchNorm1dL (unit_BatchNorm1d (mid / share)); nn.ReLUL;
     nn.LinearL (ones_Linear (out_planes_ / share) (out_planes_ / share))].

(** Two clouds of two points, one feature channel. *)
Definition ex_point : Tensor Q :=
  mkTensor [4; 3] (map inject_Z [0; 0; 0;  1; 0; 0;  0; 2; 0;  3; 3; 3]%Z) true.
Definition ex_feat : Tensor Q :=
  mkTensor [4; 1] (map inject_Z [1; 2; 3; 4]%Z) true.
Definition ex_feat2 : Tensor Q :=
  mkTensor [4; 2] (map inject_Z [1; 2; 3; 4; 5; 6; 7; 8]%Z) true.
Definition ex_rs : list Z := [0; 2; 4]%Z.

(** Two clouds of three points, two feature channels. *)
Definition ex_point6 : Tensor Q :=
  mkTensor [6; 3]
    (map inject_Z [0; 0; 0;  1; 0; 0;  0; 2; 0;  5; 5; 5;  6; 5; 5;  7; 7; 7]%Z)
    true.
Definition ex_feat6 : Tensor Q :=
  mkTensor [6; 2] (map inject_Z [1; 2; 3; 4; 5; 6; 7; 8; 9; 10; 11; 12]%Z) true.
Definition ex_rs6 : list Z := [0; 3; 6]%Z.

Definition ex_TransitionDown (s : Z) (in_f : nat) : TransitionDown :=
  mkTransitionDown s 2 (ones_Linear in_f 2) (unit_BatchNorm1d 2).

Definition ex_TransitionUp : TransitionUp :=
  mkTransitionUp
    [nn.LinearL (ones_Linear 2 1); nn.BatchNorm1dL (unit_BatchNorm1d 1); nn.ReLUL]
    [nn.LinearL (ones_Linear 1 1); nn.ReLUL].

Definition ex_Bottleneck : Bottleneck :=
  mkBottleneck (ones_Linear 1 2) (unit_BatchNorm1d 2) (ones_Transformer 2 2 2 2)
    (unit_BatchNorm1d 2) (ones_Linear 2 2) (unit_BatchNorm1d 2).


(** ** Construction of the blocks, and further notions *)

(** [Bottleneck(in_planes, planes, share_planes, nsample)] *)
Definition Bottleneck_init (in_planes planes share nsample : nat)
    (self : Bottleneck) : Prop :=
  Linear_init in_planes planes (linear1 self) /\
  nn.bias (linear1 self) = None /\
  BatchNorm1d_init planes (bn1 self) /\
  Transformer_init planes planes share nsample (transformer2 self) /\
  BatchNorm1d_init planes (bn2 self) /\
  Linear_init planes (planes * expansion) (linear3 self) /\
  nn.bias (linear3 self) = None /\
  BatchNorm1d_init (planes * expansion) (bn3 self).

(** [TransitionDown(in_planes, out_planes, stride, nsample)] *)
Definition TransitionDown_init (in_planes out_planes_ : nat) (stride_ : Z)
    (nsample : nat) (self : TransitionDown) : Prop :=
  stride self = stride_ /\ td_nsample self = nsample /\
  Linear_init (if (stride_ =? 1)%Z then in_planes else 3 + in_planes) out_planes_
    (td_linear self) /\
  nn.bias (td_linear self) = None /\
  BatchNorm1d_init out_planes_ (td_bn self).

(** [TransitionUp(in_planes, out_planes)]; [None] builds the head. *)
Definition TransitionUp_init (in_planes : nat) (out_planes_ : option nat)
    (self : TransitionUp) : Prop :=
  match out_planes_ with
  | None =>
      exists l1 b1 l2,
        tu_linear1 self = [nn.LinearL l1; nn.BatchNorm1dL b1; nn.ReLUL] /\
        tu_linear2 self = [nn.LinearL l2; nn.ReLUL] /\
        Linear_init (2 * in_planes) in_planes l1 /\
        BatchNorm1d_init in_planes b1 /\
        Linear_init in_planes in_planes l2
  | Some out =>
      exists l1 b1 l2 b2,
        tu_linear1 self = [nn.LinearL l1; nn.BatchNorm1dL b1; nn.ReLUL] /\
        tu_linear2 self = [nn.LinearL l2; nn.BatchNorm1dL b2; nn.ReLUL] /\
        Linear_init out out l1 /\ BatchNorm1d_init out b1 /\
        Linear_init in_planes out l2 /\ BatchNorm1d_init out b2
  end.

(** A tensor without negative entries. *)
Definition nonneg (t : Tensor Q) : Prop := Forall (fun v => (0 <= v)%Q) (data t).

(** A search on cloud [i] alone: the source points and the queries are the
    slices of cloud [i], the neighbour count is [k]. *)
Definition search_of_cloud (points queries : Tensor Q) (k : nat)
    (prs qrs : list Z) (i : nat) (call : SearchCall) : Prop :=
  exists a b qa qb cp cq,
    cloud prs i a b /\ cloud qrs i qa qb /\
    torch.slice_rows points a b = Ok cp /\
    torch.slice_rows queries qa qb = Ok cq /\
    call = (cp, cq, k).

(** The search returns [k] neighbours per query, or all the source points
    when there are fewer than [k]. *)
Definition knn_clamps
    (search : Tensor Q -> Tensor Q -> nat -> res (Tensor Z * Tensor Q)) : Prop :=
  forall points queries k idx dist,
    search points queries k = Ok (idx, dist) ->
    shape idx = [rows queries; Nat.min k (rows points)].

(** ** The network (class PointTransformer) *)

(** An encoder stage as [_make_enc] builds it, an [nn.Sequential] of a
    [TransitionDown] and the [Bottleneck] blocks after it; a decoder stage
    as [_make_dec] builds it, a [TransitionUp] and the blocks after it. *)
Record Encoder : Type := mkEncoder {
  enc_down : TransitionDown;
  enc_blocks : list Bottleneck
}.

Record Decoder : Type := mkDecoder {
  dec_up : TransitionUp;
  dec_blocks : list Bottleneck
}.

Record PointTransformer : Type := mkPointTransformer {
  pt_c : nat;
  enc1 : Encoder;
  enc2 : Encoder;
  enc3 : Encoder;
  enc4 : Encoder;
  enc5 : Encoder;
  dec5 : Decoder;
  dec4 : Decoder;
  dec3 : Decoder;
  dec2 : Decoder;
  dec1 : Decoder;
  cls : nn.Sequential
}.

(** [batch.point], [batch.feat], [batch.row_splits] *)
Record Batch : Type := mkBatch {
  batch_point : Tensor Q;
  batch_feat : Tensor Q;
  batch_row_splits : list Z
}.

Section Network.
Variables sqrtQ expQ : Q -> Q.
Variable knn_search : Tensor Q -> Tensor Q -> nat -> res (Tensor Z * Tensor Q).
Variable furthest_point_sample_v2 :
  Tensor Q -> list Z -> list Z -> res (Tensor Z).

(** An [nn.Sequential] of [Bottleneck] blocks. *)
Fixpoint blocks_forward (bs : list Bottleneck) (pxo : PXO) : res PXO :=
  match bs with
  | [] => Ok pxo
  | b :: bs' =>
      pxo' ← Bottleneck_forward sqrtQ expQ knn_search b pxo;
      blocks_forward bs' pxo'
  end.

(** [self.enc([point, feat, row_splits])] *)
Definition Encoder_forward (enc : Encoder) (pxo : PXO) : res PXO :=
  pxo' ← TransitionDown_forward sqrtQ knn_search furthest_point_sample_v2
           (enc_down enc) pxo;
  blocks_forward (enc_blocks enc) pxo'.

(** [self.dec[1:]([point, self.dec[0](pxo1, pxo2), row_splits])[1]] *)
Definition Decoder_forward (dec : Decoder) (pxo1 : PXO) (pxo2 : option PXO)
    : res (Tensor Q) :=
  let '(point, _, row_splits) := pxo1 in
  f ← TransitionUp_forward sqrtQ knn_search (dec_up dec) pxo1 pxo2;
  r ← blocks_forward (dec_blocks dec) (point, f, row_splits);
  Ok (snd (fst r)).

Definition PointTransformer_forward (self : PointTransformer) (batch : Batch)
    : res (Tensor Q) :=
  let point_0 := batch_point batch in
  let feat_0 := batch_feat batch in
  let row_splits_0 := batch_row_splits batch in
  feat_0 ← (if pt_c self =? 3 then Ok point_0 else torch.cat2 1 point_0 feat_0);
  pxo_1 ← Encoder_forward (enc1 self) (point_0, feat_0, row_splits_0);
  pxo_2 ← Encoder_forward (enc2 self) pxo_1;
  pxo_3 ← Encoder_forward (enc3 self) pxo_2;
  pxo_4 ← Encoder_forward (enc4 self) pxo_3;
  pxo_5 ← Encoder_forward (enc5 self) pxo_4;
  let '(point_1, feat_1, row_splits_1) := pxo_1 in
  let '(point_2, feat_2, row_splits_2) := pxo_2 in
  let '(point_3, feat_3, row_splits_3) := pxo_3 in
  let '(point_4, feat_4, row_splits_4) := pxo_4 in
  let '(point_5, feat_5, row_splits_5) := pxo_5 in
  feat_5 ← Decoder_forward (dec5 self) (point_5, feat_5, row_splits_5) None;
  feat_4 ← Decoder_forward (dec4 self) (point_4, feat_4, row_splits_4)
             (Some (point_5, feat_5, row_splits_5));
  feat_3 ← Decoder_forward (dec3 self) (point_3, feat_3, row_splits_3)
             (Some (point_4, feat_4, row_splits_4));
  feat_2 ← Decoder_forward (dec2 self) (point_2, feat_2, row_splits_2)
             (Some (point_3, feat_3, row_splits_3));
  feat_1 ← Decoder_forward (dec1 self) (point_1, feat_1, row_splits_1)
             (Some (point_2, feat_2, row_splits_2));
  nn.Sequential_forward sqrtQ (cls self) feat_1.

End Network.

(** [_make_enc(block, planes, blocks, share_planes, stride, nsample)] with
    [self.in_planes = in_planes] before the call; after the call
    [self.in_planes] is [planes * block.expansion]. *)
Definition make_enc (in_planes planes blocks share : nat) (stride_ : Z)
    (nsample : nat) (enc : Encoder) : Prop :=
  TransitionDown_init in_planes (planes * expansion) stride_ nsample (enc_down enc) /\
  length (enc_blocks enc) = blocks - 1 /\
  Forall (Bottleneck_init (planes * expansion) (planes * expansion) share nsample)
    (enc_blocks enc).

(** [_make_dec(block, planes, blocks, share_planes, nsample, is_head)] *)
Definition make_dec (in_planes planes blocks share nsample : nat) (is_head : bool)
    (dec : Decoder) : Prop :=
  TransitionUp_init in_planes (if is_head then None else Some (planes * expansion))
    (dec_up dec) /\
  length (dec_blocks dec) = blocks - 1 /\
  Forall (Bottleneck_init (planes * expansion) (planes * expansion) share nsample)
    (dec_blocks dec).

(** The body of [PointTransformer.__init__] after its constants: the stages
    it builds from the plane widths, the strides and the neighbour counts,
    threading [self.in_planes] from one stage to the next. *)
Definition PointTransformer_stages (planes : list nat) (share_planes : nat)
    (stride_ : list Z) (nsample : list nat) (blocks : list nat)
    (c num_classes : nat) (self : PointTransformer) : Prop :=
  exists p0 p1 p2 p3 p4 s0 s1 s2 s3 s4 n0 n1 n2 n3 n4 b0 b1 b2 b3 b4 l0 bn l3,
    planes = [p0; p1; p2; p3; p4] /\ stride_ = [s0; s1; s2; s3; s4] /\
    nsample = [n0; n1; n2; n3; n4] /\
    blocks !! 0 = Some b0 /\ blocks !! 1 = Some b1 /\ blocks !! 2 = Some b2 /\
    blocks !! 3 = Some b3 /\ blocks !! 4 = Some b4 /\
    pt_c self = c /\
    make_enc c p0 b0 share_planes s0 n0 (enc1 self) /\
    make_enc (p0 * expansion) p1 b1 share_planes s1 n1 (enc2 self) /\
    make_enc (p1 * expansion) p2 b2 share_planes s2 n2 (enc3 self) /\
    make_enc (p2 * expansion) p3 b3 share_planes s3 n3 (enc4 self) /\
    make_enc (p3 * expansion) p4 b4 share_planes s4 n4 (enc5 self) /\
    make_dec (p4 * expansion) p4 2 share_planes n4 true (dec5 self) /\
    make_dec (p4 * expansion) p3 2 share_planes n3 false (dec4 self) /\
    make_dec (p3 * expansion) p2 2 share_planes n2 false (dec3 self) /\
    make_dec (p2 * expansion) p1 2 share_planes n1 false (dec2 self) /\
    make_dec (p1 * expansion) p0 2 share_planes n0 false (dec1 self) /\
    cls self = [nn.LinearL l0; nn.BatchNorm1dL bn; nn.ReLUL; nn.LinearL l3] /\
    Linear_init p0 p0 l0 /\ BatchNorm1d_init p0 bn /\ Linear_init p0 num_classes l3.

(** [PointTransformer(blocks=blocks, c=c, num_classes=num_classes)] *)
Definition PointTransformer_init (blocks : list nat) (c num_classes : nat)
    (self : PointTransformer) : Prop :=
  PointTransformer_stages [32; 64; 128; 256; 512] 8 [1; 4; 4; 4; 4]%Z
    [8; 16; 16; 16; 16] blocks c num_classes self.

(** ** Data preparation (PointTransformer.transform)

    The arrays of numpy are tensors as above; indexing, broadcasting and the
    reductions of numpy behave on them as those of torch. *)

Module np.

(** [np.min(a, 0)] and [np.max(a, 0)]: the reduction [f] of every column.
    An array without rows has nothing to reduce. *)
Definition reduce0 (f : list Q -> Q) (a : Tensor Q) : res (Tensor Q) :=
  match shape a with
  | [] => Raise ValueError
  | n :: rest =>
      _ ← guard ValueError (negb ((n =? 0) && negb (prodn rest =? 0)));
      Ok (tab rest (fun ix => f (map (fun r => get a (r :: ix)) (seq 0 n))))
  end.

Definition min0 : Tensor Q -> res (Tensor Q) := reduce0 minQ.
Definition max0 : Tensor Q -> res (Tensor Q) := reduce0 nn.maxQ.

(** [a[i]] with an integer [i]: row [i] of the array. *)
Definition row_at (a : Tensor Q) (i : Z) : res (Tensor Q) :=
  match shape a with
  | [] => Raise IndexError
  | n :: rest =>
      r ← py_index n i;
      Ok (tab rest (fun ix => get a (r :: ix)))
  end.

End np.

(** Python's [pat in s] on strings. *)
Fixpoint contains (pat s : string) : bool :=
  if String.prefix pat s then true
  else match s with
       | EmptyString => false
       | String _ s' => contains pat s'
       end.

(** The entries of the dictionary [data] that [transform] reads and writes:
    ['point'], ['feat'] (which may be [None]) and ['label']. *)
Record Data : Type := mkData {
  data_point : Tensor Q;
  data_feat : option (Tensor Q);
  data_label : Tensor Z
}.

Section Transform.
(** [np.random.randint(n)] and [np.argsort] *)
Variable randint : nat -> Z.
Variable argsort : list Q -> list nat.

(** The body of the conditional of [transform]: the [max_voxels] points
    nearest to the point at [init_idx], with their features and labels;
    [n] is [labels.shape[0]]. *)
Definition crop_nearest (max_voxels n : nat) (points : Tensor Q)
    (feat : option (Tensor Q)) (labels : Tensor Z) (split : string)
    : res (Tensor Q * option (Tensor Q) * Tensor Z) :=
    let init_idx := if contains "train" split then randint n
                    else Z.of_nat (n / 2) in
    centre ← np.row_at points init_idx;
    diff ← torch.sub points centre;
    let sq := torch.map1 (fun x => x * x)%Q diff in
    d ← torch.sum_dim sq 1 false;
    let crop_idx := map Z.of_nat (take max_voxels (argsort (data d))) in
    match feat with
    | Some feat =>
        points ← torch.index_rows points crop_idx;
        feat ← torch.index_rows feat crop_idx;
        labels ← torch.index_rows labels crop_idx;
        Ok (points, Some feat, labels)
    | None =>
        points ← torch.index_rows points crop_idx;
        labels ← torch.index_rows labels crop_idx;
        Ok (points, None, labels)
    end.

(** The block [if cfg.max_voxels and data['label'].shape[0] > cfg.max_voxels].
    [cfg.max_voxels] is a number, 0 stands for a value that is not set;
    [and] reads the shape of the labels only when [cfg.max_voxels] is set. *)
Definition crop (max_voxels : nat) (points : Tensor Q)
    (feat : option (Tensor Q)) (labels : Tensor Z) (split : string)
    : res (Tensor Q * option (Tensor Q) * Tensor Z) :=
  if negb (max_voxels =? 0) then
    n ← torch.size labels 0;
    if max_voxels <? n then crop_nearest max_voxels n points feat labels split
    else Ok (points, feat, labels)
  else Ok (points, feat, labels).

Definition transform (max_voxels : nat) (data_ : Data) (split : string) : res Data :=
  let points := data_point data_ in
  let feat := data_feat data_ in
  let labels := data_label data_ in
  cropped ← crop max_voxels points feat labels split;
  let '(points, feat, labels) := cropped in
  points_min ← np.min0 points;
  points_max ← np.max0 points;
  s ← torch.add points_min points_max;
  let mid := torch.map1 (fun x => x / 2)%Q s in
  points ← torch.isub points mid;
  Ok (mkData points
        (match feat with
         | Some feat => Some (torch.map1 (fun x => x / 255)%Q feat)
         | None => None
         end)
        labels).

End Transform.

(** What [np.argsort] guarantees: the positions of the array, each once,
    in an order in which the entries do not decrease. *)
Definition argsort_spec (argsort : list Q -> list nat) : Prop :=
  forall l,
    Permutation (argsort l) (seq 0 (length l)) /\
    forall i j, i <= j -> j < length l ->
      (nth (nth i (argsort l) 0%nat) l 0 <= nth (nth j (argsort l) 0%nat) l 0)%Q.

(** An argsort by insertion. *)
Definition argsort_insertion (l : list Q) : list nat :=
  map snd (sort_by (zip_with (fun v i => (v, i)) l (seq 0 (length l)))).

(** A list of pairs ordered by first components. *)
Definition ordered (l : list (Q * nat)) : Prop :=
  forall i j, i <= j -> j < length l ->
    (fst (nth i l (0%Q, 0%nat)) <= fst (nth j l (0%Q, 0%nat)))%Q.

(** Input of [transform]: [n] points, [n] labels and, when there are
    features, [n] rows of features, as many as the shape says. *)
Definition valid_data (d : Data) (n : nat) : Prop :=
  shape (data_point d) = [n; 3] /\ shape (data_label d) = [n] /\
  match data_feat d with
  | Some f => exists c, shape f = [n; c] /\ wf f
  | None => True
  end.

(** [np.random.randint(n)] returns a position below [n]. *)
Definition randint_spec (randint : nat -> Z) : Prop :=
  forall n, 0 < n -> (0 <= randint n < Z.of_nat n)%Z.

(** The number of rows [transform] keeps of [n]. *)
Definition kept (max_voxels n : nat) : nat :=
  if negb (max_voxels =? 0) && (max_voxels <? n) then max_voxels else n.

(** Column [ch] of a tensor of rank two. *)
Definition column (t : Tensor Q) (ch : nat) : list Q :=
  map (fun r => get t [r; ch]) (seq 0 (rows t)).

(** ** Concrete instances of the network and of the data *)

(** The blocks as their constructors build them, with every weight set to
    1 and the normalisation layers in evaluation mode. *)
Definition ones_Bottleneck (in_planes planes share nsample : nat) : Bottleneck :=
  mkBottleneck (ones_Linear in_planes planes) (unit_BatchNorm1d planes)
    (ones_Transformer planes planes share nsample) (unit_BatchNorm1d planes)
    (ones_Linear planes (planes * expansion))
    (unit_BatchNorm1d (planes * expansion)).

Definition ones_TransitionDown (in_planes out_planes_ : nat) (stride_ : Z)
    (nsample : nat) : TransitionDown :=
  mkTransitionDown stride_ nsample
    (ones_Linear (if (stride_ =? 1)%Z then in_planes else 3 + in_planes) out_planes_)
    (unit_BatchNorm1d out_planes_).

Definition ones_TransitionUp (in_planes : nat) (out_planes_ : option nat)
    : TransitionUp :=
  match out_planes_ with
  | None =>
      mkTransitionUp
        [nn.LinearL (ones_Linear (2 * in_planes) in_planes);
         nn.BatchNorm1dL (unit_BatchNorm1d in_planes); nn.ReLUL]
        [nn.LinearL (ones_Linear in_planes in_planes); nn.ReLUL]
  | Some out =>
      mkTransitionUp
        [nn.LinearL (ones_Linear out out);
         nn.BatchNorm1dL (unit_BatchNorm1d out); nn.ReLUL]
        [nn.LinearL (ones_Linear in_planes out);
         nn.BatchNorm1dL (unit_BatchNorm1d out); nn.ReLUL]
  end.

Definition ones_Encoder (in_planes planes blocks share : nat) (stride_ : Z)
    (nsample : nat) : Encoder :=
  mkEncoder (ones_TransitionDown in_planes (planes * expansion) stride_ nsample)
    (replicate (blocks - 1)
       (ones_Bottleneck (planes * expansion) (planes * expansion) share nsample)).

Definition ones_Decoder (in_planes planes blocks share nsample : nat)
    (is_head : bool) : Decoder :=
  mkDecoder
    (ones_TransitionUp in_planes
       (if is_head then None else Some (planes * expansion)))
    (replicate (blocks - 1)
       (ones_Bottleneck (planes * expansion) (planes * expansion) share nsample)).

(** [PointTransformer.__init__] with every weight set to 1, for given plane
    widths, strides and neighbour counts. *)
Definition ones_stages (planes : list nat) (share_planes : nat)
    (stride_ : list Z) (nsample blocks : list nat) (c num_classes : nat)
    : PointTransformer :=
  let p i := nth i planes 0 in
  let s i := nth i stride_ 0%Z in
  let ns i := nth i nsample 0 in
  let b i := nth i blocks 0 in
  mkPointTransformer c
    (ones_Encoder c (p 0) (b 0) share_planes (s 0) (ns 0))
    (ones_Encoder (p 0 * expansion) (p 1) (b 1) share_planes (s 1) (ns 1))
    (ones_Encoder (p 1 * expansion) (p 2) (b 2) share_planes (s 2) (ns 2))
    (ones_Encoder (p 2 * expansion) (p 3) (b 3) share_planes (s 3) (ns 3))
    (ones_Encoder (p 3 * expansion) (p 4) (b 4) share_planes (s 4) (ns 4))
    (ones_Decoder (p 4 * expansion) (p 4) 2 share_planes (ns 4) true)
    (ones_Decoder (p 4 * expansion) (p 3) 2 share_planes (ns 3) false)
    (ones_Decoder (p 3 * expansion) (p 2) 2 share_planes (ns 2) false)
    (ones_Decoder (p 2 * expansion) (p 1) 2 share_planes (ns 1) false)
    (ones_Decoder (p 1 * expansion) (p 0) 2 share_planes (ns 0) false)
    [nn.LinearL (ones_Linear (p 0) (p 0)); nn.BatchNorm1dL (unit_BatchNorm1d (p 0));
     nn.ReLUL; nn.LinearL (ones_Linear (p 0) num_classes)].

(** [PointTransformer(blocks=blocks, c=c, num_classes=num_classes)] with
    every weight set to 1. *)
Definition ones_PointTransformer (blocks : list nat) (c num_classes : nat)
    : PointTransformer :=
  ones_stages [32; 64; 128; 256; 512] 8 [1; 4; 4; 4; 4]%Z [8; 16; 16; 16; 16]
    blocks c num_classes.

(** A small network with the same stages: two channels at every level,
    attention over two neighbours, one block per encoder stage, subsampling
    by two at the second stage. *)
Definition ex_PointTransformer (c num_classes : nat) : PointTransformer :=
  ones_stages [2; 2; 2; 2; 2] 2 [1; 2; 1; 1; 1]%Z [2; 2; 2; 2; 2] [1; 1; 1; 1; 1]
    c num_classes.

(** One cloud of six points with two feature channels. *)
Definition ex_batch : Batch := mkBatch ex_point6 ex_feat6 [0; 6]%Z.

(** The data of six points, with features and labels, and a source of
    random positions that always answers 0. *)
Definition ex_data : Data :=
  mkData ex_point6 (Some ex_feat6) (mkTensor [6] [0; 1; 2; 0; 1; 2]%Z true).

Definition ex_randint (n : nat) : Z := 0%Z.

(** Data without points. *)
Definition ex_data_empty : Data :=
  mkData (mkTensor [0; 3] [] true) None (mkTensor [0] [] true).

(** ** Reasoning about results *)

Lemma bind_Ok {A B} (m : res A) (k : A -> res B) b :
  m ≫= k = Ok b -> exists a, m = Ok a /\ k a = Ok b.
Proof. destruct m as [a|e]; simpl; [eauto | discriminate]. Qed.

Lemma guard_Ok e b : guard e b = Ok tt -> b = true.
Proof. destruct b; [reflexivity | discriminate]. Qed.

Lemma assert_Ok b : assert b = Ok tt -> b = true.
Proof. destruct b; [reflexivity | discriminate]. Qed.

Lemma bind_Raise {A B} (m : res A) (k : A -> res B) e :
  m = Raise e -> m ≫= k = Raise e.
Proof. intros ->. reflexivity. Qed.

(** Splits a hypothesis [x ← m; k = Ok b] into [m = Ok a] and [k a = Ok b],
    and turns the guards that passed into equations. *)
Ltac inv_bind H :=
  match type of H with
  | (guard _ _ ≫= _) = Ok _ =>
      let u := fresh "u" in let Hg := fresh "Hg" in
      apply bind_Ok in H as [u [Hg H]]; destruct u;
      apply guard_Ok in Hg
  | (assert _ ≫= _) = Ok _ =>
      let u := fresh "u" in let Hg := fresh "Hg" in
      apply bind_Ok in H as [u [Hg H]]; destruct u;
      apply assert_Ok in Hg
  | (_ ≫= _) = Ok _ =>
      let a := fresh "a" in let Ha := fresh "Ha" in
      apply bind_Ok in H as [a [Ha H]]
  end.

Ltac inv_binds H := repeat (inv_bind H; simpl in H).

Lemma mapM_Ok {A B} (f : A -> res B) l l' :
  mapM f l = Ok l' -> Forall2 (fun a b => f a = Ok b) l l'.
Proof.
  revert l'. induction l as [|a l IH]; intros l' Hm; simpl in Hm.
  - injection Hm as <-. constructor.
  - inv_bind Hm. inv_bind Hm. injection Hm as <-. constructor; auto.
Qed.

Lemma py_index_Ok n i r :
  py_index n i = Ok r ->
  r < n /\ ((0 <= i)%Z -> r = Z.to_nat i).
Proof.
  unfold py_index. intros Hp.
  destruct ((0 <=? i)%Z && (i <? Z.of_nat n)%Z) eqn:E1.
  - injection Hp as <-. apply andb_prop in E1 as [E1 E2]. split; lia.
  - destruct ((- Z.of_nat n <=? i)%Z && (i <? 0)%Z) eqn:E2; [|discriminate].
    injection Hp as <-. apply andb_prop in E2 as [E2 E3]. split; lia.
Qed.

Lemma py_index_nonneg n i :
  (0 <= i < Z.of_nat n)%Z -> py_index n i = Ok (Z.to_nat i).
Proof.
  intros Hi. unfold py_index.
  replace ((0 <=? i)%Z && (i <? Z.of_nat n)%Z) with true; [reflexivity|].
  symmetry. apply andb_true_intro. split; lia.
Qed.

(** ** Index arithmetic *)

Lemma prodn_cons d ds : prodn (d :: ds) = d * prodn ds.
Proof. reflexivity. Qed.

Lemma prodn_app a b : prodn (a ++ b) = prodn a * prodn b.
Proof.
  induction a as [|x a IH]; simpl.
  - lia.
  - fold (prodn (a ++ b)). fold (prodn a). rewrite IH. lia.
Qed.

Lemma ravel_lt shp idx : in_bounds shp idx -> ravel shp idx < prodn shp.
Proof.
  intros H. induction H as [|i d is_ ds Hi _ IH]; simpl.
  - lia.
  - fold (prodn ds). nia.
Qed.

Lemma unravel_ravel shp idx :
  in_bounds shp idx -> unravel shp (ravel shp idx) = idx.
Proof.
  intros H. induction H as [|i d is_ ds Hi Hrest IH]; simpl.
  - reflexivity.
  - pose proof (ravel_lt ds is_ Hrest) as Hlt.
    assert (Hq : (i * prodn ds + ravel ds is_) / prodn ds = i).
    { symmetry. apply (Nat.div_unique _ _ _ (ravel ds is_)); lia. }
    assert (Hr : (i * prodn ds + ravel ds is_) mod prodn ds = ravel ds is_).
    { symmetry. apply (Nat.mod_unique _ _ i); lia. }
    rewrite Hq, Hr, IH. reflexivity.
Qed.

Lemma in_bounds_unravel shp p : p < prodn shp -> in_bounds shp (unravel shp p).
Proof.
  revert p. induction shp as [|d ds IH]; intros p Hp; simpl.
  - constructor.
  - rewrite prodn_cons in Hp.
    assert (Hds : prodn ds <> 0) by (intros E; rewrite E in Hp; lia).
    constructor.
    + apply Nat.Div0.div_lt_upper_bound. lia.
    + apply IH. apply Nat.mod_upper_bound. exact Hds.
Qed.

Lemma ravel_unravel shp p : p < prodn shp -> ravel shp (unravel shp p) = p.
Proof.
  revert p. induction shp as [|d ds IH]; intros p Hp; simpl.
  - simpl in Hp. lia.
  - rewrite prodn_cons in Hp.
    assert (Hds : prodn ds <> 0) by (intros E; rewrite E in Hp; lia).
    rewrite IH by (apply Nat.mod_upper_bound; exact Hds).
    pose proof (Nat.div_mod_eq p (prodn ds)). lia.
Qed.

Lemma in_bounds_length shp idx : in_bounds shp idx -> length idx = length shp.
Proof. apply Forall2_length. Qed.

Lemma nth_map_seq {A} (f : nat -> A) n p d :
  p < n -> nth p (map f (seq 0 n)) d = f p.
Proof.
  intros Hp.
  rewrite (nth_indep _ d (f 0)) by (rewrite length_map, length_seq; exact Hp).
  rewrite map_nth, seq_nth by exact Hp. reflexivity.
Qed.

Lemma shape_tab {A} shp (f : list nat -> A) : shape (tab shp f) = shp.
Proof. reflexivity. Qed.

Lemma wf_tab {A} shp (f : list nat -> A) : wf (tab shp f).
Proof. unfold wf, numel, tab; simpl. rewrite length_map, length_seq. reflexivity. Qed.

Lemma get_tab {A} `{Inhabited A} shp (f : list nat -> A) idx :
  in_bounds shp idx -> get (tab shp f) idx = f idx.
Proof.
  intros Hb. unfold get, tab; simpl.
  rewrite nth_map_seq by (apply ravel_lt; exact Hb).
  rewrite unravel_ravel by exact Hb. reflexivity.
Qed.

(** ** Properties of the tensor operations *)

Lemma get_eq {A} `{Inhabited A} (t t' : Tensor A) ix :
  shape t = shape t' -> data t = data t' -> get t ix = get t' ix.
Proof. unfold get. intros -> ->. reflexivity. Qed.

Lemma in_bounds_cons i d ix shp :
  i < d -> in_bounds shp ix -> in_bounds (d :: shp) (i :: ix).
Proof. intros. constructor; assumption. Qed.

Lemma in_bounds_nil : in_bounds [] [].
Proof. constructor. Qed.

Create HintDb bounds.
#[local] Hint Resolve in_bounds_cons in_bounds_nil : bounds.

Ltac bounds := unfold in_bounds; repeat (constructor; try lia); auto with bounds.

Lemma view_Ok {A} (t t' : Tensor A) shp :
  torch.view t shp = Ok t' ->
  shape t' = shp /\ data t' = data t /\ prodn shp = numel t /\ contig t' = true.
Proof.
  unfold torch.view. intros Hv. inv_bind Hv. injection Hv as <-.
  apply andb_prop in Hg as [_ Hg]. apply Nat.eqb_eq in Hg. auto.
Qed.

Lemma flatten_Ok {A} (t t' : Tensor A) :
  torch.flatten t = Ok t' -> shape t' = [numel t] /\ data t' = data t.
Proof. intros Hf. apply view_Ok in Hf as (? & ? & _). auto. Qed.

Lemma unsqueeze_Ok {A} (t t' : Tensor A) d :
  torch.unsqueeze t d = Ok t' ->
  shape t' = take d (shape t) ++ 1 :: drop d (shape t) /\ data t' = data t.
Proof.
  unfold torch.unsqueeze. intros Hu. inv_bind Hu. injection Hu as <-. auto.
Qed.

Lemma index_rows_Ok {A} `{Inhabited A} (t t' : Tensor A) idx :
  torch.index_rows t idx = Ok t' ->
  exists n rest is_,
    shape t = n :: rest /\
    Forall2 (fun i r => py_index n i = Ok r) idx is_ /\
    shape t' = length idx :: rest /\ wf t' /\ contig t' = true /\
    forall r ix, r < length idx -> in_bounds rest ix ->
      get t' (r :: ix) = get t (nth r is_ 0 :: ix).
Proof.
  unfold torch.index_rows. intros Hi.
  destruct (shape t) as [|n rest] eqn:Es; [discriminate|].
  inv_bind Hi. injection Hi as <-.
  apply mapM_Ok in Ha. pose proof (Forall2_length _ _ _ Ha) as Hlen.
  exists n, rest, a. repeat split; auto.
  - simpl. rewrite Hlen. reflexivity.
  - apply wf_tab.
  - intros r ix Hr Hix. rewrite get_tab by (bounds). reflexivity.
Qed.

Lemma ravel_2 a b i j : ravel [a; b] [i; j] = i * b + j.
Proof. simpl. lia. Qed.

Lemma ravel_3 a b c i j k : ravel [a; b; c] [i; j; k] = (i * b + j) * c + k.
Proof. simpl. lia. Qed.

(** An entry of a [(m, k, c)] view of a [(m * k, c)] tensor. *)
Lemma get_view_3 {A} `{Inhabited A} (t t' : Tensor A) l m k c q j ch :
  shape t = [l; c] -> torch.view t [m; k; c] = Ok t' ->
  get t' [q; j; ch] = get t [q * k + j; ch].
Proof.
  intros Es Hv. apply view_Ok in Hv as (Es' & Ed & _).
  unfold get. rewrite Es, Es', Ed, ravel_2, ravel_3. reflexivity.
Qed.

Lemma map2__Ok {A B} `{Inhabited A} `{Inhabited B} (f : A -> B -> A) a b r :
  torch.map2_ f a b = Ok r ->
  shape r = shape a /\ contig r = contig a /\ wf r /\
  forall ix, in_bounds (shape a) ix ->
    get r ix = f (get a ix) (get b (torch.bix (shape b) ix)).
Proof.
  unfold torch.map2_. intros Hm. inv_bind Hm. inv_bind Hm. injection Hm as <-.
  repeat split; auto.
  - unfold wf, numel; simpl. rewrite length_map, length_seq. reflexivity.
  - intros ix Hix. unfold get at 1. simpl.
    rewrite nth_map_seq by (apply ravel_lt; exact Hix).
    rewrite unravel_ravel by exact Hix. reflexivity.
Qed.

Lemma cat2_Ok {A} `{Inhabited A} d (a b t : Tensor A) :
  torch.cat2 d a b = Ok t ->
  shape t = <[d := nth d (shape a) 0 + nth d (shape b) 0]> (shape a) /\
  wf t /\ contig t = true /\
  forall ix, in_bounds (shape t) ix ->
    get t ix = if nth d ix 0 <? nth d (shape a) 0 then get a ix
               else get b (<[d := nth d ix 0 - nth d (shape a) 0]> ix).
Proof.
  unfold torch.cat2. intros Hc. inv_bind Hc. inv_bind Hc. injection Hc as <-.
  repeat split; auto.
  - apply wf_tab.
  - intros ix Hix. rewrite get_tab by exact Hix. reflexivity.
Qed.

(** The index that [queries.unsqueeze(1)] contributes to entry [(q, j, ch)]
    of a [(m, k, w)] tensor. *)
Lemma bix_unsqueezed m w q j ch :
  q < m -> ch < w -> torch.bix [m; 1; w] [q; j; ch] = [q; 0; ch].
Proof.
  intros Hq Hch. unfold torch.bix. simpl.
  destruct (m =? 1) eqn:Em; destruct (w =? 1) eqn:Ew;
    try apply Nat.eqb_eq in Em; try apply Nat.eqb_eq in Ew;
    repeat f_equal; lia.
Qed.

Lemma get_unsqueeze1 {A} `{Inhabited A} (t t' : Tensor A) m w q ch :
  shape t = [m; w] -> torch.unsqueeze t 1 = Ok t' ->
  shape t' = [m; 1; w] /\ get t' [q; 0; ch] = get t [q; ch].
Proof.
  intros Es Hu. apply unsqueeze_Ok in Hu as [Es' Ed].
  rewrite Es in Es'. simpl in Es'. split; [exact Es'|].
  unfold get. rewrite Es, Es', Ed, ravel_2, ravel_3. f_equal. lia.
Qed.

Lemma size_Ok {A} (t : Tensor A) i d :
  torch.size t i = Ok d -> shape t !! i = Some d.
Proof.
  unfold torch.size. destruct (shape t !! i); [|discriminate].
  intros [= ->]. reflexivity.
Qed.

(** ** The grouping operator *)

Lemma neighbor_get idx m nsample q j :
  shape idx = [m; nsample] -> neighbor idx nsample q j = get idx [q; j].
Proof. intros Es. unfold neighbor, get. rewrite Es, ravel_2. reflexivity. Qed.

Section Grouping.
Variable knn_search : Tensor Q -> Tensor Q -> nat -> res (Tensor Z * Tensor Q).

Lemma queryandgroup_inv nsample points queries feat oidx prs qrs use_xyz out :
    queryandgroup knn_search nsample points (Some queries) feat oidx prs qrs use_xyz
      = Ok out ->
    exists idx flat g gx q1 gx' g2 gf n m c,
      index_used knn_search nsample points queries oidx prs qrs idx /\
      contig points = true /\ contig queries = true /\ contig feat = true /\
      torch.size points 0 = Ok n /\
      torch.size queries 0 = Ok m /\ torch.size feat 1 = Ok c /\
      torch.flatten idx = Ok flat /\
      torch.index_rows points (data flat) = Ok g /\
      torch.view g [m; nsample; 3] = Ok gx /\
      torch.unsqueeze queries 1 = Ok q1 /\
      torch.isub gx q1 = Ok gx' /\
      torch.index_rows feat (data flat) = Ok g2 /\
      torch.view g2 [m; nsample; c] = Ok gf /\
      (if use_xyz then torch.cat2 2 gx' gf else Ok gf) = Ok out.
Proof.
    unfold queryandgroup. intros Hq.
    inv_bind Hq. inv_bind Hq.
    assert (Hc : contig points = true /\ contig queries = true /\ contig feat = true).
    { subst a. simpl in Ha. unfold and_then in Ha. simpl in Ha.
      destruct (contig points); [|discriminate].
      destruct (contig queries); simpl in Ha; [|discriminate].
      destruct (contig feat); [auto|discriminate]. }
    destruct Hc as (Hc1 & Hc2 & Hc3).
    inv_bind Hq. rename a0 into idx.
    do 10 inv_bind Hq.
    exists idx, a3, a4, a5, a6, a7, a8, a9, a0, a1, a2.
    repeat split; auto.
    unfold index_used. destruct oidx as [i|].
    - injection Ha0 as ->. reflexivity.
    - inv_bind Ha0. injection Ha0 as <-. eauto.
Qed.

(** What a grouping call returns, entry by entry. *)
Lemma queryandgroup_entries nsample points queries feat oidx prs qrs use_xyz
      out n m c :
    shape points = [n; 3] -> shape queries = [m; 3] -> shape feat = [n; c] ->
    queryandgroup knn_search nsample points (Some queries) feat oidx prs qrs use_xyz
      = Ok out ->
    exists idx,
      index_used knn_search nsample points queries oidx prs qrs idx /\
      shape out = (if use_xyz then [m; nsample; 3 + c] else [m; nsample; c]) /\
      wf out /\
      forall q j, q < m -> j < nsample ->
        exists i, py_index n (neighbor idx nsample q j) = Ok i /\
          if use_xyz then
            (forall ch, ch < 3 ->
               get out [q; j; ch] = (get points [i; ch] - get queries [q; ch])%Q) /\
            (forall ch, ch < c -> get out [q; j; 3 + ch] = get feat [i; ch])
          else
            forall ch, ch < c -> get out [q; j; ch] = get feat [i; ch].
Proof.
    intros Ep Eq Ef Hq.
    apply queryandgroup_inv in Hq
      as (idx & flat & g & gx & q1 & gx' & g2 & gf & n' & m' & c' &
          Hidx & _ & _ & _ & Hn & Hm & Hc & Hflat & Hg & Hgx & Hq1 & Hsub & Hg2 &
          Hgf & Hout).
    apply size_Ok in Hn, Hm, Hc. rewrite Ep in Hn. rewrite Eq in Hm.
    rewrite Ef in Hc. simpl in Hn, Hm, Hc.
    injection Hn as <-. injection Hm as <-. injection Hc as <-.
    apply flatten_Ok in Hflat as [_ Edflat].
    apply index_rows_Ok in Hg
      as (n1 & rest1 & is1 & Es1 & Hall1 & Esg & Hwfg & _ & Hgetg).
    rewrite Ep in Es1. injection Es1 as <- <-.
    apply index_rows_Ok in Hg2
      as (n2 & rest2 & is2 & Es2 & Hall2 & Esg2 & Hwfg2 & _ & Hgetg2).
    rewrite Ef in Es2. injection Es2 as <- <-.
    assert (is2 = is1) as ->.
    { clear -Hall1 Hall2. revert is2 Hall2.
      induction Hall1 as [|i r l l' Hi _ IH]; intros is2 Hall2;
        inversion Hall2; subst; [reflexivity|].
      f_equal; [congruence | apply IH; assumption]. }
    pose proof (view_Ok _ _ _ Hgx) as (Esgx & Edgx & Hnum & _).
    pose proof (view_Ok _ _ _ Hgf) as (Esgf & Edgf & _ & Hcgf).
    unfold numel in Hnum. rewrite Esg in Hnum. simpl in Hnum.
    assert (Hlen : length (data flat) = m * nsample) by lia.
    pose proof (fun q ch => get_unsqueeze1 queries q1 m 3 q ch Eq Hq1) as Hq1get.
    destruct (map2__Ok _ _ _ _ Hsub) as (Esgx' & _ & Hwfgx' & Hgetsub).
    destruct (unsqueeze_Ok _ _ _ Hq1) as [Esq1 _].
    rewrite Eq in Esq1. simpl in Esq1.
    exists idx. split; [exact Hidx|].
    assert (Hnb : forall q j, q < m -> j < nsample ->
              q * nsample + j < length (data flat) /\
              py_index n (neighbor idx nsample q j) = Ok (nth (q * nsample + j) is1 0)).
    { intros q j Hqm Hj.
      assert (Hlt : q * nsample + j < length (data flat)) by nia.
      split; [exact Hlt|].
      unfold neighbor. rewrite <- Edflat.
      destruct (lookup_lt_is_Some_2 (data flat) _ Hlt) as [v Hv].
      destruct (Forall2_lookup_l _ _ _ _ _ Hall1 Hv) as (r & Hr & Hpy).
      rewrite (nth_lookup_Some _ _ 0%Z _ Hv), (nth_lookup_Some _ _ 0 _ Hr).
      exact Hpy. }
    assert (Hfeat : forall q j ch, q < m -> j < nsample -> ch < c ->
              get gf [q; j; ch] = get feat [nth (q * nsample + j) is1 0; ch]).
    { intros q j ch Hqm Hj Hch.
      rewrite (get_view_3 _ _ _ _ _ _ q j ch Esg2 Hgf).
      apply Hgetg2; [apply Hnb; assumption | bounds]. }
    destruct use_xyz.
    - apply cat2_Ok in Hout as (Esout & Hwfout & _ & Hgetout).
      rewrite Esgx', Esgx, Esgf in Esout.
      change (shape out = [m; nsample; 3 + c]) in Esout.
      rewrite Esgx', Esgx in Hgetout. simpl in Hgetout.
      split; [exact Esout|]. split; [exact Hwfout|].
      intros q j Hqm Hj. destruct (Hnb q j Hqm Hj) as [Hlt Hpy].
      eexists. split; [exact Hpy|]. split.
      + intros ch Hch.
        rewrite Hgetout by (rewrite Esout; bounds). simpl.
        replace (ch <? 3) with true by (symmetry; apply Nat.ltb_lt; lia).
        rewrite Hgetsub by (rewrite Esgx; bounds).
        rewrite Esq1, bix_unsqueezed by lia.
        rewrite (get_view_3 _ _ _ _ _ _ q j ch Esg Hgx).
        rewrite Hgetg by (exact Hlt || bounds).
        destruct (Hq1get q ch) as [_ ->]. reflexivity.
      + intros ch Hch.
        rewrite Hgetout by (rewrite Esout; bounds).
        change (nth 2 [q; j; 3 + ch] 0) with (3 + ch).
        replace (3 + ch <? 3) with false by (symmetry; apply Nat.ltb_ge; lia).
        replace (3 + ch - 3) with ch by lia.
        change (<[2 := ch]> [q; j; 3 + ch]) with [q; j; ch].
        apply Hfeat; assumption.
    - injection Hout as <-.
      split; [exact Esgf|]. split.
      { unfold wf, numel. rewrite Edgf, Esgf. rewrite Hwfg2. unfold numel.
        rewrite Esg2. simpl. lia. }
      intros q j Hqm Hj. destruct (Hnb q j Hqm Hj) as [Hlt Hpy].
      eexists. split; [exact Hpy|].
      intros ch Hch. apply Hfeat; assumption.
Qed.

End Grouping.

(** ** The grouping operator over the store *)

Lemma tensor_eta {A} (t : Tensor A) : mkTensor (shape t) (data t) (contig t) = t.
Proof. destruct t; reflexivity. Qed.

Lemma load_alloc t h : Heap.load (snd (Heap.alloc t h)) (fst (Heap.alloc t h)) = Ok t.
Proof.
  unfold Heap.load, Heap.alloc. cbn [fst snd Heap.loc Heap.rshape Heap.rcontig].
  rewrite lookup_app_r by lia. rewrite Nat.sub_diag. simpl.
  rewrite tensor_eta. reflexivity.
Qed.

Lemma load_Ok h r t :
  Heap.load h r = Ok t ->
  Heap.loc r < length h /\ shape t = Heap.rshape r /\ contig t = Heap.rcontig r
  /\ h !! Heap.loc r = Some (data t).
Proof.
  unfold Heap.load. destruct (h !! Heap.loc r) as [d|] eqn:E; [|discriminate].
  intros [= <-]. simpl. repeat split; auto.
  apply lookup_lt_is_Some. eauto.
Qed.

Lemma load_app h d r :
  Heap.loc r < length h -> Heap.load (h ++ [d]) r = Heap.load h r.
Proof. intros Hl. unfold Heap.load. rewrite lookup_app_l by exact Hl. reflexivity. Qed.

Lemma load_write_ne h r r' t :
  Heap.loc r <> Heap.loc r' -> Heap.load (Heap.write r t h) r' = Heap.load h r'.
Proof.
  intros Hne. unfold Heap.load, Heap.write.
  rewrite list_lookup_insert_ne by exact Hne. reflexivity.
Qed.

Lemma load_write_eq h r t :
  Heap.loc r < length h ->
  Heap.load (Heap.write r t h) r = Ok (mkTensor (Heap.rshape r) (data t) (Heap.rcontig r)).
Proof.
  intros Hl. unfold Heap.load, Heap.write.
  rewrite list_lookup_insert_eq by exact Hl. reflexivity.
Qed.

Lemma ret_bind {A B} (a : A) (k : A -> res B) : Ok a ≫= k = k a.
Proof. reflexivity. Qed.

Section HeapGrouping.
Variable knn_search : Tensor Q -> Tensor Q -> nat -> res (Tensor Z * Tensor Q).

Lemma Heap_queryandgroup_refines nsample points queries feat idx prs qrs use_xyz
    h o h' pts qs ft :
  Heap.load h points = Ok pts -> Heap.load h queries = Ok qs ->
  Heap.load h feat = Ok ft ->
  Heap.queryandgroup knn_search nsample points (Some queries) feat idx prs qrs
    use_xyz h = Ok (o, h') ->
  exists out,
    queryandgroup knn_search nsample pts (Some qs) ft idx prs qrs use_xyz = Ok out
    /\ Heap.load h' o = Ok out
    /\ forall l, l < length h -> h' !! l = h !! l.
Proof.
  intros Lp Lq Lf Hq.
  pose proof (load_Ok _ _ _ Lp) as (Hlp & Esp & Ecp & _).
  pose proof (load_Ok _ _ _ Lq) as (Hlq & Esq & Ecq & Hdq).
  pose proof (load_Ok _ _ _ Lf) as (Hlf & Esf & Ecf & _).
  unfold Heap.queryandgroup in Hq.
  inv_bind Hq. inv_bind Hq.
  rewrite Lp, Lq, Lf in Hq. rewrite ?ret_bind in Hq.
  apply bind_Ok in Hq as (idx' & Hidx & Hq). rewrite ?ret_bind in Hq.
  apply bind_Ok in Hq as (n & Hn & Hq). rewrite ?ret_bind in Hq.
  apply bind_Ok in Hq as (m & Hm & Hq). rewrite ?ret_bind in Hq.
  apply bind_Ok in Hq as (c & Hc & Hq). rewrite ?ret_bind in Hq.
  apply bind_Ok in Hq as (flat & Hflat & Hq). rewrite ?ret_bind in Hq.
  apply bind_Ok in Hq as (g & Hg' & Hq).
  unfold Heap.alloc at 1 in Hq. cbv beta iota in Hq.
  set (h1 := h ++ [data g]) in *.
  set (rg := Heap.mkRef (length h) (shape g) (contig g)) in *.
  assert (L1 : Heap.load h1 rg = Ok g) by apply (load_alloc g h).
  rewrite L1, ret_bind in Hq.
  apply bind_Ok in Hq as (gx & Hgx & Hq).
  assert (L2 : Heap.load h1 queries = Ok qs)
    by (unfold h1; rewrite load_app by exact Hlq; exact Lq).
  rewrite L2, ret_bind in Hq.
  apply bind_Ok in Hq as (q1 & Hq1 & Hq).
  destruct (view_Ok _ _ _ Hgx) as (Esgx & Edgx & _ & Hcgx).
  assert (L3 : Heap.load h1 (Heap.alias rg gx) = Ok gx).
  { unfold Heap.load, Heap.alias, h1, rg. cbn [Heap.loc Heap.rshape Heap.rcontig].
    rewrite lookup_app_r by lia. rewrite Nat.sub_diag. simpl.
    rewrite <- Edgx. rewrite tensor_eta. reflexivity. }
  destruct (unsqueeze_Ok _ _ _ Hq1) as (Esq1 & Edq1).
  assert (L4 : Heap.load h1 (Heap.alias queries q1) = Ok q1).
  { unfold Heap.load, Heap.alias, h1. cbn [Heap.loc Heap.rshape Heap.rcontig].
    rewrite lookup_app_l by exact Hlq. rewrite Hdq, <- Edq1, tensor_eta.
    reflexivity. }
  rewrite L3, ret_bind, L4, ret_bind in Hq.
  apply bind_Ok in Hq as (gx' & Hgx' & Hq).
  set (h2 := Heap.write (Heap.alias rg gx) gx' h1) in *.
  assert (Hlen2 : length h2 = S (length h)).
  { unfold h2, Heap.write, h1. rewrite length_insert, length_app. simpl. lia. }
  assert (L5 : Heap.load h2 feat = Ok ft).
  { unfold h2. rewrite load_write_ne by (simpl; lia).
    unfold h1. rewrite load_app by exact Hlf. exact Lf. }
  rewrite L5, ret_bind in Hq.
  apply bind_Ok in Hq as (g2 & Hg2 & Hq).
  unfold Heap.alloc at 1 in Hq. cbv beta iota in Hq.
  set (h3 := h2 ++ [data g2]) in *.
  set (rg2 := Heap.mkRef (length h2) (shape g2) (contig g2)) in *.
  assert (L6 : Heap.load h3 rg2 = Ok g2) by apply (load_alloc g2 h2).
  rewrite L6, ret_bind in Hq.
  apply bind_Ok in Hq as (gf & Hgf & Hq).
  destruct (view_Ok _ _ _ Hgf) as (Esgf & Edgf & _ & Hcgf).
  assert (L7 : Heap.load h3 (Heap.alias rg2 gf) = Ok gf).
  { unfold Heap.load, Heap.alias, h3, rg2. cbn [Heap.loc Heap.rshape Heap.rcontig].
    rewrite lookup_app_r by lia. rewrite Nat.sub_diag. simpl.
    rewrite <- Edgf. rewrite tensor_eta. reflexivity. }
  destruct (map2__Ok _ _ _ _ Hgx') as (Esgx' & Ecgx' & _ & _).
  assert (L8 : Heap.load h3 (Heap.alias rg gx) = Ok gx').
  { unfold h3. rewrite load_app by (simpl; lia).
    unfold h2. rewrite load_write_eq by (unfold h1; rewrite length_app; simpl; lia).
    simpl. rewrite <- Esgx', <- Ecgx', tensor_eta. reflexivity. }
  assert (Hpure : forall l, l < length h -> h3 !! l = h !! l).
  { intros l Hl. unfold h3. rewrite lookup_app_l by lia.
    unfold h2, Heap.write. rewrite list_lookup_insert_ne by (simpl; lia).
    unfold h1. rewrite lookup_app_l by lia. reflexivity. }
  assert (Hcs : contig pts = true /\ contig qs = true /\ contig ft = true).
  { subst a. rewrite Ecp, Ecq, Ecf. unfold and_then in Ha. simpl in Ha.
    destruct (Heap.rcontig points); [|discriminate].
    destruct (Heap.rcontig queries); simpl in Ha; [|discriminate].
    destruct (Heap.rcontig feat); [auto|discriminate]. }
  destruct Hcs as (Hc1 & Hc2 & Hc3).
  assert (Hstart : forall out,
    (if use_xyz then torch.cat2 2 gx' gf else Ok gf) = Ok out ->
    queryandgroup knn_search nsample pts (Some qs) ft idx prs qrs use_xyz = Ok out).
  { intros out Hout. unfold queryandgroup, and_then. simpl.
    rewrite Hc1, Hc2, Hc3. simpl.
    rewrite Hidx, ret_bind, Hn, ret_bind, Hm, ret_bind, Hc, ret_bind.
    rewrite Hflat, ret_bind, Hg', ret_bind, Hgx, ret_bind, Hq1, ret_bind.
    rewrite Hgx', ret_bind, Hg2, ret_bind, Hgf, ret_bind. exact Hout. }
  destruct use_xyz.
  - rewrite L8, ret_bind, L7, ret_bind in Hq.
    apply bind_Ok in Hq as (out & Hout & Hq). injection Hq as <- <-.
    exists out. split; [apply Hstart; exact Hout|]. split.
    + apply (load_alloc out h3).
    + intros l Hl. rewrite lookup_app_l by (unfold h3; rewrite length_app; lia).
      apply Hpure; exact Hl.
  - injection Hq as <- <-. exists gf. split; [apply Hstart; reflexivity|].
    split; [exact L7 | exact Hpure].
Qed.

End HeapGrouping.

(** ** Row splits *)

Lemma nondecreasing_le rs i j a b :
  nondecreasing rs -> i <= j -> rs !! i = Some a -> rs !! j = Some b -> (a <= b)%Z.
Proof.
  intros Hnd Hij. revert b. induction Hij as [|j Hij IH]; intros b Ha Hb.
  - rewrite Ha in Hb. injection Hb as <-. lia.
  - assert (Hj : j < length rs).
    { apply lookup_lt_Some in Hb. lia. }
    destruct (lookup_lt_is_Some_2 rs j Hj) as [c Hc].
    specialize (IH c Ha Hc).
    assert (c <= b)%Z; [|lia].
    apply (Hnd j c b Hc). rewrite Nat.add_1_r. exact Hb.
Qed.

Lemma last_lookup_length {A} (l : list A) x :
  last l = Some x -> l !! (length l - 1) = Some x.
Proof.
  intros Hl. rewrite last_lookup in Hl.
  replace (length l - 1) with (pred (length l)) by lia. exact Hl.
Qed.

Lemma valid_splits_bounds rs n i a :
  valid_splits rs n -> rs !! i = Some a -> (0 <= a <= Z.of_nat n)%Z.
Proof.
  intros (H0 & Hlast & Hnd) Ha. split.
  - apply (nondecreasing_le rs 0 i 0%Z a Hnd); [lia | exact H0 | exact Ha].
  - apply last_lookup_length in Hlast.
    apply (nondecreasing_le rs i (length rs - 1) a _ Hnd); [|exact Ha|exact Hlast].
    apply lookup_lt_Some in Ha. lia.
Qed.

Lemma valid_splits_cloud rs n i a b :
  valid_splits rs n -> cloud rs i a b -> (0 <= a <= b)%Z /\ (b <= Z.of_nat n)%Z.
Proof.
  intros Hv [Ha Hb].
  pose proof (valid_splits_bounds _ _ _ _ Hv Ha).
  pose proof (valid_splits_bounds _ _ _ _ Hv Hb).
  destruct Hv as (_ & _ & Hnd). specialize (Hnd i a b Ha Hb). lia.
Qed.

Lemma py_slice_valid n a b :
  (0 <= a <= b)%Z -> (b <= Z.of_nat n)%Z ->
  py_slice n a b = (Z.to_nat a, Z.to_nat (b - a)).
Proof.
  intros Hab Hb. unfold py_slice, py_clip.
  destruct (a <? 0)%Z eqn:Ea; [lia|]. destruct (b <? 0)%Z eqn:Eb; [lia|].
  f_equal; lia.
Qed.

Lemma sum_list_snoc l x : sum_list (l ++ [x]) = sum_list l + x.
Proof. induction l as [|y l IH]; simpl; lia. Qed.

(** ** Concatenation along the first dimension *)

Lemma nth_concat_block {A} (bs : list (list A)) i blk p d :
  bs !! i = Some blk -> p < length blk ->
  nth (length (concat (take i bs)) + p) (concat bs) d = nth p blk d.
Proof.
  intros Hi Hp.
  rewrite <- (take_drop_middle bs i blk Hi) at 2.
  rewrite concat_app, concat_cons.
  rewrite app_nth2_plus. apply app_nth1. exact Hp.
Qed.

Lemma cat0_Ok {A} (ts : list (Tensor A)) t :
  torch.cat0 ts = Ok t ->
  exists rest,
    shape t = sum_list (map rows ts) :: rest /\
    data t = concat (map data ts) /\ contig t = true /\
    ts <> [] /\
    Forall (fun b => shape b = rows b :: rest) ts.
Proof.
  unfold torch.cat0. intros Hc.
  destruct ts as [|t0 ts']; [discriminate|].
  destruct (shape t0) as [|r0 rest] eqn:E0; [discriminate|].
  inv_bind Hc. injection Hc as <-.
  exists rest. repeat split; auto.
  rewrite forallb_forall in Hg. apply Forall_forall. intros b Hb.
  apply list_elem_of_In in Hb. specialize (Hg b Hb).
  apply andb_prop in Hg as [Hg1 Hg2]. apply bool_decide_eq_true in Hg1.
  unfold rows. destruct (shape b); simpl in *; [discriminate | congruence].
Qed.

Lemma wf_cat0 {A} (ts : list (Tensor A)) t :
  torch.cat0 ts = Ok t -> Forall wf ts -> wf t.
Proof.
  intros Hc Hwf. apply cat0_Ok in Hc as (rest & Es & Ed & _ & _ & Hsh).
  unfold wf, numel. rewrite Es, Ed. simpl. fold (prodn rest).
  clear Es Ed. induction ts as [|b ts IH]; simpl; [reflexivity|].
  inversion Hwf; subst. inversion Hsh; subst.
  rewrite length_app, IH by assumption.
  match goal with Hb : wf b |- _ => unfold wf, numel in Hb; rewrite Hb end.
  match goal with Hb : shape b = _ |- _ => rewrite Hb end.
  simpl. fold (prodn rest). lia.
Qed.

Lemma get_cat0 {A} `{Inhabited A} (ts : list (Tensor A)) t i blk r ix rest :
  torch.cat0 ts = Ok t -> Forall wf ts ->
  ts !! i = Some blk -> shape blk = rows blk :: rest ->
  r < rows blk -> in_bounds rest ix ->
  get t ((sum_list (map rows (take i ts)) + r) :: ix) = get blk (r :: ix).
Proof.
  intros Hc Hwf Hi Eb Hr Hix.
  apply cat0_Ok in Hc as (rest' & Es & Ed & _ & _ & Hsh).
  assert (rest' = rest) as ->.
  { rewrite Forall_forall in Hsh. specialize (Hsh blk).
    rewrite Hsh in Eb by (eapply list_elem_of_lookup_2; exact Hi).
    congruence. }
  unfold get. rewrite Es, Ed, Eb. simpl. fold (prodn rest).
  assert (Hoff : length (concat (take i (map data ts)))
                 = sum_list (map rows (take i ts)) * prodn rest).
  { clear Hi Es Ed Eb. revert i. induction ts as [|b ts IH]; intros i.
    - destruct i; reflexivity.
    - destruct i as [|i]; [reflexivity|]. simpl.
      inversion Hwf; subst. inversion Hsh; subst.
      rewrite length_app, IH by assumption.
      match goal with Hb : wf b |- _ => unfold wf, numel in Hb; rewrite Hb end.
      match goal with Hb : shape b = _ |- _ => rewrite Hb end.
      simpl. fold (prodn rest). lia. }
  pose proof (ravel_lt _ _ Hix) as Hrav.
  replace ((sum_list (map rows (take i ts)) + r) * prodn rest + ravel rest ix)
    with (length (concat (take i (map data ts))) + (r * prodn rest + ravel rest ix))
    by (rewrite Hoff; lia).
  apply nth_concat_block.
  - rewrite list_lookup_fmap, Hi. reflexivity.
  - rewrite Forall_forall in Hwf. specialize (Hwf blk).
    unfold wf, numel in Hwf. rewrite Hwf by (eapply list_elem_of_lookup_2; exact Hi).
    rewrite Eb. simpl. fold (prodn rest). nia.
Qed.
(** ** The batched neighbour search *)

Lemma item_Ok rs i v : item rs i = Ok v -> rs !! i = Some v.
Proof. unfold item. destruct (rs !! i); [|discriminate]. intros [= ->]. reflexivity. Qed.

Lemma slice_rows_Ok {A} (t t' : Tensor A) a b :
  torch.slice_rows t a b = Ok t' ->
  exists n rest,
    shape t = n :: rest /\
    shape t' = snd (py_slice n a b) :: rest /\
    data t' = take (snd (py_slice n a b) * prodn rest)
                (drop (fst (py_slice n a b) * prodn rest) (data t)) /\
    fst (py_slice n a b) + snd (py_slice n a b) <= n.
Proof.
  unfold torch.slice_rows. destruct (shape t) as [|n rest]; [discriminate|].
  destruct (py_slice n a b) as [s len] eqn:E. intros [= <-].
  exists n, rest. rewrite E. simpl. repeat split; auto.
  unfold py_slice in E. injection E as <- <-.
  unfold py_clip. destruct (Z.ltb_spec a 0); destruct (Z.ltb_spec b 0); lia.
Qed.

Lemma wf_map1 {A B} (f : A -> B) (t : Tensor A) : wf t -> wf (torch.map1 f t).
Proof. unfold wf, numel, torch.map1. simpl. rewrite length_map. auto. Qed.

Section KnnBatch.
Variable knn_search : Tensor Q -> Tensor Q -> nat -> res (Tensor Z * Tensor Q).
Hypothesis Hknn : knn_contract knn_search.

Lemma knn_clouds_Ok points queries k prs qrs range :
  forall idxs dists calls calls' idxs' dists',
  knn_clouds knn_search points queries k prs qrs range idxs dists calls
    = (calls', Ok (idxs', dists')) ->
  exists bi bd,
    idxs' = idxs ++ bi /\ dists' = dists ++ bd /\
    Forall2 (fun i b => cloud_result points queries k prs qrs i (fst b) (snd b))
      range (zip bi bd) /\
    length bi = length range /\ length bd = length range.
Proof.
  induction range as [|i range IH]; intros idxs dists calls calls' idxs' dists' Hr;
    simpl in Hr.
  - injection Hr as <- <- <-. exists [], []. rewrite !app_nil_r.
    repeat split; auto.
  - match type of Hr with
    | match ?e with _ => _ end = _ => destruct e as [[[a cp] cq]|e'] eqn:E
    end; [|discriminate].
    apply bind_Ok in E as (a' & Ha & E). apply bind_Ok in E as (b & Hb & E).
    apply bind_Ok in E as (cp' & Hcp & E). apply bind_Ok in E as (qa & Hqa & E).
    apply bind_Ok in E as (qb & Hqb & E). apply bind_Ok in E as (cq' & Hcq & E).
    injection E as -> -> ->.
    destruct (knn_search cp cq k) as [[idx dist]|e'] eqn:Es; [|discriminate].
    apply IH in Hr as (bi & bd & -> & -> & Hall & Hl1 & Hl2).
    destruct (Hknn _ _ _ _ _ Es) as (w & Esi & Esd & Hwi & Hwd & Hri & Hrd & Hw).
    exists (torch.map1 (fun v => (v + a)%Z) idx :: bi), (dist :: bd).
    rewrite <- !app_assoc. simpl. repeat split; auto.
    constructor; [|exact Hall]. simpl.
    exists a, b, qa, qb, cp, cq, w.
    apply item_Ok in Ha, Hb, Hqa, Hqb. unfold cloud.
    repeat split; auto.
    + apply wf_map1. exact Hwi.
    + simpl. apply Forall_fmap. eapply Forall_impl; [exact Hri|].
      simpl. intros v Hv. lia.
Qed.

Lemma knn_batch_Ok points queries k prs qrs rd idx od :
  knn_batch knn_search points queries k prs qrs rd = Ok (idx, od) ->
  length prs = length qrs /\
  exists bi bd,
    torch.cat0 bi = Ok idx /\
    (if rd then exists d, od = Some d /\ torch.cat0 bd = Ok d else od = None) /\
    Forall2 (fun i b => cloud_result points queries k prs qrs i (fst b) (snd b))
      (seq 0 (length prs - 1)) (zip bi bd) /\
    length bi = length prs - 1 /\ length bd = length prs - 1.
Proof.
  unfold knn_batch, knn_batch_run. intros Hk.
  destruct (length prs =? length qrs) eqn:El; simpl in Hk; [|discriminate].
  apply Nat.eqb_eq in El. split; [exact El|].
  destruct (knn_clouds knn_search points queries k prs qrs
              (seq 0 (length prs - 1)) [] [] []) as [calls r] eqn:Ec.
  simpl in Hk. destruct r as [[idxs dists]|e]; [|discriminate].
  apply knn_clouds_Ok in Ec as (bi & bd & -> & -> & Hall & Hl1 & Hl2).
  rewrite length_seq in Hl1, Hl2. simpl in Hk.
  exists bi, bd. destruct rd.
  - apply bind_Ok in Hk as (i & Hi & Hk). apply bind_Ok in Hk as (d & Hd & Hk).
    injection Hk as <- <-. repeat split; eauto.
  - apply bind_Ok in Hk as (i & Hi & Hk). injection Hk as <- <-.
    repeat split; eauto.
Qed.

End KnnBatch.
Lemma cloud_result_lookup points queries k prs qrs len bi bd p :
  Forall2 (fun i b => cloud_result points queries k prs qrs i (fst b) (snd b))
    (seq 0 len) (zip bi bd) ->
  p < len ->
  exists x y, bi !! p = Some x /\ bd !! p = Some y /\
              cloud_result points queries k prs qrs p x y.
Proof.
  intros Hall Hp.
  assert (Hs : seq 0 len !! p = Some p) by (apply lookup_seq; lia).
  destruct (Forall2_lookup_l _ _ _ _ _ Hall Hs) as ([x y] & Hz & Hres).
  apply lookup_zip_with_Some in Hz as (x' & y' & [= -> ->] & Hx & Hy).
  eauto.
Qed.

Lemma cloud_result_rows points queries k prs qrs i x y qa qb :
  valid_splits qrs (rows queries) ->
  cloud_result points queries k prs qrs i x y ->
  cloud qrs i qa qb ->
  rows x = Z.to_nat (qb - qa) /\ rows y = Z.to_nat (qb - qa).
Proof.
  intros Hv (a & b & qa' & qb' & cp & cq & w & _ & [Hqa Hqb] & _ & Hcq & Esx & Esy & _)
    [Hqa' Hqb'].
  rewrite Hqa in Hqa'. rewrite Hqb in Hqb'.
  injection Hqa' as ->. injection Hqb' as ->.
  apply slice_rows_Ok in Hcq as (n & rest & Esq & Escq & _).
  destruct (valid_splits_cloud _ _ i qa qb Hv (conj Hqa Hqb)) as [H1 H2].
  unfold rows in *. rewrite Esq in H2. simpl in H2.
  rewrite py_slice_valid in Escq by assumption. simpl in Escq.
  rewrite Esx, Esy, Escq. simpl. auto.
Qed.

Lemma blocks_rows_sum points queries k prs qrs len bi bd :
  valid_splits qrs (rows queries) ->
  Forall2 (fun i b => cloud_result points queries k prs qrs i (fst b) (snd b))
    (seq 0 len) (zip bi bd) ->
  forall i qi, i <= len -> qrs !! i = Some qi ->
    sum_list (map rows (take i bi)) = Z.to_nat qi /\
    sum_list (map rows (take i bd)) = Z.to_nat qi.
Proof.
  intros Hv Hall. induction i as [|i IH]; intros qi Hi Hq.
  - destruct Hv as (H0 & _). rewrite H0 in Hq. injection Hq as <-.
    rewrite !take_0. auto.
  - destruct (cloud_result_lookup _ _ _ _ _ _ _ _ i Hall ltac:(lia))
      as (x & y & Hx & Hy & Hres).
    assert (Hlt : i < length qrs) by (apply lookup_lt_Some in Hq; lia).
    destruct (lookup_lt_is_Some_2 qrs i Hlt) as [qa Hqa].
    destruct (IH qa ltac:(lia) Hqa) as [IH1 IH2].
    assert (Hc : cloud qrs i qa qi) by (split; [exact Hqa | rewrite Nat.add_1_r; exact Hq]).
    destruct (cloud_result_rows _ _ _ _ _ _ _ _ _ _ Hv Hres Hc) as [Rx Ry].
    destruct (valid_splits_cloud _ _ _ _ _ Hv Hc) as [H1 H2].
    rewrite (take_S_r _ _ _ Hx), (take_S_r _ _ _ Hy).
    rewrite !map_app. simpl. rewrite !sum_list_snoc, IH1, IH2, Rx, Ry. lia.
Qed.

Section KnnBatchClaims.
Variable knn_search : Tensor Q -> Tensor Q -> nat -> res (Tensor Z * Tensor Q).
Hypothesis Hknn : knn_contract knn_search.

(** Every entry of the index tensor of [knn_batch] names a point of the cloud
    of its query; the distances are laid out the same way. *)
Lemma knn_batch_rows points queries k prs qrs rd idx od :
  valid_splits prs (rows points) -> valid_splits qrs (rows queries) ->
  knn_batch knn_search points queries k prs qrs rd = Ok (idx, od) ->
  exists w,
    1 < length prs /\
    shape idx = [rows queries; w] /\ wf idx /\
    (if rd then exists d, od = Some d /\ shape d = [rows queries; w] /\ wf d /\
                          Forall (fun v => (0 <= v)%Q) (data d)
     else od = None) /\
    (forall i a b, cloud prs i a b -> (k <= Z.to_nat (b - a) -> w = k)) /\
    forall i a b qa qb q j,
      cloud prs i a b -> cloud qrs i qa qb ->
      (qa <= Z.of_nat q < qb)%Z -> j < w ->
      (a <= get idx [q; j] < b)%Z.
Proof.
  intros Hvp Hvq Hk.
  destruct (knn_batch_Ok knn_search Hknn _ _ _ _ _ _ _ _ Hk)
    as (Hlen & bi & bd & Hcat & Hod & Hall & Hl1 & Hl2).
  pose proof (cat0_Ok _ _ Hcat) as (rest & Es & Ed & _ & Hne & Hsh).
  assert (Hwfb : Forall wf bi /\ Forall wf bd).
  { split; apply Forall_lookup; intros p x Hx.
    - assert (Hp : p < length prs - 1) by (apply lookup_lt_Some in Hx; lia).
      destruct (cloud_result_lookup _ _ _ _ _ _ _ _ p Hall Hp)
        as (x' & y & Hx' & _ & Hres).
      rewrite Hx in Hx'. injection Hx' as <-.
      destruct Hres as (? & ? & ? & ? & ? & ? & ? & _ & _ & _ & _ & _ & _ & Hwfx & Hwfy & Hrx & Hry & _).
      exact Hwfx.
    - assert (Hp : p < length prs - 1) by (apply lookup_lt_Some in Hx; lia).
      destruct (cloud_result_lookup _ _ _ _ _ _ _ _ p Hall Hp)
        as (x' & y & _ & Hy & Hres).
      rewrite Hx in Hy. injection Hy as <-.
      destruct Hres as (? & ? & ? & ? & ? & ? & ? & _ & _ & _ & _ & _ & _ & Hwfx & Hwfy & Hrx & Hry & _).
      exact Hwfy. }
  destruct Hwfb as [Hwfi Hwfd].
  (* the clouds are not empty of blocks: there is a first one *)
  assert (Hpos : 0 < length prs - 1).
  { destruct bi; [congruence | simpl in Hl1; lia]. }
  destruct (cloud_result_lookup _ _ _ _ _ _ _ _ 0 Hall Hpos)
    as (x0 & y0 & Hx0 & Hy0 & Hres0).
  pose proof Hres0 as (a0 & b0 & qa0 & qb0 & cp0 & cq0 & w & _ & _ & _ & _ &
                       Esx0 & Esy0 & _).
  assert (rest = [w]) as ->.
  { rewrite Forall_forall in Hsh. specialize (Hsh x0).
    rewrite Hsh in Esx0 by (eapply list_elem_of_lookup_2; exact Hx0).
    congruence. }
  (* the rows of all blocks add up to the number of queries *)
  assert (Hlastq : qrs !! (length prs - 1) = Some (Z.of_nat (rows queries))).
  { destruct Hvq as (_ & Hl & _). apply last_lookup_length in Hl.
    rewrite Hlen. exact Hl. }
  destruct (blocks_rows_sum _ _ _ _ _ _ _ _ Hvq Hall (length prs - 1) _
              ltac:(lia) Hlastq) as [Hsum Hsumd].
  rewrite take_ge in Hsum by lia. rewrite take_ge in Hsumd by lia.
  rewrite Nat2Z.id in Hsum, Hsumd.
  exists w. rewrite Es, Hsum. split; [lia|]. split; [reflexivity|].
  split; [exact (wf_cat0 _ _ Hcat Hwfi)|].
  split; [|split].
  - destruct rd; [|exact Hod].
    destruct Hod as (d & -> & Hd). exists d. split; [reflexivity|].
    pose proof (cat0_Ok _ _ Hd) as (restd & Esd & Edd & _ & _ & Hshd).
    assert (restd = [w]) as ->.
    { rewrite Forall_forall in Hshd. specialize (Hshd y0).
      rewrite Hshd in Esy0 by (eapply list_elem_of_lookup_2; exact Hy0).
      congruence. }
    rewrite Esd, Hsumd. split; [reflexivity|].
    split; [exact (wf_cat0 _ _ Hd Hwfd)|].
    rewrite Edd. apply Forall_concat, Forall_fmap, Forall_lookup. intros p y Hy.
    assert (Hp : p < length prs - 1) by (apply lookup_lt_Some in Hy; lia).
    destruct (cloud_result_lookup _ _ _ _ _ _ _ _ p Hall Hp)
      as (x' & y' & _ & Hy' & Hres).
    rewrite Hy in Hy'. injection Hy' as <-.
    destruct Hres as (? & ? & ? & ? & ? & ? & ? & _ & _ & _ & _ & _ & _ & Hwfx & Hwfy & Hrx & Hry & _).
    exact Hry.
  - intros i a b Hc Hk'.
    assert (Hi : i < length prs - 1).
    { destruct Hc as [_ Hb]. apply lookup_lt_Some in Hb. lia. }
    destruct (cloud_result_lookup _ _ _ _ _ _ _ _ i Hall Hi)
      as (x & y & Hx & _ & Hres).
    destruct Hres as (a' & b' & qa' & qb' & cp & cq & w' & [Ha' Hb'] & _ & Hcp & _ &
                      Esx & _ & _ & _ & _ & _ & Hw).
    destruct Hc as [Ha Hb]. rewrite Ha in Ha'. rewrite Hb in Hb'.
    injection Ha' as <-. injection Hb' as <-.
    assert (w' = w) as ->.
    { rewrite Forall_forall in Hsh. specialize (Hsh x).
      rewrite Hsh in Esx by (eapply list_elem_of_lookup_2; exact Hx).
      congruence. }
    apply Hw.
    apply slice_rows_Ok in Hcp as (n & rest & Esp & Escp & _).
    destruct (valid_splits_cloud _ _ i a b Hvp (conj Ha Hb)) as [H1 H2].
    unfold rows in *. rewrite Esp in H2. simpl in H2.
    rewrite py_slice_valid in Escp by assumption. rewrite Escp. simpl. exact Hk'.
  - intros i a b qa qb q j Hc Hcq Hq Hj.
    assert (Hi : i < length prs - 1).
    { destruct Hc as [_ Hb]. apply lookup_lt_Some in Hb. lia. }
    destruct (cloud_result_lookup _ _ _ _ _ _ _ _ i Hall Hi)
      as (x & y & Hx & _ & Hres).
    destruct (cloud_result_rows _ _ _ _ _ _ _ _ _ _ Hvq Hres Hcq) as [Rx _].
    destruct (blocks_rows_sum _ _ _ _ _ _ _ _ Hvq Hall i qa ltac:(lia) (proj1 Hcq))
      as [Hoff _].
    destruct (valid_splits_cloud _ _ _ _ _ Hvq Hcq) as [Hq1 Hq2].
    assert (Esx : shape x = rows x :: [w]).
    { rewrite Forall_forall in Hsh. apply Hsh.
      eapply list_elem_of_lookup_2; exact Hx. }
    replace q with (sum_list (map rows (take i bi)) + (q - Z.to_nat qa))
      by (rewrite Hoff; lia).
    rewrite (get_cat0 _ _ _ _ _ _ _ Hcat Hwfi Hx Esx) by (bounds || lia).
    destruct Hres as (a' & b' & qa' & qb' & cp & cq & w' & [Ha' Hb'] & _ & Hcp & _ &
                      _ & _ & Hwfx & _ & Hrange & _).
    destruct Hc as [Ha Hb]. rewrite Ha in Ha'. rewrite Hb in Hb'.
    injection Ha' as <-. injection Hb' as <-.
    apply slice_rows_Ok in Hcp as (n & rest & Esp & Escp & _).
    destruct (valid_splits_cloud _ _ i a b Hvp (conj Ha Hb)) as [H1 H2].
    unfold rows in H2, Hrange. rewrite Esp in H2. simpl in H2.
    rewrite py_slice_valid in Escp by assumption. rewrite Escp in Hrange.
    simpl in Hrange.
    set (r := q - Z.to_nat qa).
    assert (Hin : (a <= get x [r; j] < a + Z.of_nat (Z.to_nat (b - a)))%Z).
    { rewrite Forall_forall in Hrange. apply Hrange.
      apply list_elem_of_In. unfold get. apply nth_In.
      unfold wf, numel in Hwfx. rewrite Hwfx, Esx, ravel_2. simpl. subst r. nia. }
    lia.
Qed.

End KnnBatchClaims.
Lemma cat0_Raise {A} (ts : list (Tensor A)) e :
  torch.cat0 ts = Raise e -> e = RuntimeError.
Proof.
  unfold torch.cat0. destruct ts as [|t0 ts]; [congruence|].
  destruct (shape t0); [congruence|].
  match goal with |- context [guard _ ?b] => destruct b end; simpl; congruence.
Qed.

Lemma item_Raise rs i e : item rs i = Raise e -> e = IndexError.
Proof. unfold item. destruct (rs !! i); congruence. Qed.

Lemma slice_rows_Raise {A} (t : Tensor A) a b e :
  torch.slice_rows t a b = Raise e -> e = IndexError.
Proof.
  unfold torch.slice_rows. destruct (shape t); [congruence|].
  destruct (py_slice _ a b). congruence.
Qed.

Lemma bind_Raise_inv {A B} (m : res A) (k : A -> res B) e :
  m ≫= k = Raise e -> m = Raise e \/ exists a, m = Ok a /\ k a = Raise e.
Proof. destruct m as [a|e']; simpl; [eauto | intros [= ->]; auto]. Qed.

Section KnnAssert.
Variable knn_search : Tensor Q -> Tensor Q -> nat -> res (Tensor Z * Tensor Q).
Hypothesis Hno : knn_no_assert knn_search.

Lemma knn_clouds_no_assert points queries k prs qrs range :
  forall idxs dists calls calls' e,
  knn_clouds knn_search points queries k prs qrs range idxs dists calls
    = (calls', Raise e) ->
  e <> AssertionError.
Proof.
  induction range as [|i range IH]; intros idxs dists calls calls' e Hr;
    simpl in Hr; [discriminate|].
  match type of Hr with
  | match ?m with _ => _ end = _ => destruct m as [[[a cp] cq]|e'] eqn:E
  end.
  - destruct (knn_search cp cq k) as [[idx dist]|e'] eqn:Es.
    + eapply IH. exact Hr.
    + injection Hr as _ <-. intros ->. exact (Hno _ _ _ Es).
  - injection Hr as _ <-.
    repeat (apply bind_Raise_inv in E as [E|(? & _ & E)];
            [first [apply item_Raise in E | apply slice_rows_Raise in E];
             subst; discriminate|]).
    discriminate.
Qed.

Lemma knn_batch_run_equal_lengths points queries k prs qrs rd :
  length prs = length qrs ->
  snd (knn_batch_run knn_search points queries k prs qrs rd) <> Raise AssertionError.
Proof.
  intros Hlen. unfold knn_batch_run.
  replace (length prs =? length qrs) with true by (symmetry; apply Nat.eqb_eq; exact Hlen).
  simpl.
  destruct (knn_clouds knn_search points queries k prs qrs
              (seq 0 (length prs - 1)) [] [] []) as [calls r] eqn:Ec.
  simpl. destruct r as [[idxs dists]|e]; simpl.
  - destruct rd.
    + intros Hr. apply bind_Raise_inv in Hr as [Hr|(? & _ & Hr)];
        [apply cat0_Raise in Hr; discriminate|].
      apply bind_Raise_inv in Hr as [Hr|(? & _ & Hr)];
        [apply cat0_Raise in Hr; discriminate | discriminate].
    + intros Hr. apply bind_Raise_inv in Hr as [Hr|(? & _ & Hr)];
        [apply cat0_Raise in Hr; discriminate | discriminate].
  - intros [= ->]. exact (knn_clouds_no_assert _ _ _ _ _ _ _ _ _ _ _ Ec eq_refl).
Qed.

End KnnAssert.

(** ** Shapes of the layers *)

Lemma removelast_snoc {A} (l : list A) x : removelast (l ++ [x]) = l.
Proof. apply removelast_last. Qed.

Lemma Linear_forward_Ok l x y :
  nn.Linear_forward l x = Ok y ->
  shape y = removelast (shape x) ++ [nn.out_features l] /\ wf y /\
  last (shape x) = Some (nn.in_features l) /\ contig y = true.
Proof.
  unfold nn.Linear_forward. destruct (last (shape x)) as [w|] eqn:El; [|discriminate].
  intros Hl. inv_bind Hl. injection Hl as <-. apply Nat.eqb_eq in Hg. subst w.
  repeat split; auto. apply wf_tab.
Qed.

Lemma BatchNorm1d_forward_Ok sqrtQ b x y :
  nn.BatchNorm1d_forward sqrtQ b x = Ok y ->
  shape y = shape x /\ wf y /\ contig y = true /\
  (length (shape x) = 2 \/ length (shape x) = 3) /\
  nth 1 (shape x) 0 = nn.num_features b.
Proof.
  unfold nn.BatchNorm1d_forward. intros Hb.
  apply bind_Ok in Hb as ([[n c] len] & Hs & Hb).
  inv_bind Hb. inv_bind Hb. injection Hb as <-.
  apply Nat.eqb_eq in Hg. repeat split; auto.
  - apply wf_tab.
  - destruct (shape x) as [|? [|? [|? [|? ?]]]]; try discriminate; auto.
  - destruct (shape x) as [|? [|? [|? [|? ?]]]]; try discriminate;
      injection Hs as <- <- <-; exact Hg.
Qed.

Lemma shape_ReLU x : shape (nn.ReLU_forward x) = shape x.
Proof. reflexivity. Qed.

Lemma wf_ReLU x : wf x -> wf (nn.ReLU_forward x).
Proof. apply wf_map1. Qed.

Lemma transpose12_Ok {A} `{Inhabited A} (x y : Tensor A) :
  torch.transpose12 x = Ok y ->
  shape y = torch.swap12 (shape x) /\ wf y /\ 3 <= length (shape x).
Proof.
  unfold torch.transpose12. intros Ht. inv_bind Ht. injection Ht as <-.
  apply Nat.leb_le in Hg. repeat split; auto. apply wf_tab.
Qed.

Lemma MaxPool1d_forward_Ok k x y :
  nn.MaxPool1d_forward k x = Ok y ->
  exists n c len, shape x = [n; c; len] /\ shape y = [n; c; len / k] /\
                  k <> 0 /\ k <= len /\ wf y.
Proof.
  unfold nn.MaxPool1d_forward.
  destruct (shape x) as [|n [|c [|len [|? ?]]]]; try discriminate.
  intros Hm. inv_bind Hm. injection Hm as <-.
  apply andb_prop in Hg as [Hk Hl]. apply negb_true_iff, Nat.eqb_neq in Hk.
  apply Nat.leb_le in Hl.
  exists n, c, len. repeat split; auto. apply wf_tab.
Qed.

Lemma Layer_forward_Ok sqrtQ l x y :
  nn.Layer_forward sqrtQ l x = Ok y -> wf x ->
  removelast (shape y) = removelast (shape x) /\
  length (shape y) = length (shape x) /\ wf y.
Proof.
  destruct l as [l|b|]; simpl; intros Hl Hwf.
  - apply Linear_forward_Ok in Hl as (Es & Hw & Hlast & _).
    rewrite Es, removelast_snoc, length_app. simpl.
    repeat split; auto.
    destruct (shape x) as [|d ds] eqn:E; [discriminate|].
    pose proof (@app_removelast_last _ (d :: ds) 0 ltac:(discriminate)) as Hsplit.
    rewrite Hsplit at 2. rewrite length_app. simpl. lia.
  - apply BatchNorm1d_forward_Ok in Hl as (Es & Hw & _).
    rewrite Es. repeat split; auto.
  - injection Hl as <-. simpl. repeat split; auto. apply wf_ReLU. exact Hwf.
Qed.

Lemma Sequential_forward_Ok sqrtQ ls : forall x y,
  nn.Sequential_forward sqrtQ ls x = Ok y -> wf x ->
  removelast (shape y) = removelast (shape x) /\
  length (shape y) = length (shape x) /\ wf y.
Proof.
  induction ls as [|l ls IH]; intros x y Hs Hwf; simpl in Hs.
  - injection Hs as <-. auto.
  - apply bind_Ok in Hs as (z & Hz & Hs).
    apply Layer_forward_Ok in Hz as (E1 & E2 & Hwz); [|exact Hwf].
    apply IH in Hs as (E3 & E4 & Hwy); [|exact Hwz].
    rewrite E3, E4. auto.
Qed.

Lemma rows_removelast {A B} (x : Tensor A) (y : Tensor B) :
  removelast (shape y) = removelast (shape x) ->
  length (shape y) = length (shape x) -> 2 <= length (shape x) ->
  rows y = rows x.
Proof.
  unfold rows. intros E1 E2 Hl.
  destruct (shape x) as [|a [|b sx]]; simpl in Hl; try lia.
  destruct (shape y) as [|a' [|b' sy]]; simpl in E2; try lia.
  change (removelast (a' :: b' :: sy)) with (a' :: removelast (b' :: sy)) in E1.
  change (removelast (a :: b :: sx)) with (a :: removelast (b :: sx)) in E1.
  simpl. congruence.
Qed.

Lemma squeeze_last_one {A} (t : Tensor A) s :
  shape t = s ++ [1] -> shape (torch.squeeze_last t) = s.
Proof.
  intros Es. unfold torch.squeeze_last. rewrite Es, last_snoc. simpl.
  apply removelast_snoc.
Qed.

(** ** Shape of a grouping call *)

Lemma queryandgroup_shape knn_search nsample points queries feat oidx prs qrs
    use_xyz out :
  queryandgroup knn_search nsample points (Some queries) feat oidx prs qrs use_xyz
    = Ok out ->
  exists m c,
    torch.size queries 0 = Ok m /\ torch.size feat 1 = Ok c /\ wf out /\
    contig points = true /\ contig queries = true /\ contig feat = true /\
    shape out = (if use_xyz then [m; nsample; 3 + c] else [m; nsample; c]).
Proof.
  intros Hq. apply queryandgroup_inv in Hq
    as (idx & flat & g & gx & q1 & gx' & g2 & gf & n & m & c &
        _ & Hc1 & Hc2 & Hc3 & _ & Hm & Hc & _ & _ & Hgx & _ & Hsub & Hg2 & Hgf & Hout).
  exists m, c. split; [exact Hm|]. split; [exact Hc|].
  destruct (view_Ok _ _ _ Hgx) as (Esgx & _).
  destruct (view_Ok _ _ _ Hgf) as (Esgf & Edgf & Hnum & _).
  destruct (map2__Ok _ _ _ _ Hsub) as (Esgx' & _).
  destruct use_xyz.
  - apply cat2_Ok in Hout as (Es & Hwf & _).
    rewrite Esgx', Esgx, Esgf in Es. repeat split; auto.
  - injection Hout as <-. repeat split; auto.
    apply index_rows_Ok in Hg2 as (? & ? & ? & _ & _ & _ & Hwf2 & _).
    unfold wf, numel in *. rewrite Edgf, Hwf2, Esgf. symmetry. exact Hnum.
Qed.
(** ** TransitionDown: the coarsened row splits *)

Lemma new_splits_loop_Ok s rs range : forall count acc nrs,
  new_splits_loop s rs range count acc = Ok nrs ->
  last acc = Some count ->
  exists new,
    nrs = acc ++ new /\ length new = length range /\
    forall p i, range !! p = Some i ->
      exists a b prev cur,
        rs !! i = Some a /\ rs !! (i - 1) = Some b /\
        nrs !! (length acc + p - 1) = Some prev /\
        nrs !! (length acc + p) = Some cur /\
        cur = (prev + (a - b) / s)%Z.
Proof.
  induction range as [|i range IH]; intros count acc nrs Hl Hlast; simpl in Hl.
  - injection Hl as <-. exists []. rewrite app_nil_r. repeat split; auto.
    intros p i Hp. rewrite lookup_nil in Hp. discriminate.
  - apply bind_Ok in Hl as (a & Ha & Hl). apply bind_Ok in Hl as (b & Hb & Hl).
    inv_bind Hl. apply item_Ok in Ha, Hb.
    set (count' := (count + (a - b) / s)%Z) in *.
    apply IH in Hl as (new & -> & Hlen & Hstep); [|apply last_snoc].
    exists (count' :: new). rewrite <- app_assoc. simpl.
    split; [reflexivity|]. split; [lia|].
    assert (Hacc : acc <> []) by (intros ->; discriminate).
    assert (Hlacc : 0 < length acc) by (destruct acc; simpl; [congruence | lia]).
    intros p j Hp. destruct p as [|p]; simpl in Hp.
    + injection Hp as <-. exists a, b, count, count'.
      repeat split; auto.
      * rewrite lookup_app_l by lia. rewrite last_lookup in Hlast.
        replace (length acc + 0 - 1) with (pred (length acc)) by lia. exact Hlast.
      * rewrite lookup_app_r by lia.
        replace (length acc + 0 - length acc) with 0 by lia. reflexivity.
    + destruct (Hstep p j Hp) as (a' & b' & prev & cur & H1 & H2 & H3 & H4 & H5).
      rewrite length_app in H3, H4. simpl in H3, H4.
      rewrite <- app_assoc in H3, H4. simpl in H3, H4.
      exists a', b', prev, cur. repeat split; auto.
      * replace (length acc + S p - 1) with (length acc + 1 + p - 1) by lia. exact H3.
      * replace (length acc + S p) with (length acc + 1 + p) by lia. exact H4.
Qed.

(** The row splits that [TransitionDown] derives for a stride [s]: as many
    entries as the input, the first one 0, and in every cloud the count of
    the input divided by the stride, rounded down. *)
Lemma new_row_splits_spec s rs nrs n :
  (0 < s)%Z -> valid_splits rs n ->
  new_splits_loop s rs (seq 1 (length rs - 1)) 0 [0%Z] = Ok nrs ->
  length nrs = length rs /\
  nrs !! 0 = Some 0%Z /\
  (forall i a b, cloud rs i a b ->
     exists a' b', cloud nrs i a' b' /\ (b' - a' = (b - a) / s)%Z) /\
  nondecreasing nrs /\
  exists m, valid_splits nrs m.
Proof.
  intros Hs Hv Hl.
  assert (Hlen0 : 0 < length rs).
  { destruct Hv as (H0 & _). apply lookup_lt_Some in H0. exact H0. }
  apply new_splits_loop_Ok in Hl as (new & -> & Hlen & Hstep); [|reflexivity].
  rewrite length_seq in Hlen.
  assert (Hclouds : forall i a b, cloud rs i a b ->
            exists a' b', cloud ([0%Z] ++ new) i a' b' /\ (b' - a' = (b - a) / s)%Z).
  { intros i a b [Ha Hb].
    assert (Hi : i < length rs - 1) by (apply lookup_lt_Some in Hb; lia).
    assert (Hp : seq 1 (length rs - 1) !! i = Some (1 + i)) by (apply lookup_seq; lia).
    destruct (Hstep i (1 + i) Hp) as (a1 & b1 & prev & cur & H1 & H2 & H3 & H4 & H5).
    replace (1 + i - 1) with i in H2 by lia.
    replace (1 + i) with (i + 1) in H1 by lia.
    rewrite Hb in H1. rewrite Ha in H2. injection H1 as <-. injection H2 as <-.
    exists prev, cur. simpl length in H3, H4.
    replace (1 + i - 1) with i in H3 by lia.
    replace (1 + i) with (i + 1) in H4 by lia.
    split; [split; assumption | lia]. }
  assert (Hnd : nondecreasing ([0%Z] ++ new)).
  { intros i a' b' Ha' Hb'.
    assert (Hi : i + 1 < length rs).
    { apply lookup_lt_Some in Hb'. rewrite length_app in Hb'. simpl in Hb'. lia. }
    destruct (lookup_lt_is_Some_2 rs i ltac:(lia)) as [a Ha].
    destruct (lookup_lt_is_Some_2 rs (i + 1) Hi) as [b Hb].
    destruct (Hclouds i a b (conj Ha Hb)) as (a1 & b1 & [H1 H2] & Hd).
    rewrite Ha' in H1. rewrite Hb' in H2. injection H1 as <-. injection H2 as <-.
    destruct (valid_splits_cloud _ _ _ _ _ Hv (conj Ha Hb)) as [Hab _].
    assert (0 <= (b - a) / s)%Z by (apply Z.div_pos; lia). lia. }
  split; [rewrite length_app; simpl; lia|].
  split; [reflexivity|]. split; [exact Hclouds|]. split; [exact Hnd|].
  destruct (last ([0%Z] ++ new)) as [e|] eqn:El.
  - assert (0 <= e)%Z.
    { apply last_lookup_length in El.
      apply (nondecreasing_le _ 0 (length ([0%Z] ++ new) - 1) 0%Z e Hnd);
        [lia | reflexivity | exact El]. }
    exists (Z.to_nat e). split; [reflexivity|]. split; [|exact Hnd].
    rewrite Z2Nat.id by assumption. exact El.
  - apply last_None in El. discriminate.
Qed.

Lemma Z_div_le_self a s : (0 <= a)%Z -> (0 < s)%Z -> (a / s <= a)%Z.
Proof. intros Ha Hs. apply Z.div_le_upper_bound; nia. Qed.
Lemma size0_rows {A} (t : Tensor A) m : torch.size t 0 = Ok m -> rows t = m.
Proof.
  intros Hs. apply size_Ok in Hs. unfold rows.
  destruct (shape t); simpl in *; congruence.
Qed.

Section Blocks.
Variables sqrtQ expQ : Q -> Q.
Variable knn_search : Tensor Q -> Tensor Q -> nat -> res (Tensor Z * Tensor Q).
Variable furthest_point_sample_v2 :
  Tensor Q -> list Z -> list Z -> res (Tensor Z).

(** The steps of the subsampling path of [TransitionDown]. *)
Lemma TransitionDown_strided_inv self point feat rs point' feat' rs' :
  stride self <> 1%Z ->
  TransitionDown_forward sqrtQ knn_search furthest_point_sample_v2 self
    (point, feat, rs) = Ok (point', feat', rs') ->
  exists idx,
    new_splits_loop (stride self) rs (seq 1 (length rs - 1)) 0 [0%Z] = Ok rs' /\
    furthest_point_sample_v2 point rs rs' = Ok idx /\
    torch.index_rows point (data idx) = Ok point' /\
    shape feat' = [rows point'; nn.out_features (td_linear self)] /\
    contig point = true.
Proof.
  intros Hs Hf. unfold TransitionDown_forward in Hf.
  replace (stride self =? 1)%Z with false in Hf
    by (symmetry; apply Z.eqb_neq; exact Hs).
  simpl in Hf.
  apply bind_Ok in Hf as (nrs & Hnrs & Hf). apply bind_Ok in Hf as (idx & Hidx & Hf).
  apply bind_Ok in Hf as (np & Hnp & Hf). apply bind_Ok in Hf as (g & Hg & Hf).
  apply bind_Ok in Hf as (l & Hl & Hf). apply bind_Ok in Hf as (t & Ht & Hf).
  apply bind_Ok in Hf as (b & Hb & Hf). apply bind_Ok in Hf as (p & Hp & Hf).
  injection Hf as <- <- <-.
  exists idx. repeat split; auto.
  - apply queryandgroup_shape in Hg as (m & c & Hm & _ & _ & _ & _ & _ & Esg).
    apply size0_rows in Hm. rewrite Hm.
    apply Linear_forward_Ok in Hl as (Esl & _). rewrite Esg in Esl. simpl in Esl.
    apply transpose12_Ok in Ht as (Est & _). rewrite Esl in Est. simpl in Est.
    apply BatchNorm1d_forward_Ok in Hb as (Esb & _). rewrite Est in Esb.
    apply MaxPool1d_forward_Ok in Hp as (n1 & c1 & len & Esr & Esp & Hk & _).
    rewrite shape_ReLU, Esb in Esr. injection Esr as <- <- <-.
    rewrite Nat.div_same in Esp by exact Hk.
    apply (squeeze_last_one p [m; nn.out_features (td_linear self)]). exact Esp.
  - apply queryandgroup_shape in Hg as (_ & _ & _ & _ & _ & Hc & _). exact Hc.
Qed.

(** The path of [TransitionDown] without subsampling. *)
Lemma TransitionDown_unit_inv self point feat rs point' feat' rs' :
  stride self = 1%Z ->
  TransitionDown_forward sqrtQ knn_search furthest_point_sample_v2 self
    (point, feat, rs) = Ok (point', feat', rs') ->
  point' = point /\ rs' = rs /\
  shape feat' = removelast (shape feat) ++ [nn.out_features (td_linear self)] /\
  2 <= length (shape feat) /\ rows feat' = rows feat.
Proof.
  intros Hs Hf. unfold TransitionDown_forward in Hf. rewrite Hs in Hf.
  simpl in Hf.
  apply bind_Ok in Hf as (l & Hl & Hf). apply bind_Ok in Hf as (b & Hb & Hf).
  injection Hf as <- <- <-.
  apply Linear_forward_Ok in Hl as (Esl & _ & Hlast & _).
  apply BatchNorm1d_forward_Ok in Hb as (Esb & _ & _ & Hrank & _).
  rewrite shape_ReLU, Esb, Esl.
  assert (Hlen : length (shape l) = length (shape feat)).
  { rewrite Esl, length_app. simpl.
    destruct (shape feat) as [|d ds] eqn:E; [discriminate|].
    pose proof (@app_removelast_last _ (d :: ds) 0 ltac:(discriminate)) as Hsplit.
    rewrite Hsplit at 2. rewrite length_app. simpl. lia. }
  assert (Hr : 2 <= length (shape feat)) by lia.
  repeat split; auto.
  apply rows_removelast; [|rewrite shape_ReLU, Esb; exact Hlen | exact Hr].
  rewrite shape_ReLU, Esb, Esl. apply removelast_snoc.
Qed.

(** The shape of what the attention layer returns: one row per point, as
    many channels as the value projection produces. *)
Lemma Transformer_forward_shape self point feat rs out n c :
  shape feat = [n; c] ->
  Transformer_forward sqrtQ expQ knn_search self (point, feat, rs) = Ok out ->
  shape out = [rows point; nn.out_features (linear_v self)] /\
  c = nn.in_features (linear_v self) /\ contig out = true.
Proof.
  intros Ef Hf. unfold Transformer_forward in Hf.
  apply bind_Ok in Hf as (fq & Hfq & Hf). apply bind_Ok in Hf as (fk & Hfk & Hf).
  apply bind_Ok in Hf as (fv & Hfv & Hf). apply bind_Ok in Hf as (gk & Hgk & Hf).
  apply bind_Ok in Hf as (gv & Hgv & Hf).
  do 4 (apply bind_Ok in Hf as (? & _ & Hf)).
  apply bind_Ok in Hf as (? & _ & Hf). inv_bind Hf.
  do 7 (apply bind_Ok in Hf as (? & _ & Hf)).
  apply bind_Ok in Hf as ([[n' ns] c'] & Hsv & Hf). inv_bind Hf.
  do 5 (apply bind_Ok in Hf as (? & _ & Hf)).
  apply view_Ok in Hf as (Es & _ & _ & Hc).
  apply Linear_forward_Ok in Hfv as (Esv & _ & Hlast & _).
  rewrite Ef in Esv, Hlast. simpl in Esv, Hlast. injection Hlast as Hc'.
  apply queryandgroup_shape in Hgv as (m & cv & Hm & Hcv & _ & _ & _ & _ & Esg).
  apply size0_rows in Hm. apply size_Ok in Hcv. rewrite Esv in Hcv.
  simpl in Hcv. injection Hcv as <-.
  rewrite Esg in Hsv. injection Hsv as <- <- <-.
  rewrite Es, Hm. auto.
Qed.

Lemma Bottleneck_forward_shape self point feat rs point' feat' rs' n c :
  shape feat = [n; c] ->
  Bottleneck_forward sqrtQ expQ knn_search self (point, feat, rs)
    = Ok (point', feat', rs') ->
  point' = point /\ rs' = rs /\
  shape feat' = [rows point; nn.out_features (linear3 self)].
Proof.
  intros Ef Hf. unfold Bottleneck_forward in Hf.
  apply bind_Ok in Hf as (l1 & Hl1 & Hf). apply bind_Ok in Hf as (b1 & Hb1 & Hf).
  apply bind_Ok in Hf as (t & Ht & Hf). apply bind_Ok in Hf as (b2 & Hb2 & Hf).
  apply bind_Ok in Hf as (l3 & Hl3 & Hf). apply bind_Ok in Hf as (b3 & Hb3 & Hf).
  apply bind_Ok in Hf as (r & Hr & Hf). injection Hf as <- <- <-.
  apply Linear_forward_Ok in Hl1 as (Esl1 & _). rewrite Ef in Esl1. simpl in Esl1.
  apply BatchNorm1d_forward_Ok in Hb1 as (Esb1 & _).
  apply Transformer_forward_shape with (n := n) (c := nn.out_features (linear1 self))
    in Ht as (Est & _); [|rewrite shape_ReLU, Esb1; exact Esl1].
  apply BatchNorm1d_forward_Ok in Hb2 as (Esb2 & _).
  apply Linear_forward_Ok in Hl3 as (Esl3 & _).
  rewrite shape_ReLU, Esb2, Est in Esl3. simpl in Esl3.
  apply BatchNorm1d_forward_Ok in Hb3 as (Esb3 & _).
  destruct (map2__Ok _ _ _ _ Hr) as (Esr & _).
  rewrite shape_ReLU, Esr, Esb3, Esl3. auto.
Qed.

End Blocks.

Lemma valid_pxo_invariant pxo : valid_pxo pxo -> pxo_invariant pxo.
Proof.
  destruct pxo as [[point feat] rs]. intros (n & c & Ep & Ef & _ & Hl & _).
  unfold pxo_invariant, rows. rewrite Ep, Ef. simpl. auto.
Qed.

(** Every row of a buffer lies in exactly one cloud of its row splits. *)
Lemma cloud_of_row rs n j :
  valid_splits rs n -> j < n ->
  exists i a b, cloud rs i a b /\ (a <= Z.of_nat j < b)%Z.
Proof.
  intros Hv Hj.
  assert (Hgo : forall k i a, length rs - 1 - i = k -> rs !! i = Some a ->
            (a <= Z.of_nat j)%Z ->
            exists i a b, cloud rs i a b /\ (a <= Z.of_nat j < b)%Z).
  { induction k as [|k IH]; intros i a Hk Ha Hle.
    - exfalso. pose proof Hv as (_ & Hl & _). apply last_lookup_length in Hl.
      apply lookup_lt_Some in Ha as Hlt.
      replace (length rs - 1) with i in Hl by lia.
      rewrite Ha in Hl. injection Hl as ->. lia.
    - destruct (lookup_lt_is_Some_2 rs (i + 1) ltac:(lia)) as [b Hb].
      destruct (Z.lt_ge_cases (Z.of_nat j) b) as [Hlt|Hge].
      + exists i, a, b. split; [split; assumption | lia].
      + apply (IH (i + 1) b); [lia | exact Hb | lia]. }
  destruct Hv as (H0 & Hrest).
  apply (Hgo (length rs - 1 - 0) 0 0%Z); [reflexivity | exact H0 | lia].
Qed.

Lemma sumQ_cons x l : torch.sumQ (x :: l) = (x + torch.sumQ l)%Q.
Proof. reflexivity. Qed.

Lemma sqdist_self p : (sqdist p p == 0)%Q.
Proof.
  unfold sqdist. induction p as [|x p IH]; simpl; [reflexivity|].
  rewrite IH. ring.
Qed.

Lemma row_eq (t t' : Tensor Q) r r' w :
  nth 1 (shape t) 0 = w -> nth 1 (shape t') 0 = w ->
  (forall ch, ch < w -> get t [r; ch] = get t' [r'; ch]) ->
  row t r = row t' r'.
Proof.
  intros E E' Hget. unfold row. rewrite E, E'.
  apply map_ext_in. intros ch Hch. apply in_seq in Hch. apply Hget. lia.
Qed.

(** ** Sums along row splits *)

Lemma telescope_take rs n lens :
  valid_splits rs n ->
  (forall i a b, cloud rs i a b -> lens !! i = Some (Z.to_nat (b - a))) ->
  forall i a, rs !! i = Some a -> sum_list (take i lens) = Z.to_nat a.
Proof.
  intros Hv Hlens. induction i as [|i IH]; intros a Ha.
  - destruct Hv as (H0 & _). rewrite H0 in Ha. injection Ha as <-.
    rewrite take_0. reflexivity.
  - assert (Hlt : i < length rs) by (apply lookup_lt_Some in Ha; lia).
    destruct (lookup_lt_is_Some_2 rs i Hlt) as [a0 Ha0].
    assert (Hc : cloud rs i a0 a) by (split; [exact Ha0 | rewrite Nat.add_1_r; exact Ha]).
    destruct (valid_splits_cloud _ _ _ _ _ Hv Hc) as [H1 H2].
    rewrite (take_S_r _ _ _ (Hlens _ _ _ Hc)), sum_list_snoc, (IH _ Ha0). lia.
Qed.

Lemma length_concat_take {A} (bs : list (list A)) i :
  length (concat (take i bs)) = sum_list (take i (map length bs)).
Proof.
  revert i. induction bs as [|b bs IH]; intros [|i]; simpl; try reflexivity.
  rewrite length_app, IH. reflexivity.
Qed.

(** ** The reference primitives meet their contracts *)

Lemma insert_by_Forall (P : Q * nat -> Prop) x l :
  P x -> Forall P l -> Forall P (insert_by x l).
Proof.
  intros Hx Hl. induction Hl as [|y l Hy Hl IH]; simpl.
  - constructor; [exact Hx | constructor].
  - destruct (Qle_bool (fst x) (fst y)); repeat constructor; assumption.
Qed.

Lemma sort_by_Forall (P : Q * nat -> Prop) l : Forall P l -> Forall P (sort_by l).
Proof.
  intros Hl. induction Hl as [|x l Hx Hl IH]; simpl; [constructor|].
  apply insert_by_Forall; assumption.
Qed.

Lemma insert_by_length x l : length (insert_by x l) = S (length l).
Proof.
  induction l as [|y l IH]; simpl; [reflexivity|].
  destruct (Qle_bool (fst x) (fst y)); simpl; [reflexivity | rewrite IH; reflexivity].
Qed.

Lemma sort_by_length l : length (sort_by l) = length l.
Proof.
  induction l as [|x l IH]; simpl; [reflexivity|].
  rewrite insert_by_length, IH. reflexivity.
Qed.

Lemma sumQ_nonneg l : Forall (fun x => (0 <= x)%Q) l -> (0 <= torch.sumQ l)%Q.
Proof.
  intros Hl. induction Hl as [|x l Hx Hl IH]; simpl.
  - apply Qle_refl.
  - replace 0%Q with (0 + 0)%Q by reflexivity. apply Qplus_le_compat; assumption.
Qed.

Lemma Qsquare_nonneg (x : Q) : (0 <= x * x)%Q.
Proof. destruct x as [n d]. unfold Qle. simpl. nia. Qed.

Lemma sqdist_nonneg p q : (0 <= sqdist p q)%Q.
Proof.
  unfold sqdist. apply sumQ_nonneg.
  revert q. induction p as [|a p IH]; intros [|b q]; simpl; try constructor.
  - apply Qsquare_nonneg.
  - apply IH.
Qed.

Lemma nearest_Forall points q w :
  Forall (fun x => (0 <= fst x)%Q /\ snd x < hd 0 (shape points))
    (nearest points q w).
Proof.
  unfold nearest. apply Forall_take, sort_by_Forall, Forall_fmap, Forall_forall.
  intros i Hi. apply list_elem_of_In, in_seq in Hi. simpl. split; [|lia].
  apply sqdist_nonneg.
Qed.

Lemma nearest_nth points q w j :
  hd 0 (shape points) <> 0 ->
  (0 <= fst (nth j (nearest points q w) (0%Q, 0%nat)))%Q /\
  snd (nth j (nearest points q w) (0%Q, 0%nat)) < hd 0 (shape points).
Proof.
  intros Hn. pose proof (nearest_Forall points q w) as Hall.
  destruct (Nat.lt_ge_cases j (length (nearest points q w))) as [Hlt|Hge].
  - rewrite Forall_forall in Hall. apply Hall, list_elem_of_In, nth_In. exact Hlt.
  - rewrite nth_overflow by exact Hge. simpl. split; [apply Qle_refl | lia].
Qed.

Lemma Forall_tab {A} (P : A -> Prop) shp f :
  (forall ix, P (f ix)) -> Forall P (data (tab shp f)).
Proof.
  intros HP. unfold tab. simpl. apply Forall_fmap, Forall_forall.
  intros p _. apply HP.
Qed.

Lemma brute_knn_contract : knn_contract brute_knn.
Proof.
  intros points queries k idx dist Hs. unfold brute_knn in Hs.
  destruct (shape points) as [|n [|c [|? ?]]] eqn:Ep; try discriminate.
  destruct (shape queries) as [|nq [|cq [|? ?]]] eqn:Eq; try discriminate.
  inv_bind Hs. injection Hs as <- <-.
  apply andb_prop in Hg as [Hk Hn].
  apply negb_true_iff, Nat.eqb_neq in Hk, Hn.
  assert (Hhd : hd 0 (shape points) <> 0) by (rewrite Ep; exact Hn).
  exists (Nat.min k n). unfold rows. rewrite Ep, Eq. cbn [hd].
  split; [reflexivity|]. split; [reflexivity|].
  split; [apply wf_tab|]. split; [apply wf_tab|]. split; [|split].
  - apply Forall_tab. intros ix.
    pose proof (nearest_nth points (row queries (nth 0 ix 0)) (Nat.min k n)
                  (nth 1 ix 0) Hhd) as [_ Hlt].
    rewrite Ep in Hlt. simpl in Hlt. lia.
  - apply Forall_tab. intros ix.
    apply (nearest_nth points (row queries (nth 0 ix 0)) (Nat.min k n)
             (nth 1 ix 0) Hhd).
  - lia.
Qed.

Lemma brute_knn_no_assert : knn_no_assert brute_knn.
Proof.
  intros points queries k. unfold brute_knn.
  destruct (shape points) as [|n [|c [|? ?]]]; try discriminate.
  destruct (shape queries) as [|nq [|cq [|? ?]]]; try discriminate.
  destruct (negb (k =? 0) && negb (n =? 0)); discriminate.
Qed.
Lemma argmax_In f cands d : argmax f cands d = d \/ In (argmax f cands d) cands.
Proof.
  unfold argmax. revert d. induction cands as [|c cands IH]; intros d; simpl.
  - left. reflexivity.
  - destruct (Qle_bool (f c) (f d)).
    + destruct (IH d) as [->|Hin]; auto.
    + destruct (IH c) as [->|Hin]; auto.
Qed.

Lemma fps_cloud_length point cands m : forall sel,
  length (fps_cloud point cands m sel) = length sel + m.
Proof.
  induction m as [|m IH]; intros sel; simpl; [lia|].
  rewrite IH, length_app. simpl. lia.
Qed.

Lemma fps_cloud_Forall (P : nat -> Prop) point cands m : forall sel,
  Forall P cands -> cands <> [] \/ m = 0 -> Forall P sel ->
  Forall P (fps_cloud point cands m sel).
Proof.
  induction m as [|m IH]; intros sel Hc Hne Hsel; simpl; [exact Hsel|].
  destruct Hne as [Hne|Hm]; [|discriminate].
  apply IH; [exact Hc | left; exact Hne|].
  apply Forall_app. split; [exact Hsel|]. constructor; [|constructor].
  assert (Hhd : P (hd 0 cands)).
  { destruct cands as [|c cands]; [congruence|]. inversion Hc; assumption. }
  match goal with |- P (argmax ?f cands ?d) => destruct (argmax_In f cands d) as [->|Hin] end.
  - exact Hhd.
  - rewrite Forall_forall in Hc. apply Hc, list_elem_of_In. exact Hin.
Qed.

Lemma fps_reference_contract : fps_contract fps_reference.
Proof.
  intros point rs nrs idx m Hv Hvn Hlen Hle Hf.
  unfold fps_reference in Hf. injection Hf as <-.
  set (cloudf := fun i =>
         fps_cloud point
           (seq (Z.to_nat (nth i rs 0%Z))
              (Z.to_nat (nth (i + 1) rs 0%Z) - Z.to_nat (nth i rs 0%Z)))
           (Z.to_nat (nth (i + 1) nrs 0 - nth i nrs 0)%Z) []).
  rewrite flat_map_concat_map.
  set (blocks := map cloudf (seq 0 (length rs - 1))).
  assert (Hblk : forall i, i < length rs - 1 -> blocks !! i = Some (cloudf i)).
  { intros i Hi. unfold blocks. rewrite list_lookup_fmap.
    rewrite lookup_seq_lt by exact Hi. reflexivity. }
  assert (Hlens : forall i a' b', cloud nrs i a' b' ->
            map length blocks !! i = Some (Z.to_nat (b' - a'))).
  { intros i a' b' [Ha' Hb'].
    assert (Hi : i < length rs - 1) by (apply lookup_lt_Some in Hb'; lia).
    rewrite list_lookup_fmap, (Hblk i Hi). simpl. f_equal.
    unfold cloudf. rewrite fps_cloud_length. simpl.
    rewrite (nth_lookup_Some _ _ 0%Z _ Ha'), (nth_lookup_Some _ _ 0%Z _ Hb').
    reflexivity. }
  assert (Hlast : nrs !! (length rs - 1) = Some (Z.of_nat m)).
  { destruct Hvn as (_ & Hl & _). apply last_lookup_length in Hl.
    rewrite Hlen in Hl. exact Hl. }
  assert (Htotal : length (concat blocks) = m).
  { pose proof (telescope_take _ _ _ Hvn Hlens _ _ Hlast) as Hsum.
    rewrite <- (take_ge blocks (length rs - 1))
      by (unfold blocks; rewrite length_map, length_seq; lia).
    rewrite length_concat_take, Hsum. lia. }
  simpl. rewrite Htotal. split; [reflexivity|]. split.
  { unfold wf, numel. simpl. rewrite length_map, Htotal. lia. }
  intros i a b a' b' j Hc Hc' Hj.
  destruct (valid_splits_cloud _ _ _ _ _ Hv Hc) as [Hab Hbn].
  destruct (valid_splits_cloud _ _ _ _ _ Hvn Hc') as [Hab' Hbn'].
  specialize (Hle i a b a' b' Hc Hc').
  assert (Hi : i < length rs - 1).
  { destruct Hc as [_ Hb]. apply lookup_lt_Some in Hb. lia. }
  rewrite (map_nth Z.of_nat (concat blocks) 0 j : nth j (map Z.of_nat (concat blocks)) 0%Z = _).
  pose proof (telescope_take _ _ _ Hvn Hlens i a' (proj1 Hc')) as Hoff.
  rewrite <- length_concat_take in Hoff.
  replace j with (length (concat (take i blocks)) + (j - Z.to_nat a'))
    by (rewrite Hoff; lia).
  assert (Hlenb : length (cloudf i) = Z.to_nat (b' - a')).
  { specialize (Hlens i a' b' Hc'). rewrite list_lookup_fmap, (Hblk i Hi) in Hlens.
    simpl in Hlens. congruence. }
  rewrite (nth_concat_block blocks i (cloudf i)) by (auto || lia).
  assert (Hall : Forall (fun v => (a <= Z.of_nat v < b)%Z) (cloudf i)).
  { unfold cloudf. destruct Hc as [Ha Hb], Hc' as [Ha' Hb'].
    rewrite (nth_lookup_Some _ _ 0%Z _ Ha), (nth_lookup_Some _ _ 0%Z _ Hb).
    rewrite (nth_lookup_Some _ _ 0%Z _ Ha'), (nth_lookup_Some _ _ 0%Z _ Hb').
    apply fps_cloud_Forall; [| |constructor].
    - apply Forall_forall. intros v Hin. apply list_elem_of_In, in_seq in Hin. lia.
    - destruct (Z.eq_dec (b - a)%Z 0%Z) as [Hz|Hnz]; [right; lia|].
      left. intros E. apply (f_equal length) in E. rewrite length_seq in E.
      simpl in E. lia. }
  rewrite Forall_forall in Hall. apply Hall, list_elem_of_In, nth_In. lia.
Qed.

(** ** TransitionUp: the decoder head *)

Lemma get_map1 {A B} `{Inhabited A} `{Inhabited B} (f : A -> B) (t : Tensor A) ix :
  ravel (shape t) ix < length (data t) ->
  get (torch.map1 f t) ix = f (get t ix).
Proof.
  intros Hlt. unfold get, torch.map1. simpl.
  rewrite (nth_indep _ inhabitant (f inhabitant)) by (rewrite length_map; exact Hlt).
  apply map_nth.
Qed.

Lemma get_slice_rows {A} `{Inhabited A} (t t' : Tensor A) n rest a b r ix :
  shape t = n :: rest -> (0 <= a <= b)%Z -> (b <= Z.of_nat n)%Z ->
  torch.slice_rows t a b = Ok t' ->
  r < Z.to_nat (b - a) -> in_bounds rest ix ->
  shape t' = Z.to_nat (b - a) :: rest /\
  get t' (r :: ix) = get t ((Z.to_nat a + r) :: ix).
Proof.
  intros Es Hab Hbn Hs Hr Hix.
  apply slice_rows_Ok in Hs as (n' & rest' & Es' & Est & Edt & _).
  rewrite Es in Es'. injection Es' as <- <-.
  rewrite py_slice_valid in Est, Edt by assumption. simpl in Est, Edt.
  split; [exact Est|].
  unfold get. rewrite Est, Edt, Es. simpl. fold (prodn rest).
  pose proof (ravel_lt _ _ Hix) as Hrav.
  rewrite nth_firstn.
  replace (r * prodn rest + ravel rest ix <? Z.to_nat (b - a) * prodn rest) with true
    by (symmetry; apply Nat.ltb_lt; nia).
  rewrite nth_skipn. f_equal. lia.
Qed.

Lemma sum_dim0_keep_Ok t n c s :
  shape t = [n; c] -> torch.sum_dim t 0 true = Ok s ->
  shape s = [1; c] /\ wf s /\
  forall ch, ch < c ->
    get s [0; ch] = torch.sumQ (map (fun r => get t [r; ch]) (seq 0 n)).
Proof.
  intros Es Hs. unfold torch.sum_dim in Hs. inv_bind Hs. injection Hs as <-.
  rewrite Es. simpl. split; [reflexivity|]. split; [apply wf_tab|].
  intros ch Hch. rewrite get_tab by bounds. reflexivity.
Qed.

Lemma shape_of_removelast (s : list nat) a :
  removelast s = [a] -> length s = 2 -> exists w, s = [a; w].
Proof.
  destruct s as [|x [|y [|z s]]]; simpl; try discriminate; try lia.
  intros [= ->] _. eauto.
Qed.

Lemma get_repeat_rows {A} `{Inhabited A} (g rep : Tensor A) w count r ch :
  shape g = [1; w] -> wf g -> torch.repeat_rows g count = Ok rep ->
  r < count -> ch < w ->
  shape rep = [count; w] /\ get rep [r; ch] = get g [0; ch].
Proof.
  intros Es Hwf Hr Hrc Hch. unfold torch.repeat_rows in Hr. rewrite Es in Hr.
  injection Hr as <-. simpl. rewrite Nat.mul_1_r. split; [reflexivity|].
  unfold get. simpl. rewrite Es. simpl.
  unfold wf, numel in Hwf. rewrite Es in Hwf. simpl in Hwf.
  assert (Hoff : length (concat (take r (replicate count (data g)))) = r * w).
  { rewrite take_replicate, Nat.min_l by lia.
    clear Hrc. induction r as [|r IH]; simpl; [reflexivity|].
    rewrite length_app, IH. lia. }
  replace (r * (w * 1) + (ch * 1 + 0))
    with (length (concat (take r (replicate count (data g)))) + ch)
    by (rewrite Hoff; lia).
  rewrite (nth_concat_block _ r (data g)); [f_equal; lia| |lia].
  apply lookup_replicate_2. exact Hrc.
Qed.

Lemma mapM_seq_lookup {B} (f : nat -> res B) len l i :
  mapM f (seq 0 len) = Ok l -> i < len ->
  exists b, l !! i = Some b /\ f i = Ok b.
Proof.
  intros Hm Hi. apply mapM_Ok in Hm.
  assert (Hs : seq 0 len !! i = Some i) by (apply lookup_seq; lia).
  destruct (Forall2_lookup_l _ _ _ _ _ Hm Hs) as (b & Hb & Hf). eauto.
Qed.

Section Head.
Variable sqrtQ : Q -> Q.

(** What one round of the loop over the clouds builds: the rows of the
    cloud, each followed by the projection of the mean of the cloud. *)
Lemma cloud_block_Ok self feat rs i blk n c :
  valid_splits rs n -> shape feat = [n; c] ->
  cloud_block sqrtQ self feat rs i = Ok blk ->
  exists a b mean g gw,
    cloud rs i a b /\
    shape mean = [1; c] /\
    (forall ch, ch < c ->
       get mean [0; ch]
       = (torch.sumQ (map (fun r => get feat [r; ch])
                        (seq (Z.to_nat a) (Z.to_nat (b - a))))
          / inject_Z (b - a))%Q) /\
    nn.Sequential_forward sqrtQ (tu_linear2 self) mean = Ok g /\
    shape g = [1; gw] /\
    shape blk = [Z.to_nat (b - a); c + gw] /\ wf blk /\
    forall r, r < Z.to_nat (b - a) ->
      (forall ch, ch < c -> get blk [r; ch] = get feat [Z.to_nat a + r; ch]) /\
      (forall ch, ch < gw -> get blk [r; c + ch] = get g [0; ch]).
Proof.
  intros Hv Ef Hb. unfold cloud_block in Hb.
  apply bind_Ok in Hb as (a & Ha & Hb). apply bind_Ok in Hb as (b & Hb' & Hb).
  inv_bind Hb. apply bind_Ok in Hb as (fb & Hfb & Hb).
  apply bind_Ok in Hb as (total & Htot & Hb). apply bind_Ok in Hb as (g & Hg' & Hb).
  inv_bind Hb. apply bind_Ok in Hb as (rep & Hrep & Hb).
  apply item_Ok in Ha, Hb'.
  assert (Hc : cloud rs i a b) by (split; assumption).
  destruct (valid_splits_cloud _ _ _ _ _ Hv Hc) as [Hab Hbn].
  set (cnt := Z.to_nat (b - a)) in *.
  assert (Esfb : shape fb = [cnt; c]).
  { pose proof (slice_rows_Ok _ _ _ _ Hfb) as (n' & rest' & Es' & Est & _).
    rewrite Ef in Es'. injection Es' as <- <-.
    rewrite py_slice_valid in Est by assumption. exact Est. }
  assert (Hgetfb : forall r ch, r < cnt -> ch < c ->
            get fb [r; ch] = get feat [Z.to_nat a + r; ch]).
  { intros r ch Hr Hch.
    apply (get_slice_rows feat fb n [c] a b r [ch] Ef Hab Hbn Hfb Hr). bounds. }
  destruct (sum_dim0_keep_Ok _ _ _ _ Esfb Htot) as (Estot & Hwftot & Hgettot).
  set (mean := torch.map1 (fun v => (v / inject_Z (b - a))%Q) total) in *.
  assert (Hwfm : wf mean) by (apply wf_map1; exact Hwftot).
  destruct (Sequential_forward_Ok _ _ _ _ Hg' Hwfm) as (Er & El & Hwfg).
  change (shape mean) with (shape total) in Er, El. rewrite Estot in Er, El.
  simpl in Er, El.
  destruct (shape_of_removelast _ _ Er El) as [gw Esg].
  pose proof (cat2_Ok _ _ _ _ Hb) as (Esb & Hwfb & _ & Hgetb).
  assert (Esrep : shape rep = [cnt; gw]).
  { unfold torch.repeat_rows in Hrep. rewrite Esg in Hrep. injection Hrep as <-.
    simpl. rewrite Nat.mul_1_r. reflexivity. }
  rewrite Esfb, Esrep in Esb. simpl in Esb.
  rewrite Esfb in Hgetb. simpl in Hgetb.
  exists a, b, mean, g, gw.
  split; [exact Hc|]. split; [exact Estot|]. split.
  { intros ch Hch. unfold mean. rewrite get_map1.
    - rewrite Hgettot by exact Hch.
      assert (Hmap : map (fun r => get fb [r; ch]) (seq 0 cnt)
                     = map (fun r => get feat [r; ch]) (seq (Z.to_nat a) cnt)).
      { replace (seq (Z.to_nat a) cnt) with (map (Nat.add (Z.to_nat a)) (seq 0 cnt))
          by (pose proof (fmap_add_seq (Z.to_nat a) 0 cnt) as E;
              rewrite Nat.add_0_r in E; exact E).
        rewrite map_map. apply map_ext_in. intros r Hr.
        apply in_seq in Hr. apply Hgetfb; [lia | exact Hch]. }
      rewrite Hmap. reflexivity.
    - unfold wf, numel in Hwftot. rewrite Hwftot, Estot. simpl. lia. }
  split; [exact Hg'|]. split; [exact Esg|]. split; [exact Esb|].
  split; [exact Hwfb|].
  intros r Hr. split.
  - intros ch Hch. rewrite Hgetb by (rewrite Esb; bounds). simpl.
    replace (ch <? c) with true by (symmetry; apply Nat.ltb_lt; exact Hch).
    apply Hgetfb; assumption.
  - intros ch Hch. rewrite Hgetb by (rewrite Esb; bounds).
    change (nth 1 [r; c + ch] 0) with (c + ch).
    replace (c + ch <? c) with false by (symmetry; apply Nat.ltb_ge; lia).
    replace (c + ch - c) with ch by lia.
    change (<[1 := ch]> [r; c + ch]) with [r; ch].
    apply (get_repeat_rows g rep gw cnt r ch Esg Hwfg Hrep Hr Hch).
Qed.

End Head.

(** ** Interpolation *)

Lemma broadcast_col n c : torch.broadcast_shapes [n; c] [n; 1] = Ok [n; c].
Proof.
  unfold torch.broadcast_shapes. simpl. rewrite Nat.eqb_refl. simpl.
  destruct (c =? 1) eqn:E; [|reflexivity].
  apply Nat.eqb_eq in E. subst c. reflexivity.
Qed.

Lemma broadcast_same n c : torch.broadcast_shapes [n; c] [n; c] = Ok [n; c].
Proof.
  unfold torch.broadcast_shapes. simpl. rewrite ?Nat.eqb_refl. simpl.
  rewrite ?Nat.eqb_refl. reflexivity.
Qed.

Lemma bix_same n c q j : q < n -> j < c -> torch.bix [n; c] [q; j] = [q; j].
Proof.
  intros Hq Hj. unfold torch.bix. simpl.
  destruct (n =? 1) eqn:En; destruct (c =? 1) eqn:Ec;
    try apply Nat.eqb_eq in En; try apply Nat.eqb_eq in Ec;
    repeat f_equal; lia.
Qed.

Lemma bix_col n q j : q < n -> torch.bix [n; 1] [q; j] = [q; 0].
Proof.
  intros Hq. unfold torch.bix. simpl.
  destruct (n =? 1) eqn:En; try apply Nat.eqb_eq in En; repeat f_equal; lia.
Qed.

Lemma map2_Ok {A B C} `{Inhabited A} `{Inhabited B} `{Inhabited C}
    (f : A -> B -> C) a b r :
  torch.map2 f a b = Ok r ->
  exists shp,
    torch.broadcast_shapes (shape a) (shape b) = Ok shp /\
    shape r = shp /\ wf r /\
    forall ix, in_bounds shp ix ->
      get r ix = f (get a (torch.bix (shape a) ix)) (get b (torch.bix (shape b) ix)).
Proof.
  unfold torch.map2. intros Hm. apply bind_Ok in Hm as (shp & Hs & Hm).
  injection Hm as <-. exists shp. split; [exact Hs|]. split; [reflexivity|].
  split; [apply wf_tab|]. intros ix Hix. rewrite get_tab by exact Hix. reflexivity.
Qed.

Lemma reshape_rows_Ok {A} (t t' : Tensor A) w :
  torch.reshape_rows t w = Ok t' ->
  shape t' = [numel t / w; w] /\ data t' = data t.
Proof.
  unfold torch.reshape_rows. intros Hr. inv_bind Hr. injection Hr as <-. auto.
Qed.

Lemma select_col_Ok {A} `{Inhabited A} (t col : Tensor A) n w i :
  shape t = [n; w] -> torch.select_col t i = Ok col ->
  i < w /\ shape col = [n] /\ length (data col) = n /\
  forall q, q < n -> nth q (data col) inhabitant = get t [q; i].
Proof.
  intros Es Hs. unfold torch.select_col in Hs. rewrite Es in Hs.
  inv_bind Hs. injection Hs as <-. apply Nat.ltb_lt in Hg.
  split; [exact Hg|]. split; [reflexivity|]. simpl. split.
  - rewrite length_map, length_seq. lia.
  - intros q Hq. rewrite nth_map_seq by (simpl; lia).
    unfold unravel, prodn. cbn [fold_right app].
    change (fst (Nat.divmod q 0 0 0)) with (q / 1). rewrite Nat.div_1_r. reflexivity.
Qed.

Lemma sum_dim1_keep_Ok t n w s :
  shape t = [n; w] -> torch.sum_dim t 1 true = Ok s ->
  shape s = [n; 1] /\
  forall q, q < n ->
    get s [q; 0] = torch.sumQ (map (fun j => get t [q; j]) (seq 0 w)).
Proof.
  intros Es Hs. unfold torch.sum_dim in Hs. inv_bind Hs. injection Hs as <-.
  rewrite Es. simpl. split; [reflexivity|].
  intros q Hq. rewrite get_tab by bounds. reflexivity.
Qed.

Lemma get_zeros shp ix : in_bounds shp ix -> get (torch.zeros shp) ix = 0%Q.
Proof. intros Hix. unfold torch.zeros. rewrite get_tab by exact Hix. reflexivity. Qed.

Lemma recip_pos dist q j : (0 <= get dist [q; j])%Q -> (0 < recip dist q j)%Q.
Proof.
  intros Hd. unfold recip, Qdiv. rewrite Qmult_1_l.
  apply Qinv_lt_0_compat.
  assert (0 < epsilon)%Q by reflexivity. lra.
Qed.

Lemma weights_sum_to_one dist q :
  (forall j, j < 3 -> (0 <= get dist [q; j])%Q) ->
  (weight_of dist q 0%nat + weight_of dist q 1%nat + weight_of dist q 2%nat == 1)%Q.
Proof.
  intros Hd. unfold weight_of.
  pose proof (recip_pos dist q 0 (Hd 0 ltac:(lia))) as H0.
  pose proof (recip_pos dist q 1 (Hd 1 ltac:(lia))) as H1.
  pose proof (recip_pos dist q 2 (Hd 2 ltac:(lia))) as H2.
  assert (Hn : ~ (norm_of dist q == 0)%Q) by (unfold norm_of; lra).
  unfold norm_of in *. field. lra.
Qed.
Lemma interpolation_step feat idx weight nf out n c nq i range :
  shape feat = [n; c] -> shape idx = [nq; 3] ->
  shape weight = [nq; 3] -> shape nf = [nq; c] ->
  interpolation_loop feat idx weight (i :: range) nf = Ok out ->
  exists nf',
    interpolation_loop feat idx weight range nf' = Ok out /\
    shape nf' = [nq; c] /\
    forall q, q < nq ->
      exists ii, py_index n (get idx [q; i]) = Ok ii /\
        forall ch, ch < c ->
          get nf' [q; ch]
          = (get nf [q; ch] + get feat [ii; ch] * get weight [q; i])%Q.
Proof.
  intros Ef Ei Ew En Hl. simpl in Hl.
  apply bind_Ok in Hl as (col & Hcol & Hl). apply bind_Ok in Hl as (rws & Hrows & Hl).
  apply bind_Ok in Hl as (wcol & Hwcol & Hl). apply bind_Ok in Hl as (w1 & Hw1 & Hl).
  apply bind_Ok in Hl as (term & Hterm & Hl). apply bind_Ok in Hl as (nf' & Hnf' & Hl).
  destruct (select_col_Ok _ _ _ _ _ Ei Hcol) as (Hi & Escol & Hlcol & Hgcol).
  destruct (select_col_Ok _ _ _ _ _ Ew Hwcol) as (_ & Eswcol & Hlwcol & Hgwcol).
  apply index_rows_Ok in Hrows as (n1 & rest & is_ & Es1 & Hall & Esr & _ & _ & Hgr).
  rewrite Ef in Es1. injection Es1 as <- <-. rewrite Hlcol in Esr, Hgr.
  destruct (unsqueeze_Ok _ _ _ Hw1) as (Esw1 & Edw1).
  rewrite Eswcol in Esw1. simpl in Esw1.
  destruct (map2_Ok _ _ _ _ Hterm) as (shp & Hshp & Est & _ & Hgt).
  rewrite Esr, Esw1, broadcast_col in Hshp. injection Hshp as <-.
  rewrite Esr, Esw1 in Hgt.
  destruct (map2__Ok _ _ _ _ Hnf') as (Esn' & _ & _ & Hgn).
  rewrite En in Esn', Hgn. rewrite Est in Hgn.
  exists nf'. split; [exact Hl|]. split; [exact Esn'|].
  intros q Hq.
  assert (Hql : q < length (data col)) by lia.
  destruct (lookup_lt_is_Some_2 (data col) q Hql) as [v Hv].
  destruct (Forall2_lookup_l _ _ _ _ _ Hall Hv) as (ii & Hii & Hpy).
  exists ii. split.
  { rewrite <- (Hgcol q Hq). rewrite (nth_lookup_Some _ _ _ _ Hv). exact Hpy. }
  intros ch Hch.
  rewrite Hgn by bounds. rewrite bix_same by assumption.
  rewrite Hgt by bounds. rewrite bix_same, bix_col by assumption.
  rewrite Hgr by (lia || bounds). rewrite (nth_lookup_Some _ _ 0 _ Hii).
  f_equal. f_equal.
  rewrite <- (Hgwcol q Hq). unfold get. rewrite Esw1, Edw1, ravel_2.
  f_equal. lia.
Qed.

Section Interpolation.
Variable knn_search : Tensor Q -> Tensor Q -> nat -> res (Tensor Z * Tensor Q).
Hypothesis Hknn : knn_contract knn_search.

Lemma interpolation_Ok points queries feat prs qrs out c :
  valid_splits prs (rows points) -> valid_splits qrs (rows queries) ->
  (forall i a b, cloud prs i a b -> (3 <= b - a)%Z) ->
  shape feat = [rows points; c] ->
  interpolation knn_search points queries feat prs qrs 3 = Ok out ->
  exists idx dist,
    knn_batch knn_search points queries 3 prs qrs true = Ok (idx, Some dist) /\
    shape idx = [rows queries; 3] /\ shape dist = [rows queries; 3] /\
    shape out = [rows queries; c] /\
    forall q, q < rows queries ->
      (weight_of dist q 0%nat + weight_of dist q 1%nat + weight_of dist q 2%nat
       == 1)%Q /\
      (forall i a b qa qb j,
         cloud prs i a b -> cloud qrs i qa qb -> (qa <= Z.of_nat q < qb)%Z ->
         j < 3 -> (a <= get idx [q; j] < b)%Z) /\
      forall ch, ch < c ->
        (get out [q; ch]
         == get feat [Z.to_nat (get idx [q; 0%nat]); ch] * weight_of dist q 0%nat
            + get feat [Z.to_nat (get idx [q; 1%nat]); ch] * weight_of dist q 1%nat
            + get feat [Z.to_nat (get idx [q; 2%nat]); ch] * weight_of dist q 2%nat)%Q.
Proof.
  intros Hvp Hvq Hbig Ef Hi. unfold interpolation in Hi.
  inv_bind Hi. apply bind_Ok in Hi as ([idx od] & Hk & Hi). cbn [fst snd] in Hi.
  apply bind_Ok in Hi as (dist & Hd & Hi).
  apply bind_Ok in Hi as (idx3 & Hidx3 & Hi). apply bind_Ok in Hi as (dist3 & Hdist3 & Hi).
  apply bind_Ok in Hi as (nrm & Hnrm & Hi). apply bind_Ok in Hi as (weight & Hw & Hi).
  apply bind_Ok in Hi as (nq & Hnq & Hi). apply bind_Ok in Hi as (c' & Hc' & Hi).
  destruct (knn_batch_rows knn_search Hknn _ _ _ _ _ _ _ _ Hvp Hvq Hk)
    as (w & Hlen & Esi & Hwfi & (d & -> & Esd & Hwfd & Hpos) & Hwk & Hin).
  simpl in Hd. injection Hd as <-.
  (* three neighbours per query *)
  assert (w = 3) as ->.
  { destruct (lookup_lt_is_Some_2 prs 0 ltac:(lia)) as [a Ha].
    destruct (lookup_lt_is_Some_2 prs 1 ltac:(lia)) as [b Hb].
    assert (Hc : cloud prs 0 a b) by (split; assumption).
    apply (Hwk 0 a b Hc). specialize (Hbig 0 a b Hc). lia. }
  apply size0_rows in Hnq. subst nq.
  apply size_Ok in Hc'. rewrite Ef in Hc'. simpl in Hc'. injection Hc' as <-.
  set (nq := rows queries) in *.
  destruct (reshape_rows_Ok _ _ _ Hidx3) as (Esi3 & Edi3).
  destruct (reshape_rows_Ok _ _ _ Hdist3) as (Esd3 & Edd3).
  unfold numel in Esi3, Esd3. rewrite Esi in Esi3. rewrite Esd in Esd3.
  change (prodn [nq; 3]) with (nq * (3 * 1)) in Esi3, Esd3.
  replace (nq * (3 * 1) / 3) with nq in Esi3, Esd3
    by (rewrite Nat.mul_1_r, Nat.div_mul; lia).
  assert (Hgi3 : forall ix, get idx3 ix = get idx ix)
    by (intros ix; apply get_eq; [rewrite Esi3, Esi; reflexivity | exact Edi3]).
  assert (Hgd3 : forall ix, get dist3 ix = get d ix)
    by (intros ix; apply get_eq; [rewrite Esd3, Esd; reflexivity | exact Edd3]).
  set (dr := torch.map1 (fun x => (1 / (x + epsilon))%Q) dist3) in *.
  assert (Esdr : shape dr = [nq; 3]) by exact Esd3.
  assert (Hgdr : forall q j, q < nq -> j < 3 -> get dr [q; j] = recip d q j).
  { intros q j Hq Hj. unfold dr. rewrite get_map1.
    - unfold recip. rewrite Hgd3. reflexivity.
    - rewrite Esd3, Edd3, ravel_2. unfold wf, numel in Hwfd.
      rewrite Hwfd, Esd. simpl. lia. }
  destruct (sum_dim1_keep_Ok _ _ _ _ Esdr Hnrm) as (Esn & Hgn).
  destruct (map2_Ok _ _ _ _ Hw) as (shp & Hshp & Esw & _ & Hgw).
  rewrite Esdr, Esn, broadcast_col in Hshp. injection Hshp as <-.
  rewrite Esdr, Esn in Hgw.
  assert (Hweight : forall q j, q < nq -> j < 3 -> get weight [q; j] = weight_of d q j).
  { intros q j Hq Hj. rewrite Hgw by bounds.
    rewrite bix_same, bix_col by assumption.
    rewrite Hgn by exact Hq. unfold weight_of, norm_of. simpl.
    rewrite !Hgdr by lia. reflexivity. }
  (* the three rounds of the loop *)
  change (seq 0 3) with [0; 1; 2] in Hi.
  assert (Esz : shape (torch.zeros [nq; c]) = [nq; c]) by reflexivity.
  destruct (interpolation_step _ _ _ _ _ _ _ _ _ _ Ef Esi3 Esw Esz Hi)
    as (nf1 & Hi1 & Es1 & Hs1).
  destruct (interpolation_step _ _ _ _ _ _ _ _ _ _ Ef Esi3 Esw Es1 Hi1)
    as (nf2 & Hi2 & Es2 & Hs2).
  destruct (interpolation_step _ _ _ _ _ _ _ _ _ _ Ef Esi3 Esw Es2 Hi2)
    as (nf3 & Hi3 & Es3 & Hs3).
  simpl in Hi3. injection Hi3 as ->.
  exists idx, d. split; [exact Hk|]. split; [exact Esi|]. split; [exact Esd|].
  split; [exact Es3|].
  intros q Hq.
  assert (Hdpos : forall j, j < 3 -> (0 <= get d [q; j])%Q).
  { intros j Hj. rewrite Forall_forall in Hpos. apply Hpos.
    apply list_elem_of_In. unfold get. apply nth_In.
    rewrite Esd, ravel_2. unfold wf, numel in Hwfd. rewrite Hwfd, Esd.
    simpl. lia. }
  split; [apply weights_sum_to_one; exact Hdpos|].
  split; [intros i a b qa qb j Hc Hcq Hqin Hj; exact (Hin i a b qa qb q j Hc Hcq Hqin Hj)|].
  (* the neighbours are rows of [feat] *)
  destruct (cloud_of_row _ _ q Hvq Hq) as (cl & qa & qb & Hcq & Hqin).
  assert (Hcl : cl + 1 < length prs).
  { destruct (knn_batch_Ok knn_search Hknn _ _ _ _ _ _ _ _ Hk) as (Hl & _).
    destruct Hcq as [_ Hqb]. apply lookup_lt_Some in Hqb. lia. }
  destruct (lookup_lt_is_Some_2 prs cl ltac:(lia)) as [a Ha].
  destruct (lookup_lt_is_Some_2 prs (cl + 1) Hcl) as [b Hb].
  assert (Hc : cloud prs cl a b) by (split; assumption).
  destruct (valid_splits_cloud _ _ _ _ _ Hvp Hc) as [Hab Hbn].
  assert (Hii : forall j ii, j < 3 -> py_index (rows points) (get idx3 [q; j]) = Ok ii ->
            ii = Z.to_nat (get idx [q; j])).
  { intros j ii Hj Hpy. rewrite Hgi3 in Hpy.
    pose proof (Hin cl a b qa qb q j Hc Hcq Hqin Hj) as Hr.
    apply (py_index_Ok _ _ _ Hpy). lia. }
  destruct (Hs1 q Hq) as (i0 & Hp0 & Hv0).
  destruct (Hs2 q Hq) as (i1 & Hp1 & Hv1).
  destruct (Hs3 q Hq) as (i2 & Hp2 & Hv2).
  apply Hii in Hp0, Hp1, Hp2; try lia. subst i0 i1 i2.
  intros ch Hch.
  rewrite Hv2, Hv1, Hv0 by exact Hch.
  rewrite get_zeros by bounds. rewrite !Hweight by lia. ring.
Qed.

End Interpolation.

(** ** Properties of the specification *)

Section Claims.
Variables sqrtQ expQ : Q -> Q.
Variable knn_search : Tensor Q -> Tensor Q -> nat -> res (Tensor Z * Tensor Q).
Variable furthest_point_sample_v2 :
  Tensor Q -> list Z -> list Z -> res (Tensor Z).

(** C10.  A call of [queryandgroup] with [queries = None] raises: the
    contiguity assertion is evaluated before the line that would replace
    [None] by [points].  When [points] is contiguous the assertion calls
    [is_contiguous] on [None] (AttributeError); otherwise the conjunction is
    already false and the assertion fails (AssertionError).  Hence every call
    that returns was made with a tensor for [queries]. *)
Theorem queryandgroup_None_raises nsample points feat idx prs qrs use_xyz :
  queryandgroup knn_search nsample points None feat idx prs qrs use_xyz
    = Raise (if contig points then AttributeError else AssertionError)
  /\ forall queries out,
       queryandgroup knn_search nsample points queries feat idx prs qrs use_xyz
         = Ok out ->
       exists q, queries = Some q.
Proof.
  assert (Hnone :
    queryandgroup knn_search nsample points None feat idx prs qrs use_xyz
      = Raise (if contig points then AttributeError else AssertionError)).
  { unfold queryandgroup, and_then. simpl. destruct (contig points); reflexivity. }
  split; [exact Hnone|].
  intros [q|] out Hq; [eauto|]. rewrite Hnone in Hq. discriminate.
Qed.

(** C7.  The grouping call, run over the store.  For query [q] and its
    [j]-th neighbour, whose index [i] names a row of [points]: with
    [use_xyz] the result holds the neighbour's coordinates minus those of
    [q] in its first three channels and the neighbour's feature in the [c]
    channels after them, shape [(m, nsample, 3 + c)]; without it the result
    holds the neighbour's feature only, shape [(m, nsample, c)].  The index
    tensor is the one given, or the one [knn_batch] computes.  No buffer that
    existed before the call is changed: the in-place subtraction writes the
    buffer that indexing [points] allocated. *)
Theorem queryandgroup_gathers nsample points queries feat oidx prs qrs use_xyz
    h o h' pts qs ft n m c :
  Heap.load h points = Ok pts ->
  Heap.load h queries = Ok qs ->
  Heap.load h feat = Ok ft ->
  shape pts = [n; 3] -> shape qs = [m; 3] -> shape ft = [n; c] ->
  Heap.queryandgroup knn_search nsample points (Some queries) feat oidx prs qrs
    use_xyz h = Ok (o, h') ->
  exists out idx,
    Heap.load h' o = Ok out /\
    index_used knn_search nsample pts qs oidx prs qrs idx /\
    shape out = (if use_xyz then [m; nsample; 3 + c] else [m; nsample; c]) /\
    (forall q j, q < m -> j < nsample ->
       exists i,
         py_index n (neighbor idx nsample q j) = Ok i /\
         ((0 <= neighbor idx nsample q j)%Z ->
          i = Z.to_nat (neighbor idx nsample q j)) /\
         if use_xyz then
           (forall ch, ch < 3 ->
              get out [q; j; ch] = (get pts [i; ch] - get qs [q; ch])%Q) /\
           (forall ch, ch < c -> get out [q; j; 3 + ch] = get ft [i; ch])
         else
           forall ch, ch < c -> get out [q; j; ch] = get ft [i; ch]) /\
    (forall l, l < length h -> h' !! l = h !! l).
Proof.
  intros Lp Lq Lf Ep Eq Ef Hrun.
  destruct (Heap_queryandgroup_refines knn_search _ _ _ _ _ _ _ _ _ _ _ _ _ _
              Lp Lq Lf Hrun) as (out & Hpure & Hload & Hsame).
  destruct (queryandgroup_entries knn_search _ _ _ _ _ _ _ _ _ _ _ _
              Ep Eq Ef Hpure) as (idx & Hidx & Hshape & _ & Hent).
  exists out, idx. repeat split; auto.
  intros q j Hq Hj. destruct (Hent q j Hq Hj) as (i & Hpy & Hvals).
  exists i. split; [exact Hpy|]. split; [|exact Hvals].
  apply (py_index_Ok _ _ _ Hpy).
Qed.

(** C1.  No batch leakage.  Let the source points be partitioned by
    [points_row_splits] and the queries by [queries_row_splits].  Whenever
    [knn_batch] returns, its index tensor has one row per query, and every
    entry of the row of a query [q] of cloud [i] is a global index in
    [[points_row_splits[i], points_row_splits[i+1])]. *)
Theorem knn_batch_within_cloud points queries k prs qrs rd idx od :
  knn_contract knn_search ->
  valid_splits prs (rows points) -> valid_splits qrs (rows queries) ->
  knn_batch knn_search points queries k prs qrs rd = Ok (idx, od) ->
  exists w,
    shape idx = [rows queries; w] /\
    forall i a b qa qb q j,
      cloud prs i a b -> cloud qrs i qa qb ->
      (qa <= Z.of_nat q < qb)%Z -> j < w ->
      (a <= get idx [q; j] < b)%Z.
Proof.
  intros Hknn Hvp Hvq Hk.
  destruct (knn_batch_rows knn_search Hknn _ _ _ _ _ _ _ _ Hvp Hvq Hk)
    as (w & _ & Es & _ & _ & _ & Hin).
  exists w. split; [exact Es | exact Hin].
Qed.

(** C9.  [knn_batch] raises its assertion error exactly when the two row
    split sequences differ in length, and then no neighbour search has been
    run. *)
Theorem knn_batch_length_mismatch points queries k prs qrs rd :
  knn_no_assert knn_search ->
  (length prs <> length qrs ->
   knn_batch_run knn_search points queries k prs qrs rd = ([], Raise AssertionError))
  /\ (knn_batch knn_search points queries k prs qrs rd = Raise AssertionError ->
      length prs <> length qrs).
Proof.
  intros Hno. split.
  - intros Hne. unfold knn_batch_run.
    replace (length prs =? length qrs) with false
      by (symmetry; apply Nat.eqb_neq; exact Hne).
    reflexivity.
  - intros Hr Hlen.
    exact (knn_batch_run_equal_lengths knn_search Hno _ _ _ _ _ rd Hlen Hr).
Qed.

(** C3.  [TransitionDown] with stride 1 returns the points and the row
    splits it was given, and only changes the channel width of the
    features.  With a stride [s > 1] the output row splits have one entry
    per input entry, start at 0, do not decrease, end at the number of
    output points, and give every cloud [floor (count / s)] points, where
    [count] is the number of points of that cloud in the input. *)
Theorem TransitionDown_counts self point feat rs point' feat' rs' :
  fps_contract furthest_point_sample_v2 ->
  valid_pxo (point, feat, rs) ->
  TransitionDown_forward sqrtQ knn_search furthest_point_sample_v2 self
    (point, feat, rs) = Ok (point', feat', rs') ->
  (stride self = 1%Z ->
     point' = point /\ rs' = rs /\ rows feat' = rows feat /\
     shape feat' = [rows feat; nn.out_features (td_linear self)]) /\
  ((1 < stride self)%Z ->
     length rs' = length rs /\
     valid_splits rs' (rows point') /\
     forall i a b, cloud rs i a b ->
       exists a' b', cloud rs' i a' b' /\ (b' - a' = (b - a) / stride self)%Z).
Proof.
  intros Hfps (n & c & Ep & Ef & Hv) Hf. split.
  - intros Hs.
    destruct (TransitionDown_unit_inv sqrtQ knn_search furthest_point_sample_v2
                _ _ _ _ _ _ _ Hs Hf) as (-> & -> & Es & _ & Hr).
    rewrite Ef in Es. simpl in Es.
    assert (Hn : rows feat = n) by (unfold rows; rewrite Ef; reflexivity).
    rewrite Hn. repeat split; auto. rewrite Hr. exact Hn.
  - intros Hs.
    assert (Hne : stride self <> 1%Z) by lia.
    assert (Hpos : (0 < stride self)%Z) by lia.
    destruct (TransitionDown_strided_inv sqrtQ knn_search furthest_point_sample_v2
                _ _ _ _ _ _ _ Hne Hf) as (idx & Hnrs & Hidx & Hnp & _).
    destruct (new_row_splits_spec _ _ _ _ Hpos Hv Hnrs)
      as (Hlen & H0 & Hclouds & Hnd & m & Hvm).
    assert (Hle : forall i a b a' b', cloud rs i a b -> cloud rs' i a' b' ->
              (b' - a' <= b - a)%Z).
    { intros i a b a' b' Hc [Ha' Hb'].
      destruct (Hclouds i a b Hc) as (a1 & b1 & [H1 H2] & Hd).
      rewrite Ha' in H1. rewrite Hb' in H2. injection H1 as <-. injection H2 as <-.
      destruct (valid_splits_cloud _ _ _ _ _ Hv Hc) as [Hab _].
      rewrite Hd. apply Z_div_le_self; lia. }
    assert (Hvp : valid_splits rs (rows point)) by (unfold rows; rewrite Ep; exact Hv).
    destruct (Hfps _ _ _ _ _ Hvp Hvm Hlen Hle Hidx) as (Esi & Hwfi & _).
    apply index_rows_Ok in Hnp as (n1 & rest & is_ & _ & _ & Esn & _).
    assert (Hm : rows point' = m).
    { unfold rows. rewrite Esn. simpl. unfold wf, numel in Hwfi.
      rewrite Hwfi, Esi. simpl. lia. }
    rewrite Hm. repeat split; auto; apply Hvm.
Qed.

(** C8.  With a stride greater than 1, every point that [TransitionDown]
    returns is the input point that furthest point sampling named: output
    point [j] is row [idx[j]] of the input, a row of the same cloud.  Read
    back through the sampled index, the output point and the original
    position coincide coordinate by coordinate, at distance zero. *)
Theorem TransitionDown_selects_input_points self point feat rs point' feat' rs' :
  fps_contract furthest_point_sample_v2 ->
  valid_pxo (point, feat, rs) ->
  (1 < stride self)%Z ->
  TransitionDown_forward sqrtQ knn_search furthest_point_sample_v2 self
    (point, feat, rs) = Ok (point', feat', rs') ->
  exists idx,
    furthest_point_sample_v2 point rs rs' = Ok idx /\
    torch.index_rows point (data idx) = Ok point' /\
    shape point' = [rows point'; 3] /\
    forall j, j < rows point' ->
      exists i,
        i < rows point /\ nth j (data idx) 0%Z = Z.of_nat i /\
        row point' j = row point i /\
        (sqdist (row point' j) (row point i) == 0)%Q /\
        forall c a b a' b',
          cloud rs c a b -> cloud rs' c a' b' -> (a' <= Z.of_nat j < b')%Z ->
          (a <= Z.of_nat i < b)%Z.
Proof.
  intros Hfps (n & c & Ep & Ef & Hv) Hs Hf.
  assert (Hne : stride self <> 1%Z) by lia.
  assert (Hpos : (0 < stride self)%Z) by lia.
  destruct (TransitionDown_strided_inv sqrtQ knn_search furthest_point_sample_v2
              _ _ _ _ _ _ _ Hne Hf) as (idx & Hnrs & Hidx & Hnp & _).
  destruct (new_row_splits_spec _ _ _ _ Hpos Hv Hnrs)
    as (Hlen & H0 & Hclouds & Hnd & m & Hvm).
  assert (Hle : forall i a b a' b', cloud rs i a b -> cloud rs' i a' b' ->
            (b' - a' <= b - a)%Z).
  { intros i a b a' b' Hc [Ha' Hb'].
    destruct (Hclouds i a b Hc) as (a1 & b1 & [H1 H2] & Hd).
    rewrite Ha' in H1. rewrite Hb' in H2. injection H1 as <-. injection H2 as <-.
    destruct (valid_splits_cloud _ _ _ _ _ Hv Hc) as [Hab _].
    rewrite Hd. apply Z_div_le_self; lia. }
  assert (Hvp : valid_splits rs (rows point)) by (unfold rows; rewrite Ep; exact Hv).
  destruct (Hfps _ _ _ _ _ Hvp Hvm Hlen Hle Hidx) as (Esi & Hwfi & Hin).
  exists idx. split; [exact Hidx|]. split; [exact Hnp|].
  apply index_rows_Ok in Hnp as (n1 & rest & is_ & Es1 & Hall & Esn & _ & _ & Hget).
  rewrite Ep in Es1. injection Es1 as <- <-.
  assert (Hm : length (data idx) = m).
  { unfold wf, numel in Hwfi. rewrite Hwfi, Esi. simpl. lia. }
  assert (Hrows : rows point' = m) by (unfold rows; rewrite Esn; exact Hm).
  split; [rewrite Hrows, Esn, Hm; reflexivity|].
  intros j Hj. rewrite Hrows in Hj.
  destruct (cloud_of_row _ _ j Hvm Hj) as (cl & a' & b' & Hc' & Hjin).
  assert (Hcl : cl + 1 < length rs).
  { destruct Hc' as [_ Hb']. apply lookup_lt_Some in Hb'. lia. }
  destruct (lookup_lt_is_Some_2 rs cl ltac:(lia)) as [a Ha].
  destruct (lookup_lt_is_Some_2 rs (cl + 1) Hcl) as [b Hb].
  pose proof (Hin cl a b a' b' j (conj Ha Hb) Hc' Hjin) as Hrange.
  destruct (valid_splits_cloud _ _ _ _ _ Hv (conj Ha Hb)) as [Hab Hbn].
  assert (Hjl : j < length (data idx)) by lia.
  destruct (lookup_lt_is_Some_2 (data idx) j Hjl) as [v Hvj].
  destruct (Forall2_lookup_l _ _ _ _ _ Hall Hvj) as (i & Hi & Hpy).
  rewrite (nth_lookup_Some _ _ 0%Z _ Hvj) in Hrange.
  destruct (py_index_Ok _ _ _ Hpy) as [Hin' Hnat].
  specialize (Hnat ltac:(lia)). subst i.
  assert (Hgetj : forall ch, ch < 3 -> get point' [j; ch] = get point [Z.to_nat v; ch]).
  { intros ch Hch. rewrite Hget by (lia || bounds).
    rewrite (nth_lookup_Some _ _ 0 _ Hi). reflexivity. }
  assert (Hrow : row point' j = row point (Z.to_nat v)).
  { apply (row_eq _ _ _ _ 3); [rewrite Esn; reflexivity | rewrite Ep; reflexivity|].
    exact Hgetj. }
  exists (Z.to_nat v). unfold rows at 1. rewrite Ep. simpl.
  split; [exact Hin'|]. split.
  { rewrite (nth_lookup_Some _ _ 0%Z _ Hvj). lia. }
  split; [exact Hrow|]. split; [rewrite Hrow; apply sqdist_self|].
  intros c0 a0 b0 a0' b0' Hc0 Hc0' Hj0.
  pose proof (Hin c0 a0 b0 a0' b0' j Hc0 Hc0' Hj0) as Hr0.
  rewrite (nth_lookup_Some _ _ 0%Z _ Hvj) in Hr0. lia.
Qed.

(** C2.  The blocks that return a PXO triple keep its invariant
    [point.length == feature.length == RowSplits[-1]]: [TransitionDown], on
    the path without subsampling and on the path with it, and the residual
    attention block [Bottleneck].  What they return is again a valid triple,
    whose row splits cut the points and the features at the same rows. *)
Theorem pxo_invariant_preserved :
  fps_contract furthest_point_sample_v2 ->
  (forall self pxo out,
     valid_pxo pxo -> (stride self = 1 \/ 1 < stride self)%Z ->
     TransitionDown_forward sqrtQ knn_search furthest_point_sample_v2 self pxo
       = Ok out ->
     pxo_invariant out /\ valid_pxo out) /\
  (forall self pxo out,
     valid_pxo pxo ->
     Bottleneck_forward sqrtQ expQ knn_search self pxo = Ok out ->
     pxo_invariant out /\ valid_pxo out).
Proof.
  intros Hfps.
  assert (Hinv : forall out, valid_pxo out -> pxo_invariant out /\ valid_pxo out)
    by (intros out Hv; split; [apply valid_pxo_invariant|]; exact Hv).
  split.
  - intros self [[point feat] rs] [[point' feat'] rs'] Hv Hs Hf. apply Hinv.
    pose proof Hv as (n & c & Ep & Ef & Hvs).
    destruct Hs as [Hs|Hs].
    + destruct (TransitionDown_unit_inv sqrtQ knn_search furthest_point_sample_v2
                  _ _ _ _ _ _ _ Hs Hf) as (-> & -> & Es & _).
      rewrite Ef in Es. simpl in Es.
      exists n, (nn.out_features (td_linear self)). auto.
    + assert (Hne : stride self <> 1%Z) by lia.
      assert (Hpos : (0 < stride self)%Z) by lia.
      destruct (TransitionDown_strided_inv sqrtQ knn_search
                  furthest_point_sample_v2 _ _ _ _ _ _ _ Hne Hf)
        as (idx & Hnrs & Hidx & Hnp & Esf & _).
      destruct (new_row_splits_spec _ _ _ _ Hpos Hvs Hnrs)
        as (Hlen & H0 & Hclouds & Hnd & m & Hvm).
      assert (Hle : forall i a b a' b', cloud rs i a b -> cloud rs' i a' b' ->
                (b' - a' <= b - a)%Z).
      { intros i a b a' b' Hc [Ha' Hb'].
        destruct (Hclouds i a b Hc) as (a1 & b1 & [H1 H2] & Hd).
        rewrite Ha' in H1. rewrite Hb' in H2.
        injection H1 as <-. injection H2 as <-.
        destruct (valid_splits_cloud _ _ _ _ _ Hvs Hc) as [Hab _].
        rewrite Hd. apply Z_div_le_self; lia. }
      assert (Hvp : valid_splits rs (rows point))
        by (unfold rows; rewrite Ep; exact Hvs).
      destruct (Hfps _ _ _ _ _ Hvp Hvm Hlen Hle Hidx) as (Esi & Hwfi & _).
      apply index_rows_Ok in Hnp as (n1 & rest & is_ & Es1 & _ & Esn & _).
      rewrite Ep in Es1. injection Es1 as <- <-.
      assert (Hm : length (data idx) = m).
      { unfold wf, numel in Hwfi. rewrite Hwfi, Esi. simpl. lia. }
      exists m, (nn.out_features (td_linear self)).
      unfold rows in Esf. rewrite Esn in Esf. simpl in Esf.
      rewrite Esn, Esf, Hm. auto.
  - intros self [[point feat] rs] [[point' feat'] rs'] Hv Hf. apply Hinv.
    destruct Hv as (n & c & Ep & Ef & Hvs).
    destruct (Bottleneck_forward_shape sqrtQ expQ knn_search _ _ _ _ _ _ _ _ _ Ef Hf)
      as (-> & -> & Es).
    unfold rows in Es. rewrite Ep in Es. simpl in Es.
    exists n, (nn.out_features (linear3 self)). auto.
Qed.

(** C5 (amended).  The attention layer returns one row per input row, and
    its channel width is the configured output width [out_planes].  That
    width is the channel count of the input features exactly when the layer
    was built with [in_planes = out_planes], as [Bottleneck] builds it. *)
Theorem Transformer_forward_rows_and_width in_planes out_planes_ share nsample
    self point feat rs out :
  Transformer_init in_planes out_planes_ share nsample self ->
  valid_pxo (point, feat, rs) ->
  Transformer_forward sqrtQ expQ knn_search self (point, feat, rs) = Ok out ->
  shape out = [rows feat; out_planes_] /\
  shape feat = [rows feat; in_planes] /\
  (shape out = shape feat <-> in_planes = out_planes_).
Proof.
  intros Hinit (n & c & Ep & Ef & Hv) Hf.
  destruct Hinit as (_ & _ & _ & _ & _ & _ & _ & [Hin Hout] & _).
  destruct (Transformer_forward_shape sqrtQ expQ knn_search _ _ _ _ _ _ _ Ef Hf)
    as (Es & Hc & _).
  assert (Hrp : rows point = n) by (unfold rows; rewrite Ep; reflexivity).
  assert (Hrf : rows feat = n) by (unfold rows; rewrite Ef; reflexivity).
  rewrite Hrp, Hout in Es. rewrite Hin in Hc. subst c.
  rewrite Hrf, Es, Ef. repeat split; auto.
  - intros [= E]. auto.
  - intros ->. reflexivity.
Qed.

(** C6.  The decoder head ([TransitionUp] with one input).  The tensor that
    enters [linear1] has the rows of the input in their order.  Row [r] of
    cloud [i] holds the feature of point [r] itself, followed by the
    projection ([linear2]) of the mean of cloud [i]; that mean is the sum of
    the feature rows [RowSplits[i] <= r' < RowSplits[i+1]], and of no other
    row, divided by their number.  [linear1] then projects every such row,
    so the output has as many rows as the input, in the same order. *)
Theorem TransitionUp_head_per_cloud self point feat rs out c :
  valid_pxo (point, feat, rs) ->
  shape feat = [rows feat; c] ->
  TransitionUp_forward sqrtQ knn_search self (point, feat, rs) None = Ok out ->
  exists fused gw,
    nn.Sequential_forward sqrtQ (tu_linear1 self) fused = Ok out /\
    shape fused = [rows feat; c + gw] /\
    rows out = rows feat /\
    forall i a b, cloud rs i a b ->
      exists mean g,
        shape mean = [1; c] /\
        (forall ch, ch < c ->
           get mean [0; ch]
           = (torch.sumQ (map (fun r => get feat [r; ch])
                            (seq (Z.to_nat a) (Z.to_nat (b - a))))
              / inject_Z (b - a))%Q) /\
        nn.Sequential_forward sqrtQ (tu_linear2 self) mean = Ok g /\
        shape g = [1; gw] /\
        forall r, (a <= Z.of_nat r < b)%Z ->
          (forall ch, ch < c -> get fused [r; ch] = get feat [r; ch]) /\
          (forall ch, ch < gw -> get fused [r; c + ch] = get g [0; ch]).
Proof.
  intros (n & c' & Ep & Ef & Hv) Efc Hf.
  assert (Hrf : rows feat = n) by (unfold rows; rewrite Ef; reflexivity).
  rewrite Hrf in *. rewrite Ef in Efc. injection Efc as <-.
  unfold TransitionUp_forward in Hf.
  apply bind_Ok in Hf as (ts & Hts & Hf). apply bind_Ok in Hf as (fused & Hcat & Hf).
  set (len := length rs - 1) in *.
  assert (Hblk : forall i, i < len ->
            exists blk, ts !! i = Some blk /\
                        cloud_block sqrtQ self feat rs i = Ok blk).
  { intros i Hi. apply (mapM_seq_lookup _ _ _ _ Hts Hi). }
  assert (Hlen : length ts = len).
  { apply mapM_Ok, Forall2_length in Hts. rewrite length_seq in Hts. lia. }
  pose proof (cat0_Ok _ _ Hcat) as (rest & Es & Ed & _ & Hne & Hsh).
  assert (Hpos : 0 < len) by (destruct ts; [congruence | simpl in Hlen; lia]).
  destruct (Hblk 0 Hpos) as (blk0 & Hb0 & Hcb0).
  destruct (cloud_block_Ok sqrtQ _ _ _ _ _ _ _ Hv Ef Hcb0)
    as (a0 & b0 & mean0 & g0 & gw & _ & _ & _ & _ & _ & Esb0 & _).
  assert (rest = [c' + gw]) as ->.
  { rewrite Forall_forall in Hsh. specialize (Hsh blk0).
    rewrite Hsh in Esb0 by (eapply list_elem_of_lookup_2; exact Hb0). congruence. }
  assert (Hwfts : Forall wf ts).
  { apply Forall_lookup. intros i blk Hi.
    assert (Hil : i < len) by (apply lookup_lt_Some in Hi; lia).
    destruct (Hblk i Hil) as (blk' & Hb' & Hcb). rewrite Hi in Hb'.
    injection Hb' as <-.
    destruct (cloud_block_Ok sqrtQ _ _ _ _ _ _ _ Hv Ef Hcb)
      as (? & ? & ? & ? & ? & _ & _ & _ & _ & _ & _ & Hwf & _). exact Hwf. }
  assert (Hlens : forall i a b, cloud rs i a b ->
            map rows ts !! i = Some (Z.to_nat (b - a))).
  { intros i a b Hc.
    assert (Hil : i < len).
    { destruct Hc as [_ Hb]. apply lookup_lt_Some in Hb. unfold len. lia. }
    destruct (Hblk i Hil) as (blk & Hb & Hcb).
    destruct (cloud_block_Ok sqrtQ _ _ _ _ _ _ _ Hv Ef Hcb)
      as (a' & b' & ? & ? & ? & [Ha' Hb'] & _ & _ & _ & _ & Esb & _).
    destruct Hc as [Ha Hb'']. rewrite Ha in Ha'. rewrite Hb'' in Hb'.
    injection Ha' as <-. injection Hb' as <-.
    rewrite list_lookup_fmap, Hb. simpl. unfold rows. rewrite Esb. reflexivity. }
  assert (Hlast : rs !! len = Some (Z.of_nat n)).
  { destruct Hv as (_ & Hl & _). apply last_lookup_length in Hl. exact Hl. }
  assert (Hsum : sum_list (map rows ts) = n).
  { pose proof (telescope_take _ _ _ Hv Hlens _ _ Hlast) as Hs.
    rewrite take_ge in Hs by (rewrite length_map; lia). lia. }
  assert (Esf : shape fused = [n; c' + gw]) by (rewrite Es, Hsum; reflexivity).
  assert (Hwff : wf fused) by (exact (wf_cat0 _ _ Hcat Hwfts)).
  exists fused, gw. split; [exact Hf|]. split; [exact Esf|]. split.
  { destruct (Sequential_forward_Ok _ _ _ _ Hf Hwff) as (Er & El & _).
    rewrite (rows_removelast fused out Er El) by (rewrite Esf; simpl; lia).
    unfold rows. rewrite Esf. reflexivity. }
  intros i a b Hc.
  assert (Hil : i < len).
  { destruct Hc as [_ Hb]. apply lookup_lt_Some in Hb. unfold len. lia. }
  destruct (Hblk i Hil) as (blk & Hb & Hcb).
  destruct (cloud_block_Ok sqrtQ _ _ _ _ _ _ _ Hv Ef Hcb)
    as (a' & b' & mean & g & gw' & [Ha' Hb'] & Esm & Hmean & Hg & Esg & Esb & _ & Hrows).
  pose proof Hc as [Ha Hb'']. rewrite Ha in Ha'. rewrite Hb'' in Hb'.
  injection Ha' as <-. injection Hb' as <-.
  assert (gw' = gw) as ->.
  { rewrite Forall_forall in Hsh. specialize (Hsh blk).
    rewrite Hsh in Esb by (eapply list_elem_of_lookup_2; exact Hb).
    injection Esb as _ E. lia. }
  exists mean, g.
  split; [exact Esm|]. split; [exact Hmean|]. split; [exact Hg|].
  split; [exact Esg|].
  intros r Hr.
  destruct (valid_splits_cloud _ _ _ _ _ Hv Hc) as [Hab Hbn].
  pose proof (telescope_take _ _ _ Hv Hlens i a Ha) as Hoff.
  rewrite firstn_map in Hoff.
  assert (Esblk : shape blk = rows blk :: [c' + gw])
    by (unfold rows; rewrite Esb; reflexivity).
  assert (Hrb : rows blk = Z.to_nat (b - a)) by (unfold rows; rewrite Esb; reflexivity).
  assert (Hr' : r - Z.to_nat a < Z.to_nat (b - a)) by lia.
  destruct (Hrows (r - Z.to_nat a) Hr') as [Hown Hmeanr].
  assert (Hrw : r = sum_list (map rows (take i ts)) + (r - Z.to_nat a))
    by (rewrite Hoff; lia).
  split.
  - intros ch Hch. rewrite Hrw at 1.
    rewrite (get_cat0 _ _ _ _ _ _ _ Hcat Hwfts Hb Esblk) by (bounds || lia).
    rewrite Hown by exact Hch. f_equal. f_equal. lia.
  - intros ch Hch. rewrite Hrw.
    rewrite (get_cat0 _ _ _ _ _ _ _ Hcat Hwfts Hb Esblk) by (bounds || lia).
    apply Hmeanr. exact Hch.
Qed.

(** C4.  Interpolation with [k = 3], every source cloud holding at least
    three points.  The neighbours of a query are the three that the batched
    search returns for it, all in the cloud of the query.  With
    [recip j = 1 / (distance_j + 1e-8)], the weight of neighbour [j] is
    [recip j] divided by the sum of the three reciprocals; the three weights
    add up to 1; entry [(q, ch)] of the output is the sum over the three
    neighbours of their source feature times their weight; the output has
    one row per query and the channels of the source features.  Arithmetic
    is that of the rationals. *)
Theorem interpolation_weighted_sum points queries feat prs qrs out c :
  knn_contract knn_search ->
  valid_splits prs (rows points) -> valid_splits qrs (rows queries) ->
  (forall i a b, cloud prs i a b -> (3 <= b - a)%Z) ->
  shape feat = [rows points; c] ->
  interpolation knn_search points queries feat prs qrs 3 = Ok out ->
  exists idx dist,
    knn_batch knn_search points queries 3 prs qrs true = Ok (idx, Some dist) /\
    shape idx = [rows queries; 3] /\ shape dist = [rows queries; 3] /\
    shape out = [rows queries; c] /\
    forall q, q < rows queries ->
      (weight_of dist q 0%nat + weight_of dist q 1%nat + weight_of dist q 2%nat
       == 1)%Q /\
      (forall i a b qa qb j,
         cloud prs i a b -> cloud qrs i qa qb -> (qa <= Z.of_nat q < qb)%Z ->
         j < 3 -> (a <= get idx [q; j] < b)%Z) /\
      forall ch, ch < c ->
        (get out [q; ch]
         == get feat [Z.to_nat (get idx [q; 0%nat]); ch] * weight_of dist q 0%nat
            + get feat [Z.to_nat (get idx [q; 1%nat]); ch] * weight_of dist q 1%nat
            + get feat [Z.to_nat (get idx [q; 2%nat]); ch] * weight_of dist q 2%nat)%Q.
Proof.
  intros Hknn Hvp Hvq Hbig Ef Hi.
  exact (interpolation_Ok knn_search Hknn _ _ _ _ _ _ _ Hvp Hvq Hbig Ef Hi).
Qed.

End Claims.

(** ** The properties at the concrete instances *)

(** Decides the goals [valid_splits rs n] for given [rs] and [n]. *)
Ltac valid_splits_tac :=
  split; [reflexivity|]; split; [reflexivity|];
  let i := fresh "i" in let a := fresh "a" in let b := fresh "b" in
  let Ha := fresh "Ha" in let Hb := fresh "Hb" in
  intros i a b Ha Hb;
  do 4 (destruct i as [|i]; simpl in Ha, Hb; try discriminate;
        try (injection Ha as <-; injection Hb as <-; lia)).

Ltac valid_pxo_tac n c :=
  exists n, c; split; [reflexivity|]; split; [reflexivity|]; valid_splits_tac.

Lemma ones_Transformer_init in_planes out_planes_ share nsample :
  share <> 0 ->
  Transformer_init in_planes out_planes_ share nsample
    (ones_Transformer in_planes out_planes_ share nsample).
Proof.
  intros Hs. unfold Transformer_init, Linear_init, BatchNorm1d_init.
  repeat split; auto.
  - do 3 eexists. split; [reflexivity|]. repeat split.
  - do 4 eexists. split; [reflexivity|]. repeat split.
Qed.


Lemma knn_batch_within_cloud_witness :
  exists idx od w,
    knn_batch brute_knn ex_point ex_point 2 ex_rs ex_rs true = Ok (idx, od) /\
    shape idx = [rows ex_point; w] /\
    forall i a b qa qb q j,
      cloud ex_rs i a b -> cloud ex_rs i qa qb ->
      (qa <= Z.of_nat q < qb)%Z -> j < w ->
      (a <= get idx [q; j] < b)%Z.
Proof.
  assert (Hv : valid_splits ex_rs (rows ex_point)) by valid_splits_tac.
  destruct (knn_batch brute_knn ex_point ex_point 2 ex_rs ex_rs true)
    as [[idx od]|e] eqn:E; [|vm_compute in E; discriminate].
  destruct (knn_batch_within_cloud brute_knn _ _ _ _ _ _ idx od
              brute_knn_contract Hv Hv E) as (w & Es & Hin).
  exists idx, od, w. auto.
Defined.

Lemma knn_batch_length_mismatch_witness :
  knn_batch_run brute_knn ex_point ex_point 2 ex_rs [0; 4]%Z true
    = ([], Raise AssertionError)
  /\ knn_batch brute_knn ex_point ex_point 2 ex_rs ex_rs true
       <> Raise AssertionError.
Proof.
  destruct (knn_batch_length_mismatch brute_knn ex_point ex_point 2 ex_rs
              [0; 4]%Z true brute_knn_no_assert) as [H1 _].
  destruct (knn_batch_length_mismatch brute_knn ex_point ex_point 2 ex_rs
              ex_rs true brute_knn_no_assert) as [_ H2].
  split; [apply H1; simpl; lia | intros E; apply (H2 E); reflexivity].
Defined.

Lemma pxo_invariant_preserved_witness :
  (exists out,
     TransitionDown_forward ex_sqrt brute_knn fps_reference
       (ex_TransitionDown 1 1) (ex_point, ex_feat, ex_rs) = Ok out
     /\ pxo_invariant out) /\
  (exists out,
     TransitionDown_forward ex_sqrt brute_knn fps_reference
       (ex_TransitionDown 2 4) (ex_point, ex_feat, ex_rs) = Ok out
     /\ pxo_invariant out) /\
  (exists out,
     Bottleneck_forward ex_sqrt ex_exp brute_knn ex_Bottleneck
       (ex_point, ex_feat, ex_rs) = Ok out
     /\ pxo_invariant out).
Proof.
  destruct (pxo_invariant_preserved ex_sqrt ex_exp brute_knn fps_reference
              fps_reference_contract) as [Hdown Hblock].
  assert (Hv : valid_pxo (ex_point, ex_feat, ex_rs)) by valid_pxo_tac 4 1.
  assert (Hs1 : (stride (ex_TransitionDown 1 1) = 1
                 \/ 1 < stride (ex_TransitionDown 1 1))%Z) by (left; reflexivity).
  assert (Hs2 : (stride (ex_TransitionDown 2 4) = 1
                 \/ 1 < stride (ex_TransitionDown 2 4))%Z) by (right; simpl; lia).
  split; [|split].
  - destruct (TransitionDown_forward ex_sqrt brute_knn fps_reference
                (ex_TransitionDown 1 1) (ex_point, ex_feat, ex_rs))
      as [out|e] eqn:E; [|vm_compute in E; discriminate].
    exists out. split; [reflexivity|].
    apply (Hdown (ex_TransitionDown 1 1) _ out Hv Hs1 E).
  - destruct (TransitionDown_forward ex_sqrt brute_knn fps_reference
                (ex_TransitionDown 2 4) (ex_point, ex_feat, ex_rs))
      as [out|e] eqn:E; [|vm_compute in E; discriminate].
    exists out. split; [reflexivity|].
    apply (Hdown (ex_TransitionDown 2 4) _ out Hv Hs2 E).
  - destruct (Bottleneck_forward ex_sqrt ex_exp brute_knn ex_Bottleneck
                (ex_point, ex_feat, ex_rs))
      as [out|e] eqn:E; [|vm_compute in E; discriminate].
    exists out. split; [reflexivity|].
    apply (Hblock ex_Bottleneck _ out Hv E).
Defined.

Lemma TransitionDown_counts_witness :
  exists point' feat' rs',
    TransitionDown_forward ex_sqrt brute_knn fps_reference
      (ex_TransitionDown 2 4) (ex_point, ex_feat, ex_rs) = Ok (point', feat', rs')
    /\ length rs' = length ex_rs
    /\ valid_splits rs' (rows point')
    /\ forall i a b, cloud ex_rs i a b ->
         exists a' b', cloud rs' i a' b' /\ (b' - a' = (b - a) / 2)%Z.
Proof.
  assert (Hv : valid_pxo (ex_point, ex_feat, ex_rs)) by valid_pxo_tac 4 1.
  assert (Hs : (1 < stride (ex_TransitionDown 2 4))%Z) by (simpl; lia).
  destruct (TransitionDown_forward ex_sqrt brute_knn fps_reference
              (ex_TransitionDown 2 4) (ex_point, ex_feat, ex_rs))
    as [[[point' feat'] rs']|e] eqn:E; [|vm_compute in E; discriminate].
  destruct (TransitionDown_counts ex_sqrt brute_knn fps_reference
              (ex_TransitionDown 2 4) _ _ _ _ _ _ fps_reference_contract Hv E)
    as [_ Hstrided].
  exists point', feat', rs'. split; [reflexivity|].
  apply Hstrided. exact Hs.
Defined.

Lemma TransitionDown_selects_input_points_witness :
  exists point' feat' rs' idx,
    TransitionDown_forward ex_sqrt brute_knn fps_reference
      (ex_TransitionDown 2 4) (ex_point, ex_feat, ex_rs) = Ok (point', feat', rs')
    /\ fps_reference ex_point ex_rs rs' = Ok idx
    /\ torch.index_rows ex_point (data idx) = Ok point'
    /\ forall j, j < rows point' ->
         exists i, i < rows ex_point /\ nth j (data idx) 0%Z = Z.of_nat i /\
                   row point' j = row ex_point i.
Proof.
  assert (Hv : valid_pxo (ex_point, ex_feat, ex_rs)) by valid_pxo_tac 4 1.
  assert (Hs : (1 < stride (ex_TransitionDown 2 4))%Z) by (simpl; lia).
  destruct (TransitionDown_forward ex_sqrt brute_knn fps_reference
              (ex_TransitionDown 2 4) (ex_point, ex_feat, ex_rs))
    as [[[point' feat'] rs']|e] eqn:E; [|vm_compute in E; discriminate].
  destruct (TransitionDown_selects_input_points ex_sqrt brute_knn fps_reference
              (ex_TransitionDown 2 4) _ _ _ _ _ _ fps_reference_contract Hv Hs E)
    as (idx & Hidx & Hrows & _ & Hsel).
  exists point', feat', rs', idx. repeat split; auto.
  intros j Hj. destruct (Hsel j Hj) as (i & Hi & Hn & Hrow & _).
  exists i. auto.
Defined.

Lemma Transformer_forward_rows_and_width_witness :
  exists out,
    Transformer_forward ex_sqrt ex_exp brute_knn (ones_Transformer 2 2 2 2)
      (ex_point, ex_feat2, ex_rs) = Ok out
    /\ shape out = [rows ex_feat2; 2]
    /\ shape out = shape ex_feat2.
Proof.
  assert (Hv : valid_pxo (ex_point, ex_feat2, ex_rs)) by valid_pxo_tac 4 2.
  assert (Hinit : Transformer_init 2 2 2 2 (ones_Transformer 2 2 2 2))
    by (apply ones_Transformer_init; lia).
  destruct (Transformer_forward ex_sqrt ex_exp brute_knn (ones_Transformer 2 2 2 2)
              (ex_point, ex_feat2, ex_rs)) as [out|e] eqn:E;
    [|vm_compute in E; discriminate].
  destruct (Transformer_forward_rows_and_width ex_sqrt ex_exp brute_knn
              2 2 2 2 _ _ _ _ _ Hinit Hv E) as (Es & _ & Hsame).
  exists out. split; [reflexivity|]. split; [exact Es|].
  apply Hsame. reflexivity.
Defined.

(** C5 as stated does not hold: built with [in_planes = 1] and
    [out_planes = 2] (divisible by [share_planes = 2]), the attention layer
    returns two channels for input features of one channel. *)
Lemma Transformer_width_counterexample :
  Transformer_init 1 2 2 2 (ones_Transformer 1 2 2 2) /\
  2 mod 2 = 0 /\
  valid_pxo (ex_point, ex_feat, ex_rs) /\
  exists out,
    Transformer_forward ex_sqrt ex_exp brute_knn (ones_Transformer 1 2 2 2)
      (ex_point, ex_feat, ex_rs) = Ok out
    /\ shape ex_feat = [4; 1] /\ shape out = [4; 2]
    /\ ~ (shape out = shape ex_feat).
Proof.
  split; [apply ones_Transformer_init; lia|]. split; [reflexivity|].
  split; [valid_pxo_tac 4 1|].
  destruct (Transformer_forward ex_sqrt ex_exp brute_knn (ones_Transformer 1 2 2 2)
              (ex_point, ex_feat, ex_rs)) as [out|e] eqn:E;
    [|vm_compute in E; discriminate].
  exists out. split; [reflexivity|]. split; [reflexivity|].
  assert (Es : shape out = [4; 2]).
  { assert (Hs : (match Transformer_forward ex_sqrt ex_exp brute_knn
                          (ones_Transformer 1 2 2 2) (ex_point, ex_feat, ex_rs) with
                  | Ok t => shape t | Raise _ => [] end) = [4; 2])
      by (vm_compute; reflexivity).
    rewrite E in Hs. exact Hs. }
  split; [exact Es|]. rewrite Es. discriminate.
Qed.

Lemma TransitionUp_head_per_cloud_witness :
  exists out fused gw,
    TransitionUp_forward ex_sqrt brute_knn ex_TransitionUp
      (ex_point, ex_feat, ex_rs) None = Ok out /\
    nn.Sequential_forward ex_sqrt (tu_linear1 ex_TransitionUp) fused = Ok out /\
    shape fused = [rows ex_feat; 1 + gw] /\
    rows out = rows ex_feat.
Proof.
  assert (Hv : valid_pxo (ex_point, ex_feat, ex_rs)) by valid_pxo_tac 4 1.
  destruct (TransitionUp_forward ex_sqrt brute_knn ex_TransitionUp
              (ex_point, ex_feat, ex_rs) None) as [out|e] eqn:E;
    [|vm_compute in E; discriminate].
  destruct (TransitionUp_head_per_cloud ex_sqrt brute_knn ex_TransitionUp
              _ _ _ out 1 Hv eq_refl E) as (fused & gw & Hf & Es & Hr & _).
  exists out, fused, gw. auto.
Defined.

Lemma queryandgroup_gathers_witness :
  let h := [data ex_point; data ex_feat] in
  let p := Heap.mkRef 0 [4; 3] true in
  let f := Heap.mkRef 1 [4; 1] true in
  exists o h' out,
    Heap.queryandgroup brute_knn 2 p (Some p) f None ex_rs ex_rs true h
      = Ok (o, h') /\
    Heap.load h' o = Ok out /\
    shape out = [4; 2; 3 + 1] /\
    forall l, l < length h -> h' !! l = h !! l.
Proof.
  intros h p f.
  destruct (Heap.queryandgroup brute_knn 2 p (Some p) f None ex_rs ex_rs true h)
    as [[o h']|e] eqn:E; [|vm_compute in E; discriminate].
  destruct (queryandgroup_gathers brute_knn 2 p p f None ex_rs ex_rs true h o h'
              ex_point ex_point ex_feat 4 4 1
              eq_refl eq_refl eq_refl eq_refl eq_refl eq_refl E)
    as (out & idx & Hl & _ & Hs & _ & Hsame).
  exists o, h', out. auto.
Defined.

Lemma interpolation_weighted_sum_witness :
  exists out idx dist,
    interpolation brute_knn ex_point6 ex_point6 ex_feat6 ex_rs6 ex_rs6 3 = Ok out /\
    knn_batch brute_knn ex_point6 ex_point6 3 ex_rs6 ex_rs6 true
      = Ok (idx, Some dist) /\
    shape out = [rows ex_point6; 2] /\
    forall q, q < rows ex_point6 ->
      (weight_of dist q 0%nat + weight_of dist q 1%nat + weight_of dist q 2%nat
       == 1)%Q.
Proof.
  assert (Hv : valid_splits ex_rs6 (rows ex_point6)) by valid_splits_tac.
  assert (Hbig : forall i a b, cloud ex_rs6 i a b -> (3 <= b - a)%Z).
  { intros i a b [Ha Hb].
    do 3 (destruct i as [|i]; simpl in Ha, Hb; try discriminate;
          try (injection Ha as <-; injection Hb as <-; lia)). }
  destruct (interpolation brute_knn ex_point6 ex_point6 ex_feat6 ex_rs6 ex_rs6 3)
    as [out|e] eqn:E; [|vm_compute in E; discriminate].
  destruct (interpolation_weighted_sum brute_knn ex_point6 ex_point6 ex_feat6
              ex_rs6 ex_rs6 out 2
              brute_knn_contract Hv Hv Hbig eq_refl E)
    as (idx & dist & Hk & _ & _ & Hs & Hq).
  exists out, idx, dist. repeat split; auto.
  intros q Hlt. apply (Hq q Hlt).
Defined.

(** ** Further properties: errors and edge cases *)

Lemma interpolation_loop_columns feat idx weight range : forall nf out n w,
  shape idx = [n; w] ->
  interpolation_loop feat idx weight range nf = Ok out ->
  Forall (fun i => i < w) range.
Proof.
  induction range as [|i range IH]; intros nf out n w Es Hl.
  - constructor.
  - simpl in Hl.
    apply bind_Ok in Hl as (col & Hcol & Hl).
    apply bind_Ok in Hl as (rws & _ & Hl). apply bind_Ok in Hl as (wcol & _ & Hl).
    apply bind_Ok in Hl as (w1 & _ & Hl). apply bind_Ok in Hl as (term & _ & Hl).
    apply bind_Ok in Hl as (nf' & _ & Hl).
    constructor.
    + apply (select_col_Ok _ _ _ _ _ Es) in Hcol as (Hi & _). exact Hi.
    + eapply IH; eauto.
Qed.

Section Edge.
Variables sqrtQ expQ : Q -> Q.
Variable knn_search : Tensor Q -> Tensor Q -> nat -> res (Tensor Z * Tensor Q).
Variable furthest_point_sample_v2 :
  Tensor Q -> list Z -> list Z -> res (Tensor Z).

(** [interpolation] reshapes the neighbour indices to three columns and
    then reads column [i] for every [i < k]: with [k > 3] it reads a column
    that does not exist, so no call with [k > 3] returns. *)
Theorem interpolation_more_than_three_raises points queries feat prs qrs k :
  3 < k ->
  exists e, interpolation knn_search points queries feat prs qrs k = Raise e.
Proof.
  intros Hk.
  destruct (interpolation knn_search points queries feat prs qrs k) as [out|e] eqn:Hi;
    [|eauto].
  exfalso. unfold interpolation in Hi.
  inv_bind Hi. apply bind_Ok in Hi as (r & _ & Hi).
  apply bind_Ok in Hi as (dist & _ & Hi). apply bind_Ok in Hi as (idx & Hidx & Hi).
  apply bind_Ok in Hi as (dist' & _ & Hi). apply bind_Ok in Hi as (norm & _ & Hi).
  apply bind_Ok in Hi as (weight & _ & Hi). apply bind_Ok in Hi as (nq & _ & Hi).
  apply bind_Ok in Hi as (c & _ & Hi).
  apply reshape_rows_Ok in Hidx as (Es & _).
  apply (interpolation_loop_columns _ _ _ _ _ _ _ _ Es) in Hi.
  rewrite Forall_forall in Hi. specialize (Hi 3).
  assert (3 < 3); [|lia]. apply Hi. apply elem_of_seq. lia.
Qed.

(** [TransitionDown] with [stride = 0] divides the size of the first cloud
    by zero. *)
Theorem TransitionDown_stride_zero_raises self point feat rs :
  stride self = 0%Z -> 2 <= length rs ->
  TransitionDown_forward sqrtQ knn_search furthest_point_sample_v2 self
    (point, feat, rs) = Raise ZeroDivisionError.
Proof.
  intros Hs Hlen. unfold TransitionDown_forward. rewrite Hs. simpl.
  destruct rs as [|r0 [|r1 rs]]; simpl in Hlen; try lia.
  reflexivity.
Qed.

(** On a batch without clouds (row splits with at most one entry)
    [knn_batch] runs no search and raises the error of [torch.cat] on an
    empty list. *)
Theorem knn_batch_no_cloud_raises points queries k prs qrs rd :
  length prs = length qrs -> length prs <= 1 ->
  knn_batch_run knn_search points queries k prs qrs rd = ([], Raise RuntimeError).
Proof.
  intros Hl H1. unfold knn_batch_run.
  rewrite <- Hl, Nat.eqb_refl. simpl.
  replace (length prs - 1) with 0 by lia. simpl.
  destruct rd; reflexivity.
Qed.

End Edge.

(** ** The searches of the batched neighbour search *)

Section Searches.
Variable knn_search : Tensor Q -> Tensor Q -> nat -> res (Tensor Z * Tensor Q).

Lemma knn_clouds_calls points queries k prs qrs range :
  forall idxs dists calls calls' r,
  knn_clouds knn_search points queries k prs qrs range idxs dists calls
    = (calls', r) ->
  exists new,
    calls' = calls ++ new /\
    Forall2 (search_of_cloud points queries k prs qrs)
      (take (length new) range) new /\
    length new <= length range /\
    forall x, r = Ok x -> length new = length range.
Proof.
  induction range as [|i range IH]; intros idxs dists calls calls' r Hk;
    simpl in Hk.
  - injection Hk as <- <-. exists []. rewrite app_nil_r. simpl.
    repeat split; auto.
  - destruct (item prs i) as [a|e] eqn:Ha; simpl in Hk;
      [|injection Hk as <- <-; exists []; rewrite app_nil_r; simpl;
        repeat split; [constructor | lia | discriminate]].
    destruct (item prs (i + 1)) as [b|e] eqn:Hb; simpl in Hk;
      [|injection Hk as <- <-; exists []; rewrite app_nil_r; simpl;
        repeat split; [constructor | lia | discriminate]].
    destruct (torch.slice_rows points a b) as [cp|e] eqn:Hcp; simpl in Hk;
      [|injection Hk as <- <-; exists []; rewrite app_nil_r; simpl;
        repeat split; [constructor | lia | discriminate]].
    destruct (item qrs i) as [qa|e] eqn:Hqa; simpl in Hk;
      [|injection Hk as <- <-; exists []; rewrite app_nil_r; simpl;
        repeat split; [constructor | lia | discriminate]].
    destruct (item qrs (i + 1)) as [qb|e] eqn:Hqb; simpl in Hk;
      [|injection Hk as <- <-; exists []; rewrite app_nil_r; simpl;
        repeat split; [constructor | lia | discriminate]].
    destruct (torch.slice_rows queries qa qb) as [cq|e] eqn:Hcq; simpl in Hk;
      [|injection Hk as <- <-; exists []; rewrite app_nil_r; simpl;
        repeat split; [constructor | lia | discriminate]].
    assert (Hc : search_of_cloud points queries k prs qrs i (cp, cq, k)).
    { exists a, b, qa, qb, cp, cq. unfold cloud.
      apply item_Ok in Ha, Hb, Hqa, Hqb. auto 10. }
    destruct (knn_search cp cq k) as [[idx dist]|e] eqn:Hs.
    + apply IH in Hk as (new & -> & Hall & Hle & Hlen).
      exists ((cp, cq, k) :: new). rewrite <- app_assoc. simpl.
      repeat split; auto.
      * lia.
      * intros x Hx. rewrite (Hlen x Hx). reflexivity.
    + injection Hk as <- <-. exists [(cp, cq, k)]. simpl.
      repeat split; [repeat constructor; exact Hc | lia | discriminate].
Qed.

(** Every search [knn_batch] runs is on one cloud alone: the [p]-th search
    gets the points and the queries of cloud [p] and nothing else, there is
    at most one search per cloud, and exactly one per cloud when the call
    returns. *)
Theorem knn_batch_searches_one_cloud_each points queries k prs qrs rd calls r :
  knn_batch_run knn_search points queries k prs qrs rd = (calls, r) ->
  Forall2 (search_of_cloud points queries k prs qrs) (seq 0 (length calls)) calls /\
  length calls <= length prs - 1 /\
  forall x, r = Ok x -> length calls = length prs - 1.
Proof.
  unfold knn_batch_run. intros Hr.
  destruct (negb (length prs =? length qrs)).
  - injection Hr as <- <-. simpl. repeat split; [constructor | lia | discriminate].
  - destruct (knn_clouds knn_search points queries k prs qrs
                (seq 0 (length prs - 1)) [] [] []) as [calls0 r0] eqn:Hk.
    injection Hr as <- <-.
    apply knn_clouds_calls in Hk as (new & -> & Hall & Hle & Hlen).
    simpl. rewrite length_seq in Hle.
    split; [|split; [exact Hle|]].
    + rewrite take_seq in Hall.
      replace (length new `min` (length prs - 1)) with (length new) in Hall by lia.
      exact Hall.
    + intros x Hx.
      destruct r0 as [[idxs dists]|e]; [|discriminate].
      rewrite (Hlen (idxs, dists) eq_refl). apply length_seq.
Qed.

End Searches.

(** ** Which errors the operations raise *)

Lemma mapM_py_index_Raise n idx e :
  mapM (py_index n) idx = Raise e -> e = IndexError.
Proof.
  induction idx as [|i idx IH]; simpl; [discriminate|].
  intros Hm.
  apply bind_Raise_inv in Hm as [Hm | (r & _ & Hm)].
  - unfold py_index in Hm.
    destruct ((0 <=? i)%Z && (i <? Z.of_nat n)%Z); [discriminate|].
    destruct ((- Z.of_nat n <=? i)%Z && (i <? 0)%Z); [discriminate|].
    injection Hm as <-. reflexivity.
  - apply bind_Raise_inv in Hm as [Hm | (rs & _ & Hm)]; [auto | discriminate].
Qed.

Lemma index_rows_Raise {A} `{Inhabited A} (t : Tensor A) idx e :
  torch.index_rows t idx = Raise e -> e = IndexError.
Proof.
  unfold torch.index_rows. destruct (shape t) as [|n rest].
  - intros [= <-]. reflexivity.
  - destruct (mapM (py_index n) idx) eqn:E; simpl; [discriminate|].
    intros [= <-]. eapply mapM_py_index_Raise; eauto.
Qed.

Lemma guard_Raise e0 b e : guard e0 b = Raise e -> e = e0.
Proof. destruct b; simpl; [discriminate | intros [= <-]; reflexivity]. Qed.

Lemma view_Raise {A} (t : Tensor A) shp e :
  torch.view t shp = Raise e -> e = RuntimeError.
Proof.
  unfold torch.view. intros Hv.
  destruct (guard RuntimeError (contig t && (prodn shp =? numel t))) eqn:E;
    simpl in Hv; [discriminate|].
  injection Hv as <-. eapply guard_Raise; eauto.
Qed.

Lemma size_Raise {A} (t : Tensor A) i e : torch.size t i = Raise e -> e = IndexError.
Proof.
  unfold torch.size. destruct (shape t !! i); [discriminate|].
  intros [= <-]. reflexivity.
Qed.

Lemma unsqueeze_Raise {A} (t : Tensor A) d e :
  torch.unsqueeze t d = Raise e -> e = IndexError.
Proof.
  unfold torch.unsqueeze. intros Hv.
  destruct (guard IndexError (d <=? length (shape t))) eqn:E;
    simpl in Hv; [discriminate|].
  injection Hv as <-. eapply guard_Raise; eauto.
Qed.

Lemma broadcast_rev_Raise a : forall b e,
  torch.broadcast_rev a b = Raise e -> e = RuntimeError.
Proof.
  induction a as [|x a IH]; intros [|y b] e; simpl; try discriminate.
  destruct (torch.broadcast_rev a b) eqn:E; simpl.
  - destruct (x =? y); [discriminate|]. destruct (x =? 1); [discriminate|].
    destruct (y =? 1); [discriminate|]. intros [= <-]. reflexivity.
  - intros [= <-]. eapply IH; eauto.
Qed.

Lemma broadcast_shapes_Raise a b e :
  torch.broadcast_shapes a b = Raise e -> e = RuntimeError.
Proof.
  unfold torch.broadcast_shapes.
  destruct (torch.broadcast_rev (rev a) (rev b)) eqn:E; simpl; [discriminate|].
  intros [= <-]. eapply broadcast_rev_Raise; eauto.
Qed.

Lemma map2__Raise {A B} `{Inhabited A} `{Inhabited B} (f : A -> B -> A) a b e :
  torch.map2_ f a b = Raise e -> e = RuntimeError.
Proof.
  unfold torch.map2_.
  destruct (torch.broadcast_shapes (shape a) (shape b)) as [shp|e'] eqn:E; simpl.
  - destruct (guard RuntimeError (bool_decide (shp = shape a))) eqn:G; simpl;
      [discriminate|].
    intros [= <-]. eapply guard_Raise; eauto.
  - intros [= <-]. eapply broadcast_shapes_Raise; eauto.
Qed.

Lemma cat2_Raise {A} `{Inhabited A} d (a b : Tensor A) e :
  torch.cat2 d a b = Raise e -> e = IndexError \/ e = RuntimeError.
Proof.
  unfold torch.cat2.
  destruct (guard IndexError (d <? length (shape a))) eqn:G1; simpl.
  - destruct (guard RuntimeError
                (bool_decide (<[d:=0]> (shape a) = <[d:=0]> (shape b)))) eqn:G2;
      simpl; [discriminate|].
    intros [= <-]. right. eapply guard_Raise; eauto.
  - intros [= <-]. left. eapply guard_Raise; eauto.
Qed.

Section GroupingErrors.
Variable knn_search : Tensor Q -> Tensor Q -> nat -> res (Tensor Z * Tensor Q).
Hypothesis Hno : knn_no_assert knn_search.

(** With tensors for all three inputs, [queryandgroup] raises an
    AssertionError in two cases only: an input is not contiguous, or no
    index tensor was given and the two row splits differ in length. *)
Theorem queryandgroup_AssertionError_iff nsample points queries feat oidx
    prs qrs use_xyz :
  queryandgroup knn_search nsample points (Some queries) feat oidx prs qrs use_xyz
    = Raise AssertionError
  <-> contig points && contig queries && contig feat = false
      \/ (oidx = None /\ length prs <> length qrs).
Proof.
  unfold queryandgroup, and_then, is_contiguous. simpl.
  destruct (contig points) eqn:Cp; simpl;
    [|split; [left; reflexivity | reflexivity]].
  destruct (contig queries) eqn:Cq; simpl;
    [|split; [left; reflexivity | reflexivity]].
  destruct (contig feat) eqn:Cf; simpl;
    [|split; [left; reflexivity | reflexivity]].
  split.
  - intros Hq. right.
    apply bind_Raise_inv in Hq as [Hq | (idx & _ & Hq)].
    { destruct oidx as [idx|]; [discriminate|]. split; [reflexivity|].
      intros El.
      apply (knn_batch_run_equal_lengths knn_search Hno points queries nsample
               prs qrs false El).
      fold (knn_batch knn_search points queries nsample prs qrs false).
      destruct (knn_batch knn_search points queries nsample prs qrs false);
        [discriminate | simpl in Hq; injection Hq as ->; reflexivity]. }
    exfalso.
    apply bind_Raise_inv in Hq as [Hq | (n & _ & Hq)];
      [apply size_Raise in Hq; discriminate|].
    apply bind_Raise_inv in Hq as [Hq | (m & _ & Hq)];
      [apply size_Raise in Hq; discriminate|].
    apply bind_Raise_inv in Hq as [Hq | (c & _ & Hq)];
      [apply size_Raise in Hq; discriminate|].
    apply bind_Raise_inv in Hq as [Hq | (flat & _ & Hq)];
      [apply view_Raise in Hq; discriminate|].
    apply bind_Raise_inv in Hq as [Hq | (g & _ & Hq)];
      [apply index_rows_Raise in Hq; discriminate|].
    apply bind_Raise_inv in Hq as [Hq | (gx & _ & Hq)];
      [apply view_Raise in Hq; discriminate|].
    apply bind_Raise_inv in Hq as [Hq | (q1 & _ & Hq)];
      [apply unsqueeze_Raise in Hq; discriminate|].
    apply bind_Raise_inv in Hq as [Hq | (gx' & _ & Hq)];
      [apply map2__Raise in Hq; discriminate|].
    apply bind_Raise_inv in Hq as [Hq | (g2 & _ & Hq)];
      [apply index_rows_Raise in Hq; discriminate|].
    apply bind_Raise_inv in Hq as [Hq | (gf & _ & Hq)];
      [apply view_Raise in Hq; discriminate|].
    destruct use_xyz; [|discriminate].
    apply cat2_Raise in Hq as [Hq | Hq]; discriminate.
  - intros [Hc | [-> Hl]]; [discriminate|].
    unfold knn_batch, knn_batch_run.
    replace (length prs =? length qrs) with false
      by (symmetry; apply Nat.eqb_neq; exact Hl).
    reflexivity.
Qed.

End GroupingErrors.

(** ** Shapes that broadcast *)

Lemma broadcast_rev_same l : torch.broadcast_rev l l = Ok l.
Proof.
  induction l as [|x l IH]; simpl; [reflexivity|].
  rewrite IH. simpl. rewrite Nat.eqb_refl. reflexivity.
Qed.

Lemma broadcast_shapes_same s : torch.broadcast_shapes s s = Ok s.
Proof.
  unfold torch.broadcast_shapes. rewrite broadcast_rev_same. simpl.
  rewrite rev_involutive. reflexivity.
Qed.

Lemma broadcast_shapes_2 m p n c shp :
  torch.broadcast_shapes [m; p] [n; c] = Ok shp ->
  exists r w, shp = [r; w] /\
    (p = c /\ w = p \/ p <> c /\ p = 1 /\ w = c \/ p <> c /\ c = 1 /\ w = p).
Proof.
  unfold torch.broadcast_shapes. simpl.
  intros Hb. apply bind_Ok in Hb as (r & Hr & Hb). injection Hb as <-.
  apply bind_Ok in Hr as (r1 & Hr1 & Hr).
  assert (exists x, r1 = [x]) as [x ->].
  { destruct (m =? n); [injection Hr1 as <-; eauto|].
    destruct (m =? 1); [injection Hr1 as <-; eauto|].
    destruct (n =? 1); [injection Hr1 as <-; eauto | discriminate]. }
  destruct (p =? c) eqn:E1.
  { injection Hr as <-. apply Nat.eqb_eq in E1. exists x, p. simpl. auto. }
  apply Nat.eqb_neq in E1.
  destruct (p =? 1) eqn:E2.
  { injection Hr as <-. apply Nat.eqb_eq in E2. exists x, c. simpl. split; [reflexivity|]. right. left. auto. }
  destruct (c =? 1) eqn:E3; [|discriminate].
  injection Hr as <-. apply Nat.eqb_eq in E3. exists x, p. simpl. split; [reflexivity|]. right. right. auto.
Qed.

(** ** The layers of the attention block *)

Lemma slice_dim2_first3 {A} `{Inhabited A} (t p : Tensor A) m ns w :
  shape t = [m; ns; w] -> 3 <= w ->
  torch.slice_dim2 t 0 (Some 3%Z) = Ok p -> shape p = [m; ns; 3] /\ wf p.
Proof.
  intros Es Hw. unfold torch.slice_dim2. rewrite Es.
  assert (Hs : py_slice w 0 (default (Z.of_nat w) (Some 3%Z)) = (0, 3)).
  { destruct w as [|[|[|w]]]; try lia. reflexivity. }
  rewrite Hs.
  intros [= <-]. unfold torch.narrow. rewrite Es.
  split; [reflexivity|]. unfold wf, numel. cbn [shape data].
  unfold tab. cbn [data]. rewrite length_map, length_seq.
  reflexivity.
Qed.

Section AttentionShapes.
Variables sqrtQ expQ : Q -> Q.
Variable knn_search : Tensor Q -> Tensor Q -> nat -> res (Tensor Z * Tensor Q).

Lemma transposed_BatchNorm1d_shape b x y m ns w :
  shape x = [m; ns; w] -> wf x ->
  transposed sqrtQ (nn.BatchNorm1dL b) x = Ok y ->
  shape y = [m; ns; w] /\ wf y.
Proof.
  intros Es Hwf. unfold transposed. intros Ht.
  apply bind_Ok in Ht as (t & Ht1 & Ht). apply bind_Ok in Ht as (t2 & Hb & Ht).
  apply transpose12_Ok in Ht1 as (Est & _). rewrite Es in Est. simpl in Est.
  simpl in Hb. apply BatchNorm1d_forward_Ok in Hb as (Esb & _).
  rewrite Est in Esb.
  apply transpose12_Ok in Ht as (Esy & Hwy & _). rewrite Esb in Esy. auto.
Qed.

(** The positional encoding [linear_p] keeps the first two dimensions and
    ends with the width of its last layer. *)
Lemma linear_p_shape l0 b1 l3 x y m ns out :
  Linear_init 3 3 l0 -> Linear_init 3 out l3 ->
  shape x = [m; ns; 3] -> wf x ->
  enumerate_forward sqrtQ (fun i => i =? 1) 0
    [nn.LinearL l0; nn.BatchNorm1dL b1; nn.ReLUL; nn.LinearL l3] x = Ok y ->
  shape y = [m; ns; out] /\ wf y.
Proof.
  intros [_ Ho0] [_ Ho3] Es Hwf He. simpl in He.
  apply bind_Ok in He as (y0 & H0 & He). apply bind_Ok in He as (y1 & H1 & He).
  apply bind_Ok in He as (y3 & H3 & He). injection He as <-.
  apply Linear_forward_Ok in H0 as (Es0 & Hw0 & _). rewrite Es, Ho0 in Es0.
  simpl in Es0.
  apply (transposed_BatchNorm1d_shape _ _ _ _ _ _ Es0 Hw0) in H1 as (Es1 & Hw1).
  apply Linear_forward_Ok in H3 as (Es3 & Hw3 & _).
  rewrite shape_ReLU, Es1, Ho3 in Es3. auto.
Qed.

(** The attention layer splits its [out_planes] channels into [share_planes]
    groups ([view(n, nsample, s, c // s)]).  When [share_planes] does not
    divide [out_planes] the view has the wrong number of entries: on a batch
    with at least one point, and with [nsample > 0], the call never returns. *)
Theorem Transformer_share_planes_must_divide in_planes out_planes_ share nsample
    self point feat rs n c :
  Transformer_init in_planes out_planes_ share nsample self ->
  shape feat = [n; c] -> 0 < rows point -> 0 < nsample ->
  out_planes_ mod share <> 0 ->
  exists e, Transformer_forward sqrtQ expQ knn_search self (point, feat, rs) = Raise e.
Proof.
  intros Hinit Ef Hn Hns Hmod.
  destruct (Transformer_forward sqrtQ expQ knn_search self (point, feat, rs))
    as [out|e] eqn:Hf; [|eauto].
  exfalso. apply Hmod.
  destruct Hinit as (Hs & Hmid & Hout & Hshare & Hnsample & _ & [_ Hk] & [_ Hv]
                     & (l0 & b1 & l3 & Hp & Hl0 & _ & Hl3) & _).
  unfold Transformer_forward in Hf.
  apply bind_Ok in Hf as (fq & Hfq & Hf). apply bind_Ok in Hf as (fk & Hfk & Hf).
  apply bind_Ok in Hf as (fv & Hfv & Hf). apply bind_Ok in Hf as (gk & Hgk & Hf).
  apply bind_Ok in Hf as (gv & Hgv & Hf).
  apply bind_Ok in Hf as (pr0 & Hpr0 & Hf). apply bind_Ok in Hf as (gk' & _ & Hf).
  apply bind_Ok in Hf as (pr & Hpr & Hf).
  do 2 (apply bind_Ok in Hf as (? & _ & Hf)). inv_bind Hf.
  do 7 (apply bind_Ok in Hf as (? & _ & Hf)).
  apply bind_Ok in Hf as ([[n' ns] c'] & Hsv & Hf). inv_bind Hf.
  apply bind_Ok in Hf as (a & Ha & Hf). apply bind_Ok in Hf as (av & Hav & Hf).
  (* shapes of the grouped keys and values *)
  apply Linear_forward_Ok in Hfk as (Esk & _). rewrite Ef in Esk. simpl in Esk.
  apply Linear_forward_Ok in Hfv as (Esv & _). rewrite Ef in Esv. simpl in Esv.
  apply queryandgroup_shape in Hgk as (m & ck & Hm & Hck & Hwk & _ & _ & _ & Esgk).
  apply queryandgroup_shape in Hgv as (m' & cv & Hm' & Hcv & _ & _ & _ & _ & Esgv).
  rewrite Hm in Hm'. injection Hm' as <-.
  apply size0_rows in Hm. apply size_Ok in Hcv. rewrite Esv in Hcv. simpl in Hcv.
  injection Hcv as <-. rewrite Hv in Esgv.
  rewrite Esgv in Hsv. injection Hsv as <- <- <-.
  (* the positional encoding *)
  apply (slice_dim2_first3 _ _ _ _ _ Esgk) in Hpr0 as (Esp0 & Hwp0); [|lia].
  rewrite Hp in Hpr.
  apply (linear_p_shape _ _ _ _ _ _ _ _ Hl0 Hl3 Esp0 Hwp0) in Hpr as (Esp & _).
  (* the sum and its view *)
  apply map2_Ok in Ha as (shp & Hb & Esa & _).
  rewrite Esgv, Esp, broadcast_shapes_same in Hb. injection Hb as <-.
  apply view_Ok in Hav as (_ & _ & Hnum & _).
  unfold numel in Hnum. rewrite Esa in Hnum. simpl in Hnum.
  rewrite Hshare, Hnsample in Hnum.
  apply Nat.Div0.div_exact. rewrite Hm in Hn.
  rewrite !Nat.mul_1_r in Hnum.
  apply Nat.mul_cancel_l in Hnum; [|lia].
  apply Nat.mul_cancel_l in Hnum; [|lia].
  symmetry. exact Hnum.
Qed.

End AttentionShapes.

Section Residual.
Variables sqrtQ expQ : Q -> Q.
Variable knn_search : Tensor Q -> Tensor Q -> nat -> res (Tensor Z * Tensor Q).

(** The residual addition [feat += identity] of [Bottleneck] needs the
    block's input and output widths to agree: a block built with
    [in_planes] different from [planes] never returns (a single input channel
    apart, which broadcasts). *)
Theorem Bottleneck_residual_needs_equal_planes in_planes planes share nsample
    self point feat rs n c :
  Bottleneck_init in_planes planes share nsample self ->
  shape feat = [n; c] ->
  in_planes <> planes -> in_planes <> 1 ->
  exists e, Bottleneck_forward sqrtQ expQ knn_search self (point, feat, rs)
            = Raise e.
Proof.
  intros Hinit Ef Hne H1.
  destruct (Bottleneck_forward sqrtQ expQ knn_search self (point, feat, rs))
    as [[[point' feat'] rs']|e] eqn:Hf; [|eauto].
  exfalso.
  destruct Hinit as ([Hi1 Ho1] & _ & _ & _ & _ & [_ Ho3] & _).
  unfold Bottleneck_forward in Hf.
  apply bind_Ok in Hf as (l1 & Hl1 & Hf). apply bind_Ok in Hf as (b1 & Hb1 & Hf).
  apply bind_Ok in Hf as (t & Ht & Hf). apply bind_Ok in Hf as (b2 & Hb2 & Hf).
  apply bind_Ok in Hf as (l3 & Hl3 & Hf). apply bind_Ok in Hf as (b3 & Hb3 & Hf).
  apply bind_Ok in Hf as (r & Hr & Hf).
  apply Linear_forward_Ok in Hl1 as (Esl1 & _ & Hlast & _).
  rewrite Ef in Esl1, Hlast. simpl in Esl1, Hlast. injection Hlast as Hc.
  apply BatchNorm1d_forward_Ok in Hb1 as (Esb1 & _).
  apply Transformer_forward_shape with (n := n) (c := nn.out_features (linear1 self))
    in Ht as (Est & _); [|rewrite shape_ReLU, Esb1; exact Esl1].
  apply BatchNorm1d_forward_Ok in Hb2 as (Esb2 & _).
  apply Linear_forward_Ok in Hl3 as (Esl3 & _).
  rewrite shape_ReLU, Esb2, Est in Esl3. simpl in Esl3.
  apply BatchNorm1d_forward_Ok in Hb3 as (Esb3 & _).
  unfold torch.iadd, torch.map2_ in Hr.
  apply bind_Ok in Hr as (shp & Hb & Hr). inv_bind Hr.
  rewrite Esb3, Esl3, Ef in Hb. rewrite Esb3, Esl3 in Hg.
  apply bool_decide_eq_true in Hg. subst shp.
  apply broadcast_shapes_2 in Hb as (r' & w & E & Hcases).
  injection E as _ <-. unfold expansion in Ho3. lia.
Qed.

End Residual.

(** ** The aggregation of the attention layer *)

Lemma bix_in_bounds shp ix : in_bounds shp ix -> torch.bix shp ix = ix.
Proof.
  intros Hb. unfold torch.bix.
  rewrite (in_bounds_length _ _ Hb), Nat.sub_diag, drop_0.
  induction Hb as [|i d is_ ds Hi _ IH]; [reflexivity|].
  cbn [zip_with]. rewrite IH. destruct (d =? 1) eqn:E; [|reflexivity].
  apply Nat.eqb_eq in E. f_equal. lia.
Qed.

Lemma ravel_4 a b c d i j k l :
  ravel [a; b; c; d] [i; j; k; l] = ((i * b + j) * c + k) * d + l.
Proof. simpl. lia. Qed.

(** The entrywise sum of two tensors of one shape. *)
Lemma add_same_Ok (a b r : Tensor Q) shp :
  shape a = shp -> shape b = shp -> torch.add a b = Ok r ->
  shape r = shp /\ wf r /\
  forall ix, in_bounds shp ix -> get r ix = (get a ix + get b ix)%Q.
Proof.
  intros Ea Eb Hr. apply map2_Ok in Hr as (shp' & Hb & Er & Hw & Hget).
  rewrite Ea, Eb, broadcast_shapes_same in Hb. injection Hb as <-.
  split; [exact Er|]. split; [exact Hw|]. intros ix Hix.
  rewrite (Hget ix Hix), Ea, Eb, (bix_in_bounds _ _ Hix). reflexivity.
Qed.

Lemma bix_group m ns s k q j si ci :
  q < m -> j < ns -> si < s -> ci < k ->
  torch.bix [m; ns; 1; k] [q; j; si; ci] = [q; j; 0; ci].
Proof.
  intros Hq Hj Hsi Hci. unfold torch.bix. simpl.
  destruct (m =? 1) eqn:E1; destruct (ns =? 1) eqn:E2; destruct (k =? 1) eqn:E3;
    try apply Nat.eqb_eq in E1; try apply Nat.eqb_eq in E2;
    try apply Nat.eqb_eq in E3; repeat f_equal; lia.
Qed.

Lemma broadcast_shapes_group m ns s k :
  torch.broadcast_shapes [m; ns; s; k] [m; ns; 1; k] = Ok [m; ns; s; k].
Proof.
  unfold torch.broadcast_shapes. simpl. rewrite !Nat.eqb_refl. simpl.
  destruct (s =? 1) eqn:E; simpl; [apply Nat.eqb_eq in E; subst; reflexivity|].
  reflexivity.
Qed.

Lemma broadcast_shapes_query m ns k :
  torch.broadcast_shapes [m; ns; k] [m; 1; k] = Ok [m; ns; k].
Proof.
  unfold torch.broadcast_shapes. simpl. rewrite !Nat.eqb_refl. simpl.
  destruct (ns =? 1) eqn:E; simpl; [apply Nat.eqb_eq in E; subst; reflexivity|].
  reflexivity.
Qed.

Lemma slice_dim2_from3 {A} `{Inhabited A} (t p : Tensor A) m ns w :
  shape t = [m; ns; 3 + w] ->
  torch.slice_dim2 t 3 None = Ok p -> shape p = [m; ns; w] /\ wf p.
Proof.
  intros Es. unfold torch.slice_dim2. rewrite Es.
  assert (Hs : py_slice (3 + w) 3 (default (Z.of_nat (3 + w)) None) = (3, w)).
  { unfold py_slice, py_clip. cbn [default].
    replace (3 <? 0)%Z with false by reflexivity.
    replace (Z.of_nat (3 + w) <? 0)%Z with false by (symmetry; apply Z.ltb_ge; lia).
    rewrite Nat2Z.id. change (Z.to_nat 3) with 3.
    rewrite Nat.min_l, Nat.min_id by lia. f_equal. lia. }
  rewrite Hs.
  intros [= <-]. unfold torch.narrow. rewrite Es.
  split; [reflexivity|]. unfold wf, numel. cbn [shape data].
  unfold tab. cbn [data]. rewrite length_map, length_seq.
  reflexivity.
Qed.

Lemma sumQ_scale (l : list Q) (s : Q) :
  (torch.sumQ (map (fun x => x / s) l) == torch.sumQ l / s)%Q.
Proof.
  induction l as [|x l IH]; simpl.
  - unfold Qdiv. ring.
  - rewrite IH. unfold Qdiv. ring.
Qed.

Lemma sumQ_pos (l : list Q) :
  l <> [] -> Forall (fun x => (0 < x)%Q) l -> (0 < torch.sumQ l)%Q.
Proof.
  intros Hne Hl. destruct l as [|x l]; [congruence|].
  apply Forall_cons in Hl as [Hx Hl]. simpl.
  assert (0 <= torch.sumQ l)%Q.
  { apply sumQ_nonneg. eapply Forall_impl; [exact Hl|]. intros y Hy. simpl in Hy.
    apply Qlt_le_weak. exact Hy. }
  lra.
Qed.

Section Attention.
Variables sqrtQ expQ : Q -> Q.
Variable knn_search : Tensor Q -> Tensor Q -> nat -> res (Tensor Z * Tensor Q).
Hypothesis Hexp : forall x, (0 < expQ x)%Q.

(** The softmax over the neighbours: positive weights that sum to one. *)
Lemma Softmax1_weights x w m ns k :
  shape x = [m; ns; k] -> 0 < ns ->
  nn.Softmax1_forward expQ x = Ok w ->
  shape w = [m; ns; k] /\
  (forall q j ci, q < m -> j < ns -> ci < k -> (0 < get w [q; j; ci])%Q) /\
  forall q ci, q < m -> ci < k ->
    (torch.sumQ (map (fun j => get w [q; j; ci]) (seq 0 ns)) == 1)%Q.
Proof.
  intros Es Hns Hw. unfold nn.Softmax1_forward in Hw. inv_bind Hw.
  injection Hw as <-. rewrite Es. cbn [nth].
  set (total := fun q ci =>
         torch.sumQ (map (fun i => expQ (get x [q; i; ci])) (seq 0 ns))).
  assert (Hpos : forall q ci, (0 < total q ci)%Q).
  { intros q ci. apply sumQ_pos.
    - intros E. apply (f_equal (@length Q)) in E.
      rewrite length_map, length_seq in E. simpl in E. lia.
    - apply List.Forall_forall. intros v Hv.
      apply in_map_iff in Hv as (i & <- & _). apply Hexp. }
  assert (Hget : forall q j ci, q < m -> j < ns -> ci < k ->
            get (tab [m; ns; k]
                   (fun ix => (expQ (get x ix)
                               / torch.sumQ (map (fun i => expQ (get x (<[1%nat:=i]> ix)))
                                               (seq 0 ns)))%Q)) [q; j; ci]
            = (expQ (get x [q; j; ci]) / total q ci)%Q).
  { intros q j ci Hq Hj Hci. rewrite get_tab by bounds. reflexivity. }
  split; [reflexivity|]. split.
  - intros q j ci Hq Hj Hci. rewrite Hget by assumption.
    apply Qlt_shift_div_l; [apply Hpos|]. rewrite Qmult_0_l. apply Hexp.
  - intros q ci Hq Hci.
    rewrite (map_ext_in _ (fun j => (expQ (get x [q; j; ci]) / total q ci)%Q))
      by (intros j Hj; apply in_seq in Hj; apply Hget; lia).
    rewrite <- (map_map (fun j => expQ (get x [q; j; ci]))
                  (fun v => (v / total q ci)%Q)).
    rewrite sumQ_scale. fold (total q ci).
    field. pose proof (Hpos q ci). lra.
Qed.

(** The weight encoding [linear_w] keeps the first two dimensions and ends
    with the width of its last layer. *)
Lemma linear_w_shape b0 l2 b3 l5 x y m ns mid w1 w2 :
  Linear_init mid w1 l2 -> Linear_init w2 w2 l5 ->
  shape x = [m; ns; mid] -> wf x ->
  enumerate_forward sqrtQ (fun i => i mod 3 =? 0) 0
    [nn.BatchNorm1dL b0; nn.ReLUL; nn.LinearL l2;
     nn.BatchNorm1dL b3; nn.ReLUL; nn.LinearL l5] x = Ok y ->
  shape y = [m; ns; w2].
Proof.
  intros [_ Ho2] [_ Ho5] Es Hwf He. cbn [enumerate_forward] in He.
  change (0 mod 3 =? 0) with true in He. change (1 mod 3 =? 0) with false in He.
  change (2 mod 3 =? 0) with false in He. change (3 mod 3 =? 0) with true in He.
  change (4 mod 3 =? 0) with false in He. change (5 mod 3 =? 0) with false in He.
  cbv iota in He.
  apply bind_Ok in He as (y0 & H0 & He).
  apply (transposed_BatchNorm1d_shape sqrtQ _ _ _ _ _ _ Es Hwf) in H0 as (Es0 & Hw0).
  apply bind_Ok in He as (y1 & H1 & He). simpl in H1. injection H1 as <-.
  apply bind_Ok in He as (y2 & H2 & He). simpl in H2.
  apply Linear_forward_Ok in H2 as (Es2 & Hw2 & _).
  rewrite shape_ReLU, Es0, Ho2 in Es2. simpl in Es2.
  apply bind_Ok in He as (y3 & H3 & He).
  apply (transposed_BatchNorm1d_shape sqrtQ _ _ _ _ _ _ Es2 Hw2) in H3 as (Es3 & Hw3).
  apply bind_Ok in He as (y4 & H4 & He). simpl in H4. injection H4 as <-.
  apply bind_Ok in He as (y5 & H5 & He). simpl in H5. injection He as <-.
  apply Linear_forward_Ok in H5 as (Es5 & _).
  rewrite shape_ReLU, Es3, Ho5 in Es5. exact Es5.
Qed.

(** The aggregation of the attention layer.  Every output channel is a
    weighted mean over the [nsample] neighbours of the point: of the grouped
    values plus the positional encoding, with the weights of the softmax,
    which are positive, sum to one over the neighbours, and are shared by
    the channels that agree modulo [out_planes // share_planes]. *)
Theorem Transformer_attention_is_weighted_mean in_planes out_planes_ share nsample
    self point feat rs c out :
  Transformer_init in_planes out_planes_ share nsample self ->
  shape feat = [rows point; c] -> 0 < nsample ->
  Transformer_forward sqrtQ expQ knn_search self (point, feat, rs) = Ok out ->
  exists fk fv gk gv pr0 pr w,
    nn.Linear_forward (linear_k self) feat = Ok fk /\
    nn.Linear_forward (linear_v self) feat = Ok fv /\
    queryandgroup knn_search nsample point (Some point) fk None rs rs true = Ok gk /\
    queryandgroup knn_search nsample point (Some point) fv None rs rs false = Ok gv /\
    torch.slice_dim2 gk 0 (Some 3%Z) = Ok pr0 /\
    enumerate_forward sqrtQ (fun i => i =? 1) 0 (linear_p self) pr0 = Ok pr /\
    shape gv = [rows point; nsample; out_planes_] /\
    shape pr = [rows point; nsample; out_planes_] /\
    shape w = [rows point; nsample; out_planes_ / share] /\
    (forall q j ci, q < rows point -> j < nsample -> ci < out_planes_ / share ->
       (0 < get w [q; j; ci])%Q) /\
    (forall q ci, q < rows point -> ci < out_planes_ / share ->
       (torch.sumQ (map (fun j => get w [q; j; ci]) (seq 0 nsample)) == 1)%Q) /\
    forall q ch, q < rows point -> ch < out_planes_ ->
      get out [q; ch]
      = torch.sumQ
          (map (fun j => ((get gv [q; j; ch] + get pr [q; j; ch])
                          * get w [q; j; ch mod (out_planes_ / share)])%Q)
             (seq 0 nsample)).
Proof.
  intros Hinit Ef Hns Hf.
  destruct Hinit as (Hs & Hmid & Hout & Hshare & Hnsample & [_ Hq] & [_ Hk] & [_ Hv]
                     & (l0 & b1 & l3 & Hp & Hl0 & _ & Hl3)
                     & (b0 & l2 & b3 & l5 & Hw & _ & Hl2 & _ & Hl5)).
  rewrite Nat.div_1_r in Hmid.
  unfold Transformer_forward in Hf. rewrite Hnsample in Hf.
  apply bind_Ok in Hf as (fq & Hfq & Hf). apply bind_Ok in Hf as (fk & Hfk & Hf).
  apply bind_Ok in Hf as (fv & Hfv & Hf). apply bind_Ok in Hf as (gk & Hgk & Hf).
  apply bind_Ok in Hf as (gv & Hgv & Hf).
  apply bind_Ok in Hf as (pr0 & Hpr0 & Hf). apply bind_Ok in Hf as (gk' & Hgk' & Hf).
  apply bind_Ok in Hf as (pr & Hpr & Hf).
  apply bind_Ok in Hf as (d0 & Hd0 & Hf). apply bind_Ok in Hf as (d1 & Hd1 & Hf).
  inv_bind Hf.
  apply bind_Ok in Hf as (pv & Hpv & Hf). apply bind_Ok in Hf as (ps & Hps & Hf).
  apply bind_Ok in Hf as (fq1 & Hfq1 & Hf). apply bind_Ok in Hf as (w0 & Hw0 & Hf).
  apply bind_Ok in Hf as (w1 & Hw1 & Hf). apply bind_Ok in Hf as (w2 & Hw2 & Hf).
  apply bind_Ok in Hf as (w & Hsm & Hf).
  apply bind_Ok in Hf as ([[n' ns] c'] & Hsv & Hf). inv_bind Hf.
  apply bind_Ok in Hf as (a & Ha & Hf). apply bind_Ok in Hf as (av & Hav & Hf).
  apply bind_Ok in Hf as (wu & Hwu & Hf). apply bind_Ok in Hf as (p & Hpm & Hf).
  apply bind_Ok in Hf as (r & Hr & Hf).
  exists fk, fv, gk, gv, pr0, pr, w.
  set (m := rows point) in *. set (k := out_planes_ / share) in *.
  (* the projections and the grouped keys and values *)
  apply Linear_forward_Ok in Hfq as (Esq & _). rewrite Ef in Esq. simpl in Esq.
  rewrite Hq, Hmid in Esq.
  pose proof Hfk as Hfk0. apply Linear_forward_Ok in Hfk0 as (Esk & _).
  rewrite Ef in Esk. simpl in Esk. rewrite Hk, Hmid in Esk.
  pose proof Hfv as Hfv0. apply Linear_forward_Ok in Hfv0 as (Esv & _).
  rewrite Ef in Esv. simpl in Esv. rewrite Hv in Esv.
  pose proof Hgk as Hgk0.
  apply queryandgroup_shape in Hgk0 as (m1 & ck & Hm1 & Hck & _ & _ & _ & _ & Esgk).
  apply size0_rows in Hm1. fold m in Hm1. subst m1.
  apply size_Ok in Hck. rewrite Esk in Hck. simpl in Hck. injection Hck as <-.
  pose proof Hgv as Hgv0.
  apply queryandgroup_shape in Hgv0 as (m1 & cv & Hm1 & Hcv & _ & _ & _ & _ & Esgv).
  apply size0_rows in Hm1. fold m in Hm1. subst m1.
  apply size_Ok in Hcv. rewrite Esv in Hcv. simpl in Hcv. injection Hcv as <-.
  rewrite Esgv in Hsv. injection Hsv as <- <- <-.
  (* the positional encoding *)
  pose proof Hpr0 as Hpr1.
  apply (slice_dim2_first3 _ _ _ _ _ Esgk) in Hpr1 as (Esp0 & Hwp0); [|lia].
  pose proof Hpr as Hpr2. rewrite Hp in Hpr2.
  apply (linear_p_shape _ _ _ _ _ _ _ _ _ Hl0 Hl3 Esp0 Hwp0) in Hpr2 as (Esp & Hwp).
  apply (slice_dim2_from3 _ _ _ _ _ Esgk) in Hgk' as (Esgk' & Hwgk').
  apply size_Ok in Hd0, Hd1. rewrite Esp in Hd0, Hd1. simpl in Hd0, Hd1.
  injection Hd0 as <-. injection Hd1 as <-.
  (* the input of the weight encoding *)
  apply view_Ok in Hpv as (Espv & _). rewrite Hout, Hmid in Espv.
  unfold torch.sum_dim in Hps. rewrite Espv in Hps. simpl in Hps.
  injection Hps as <-.
  apply unsqueeze_Ok in Hfq1 as (Esfq1 & _). rewrite Esq in Esfq1. simpl in Esfq1.
  apply map2_Ok in Hw0 as (shp0 & Hb0 & Esw0 & Hww0 & _).
  rewrite Esgk', Esfq1, broadcast_shapes_query in Hb0. injection Hb0 as <-.
  apply (add_same_Ok _ _ _ _ Esw0 (shape_tab _ _)) in Hw1 as (Esw1 & Hww1 & _).
  rewrite Hw in Hw2. rewrite Hmid in Hl2.
  apply (linear_w_shape _ _ _ _ _ _ _ _ _ _ _ Hl2 Hl5 Esw1 Hww1) in Hw2.
  fold k in Hw2.
  apply (Softmax1_weights _ _ _ _ _ Hw2 Hns) in Hsm as (Esw & Hpos & Hsum).
  repeat (split; [assumption|]).
  (* the aggregation *)
  intros q ch Hqm Hch.
  apply (add_same_Ok _ _ _ _ Esgv Esp) in Ha as (Esa & Hwa & Hgeta).
  apply view_Ok in Hav as (Esav & Edav & Hnum & _).
  rewrite Hshare in Esav, Hnum. fold k in Esav, Hnum.
  unfold numel in Hnum. rewrite Esa in Hnum. simpl in Hnum.
  assert (Hsk : share * k = out_planes_).
  { rewrite !Nat.mul_1_r in Hnum.
    apply Nat.mul_cancel_l in Hnum; [|lia].
    apply Nat.mul_cancel_l in Hnum; [|lia]. exact Hnum. }
  assert (Hk0 : 0 < k) by (destruct k; [lia|lia]).
  pose proof (Nat.div_mod_eq ch k) as Hdm.
  pose proof (Nat.mod_upper_bound ch k ltac:(lia)) as Hci.
  set (g := ch / k) in *. set (ci := ch mod k) in *.
  assert (Hg1 : g < share) by nia.
  apply unsqueeze_Ok in Hwu as (Eswu & Edwu). rewrite Esw in Eswu. simpl in Eswu.
  apply map2_Ok in Hpm as (shp1 & Hb1 & Esp1 & _ & Hgetp).
  rewrite Esav, Eswu, broadcast_shapes_group in Hb1. injection Hb1 as <-.
  unfold torch.sum_dim in Hr. rewrite Esp1 in Hr. simpl in Hr. injection Hr as <-.
  apply view_Ok in Hf as (Eso & Edo & _).
  assert (Hout1 : get out [q; ch]
                  = torch.sumQ (map (fun j => get p [q; j; g; ci]) (seq 0 nsample))).
  { unfold get at 1. rewrite Eso, Edo, ravel_2.
    replace (q * out_planes_ + ch) with (ravel [m; share; k] [q; g; ci])
      by (rewrite ravel_3; nia).
    change (nth (ravel [m; share; k] [q; g; ci]) _ inhabitant)
      with (get (tab [m; share; k]
                   (fun ix => torch.sumQ
                      (map (fun i => get p (take 1 ix ++ i :: drop 1 ix))
                         (seq 0 nsample)))) [q; g; ci]).
    rewrite get_tab by bounds. reflexivity. }
  rewrite Hout1. f_equal. apply map_ext_in. intros j Hj. apply in_seq in Hj.
  rewrite Hgetp by bounds. rewrite Esav, Eswu.
  rewrite bix_in_bounds by bounds. rewrite (bix_group m nsample share k) by lia.
  f_equal.
  - rewrite <- Hgeta by bounds. unfold get. rewrite Esav, Edav, Esa, ravel_4, ravel_3.
    f_equal. nia.
  - unfold get. rewrite Eswu, Edwu, Esw, ravel_4, ravel_3. f_equal. lia.
Qed.

End Attention.

(** ** How many points the subsampling keeps *)

Lemma coarse_splits_bounds s rs nrs n :
  (0 < s)%Z -> valid_splits rs n -> nrs !! 0 = Some 0%Z ->
  (forall i a b, cloud rs i a b ->
     exists a' b', cloud nrs i a' b' /\ (b' - a' = (b - a) / s)%Z) ->
  forall i a a', rs !! i = Some a -> nrs !! i = Some a' ->
    (s * a' <= a)%Z /\ (a - (s - 1) * Z.of_nat i <= s * a')%Z.
Proof.
  intros Hs Hv H0 Hc. induction i as [|i IH]; intros a a' Ha Ha'.
  - destruct Hv as (Hr0 & _). rewrite Hr0 in Ha. rewrite H0 in Ha'.
    injection Ha as <-. injection Ha' as <-. lia.
  - assert (Hi : i < length rs) by (apply lookup_lt_Some in Ha; lia).
    destruct (lookup_lt_is_Some_2 rs i Hi) as [p Hp].
    replace (S i) with (i + 1) in Ha, Ha' by lia.
    destruct (Hc i p a (conj Hp Ha)) as (p' & a1 & [Hp' Ha1] & Hd).
    rewrite Ha' in Ha1. injection Ha1 as <-.
    destruct (IH p p' Hp Hp') as [IH1 IH2].
    destruct (valid_splits_cloud _ _ _ _ _ Hv (conj Hp Ha)) as [Hpa _].
    pose proof (Z.mul_div_le (a - p) s Hs) as Hlow.
    pose proof (Z.mod_pos_bound (a - p) s Hs) as Hmod.
    pose proof (Z.div_mod (a - p) s ltac:(lia)) as Hdm.
    split; nia.
Qed.

(** ** Non-negative features *)

Lemma relu_nonneg x : (0 <= nn.relu x)%Q.
Proof.
  unfold nn.relu. destruct (Qle_bool 0 x) eqn:E.
  - apply Qle_bool_iff. exact E.
  - apply Qle_refl.
Qed.

Lemma nonneg_ReLU x : nonneg (nn.ReLU_forward x).
Proof.
  unfold nonneg, nn.ReLU_forward, torch.map1. simpl.
  apply List.Forall_forall. intros v Hv. apply in_map_iff in Hv as (y & <- & _).
  apply relu_nonneg.
Qed.

Lemma get_nonneg t ix : nonneg t -> (0 <= get t ix)%Q.
Proof.
  intros Hn. unfold get.
  destruct (nth_in_or_default (ravel (shape t) ix) (data t) inhabitant) as [Hin | ->].
  - unfold nonneg in Hn. rewrite List.Forall_forall in Hn. apply Hn. exact Hin.
  - apply Qle_refl.
Qed.

Lemma maxQ_nonneg l : Forall (fun v => (0 <= v)%Q) l -> (0 <= nn.maxQ l)%Q.
Proof.
  unfold nn.maxQ. destruct l as [|x l]; [intros _; apply Qle_refl|].
  intros Hl. apply Forall_cons in Hl as [Hx Hl].
  revert x Hx. induction l as [|y l IH]; intros x Hx; simpl; [exact Hx|].
  apply Forall_cons in Hl as [Hy Hl].
  apply IH; [exact Hl|]. destruct (Qle_bool x y); assumption.
Qed.

Lemma nonneg_MaxPool1d k x y :
  nonneg x -> nn.MaxPool1d_forward k x = Ok y -> nonneg y.
Proof.
  intros Hx. unfold nn.MaxPool1d_forward.
  destruct (shape x) as [|n [|c [|len [|? ?]]]]; try discriminate.
  intros Hp. inv_bind Hp. injection Hp as <-.
  apply Forall_tab. intros ix.
  destruct ix as [|i [|ch [|j [|? ?]]]]; try apply Qle_refl.
  apply maxQ_nonneg. apply List.Forall_forall. intros v Hv.
  apply in_map_iff in Hv as (o & <- & _). apply get_nonneg. exact Hx.
Qed.

Lemma nonneg_squeeze_last t : nonneg t -> nonneg (torch.squeeze_last t).
Proof.
  unfold torch.squeeze_last. destruct (last (shape t)) as [[|[|d]]|]; auto.
Qed.

Lemma Sequential_forward_app sqrtQ ls1 ls2 : forall x y,
  nn.Sequential_forward sqrtQ (ls1 ++ ls2) x = Ok y ->
  exists z, nn.Sequential_forward sqrtQ ls1 x = Ok z /\
            nn.Sequential_forward sqrtQ ls2 z = Ok y.
Proof.
  induction ls1 as [|l ls1 IH]; intros x y Hs; simpl in Hs.
  - exists x. auto.
  - apply bind_Ok in Hs as (x' & Hl & Hs). apply IH in Hs as (z & H1 & H2).
    exists z. simpl. rewrite Hl. simpl. auto.
Qed.

(** A stack of layers that ends with a ReLU returns no negative entry. *)
Lemma nonneg_Sequential_ReLU sqrtQ ls x y :
  nn.Sequential_forward sqrtQ (ls ++ [nn.ReLUL]) x = Ok y -> nonneg y.
Proof.
  intros Hs. apply Sequential_forward_app in Hs as (z & _ & Hr).
  simpl in Hr. injection Hr as <-. apply nonneg_ReLU.
Qed.

Lemma Qdiv_nonneg (a b : Q) : (0 <= a)%Q -> (0 <= b)%Q -> (0 <= a / b)%Q.
Proof.
  intros Ha Hb. unfold Qdiv. apply Qmult_le_0_compat; [exact Ha|].
  apply Qinv_le_0_compat. exact Hb.
Qed.

Lemma nonneg_index_rows (t t' : Tensor Q) idx :
  nonneg t -> torch.index_rows t idx = Ok t' -> nonneg t'.
Proof.
  intros Ht. unfold torch.index_rows. destruct (shape t) as [|n rest]; [discriminate|].
  intros Hi. apply bind_Ok in Hi as (is_ & _ & Hi). injection Hi as <-.
  apply Forall_tab. intros [|r ix]; [apply Qle_refl | apply get_nonneg; exact Ht].
Qed.

Lemma nonneg_select_col (t col : Tensor Q) i :
  nonneg t -> torch.select_col t i = Ok col -> nonneg col.
Proof.
  intros Ht. unfold torch.select_col.
  destruct (shape t) as [|n [|w [|? ?]]]; try discriminate.
  intros Hs. inv_bind Hs. injection Hs as <-. unfold nonneg. cbn [data].
  apply List.Forall_forall. intros v Hv. apply in_map_iff in Hv as (o & <- & _).
  apply get_nonneg. exact Ht.
Qed.

Lemma nonneg_unsqueeze (t t' : Tensor Q) d :
  nonneg t -> torch.unsqueeze t d = Ok t' -> nonneg t'.
Proof.
  intros Ht Hu. apply unsqueeze_Ok in Hu as (_ & Hd). unfold nonneg. rewrite Hd.
  exact Ht.
Qed.

Lemma nonneg_mul (a b r : Tensor Q) :
  nonneg a -> nonneg b -> torch.mul a b = Ok r -> nonneg r.
Proof.
  intros Ha Hb. unfold torch.mul, torch.map2. intros Hm.
  apply bind_Ok in Hm as (shp & _ & Hm). injection Hm as <-.
  apply Forall_tab. intros ix. apply Qmult_le_0_compat; apply get_nonneg; assumption.
Qed.

Lemma nonneg_add (a b r : Tensor Q) :
  nonneg a -> nonneg b -> torch.add a b = Ok r -> nonneg r.
Proof.
  intros Ha Hb. unfold torch.add, torch.map2. intros Hm.
  apply bind_Ok in Hm as (shp & _ & Hm). injection Hm as <-.
  apply Forall_tab. intros ix.
  pose proof (get_nonneg a (torch.bix (shape a) ix) Ha).
  pose proof (get_nonneg b (torch.bix (shape b) ix) Hb). lra.
Qed.

Lemma nonneg_div (a b r : Tensor Q) :
  nonneg a -> nonneg b -> torch.div a b = Ok r -> nonneg r.
Proof.
  intros Ha Hb. unfold torch.div, torch.map2. intros Hm.
  apply bind_Ok in Hm as (shp & _ & Hm). injection Hm as <-.
  apply Forall_tab. intros ix. apply Qdiv_nonneg; apply get_nonneg; assumption.
Qed.

Lemma nonneg_iadd (a b r : Tensor Q) :
  nonneg a -> nonneg b -> torch.iadd a b = Ok r -> nonneg r.
Proof.
  intros Ha Hb. unfold torch.iadd, torch.map2_. intros Hm.
  apply bind_Ok in Hm as (shp & _ & Hm). inv_bind Hm. injection Hm as <-.
  unfold nonneg. cbn [data].
  apply List.Forall_forall. intros v Hv. apply in_map_iff in Hv as (o & <- & _).
  match goal with
  | |- (0 <= get a ?i + get b ?j)%Q =>
      pose proof (get_nonneg a i Ha); pose proof (get_nonneg b j Hb); lra
  end.
Qed.

Lemma nonneg_sum_dim (t s : Tensor Q) d keep :
  nonneg t -> torch.sum_dim t d keep = Ok s -> nonneg s.
Proof.
  intros Ht. unfold torch.sum_dim. intros Hs. inv_bind Hs. injection Hs as <-.
  destruct keep; apply Forall_tab; intros ix; apply sumQ_nonneg;
    apply List.Forall_forall; intros v Hv;
    apply in_map_iff in Hv as (o & <- & _); apply get_nonneg; exact Ht.
Qed.

Lemma nonneg_zeros shp : nonneg (torch.zeros shp).
Proof. apply Forall_tab. intros _. apply Qle_refl. Qed.

Lemma nonneg_interpolation_loop feat idx weight range : forall nf out,
  nonneg feat -> nonneg weight -> nonneg nf ->
  interpolation_loop feat idx weight range nf = Ok out -> nonneg out.
Proof.
  induction range as [|i range IH]; intros nf out Hf Hw Hnf Hl; simpl in Hl.
  - injection Hl as <-. exact Hnf.
  - apply bind_Ok in Hl as (col & Hcol & Hl).
    apply bind_Ok in Hl as (rws & Hrws & Hl). apply bind_Ok in Hl as (wcol & Hwcol & Hl).
    apply bind_Ok in Hl as (w1 & Hw1 & Hl). apply bind_Ok in Hl as (term & Hterm & Hl).
    apply bind_Ok in Hl as (nf' & Hnf' & Hl).
    apply (IH nf' out Hf Hw); [|exact Hl].
    eapply nonneg_iadd; [exact Hnf | | exact Hnf'].
    eapply nonneg_mul; [ | | exact Hterm].
    + eapply nonneg_index_rows; [exact Hf | exact Hrws].
    + eapply nonneg_unsqueeze; [|exact Hw1].
      eapply nonneg_select_col; [exact Hw | exact Hwcol].
Qed.

Section Downsampling.
Variables sqrtQ expQ : Q -> Q.
Variable knn_search : Tensor Q -> Tensor Q -> nat -> res (Tensor Z * Tensor Q).
Variable furthest_point_sample_v2 :
  Tensor Q -> list Z -> list Z -> res (Tensor Z).

(** With a stride [s > 1], [TransitionDown] keeps at most one point in [s]:
    [s] times the number of output points is at most the number [n] of input
    points, and at least [n - (s - 1) * b] for a batch of [b] clouds (every
    cloud loses the remainder of its size by [s]). *)
Theorem TransitionDown_point_count_bounds self point feat rs point' feat' rs' :
  fps_contract furthest_point_sample_v2 ->
  valid_pxo (point, feat, rs) ->
  (1 < stride self)%Z ->
  TransitionDown_forward sqrtQ knn_search furthest_point_sample_v2 self
    (point, feat, rs) = Ok (point', feat', rs') ->
  (stride self * Z.of_nat (rows point') <= Z.of_nat (rows point))%Z /\
  (Z.of_nat (rows point) - (stride self - 1) * Z.of_nat (length rs - 1)
   <= stride self * Z.of_nat (rows point'))%Z.
Proof.
  intros Hfps (n & c & Ep & Ef & Hv) Hs Hf.
  assert (Hne : stride self <> 1%Z) by lia.
  assert (Hpos : (0 < stride self)%Z) by lia.
  destruct (TransitionDown_strided_inv sqrtQ knn_search furthest_point_sample_v2
              _ _ _ _ _ _ _ Hne Hf) as (idx & Hnrs & Hidx & Hnp & _).
  destruct (new_row_splits_spec _ _ _ _ Hpos Hv Hnrs)
    as (Hlen & H0 & Hclouds & Hnd & m & Hvm).
  assert (Hle : forall i a b a' b', cloud rs i a b -> cloud rs' i a' b' ->
            (b' - a' <= b - a)%Z).
  { intros i a b a' b' Hc [Ha' Hb'].
    destruct (Hclouds i a b Hc) as (a1 & b1 & [H1 H2] & Hd).
    rewrite Ha' in H1. rewrite Hb' in H2. injection H1 as <-. injection H2 as <-.
    destruct (valid_splits_cloud _ _ _ _ _ Hv Hc) as [Hab _].
    rewrite Hd. apply Z_div_le_self; lia. }
  assert (Hvp : valid_splits rs (rows point)) by (unfold rows; rewrite Ep; exact Hv).
  destruct (Hfps _ _ _ _ _ Hvp Hvm Hlen Hle Hidx) as (Esi & Hwfi & _).
  apply index_rows_Ok in Hnp as (n1 & rest & is_ & _ & _ & Esn & _).
  assert (Hm : rows point' = m).
  { unfold rows. rewrite Esn. simpl. unfold wf, numel in Hwfi.
    rewrite Hwfi, Esi. simpl. lia. }
  assert (Hn : rows point = n) by (unfold rows; rewrite Ep; reflexivity).
  rewrite Hm, Hn.
  pose proof Hv as (Hr0 & Hlast & Hndr). destruct Hvm as (_ & Hlast' & _).
  apply last_lookup_length in Hlast, Hlast'. rewrite Hlen in Hlast'.
  apply (coarse_splits_bounds (stride self) rs rs' n Hpos Hv H0 Hclouds
           (length rs - 1)); assumption.
Qed.

End Downsampling.

(** ** TransitionUp with two inputs *)

Section Fusion.
Variable sqrtQ : Q -> Q.
Variable knn_search : Tensor Q -> Tensor Q -> nat -> res (Tensor Z * Tensor Q).
Hypothesis Hknn : knn_contract knn_search.

Lemma knn_batch_dist_nonneg points queries k prs qrs idx d :
  knn_batch knn_search points queries k prs qrs true = Ok (idx, Some d) ->
  nonneg d.
Proof.
  intros Hb.
  apply (knn_batch_Ok knn_search Hknn) in Hb
    as (_ & bi & bd & _ & (d' & Ed & Hcat) & Hall & Hlbi & Hlbd).
  injection Ed as <-.
  apply cat0_Ok in Hcat as (rest & _ & Hd & _). unfold nonneg. rewrite Hd.
  apply Forall_concat. apply List.Forall_forall. intros blk Hblk.
  apply in_map_iff in Hblk as (y & <- & Hy).
  apply list_elem_of_In, list_elem_of_lookup in Hy as (p & Hp).
  assert (Hlt : p < length prs - 1) by (apply lookup_lt_Some in Hp; lia).
  destruct (cloud_result_lookup _ _ _ _ _ _ _ _ _ Hall Hlt)
    as (x & y' & _ & Hy' & Hres).
  rewrite Hp in Hy'. injection Hy' as <-.
  destruct Hres as (a & b & qa & qb & cp & cq & w & _ & _ & _ & _ & _ & _ & _ & _
                    & _ & Hnn & _).
  exact Hnn.
Qed.

Lemma nonneg_interpolation points queries feat prs qrs k out :
  nonneg feat ->
  interpolation knn_search points queries feat prs qrs k = Ok out -> nonneg out.
Proof.
  intros Hf Hi. unfold interpolation in Hi.
  inv_bind Hi. apply bind_Ok in Hi as ([idx od] & Hb & Hi). simpl in Hi.
  apply bind_Ok in Hi as (dist & Hd & Hi).
  destruct od as [d|]; [|discriminate]. injection Hd as ->.
  apply bind_Ok in Hi as (idx' & _ & Hi).
  apply bind_Ok in Hi as (dist' & Hdist' & Hi). apply bind_Ok in Hi as (norm & Hnorm & Hi).
  apply bind_Ok in Hi as (weight & Hweight & Hi). apply bind_Ok in Hi as (nq & _ & Hi).
  apply bind_Ok in Hi as (c & _ & Hi).
  apply knn_batch_dist_nonneg in Hb.
  apply reshape_rows_Ok in Hdist' as (_ & Hdd).
  assert (Hrec : nonneg (torch.map1 (fun d => 1 / (d + epsilon))%Q dist')).
  { unfold nonneg, torch.map1. cbn [data]. rewrite Hdd.
    apply List.Forall_forall. intros v Hv. apply in_map_iff in Hv as (x & <- & Hx).
    unfold nonneg in Hb. rewrite List.Forall_forall in Hb. specialize (Hb x Hx).
    apply Qdiv_nonneg; [lra|]. unfold epsilon. 
    assert (0 <= 1 # 100000000)%Q by (unfold Qle; simpl; lia). lra. }
  eapply nonneg_interpolation_loop; [exact Hf | | apply nonneg_zeros | exact Hi].
  eapply nonneg_div; [exact Hrec | | exact Hweight].
  eapply nonneg_sum_dim; [exact Hrec | exact Hnorm].
Qed.

(** Whatever [TransitionUp] returns has no negative entry: the head ends
    with a ReLU, and the fusion adds a ReLU output to an interpolation, with
    weights that are not negative, of a ReLU output. *)
Theorem TransitionUp_features_nonnegative in_planes out_planes_ self pxo1 pxo2 out :
  TransitionUp_init in_planes out_planes_ self ->
  TransitionUp_forward sqrtQ knn_search self pxo1 pxo2 = Ok out ->
  nonneg out.
Proof.
  intros Hinit Hf.
  assert (Hl : (exists ls1, tu_linear1 self = ls1 ++ [nn.ReLUL]) /\
               (exists ls2, tu_linear2 self = ls2 ++ [nn.ReLUL])).
  { destruct out_planes_ as [o|]; simpl in Hinit.
    - destruct Hinit as (l1 & b1 & l2 & b2 & -> & -> & _).
      split; [exists [nn.LinearL l1; nn.BatchNorm1dL b1]
             | exists [nn.LinearL l2; nn.BatchNorm1dL b2]]; reflexivity.
    - destruct Hinit as (l1 & b1 & l2 & -> & -> & _).
      split; [exists [nn.LinearL l1; nn.BatchNorm1dL b1]
             | exists [nn.LinearL l2]]; reflexivity. }
  destruct Hl as [[ls1 E1] [ls2 E2]].
  unfold TransitionUp_forward in Hf.
  destruct pxo1 as [[point_1 feat_1] rs_1].
  destruct pxo2 as [[[point_2 feat_2] rs_2]|].
  - apply bind_Ok in Hf as (f1 & Hf1 & Hf). apply bind_Ok in Hf as (f2 & Hf2 & Hf).
    apply bind_Ok in Hf as (it & Hit & Hf).
    rewrite E1 in Hf1. rewrite E2 in Hf2.
    eapply nonneg_add; [| | exact Hf].
    + eapply nonneg_Sequential_ReLU; exact Hf1.
    + eapply nonneg_interpolation; [|exact Hit].
      eapply nonneg_Sequential_ReLU; exact Hf2.
  - apply bind_Ok in Hf as (tmp & _ & Hf). apply bind_Ok in Hf as (c & _ & Hf).
    rewrite E1 in Hf. eapply nonneg_Sequential_ReLU; exact Hf.
Qed.

Lemma linear_bn_relu_shape l b x y n c :
  shape x = [n; c] ->
  nn.Sequential_forward sqrtQ [nn.LinearL l; nn.BatchNorm1dL b; nn.ReLUL] x = Ok y ->
  shape y = [n; nn.out_features l] /\ wf y /\ c = nn.in_features l.
Proof.
  intros Es Hs. simpl in Hs.
  apply bind_Ok in Hs as (y0 & H0 & Hs). apply bind_Ok in Hs as (y1 & H1 & Hs).
  injection Hs as <-.
  apply Linear_forward_Ok in H0 as (Es0 & _ & Hlast & _).
  rewrite Es in Es0, Hlast. simpl in Es0, Hlast. injection Hlast as Hc.
  apply BatchNorm1d_forward_Ok in H1 as (Es1 & Hw1 & _).
  rewrite shape_ReLU, Es1. repeat split; auto. apply wf_ReLU. exact Hw1.
Qed.

(** [TransitionUp] with two inputs returns one feature row per point of the
    finer level [pxo1], [out_planes] channels wide: entry by entry the sum
    of [linear1] of the finer features and of the interpolation, at the
    finer points, of [linear2] of the coarser features. *)
Theorem TransitionUp_fuses_two_levels in_planes out_planes_ self
    point_1 feat_1 rs_1 point_2 feat_2 rs_2 out :
  TransitionUp_init in_planes (Some out_planes_) self ->
  valid_pxo (point_1, feat_1, rs_1) -> valid_pxo (point_2, feat_2, rs_2) ->
  (forall i a b, cloud rs_2 i a b -> (3 <= b - a)%Z) ->
  TransitionUp_forward sqrtQ knn_search self (point_1, feat_1, rs_1)
    (Some (point_2, feat_2, rs_2)) = Ok out ->
  shape out = [rows point_1; out_planes_] /\
  exists f1 f2 it,
    nn.Sequential_forward sqrtQ (tu_linear1 self) feat_1 = Ok f1 /\
    nn.Sequential_forward sqrtQ (tu_linear2 self) feat_2 = Ok f2 /\
    interpolation knn_search point_2 point_1 f2 rs_2 rs_1 3 = Ok it /\
    shape f1 = [rows point_1; out_planes_] /\
    shape f2 = [rows point_2; out_planes_] /\
    shape it = [rows point_1; out_planes_] /\
    forall q ch, q < rows point_1 -> ch < out_planes_ ->
      get out [q; ch] = (get f1 [q; ch] + get it [q; ch])%Q.
Proof.
  intros Hinit (n1 & c1 & Ep1 & Ef1 & Hv1) (n2 & c2 & Ep2 & Ef2 & Hv2) H3 Hf.
  simpl in Hinit.
  destruct Hinit as (l1 & b1 & l2 & b2 & E1 & E2 & [_ Ho1] & _ & [_ Ho2] & _).
  unfold TransitionUp_forward in Hf.
  apply bind_Ok in Hf as (f1 & Hf1 & Hf). apply bind_Ok in Hf as (f2 & Hf2 & Hf).
  apply bind_Ok in Hf as (it & Hit & Hf).
  assert (Hr1 : rows point_1 = n1) by (unfold rows; rewrite Ep1; reflexivity).
  assert (Hr2 : rows point_2 = n2) by (unfold rows; rewrite Ep2; reflexivity).
  pose proof Hf1 as Hs1. rewrite E1 in Hs1.
  apply (linear_bn_relu_shape _ _ _ _ _ _ Ef1) in Hs1 as (Es1 & _ & _).
  pose proof Hf2 as Hs2. rewrite E2 in Hs2.
  apply (linear_bn_relu_shape _ _ _ _ _ _ Ef2) in Hs2 as (Es2 & _ & _).
  rewrite Ho1 in Es1. rewrite Ho2 in Es2.
  pose proof Hit as Hsi.
  apply (interpolation_Ok knn_search Hknn) with (c := out_planes_) in Hsi
    as (_ & _ & _ & _ & _ & Esi & _);
    [ | rewrite Hr2; exact Hv2 | rewrite Hr1; exact Hv1 | exact H3
      | rewrite Hr2; exact Es2 ].
  apply map2_Ok in Hf as (shp & Hb & Eso & _ & Hget).
  rewrite Es1, Esi, Hr1, broadcast_shapes_same in Hb. injection Hb as <-.
  rewrite Hr1. split; [exact Eso|].
  exists f1, f2, it. rewrite Hr2. rewrite Hr1 in Esi.
  repeat split; auto.
  intros q ch Hq Hch.
  rewrite Hget by (unfold in_bounds; repeat constructor; assumption).
  rewrite Es1, Esi, !bix_same by assumption. reflexivity.
Qed.

End Fusion.

(** ** Clouds with fewer points than neighbours asked for *)

Section SmallClouds.
Variable knn_search : Tensor Q -> Tensor Q -> nat -> res (Tensor Z * Tensor Q).
Hypothesis Hknn : knn_contract knn_search.
Hypothesis Hclamp : knn_clamps knn_search.

Lemma knn_clouds_clamped points queries k prs qrs range :
  forall idxs dists calls calls' idxs' dists',
  knn_clouds knn_search points queries k prs qrs range idxs dists calls
    = (calls', Ok (idxs', dists')) ->
  exists bi,
    idxs' = idxs ++ bi /\
    Forall2 (fun i blk => exists a b cp r,
               cloud prs i a b /\ torch.slice_rows points a b = Ok cp /\
               shape blk = [r; Nat.min k (rows cp)])
      range bi.
Proof.
  induction range as [|i range IH]; intros idxs dists calls calls' idxs' dists' Hk;
    simpl in Hk.
  - injection Hk as _ <- _. exists []. rewrite app_nil_r. split; [reflexivity|].
    constructor.
  - destruct (item prs i) as [a|e] eqn:Ha; simpl in Hk; [|discriminate].
    destruct (item prs (i + 1)) as [b|e] eqn:Hb; simpl in Hk; [|discriminate].
    destruct (torch.slice_rows points a b) as [cp|e] eqn:Hcp; simpl in Hk;
      [|discriminate].
    destruct (item qrs i) as [qa|e] eqn:Hqa; simpl in Hk; [|discriminate].
    destruct (item qrs (i + 1)) as [qb|e] eqn:Hqb; simpl in Hk; [|discriminate].
    destruct (torch.slice_rows queries qa qb) as [cq|e] eqn:Hcq; simpl in Hk;
      [|discriminate].
    destruct (knn_search cp cq k) as [[idx dist]|e] eqn:Hs; [|discriminate].
    apply IH in Hk as (bi & -> & Hall).
    exists (torch.map1 (fun v => (v + a)%Z) idx :: bi).
    rewrite <- app_assoc. split; [reflexivity|].
    constructor; [|exact Hall].
    apply item_Ok in Ha, Hb. apply Hclamp in Hs.
    exists a, b, cp, (rows cq). repeat split; auto.
Qed.

(** [queryandgroup] does not pad: when it has to search, some cloud holds
    fewer than [nsample] points and there is at least one query, the index
    tensor has too few columns for the view [(m, nsample, 3)] and the call
    never returns. *)
Theorem queryandgroup_small_cloud_raises nsample points queries feat prs qrs
    use_xyz n i a b :
  shape points = [n; 3] ->
  valid_splits prs n -> valid_splits qrs (rows queries) ->
  cloud prs i a b -> (b - a < Z.of_nat nsample)%Z -> 0 < rows queries ->
  exists e, queryandgroup knn_search nsample points (Some queries) feat None
              prs qrs use_xyz = Raise e.
Proof.
  intros Ep Hvp Hvq Hc Hsmall Hq.
  destruct (queryandgroup knn_search nsample points (Some queries) feat None
              prs qrs use_xyz) as [out|e] eqn:Hg; [|eauto].
  exfalso.
  apply queryandgroup_inv in Hg
    as (idx & flat & g & gx & q1 & gx' & g2 & gf & n' & m & c & Hused & _ & _ & _
        & _ & Hm & _ & Hflat & Hg & Hview & _).
  destruct Hused as ([idx0 od] & Hb & ->). simpl in *.
  assert (Hrp : rows points = n) by (unfold rows; rewrite Ep; reflexivity).
  pose proof Hb as Hrows.
  apply (knn_batch_rows knn_search Hknn) in Hrows
    as (w & _ & Esi & Hwf & _); [|rewrite Hrp; exact Hvp | exact Hvq].
  (* the width of the index tensor is the clamped width of cloud [i] *)
  assert (Hw : w = Nat.min nsample (Z.to_nat (b - a))).
  { unfold knn_batch, knn_batch_run in Hb.
    destruct (negb (length prs =? length qrs)); [discriminate|].
    destruct (knn_clouds knn_search points queries nsample prs qrs
                (seq 0 (length prs - 1)) [] [] []) as [calls r0] eqn:Hk.
    simpl in Hb. destruct r0 as [[idxs dists]|e]; [|discriminate]. simpl in Hb.
    apply bind_Ok in Hb as (i0 & Hcat & Hb). injection Hb as <- _.
    apply knn_clouds_clamped in Hk as (bi & -> & Hall). simpl in Hcat.
    apply cat0_Ok in Hcat as (rest & Es & _ & _ & _ & Hblocks).
    assert (Hi : i < length prs - 1).
    { destruct Hc as [_ Hb']. apply lookup_lt_Some in Hb'. lia. }
    destruct (Forall2_lookup_l _ _ _ i i Hall (lookup_seq_lt 0 _ _ Hi))
      as (blk & Hblk & a1 & b1 & cp & r & [Ha1 Hb1] & Hcp & Esb).
    destruct Hc as [Ha Hb']. rewrite Ha in Ha1. rewrite Hb' in Hb1.
    injection Ha1 as <-. injection Hb1 as <-.
    rewrite List.Forall_forall in Hblocks.
    specialize (Hblocks blk ltac:(apply list_elem_of_In;
                                  eapply list_elem_of_lookup_2; exact Hblk)).
    rewrite Esb in Hblocks. injection Hblocks as _ <-.
    rewrite Esi in Es. injection Es as _ ->.
    destruct (valid_splits_cloud _ _ _ _ _ Hvp (conj Ha Hb')) as [Hab Hbn].
    apply slice_rows_Ok in Hcp as (n0 & rest0 & Ep0 & Ecp & _).
    rewrite Ep in Ep0. injection Ep0 as <- <-.
    rewrite (py_slice_valid _ _ _ Hab Hbn) in Ecp. simpl in Ecp.
    unfold rows. rewrite Ecp. reflexivity. }
  apply flatten_Ok in Hflat as (_ & Hdf).
  apply index_rows_Ok in Hg as (n0 & rest & is_ & Ep0 & _ & Esg & _).
  rewrite Ep in Ep0. injection Ep0 as <- <-.
  apply view_Ok in Hview as (_ & _ & Hnum & _).
  unfold numel in Hnum. rewrite Esg, Hdf in Hnum. simpl in Hnum.
  unfold wf, numel in Hwf. rewrite Esi in Hwf. simpl in Hwf. rewrite Hwf in Hnum.
  apply size0_rows in Hm. rewrite <- Hm in Hnum.
  destruct (valid_splits_cloud _ _ _ _ _ Hvp Hc) as [Hab _].
  assert (Hlt : w < nsample) by lia.
  nia.
Qed.

End SmallClouds.

(** ** The network *)

Lemma interpolation_loop_shape feat idx weight range : forall nf out,
  interpolation_loop feat idx weight range nf = Ok out -> shape out = shape nf.
Proof.
  induction range as [|i range IH]; intros nf out Hl; simpl in Hl.
  - injection Hl as <-. reflexivity.
  - do 5 (apply bind_Ok in Hl as (? & _ & Hl)).
    apply bind_Ok in Hl as (nf' & Hnf' & Hl).
    apply IH in Hl. rewrite Hl.
    apply map2__Ok in Hnf' as (Es & _). exact Es.
Qed.

Lemma interpolation_rank knn_search points queries feat prs qrs k out :
  interpolation knn_search points queries feat prs qrs k = Ok out ->
  exists a b, shape out = [a; b].
Proof.
  intros Hi. unfold interpolation in Hi. inv_bind Hi.
  do 8 (apply bind_Ok in Hi as (? & _ & Hi)).
  apply interpolation_loop_shape in Hi. rewrite Hi. unfold torch.zeros.
  rewrite shape_tab. eauto.
Qed.

Section NetworkShapes.
Variables sqrtQ expQ : Q -> Q.
Variable knn_search : Tensor Q -> Tensor Q -> nat -> res (Tensor Z * Tensor Q).
Variable furthest_point_sample_v2 :
  Tensor Q -> list Z -> list Z -> res (Tensor Z).

(** A stack of [Bottleneck] blocks returns the points and the row splits it
    was given; the features are those of the input when the stack is empty,
    and have the width of the last block otherwise. *)
Lemma blocks_forward_shape bs : forall point feat rs point' feat' rs' n c,
  shape feat = [n; c] ->
  blocks_forward sqrtQ expQ knn_search bs (point, feat, rs) = Ok (point', feat', rs') ->
  point' = point /\ rs' = rs /\
  match last bs with
  | None => feat' = feat
  | Some b => shape feat' = [rows point; nn.out_features (linear3 b)]
  end.
Proof.
  induction bs as [|b bs IH]; intros point feat rs point' feat' rs' n c Ef Hb;
    cbn [blocks_forward] in Hb.
  - injection Hb as <- <- <-. simpl. auto.
  - apply bind_Ok in Hb as ([[p1 f1] r1] & H1 & Hb).
    apply Bottleneck_forward_shape with (n := n) (c := c) in H1
      as (-> & -> & Es1); [|exact Ef].
    apply IH with (n := rows point) (c := nn.out_features (linear3 b)) in Hb
      as (-> & -> & Hlast); [|exact Es1].
    split; [reflexivity|]. split; [reflexivity|].
    destruct bs as [|b' bs']; [simpl in *; subst; exact Es1|].
    change (last (b :: b' :: bs')) with (last (b' :: bs')).
    destruct (last (b' :: bs')) eqn:El; [exact Hlast|].
    apply last_None in El. discriminate.
Qed.

Lemma Decoder_forward_shape dec point feat rs pxo2 out b :
  dec_blocks dec = [b] ->
  (forall f, TransitionUp_forward sqrtQ knn_search (dec_up dec) (point, feat, rs) pxo2
               = Ok f -> exists n c, shape f = [n; c]) ->
  Decoder_forward sqrtQ expQ knn_search dec (point, feat, rs) pxo2 = Ok out ->
  shape out = [rows point; nn.out_features (linear3 b)].
Proof.
  intros Hbs Hup Hd. unfold Decoder_forward in Hd.
  apply bind_Ok in Hd as (f & Hf & Hd).
  apply bind_Ok in Hd as ([[p' f'] r'] & Hb & Hd). injection Hd as <-.
  destruct (Hup f Hf) as (n' & c' & Esf).
  rewrite Hbs in Hb.
  apply blocks_forward_shape with (n := n') (c := c') in Hb as (_ & _ & Hlast);
    [exact Hlast | exact Esf].
Qed.

(** The network returns one row of class scores per input point: a model
    with the stages that [__init__] builds, the first of them without
    subsampling, maps a batch of [n] points to a tensor of shape
    [(n, num_classes)]. *)
Theorem PointTransformer_forward_scores planes share stride_ nsample blocks
    c num_classes self batch out n :
  PointTransformer_stages planes share stride_ nsample blocks c num_classes self ->
  stride_ !! 0 = Some 1%Z ->
  shape (batch_point batch) = [n; 3] ->
  PointTransformer_forward sqrtQ expQ knn_search furthest_point_sample_v2 self batch
    = Ok out ->
  shape out = [n; num_classes].
Proof.
  intros Hst Hs0 Ep Hf.
  destruct Hst as (p0 & p1 & p2 & p3 & p4 & s0 & s1 & s2 & s3 & s4
                   & n0 & n1 & n2 & n3 & n4 & b0 & b1 & b2 & b3 & b4 & l0 & bn & l3
                   & -> & -> & -> & _ & _ & _ & _ & _ & Hc & He1 & _ & _ & _ & _
                   & _ & _ & _ & _ & Hd1 & Hcls & Hl0 & Hbn & Hl3).
  injection Hs0 as ->.
  unfold PointTransformer_forward in Hf.
  apply bind_Ok in Hf as (feat_0 & Hf0 & Hf).
  apply bind_Ok in Hf as ([[point_1 feat_1] rs_1] & H1 & Hf).
  apply bind_Ok in Hf as ([[point_2 feat_2] rs_2] & _ & Hf).
  apply bind_Ok in Hf as ([[point_3 feat_3] rs_3] & _ & Hf).
  apply bind_Ok in Hf as ([[point_4 feat_4] rs_4] & _ & Hf).
  apply bind_Ok in Hf as ([[point_5 feat_5] rs_5] & _ & Hf).
  apply bind_Ok in Hf as (f5 & _ & Hf). apply bind_Ok in Hf as (f4 & _ & Hf).
  apply bind_Ok in Hf as (f3 & _ & Hf). apply bind_Ok in Hf as (f2 & _ & Hf).
  apply bind_Ok in Hf as (f1 & Hdec1 & Hf).
  (* the input features have rank two *)
  assert (Ef0 : exists w, shape feat_0 = [n; w]).
  { destruct (pt_c self =? 3).
    - injection Hf0 as <-. eauto.
    - apply cat2_Ok in Hf0 as (Es & _). rewrite Ep in Es. simpl in Es. eauto. }
  destruct Ef0 as (w0 & Ef0).
  (* the first stage keeps the points *)
  destruct He1 as ((Hstr & _ & [_ Hout] & _) & _ & _).
  unfold Encoder_forward in H1.
  apply bind_Ok in H1 as ([[pt ft] rt] & Htd & Hbl).
  apply TransitionDown_unit_inv in Htd as (-> & -> & Est & _); [|exact Hstr].
  rewrite Ef0 in Est. simpl in Est.
  apply blocks_forward_shape with (n := n) (c := nn.out_features (td_linear (enc_down (enc1 self))))
    in Hbl as (-> & -> & Hlast); [|exact Est].
  assert (Ef1 : exists w, shape feat_1 = [n; w]).
  { destruct (last (enc_blocks (enc1 self))) as [b|].
    - unfold rows in Hlast. rewrite Ep in Hlast. simpl in Hlast. eauto.
    - subst ft. eauto. }
  destruct Ef1 as (w1 & Ef1).
  (* the last decoder stage *)
  destruct Hd1 as (Hup & Hlen & Hblocks).
  destruct (dec_blocks (dec1 self)) as [|b [|? ?]] eqn:Hbs; try discriminate.
  apply Forall_inv in Hblocks.
  destruct Hblocks as (_ & _ & _ & _ & _ & [_ Ho3] & _).
  apply Decoder_forward_shape with (b := b) in Hdec1; [ | exact Hbs | ].
  - (* the classifier *)
    rewrite Hcls in Hf. simpl in Hf.
    apply bind_Ok in Hf as (y0 & Hy0 & Hf). apply bind_Ok in Hf as (y1 & Hy1 & Hf).
    apply Linear_forward_Ok in Hy0 as (Es0 & _).
    rewrite Hdec1 in Es0. simpl in Es0.
    apply BatchNorm1d_forward_Ok in Hy1 as (Es1 & _).
    apply bind_Ok in Hf as (y3 & Hy3 & Hf). injection Hf as <-.
    apply Linear_forward_Ok in Hy3 as (Es & _).
    rewrite shape_ReLU, Es1, Es0 in Es. simpl in Es.
    destruct Hl3 as [_ Hnc]. rewrite Hnc in Es.
    unfold rows in Es. rewrite Ep in Es. exact Es.
  - (* what the transition of the last stage returns has rank two *)
    intros f Hfu. simpl in Hup.
    destruct Hup as (l1 & bb1 & l2 & bb2 & E1 & _).
    unfold TransitionUp_forward in Hfu.
    apply bind_Ok in Hfu as (g1 & Hg1 & Hfu). apply bind_Ok in Hfu as (g2 & _ & Hfu).
    apply bind_Ok in Hfu as (it & Hit & Hfu).
    rewrite E1 in Hg1.
    apply (linear_bn_relu_shape _ _ _ _ _ _ _ Ef1) in Hg1 as (Esg & _).
    apply interpolation_rank in Hit as (a & bb & Esi).
    apply map2_Ok in Hfu as (shp & Hb & Esf & _).
    rewrite Esg, Esi in Hb.
    apply broadcast_shapes_2 in Hb as (r & w & -> & _). eauto.
Qed.

End NetworkShapes.

(** ** Clouds too small for the network *)

Lemma valid_splits_empty rs i a b :
  valid_splits rs 0 -> cloud rs i a b -> a = 0%Z /\ b = 0%Z.
Proof.
  intros Hv [Ha Hb].
  pose proof (valid_splits_bounds _ _ _ _ Hv Ha).
  pose proof (valid_splits_bounds _ _ _ _ Hv Hb). lia.
Qed.

Section MinimumSize.
Variables sqrtQ expQ : Q -> Q.
Variable knn_search : Tensor Q -> Tensor Q -> nat -> res (Tensor Z * Tensor Q).
Variable furthest_point_sample_v2 :
  Tensor Q -> list Z -> list Z -> res (Tensor Z).
Hypothesis Hknn : knn_contract knn_search.
Hypothesis Hclamp : knn_clamps knn_search.
Hypothesis Hfps : fps_contract furthest_point_sample_v2.

(** What an encoder stage returns: the points of the next level, valid row
    splits for them, and in every cloud the count of the input divided by
    the stride. *)
Lemma Encoder_forward_level enc point feat rs point' feat' rs' n c :
  shape point = [n; 3] -> shape feat = [n; c] -> valid_splits rs n ->
  (stride (enc_down enc) = 1 \/ 1 < stride (enc_down enc))%Z ->
  Encoder_forward sqrtQ expQ knn_search furthest_point_sample_v2 enc
    (point, feat, rs) = Ok (point', feat', rs') ->
  exists m c',
    shape point' = [m; 3] /\ shape feat' = [m; c'] /\ valid_splits rs' m /\
    (stride (enc_down enc) = 1%Z -> m = n) /\
    forall i a b, cloud rs i a b ->
      exists a' b', cloud rs' i a' b' /\
                    (b' - a' = (b - a) / stride (enc_down enc))%Z.
Proof.
  intros Ep Ef Hv Hs He. unfold Encoder_forward in He.
  apply bind_Ok in He as ([[pt ft] rt] & Htd & Hbl).
  assert (Hlevel : exists m c',
            shape pt = [m; 3] /\ shape ft = [m; c'] /\ valid_splits rt m /\
            (stride (enc_down enc) = 1%Z -> m = n) /\
            forall i a b, cloud rs i a b ->
              exists a' b', cloud rt i a' b' /\
                            (b' - a' = (b - a) / stride (enc_down enc))%Z).
  { destruct Hs as [Hs|Hs].
    - apply TransitionDown_unit_inv in Htd as (-> & -> & Es & _); [|exact Hs].
      rewrite Ef in Es. simpl in Es.
      exists n, (nn.out_features (td_linear (enc_down enc))).
      repeat split; auto; try apply Hv.
      intros i a b Hc. exists a, b. split; [exact Hc|]. rewrite Hs, Z.div_1_r.
      reflexivity.
    - assert (Hne : stride (enc_down enc) <> 1%Z) by lia.
      assert (Hpos : (0 < stride (enc_down enc))%Z) by lia.
      apply TransitionDown_strided_inv in Htd
        as (idx & Hnrs & Hidx & Hnp & Esf & _); [|exact Hne].
      destruct (new_row_splits_spec _ _ _ _ Hpos Hv Hnrs)
        as (Hlen & H0 & Hclouds & Hnd & m & Hvm).
      assert (Hle : forall i a b a' b', cloud rs i a b -> cloud rt i a' b' ->
                (b' - a' <= b - a)%Z).
      { intros i a b a' b' Hc [Ha' Hb'].
        destruct (Hclouds i a b Hc) as (a1 & b1 & [H1 H2] & Hd).
        rewrite Ha' in H1. rewrite Hb' in H2.
        injection H1 as <-. injection H2 as <-.
        destruct (valid_splits_cloud _ _ _ _ _ Hv Hc) as [Hab _].
        rewrite Hd. apply Z_div_le_self; lia. }
      assert (Hvp : valid_splits rs (rows point))
        by (unfold rows; rewrite Ep; exact Hv).
      destruct (Hfps _ _ _ _ _ Hvp Hvm Hlen Hle Hidx) as (Esi & Hwfi & _).
      apply index_rows_Ok in Hnp as (n1 & rest & is_ & Es1 & _ & Esn & _).
      rewrite Ep in Es1. injection Es1 as <- <-.
      assert (Hm : length (data idx) = m).
      { unfold wf, numel in Hwfi. rewrite Hwfi, Esi. simpl. lia. }
      exists m, (nn.out_features (td_linear (enc_down enc))).
      unfold rows in Esf. rewrite Esn in Esf. simpl in Esf.
      rewrite Esn, Esf, Hm. repeat split; auto; try apply Hvm. lia. }
  destruct Hlevel as (m & c' & Ept & Eft & Hvt & Hm & Hclouds).
  apply blocks_forward_shape with (n := m) (c := c') in Hbl
    as (-> & -> & Hlast); [|exact Eft].
  assert (Ef' : exists c2, shape feat' = [m; c2]).
  { destruct (last (enc_blocks enc)) as [b|].
    - unfold rows in Hlast. rewrite Ept in Hlast. eauto.
    - subst ft. eauto. }
  destruct Ef' as (c2 & Ef').
  exists m, c2. auto 10.
Qed.

(** A decoder stage runs its attention block on the points of its level:
    with a cloud of fewer points than the block looks for, and at least one
    point in the level, the stage does not return. *)
Lemma Decoder_forward_small_cloud in_planes planes share nsample is_head dec
    point feat rs pxo2 n i a b :
  make_dec in_planes planes 2 share nsample is_head dec ->
  shape point = [n; 3] -> valid_splits rs n -> 0 < n ->
  cloud rs i a b -> (b - a < Z.of_nat nsample)%Z ->
  exists e, Decoder_forward sqrtQ expQ knn_search dec (point, feat, rs) pxo2
            = Raise e.
Proof.
  intros (_ & Hlen & Hblocks) Ep Hv Hn Hc Hsmall.
  destruct (Decoder_forward sqrtQ expQ knn_search dec (point, feat, rs) pxo2)
    as [out|e] eqn:Hd; [|eauto].
  exfalso. unfold Decoder_forward in Hd.
  apply bind_Ok in Hd as (f & _ & Hd).
  apply bind_Ok in Hd as (r & Hb & _).
  destruct (dec_blocks dec) as [|blk [|? ?]]; try discriminate.
  apply Forall_inv in Hblocks.
  destruct Hblocks as (_ & _ & _ & Htr & _).
  destruct Htr as (_ & _ & _ & _ & Hns & _).
  cbn [blocks_forward] in Hb.
  apply bind_Ok in Hb as (r1 & Hb & _).
  unfold Bottleneck_forward in Hb.
  apply bind_Ok in Hb as (l1 & _ & Hb). apply bind_Ok in Hb as (b1 & _ & Hb).
  apply bind_Ok in Hb as (t & Ht & _).
  unfold Transformer_forward in Ht.
  do 3 (apply bind_Ok in Ht as (? & _ & Ht)).
  apply bind_Ok in Ht as (gk & Hgk & _).
  rewrite Hns in Hgk.
  destruct (queryandgroup_small_cloud_raises knn_search Hknn Hclamp nsample point
              point x0 rs rs true n i a b Ep Hv) as (e & He); auto.
  - unfold rows. rewrite Ep. exact Hv.
  - unfold rows. rewrite Ep. exact Hn.
  - rewrite He in Hgk. discriminate.
Qed.

(** The network does not pad small clouds.  Its five levels keep one point
    in 1, 4, 16, 64 and 256, and the attention blocks of the decoder look
    for 8 neighbours at the first level and 16 at the others: on a batch
    that is not empty and holds a cloud of fewer than 4096 points, for a
    search that returns all the points of a cloud smaller than the
    neighbour count, [forward] does not return. *)
Theorem PointTransformer_forward_needs_4096_points blocks c num_classes self
    batch n i a b :
  PointTransformer_init blocks c num_classes self ->
  shape (batch_point batch) = [n; 3] ->
  valid_splits (batch_row_splits batch) n -> 0 < n ->
  cloud (batch_row_splits batch) i a b -> (b - a < 4096)%Z ->
  exists e, PointTransformer_forward sqrtQ expQ knn_search furthest_point_sample_v2
              self batch = Raise e.
Proof.
  intros Hinit Ep Hv Hn Hc Hsmall.
  destruct (PointTransformer_forward sqrtQ expQ knn_search furthest_point_sample_v2
              self batch) as [out|e] eqn:Hf; [|eauto].
  exfalso.
  destruct Hinit as (p0 & p1 & p2 & p3 & p4 & s0 & s1 & s2 & s3 & s4
                     & n0 & n1 & n2 & n3 & n4 & b0 & b1 & b2 & b3 & b4 & l0 & bn & l3
                     & Hp & Hs & Hns & _ & _ & _ & _ & _ & _
                     & He1 & He2 & He3 & He4 & He5
                     & Hd5 & Hd4 & Hd3 & Hd2 & Hd1 & _).
  injection Hp as <- <- <- <- <-. injection Hs as <- <- <- <- <-.
  injection Hns as <- <- <- <- <-.
  unfold PointTransformer_forward in Hf.
  apply bind_Ok in Hf as (feat_0 & Hf0 & Hf).
  apply bind_Ok in Hf as ([[point_1 feat_1] rs_1] & H1 & Hf).
  apply bind_Ok in Hf as ([[point_2 feat_2] rs_2] & H2 & Hf).
  apply bind_Ok in Hf as ([[point_3 feat_3] rs_3] & H3 & Hf).
  apply bind_Ok in Hf as ([[point_4 feat_4] rs_4] & H4 & Hf).
  apply bind_Ok in Hf as ([[point_5 feat_5] rs_5] & H5 & Hf).
  apply bind_Ok in Hf as (f5 & Hdec5 & Hf). apply bind_Ok in Hf as (f4 & Hdec4 & Hf).
  apply bind_Ok in Hf as (f3 & Hdec3 & Hf). apply bind_Ok in Hf as (f2 & Hdec2 & Hf).
  apply bind_Ok in Hf as (f1 & Hdec1 & _).
  assert (Ef0 : exists w, shape feat_0 = [n; w]).
  { destruct (pt_c self =? 3).
    - injection Hf0 as <-. eauto.
    - apply cat2_Ok in Hf0 as (Es & _). rewrite Ep in Es. simpl in Es. eauto. }
  destruct Ef0 as (w0 & Ef0).
  (* the five levels *)
  pose proof He1 as ((Hst1 & _) & _). pose proof He2 as ((Hst2 & _) & _).
  pose proof He3 as ((Hst3 & _) & _). pose proof He4 as ((Hst4 & _) & _).
  pose proof He5 as ((Hst5 & _) & _).
  apply Encoder_forward_level with (n := n) (c := w0) in H1
    as (m1 & c1 & Ep1 & Ef1 & Hv1 & Hm1 & Hc1);
    [ | exact Ep | exact Ef0 | exact Hv | rewrite Hst1; lia ].
  apply Encoder_forward_level with (n := m1) (c := c1) in H2
    as (m2 & c2 & Ep2 & Ef2 & Hv2 & _ & Hc2);
    [ | exact Ep1 | exact Ef1 | exact Hv1 | rewrite Hst2; lia ].
  apply Encoder_forward_level with (n := m2) (c := c2) in H3
    as (m3 & c3 & Ep3 & Ef3 & Hv3 & _ & Hc3);
    [ | exact Ep2 | exact Ef2 | exact Hv2 | rewrite Hst3; lia ].
  apply Encoder_forward_level with (n := m3) (c := c3) in H4
    as (m4 & c4 & Ep4 & Ef4 & Hv4 & _ & Hc4);
    [ | exact Ep3 | exact Ef3 | exact Hv3 | rewrite Hst4; lia ].
  apply Encoder_forward_level with (n := m4) (c := c4) in H5
    as (m5 & c5 & Ep5 & Ef5 & Hv5 & _ & Hc5);
    [ | exact Ep4 | exact Ef4 | exact Hv4 | rewrite Hst5; lia ].
  specialize (Hm1 Hst1). subst m1.
  rewrite Hst1 in Hc1. rewrite Hst2 in Hc2. rewrite Hst3 in Hc3.
  rewrite Hst4 in Hc4. rewrite Hst5 in Hc5.
  (* the small cloud at every level *)
  destruct (Hc1 i a b Hc) as (u1 & v1 & Hcl1 & Hd1').
  destruct (Hc2 i u1 v1 Hcl1) as (u2 & v2 & Hcl2 & Hd2').
  destruct (Hc3 i u2 v2 Hcl2) as (u3 & v3 & Hcl3 & Hd3').
  destruct (Hc4 i u3 v3 Hcl3) as (u4 & v4 & Hcl4 & Hd4').
  destruct (Hc5 i u4 v4 Hcl4) as (u5 & v5 & Hcl5 & Hd5').
  destruct (valid_splits_cloud _ _ _ _ _ Hv Hc) as [Hab _].
  rewrite Z.div_1_r in Hd1'.
  assert (Hraise : forall in_planes planes is_head dec nsample point feat rs pxo2
                     m a' b' f,
            make_dec in_planes planes 2 8 nsample is_head dec ->
            shape point = [m; 3] -> valid_splits rs m -> 0 < m ->
            cloud rs i a' b' -> (b' - a' < Z.of_nat nsample)%Z ->
            Decoder_forward sqrtQ expQ knn_search dec (point, feat, rs) pxo2 = Ok f ->
            False).
  { intros ? ? ? ? ? ? ? ? ? ? ? ? ? Hmk Esp Hvs Hm Hcl Hlt Hok.
    destruct (Decoder_forward_small_cloud _ _ _ _ _ _ _ feat _ pxo2 _ _ _ _
                Hmk Esp Hvs Hm Hcl Hlt) as (e & He).
    rewrite He in Hok. discriminate. }
  destruct (Nat.eq_dec m5 0) as [E5|N5].
  2: { assert (v1 - u1 < 4096)%Z by lia.
       assert (v2 - u2 < 1024)%Z by (rewrite Hd2'; apply Z.div_lt_upper_bound; lia).
       assert (v3 - u3 < 256)%Z by (rewrite Hd3'; apply Z.div_lt_upper_bound; lia).
       assert (v4 - u4 < 64)%Z by (rewrite Hd4'; apply Z.div_lt_upper_bound; lia).
       assert (v5 - u5 < 16)%Z by (rewrite Hd5'; apply Z.div_lt_upper_bound; lia).
       assert (Hlt5 : (v5 - u5 < Z.of_nat 16)%Z) by lia.
       assert (Hpos5 : 0 < m5) by lia.
       exact (Hraise _ _ _ _ _ _ _ _ _ _ _ _ _ Hd5 Ep5 Hv5 Hpos5 Hcl5 Hlt5 Hdec5). }
  (* below a level without points every cloud holds fewer than four *)
  assert (Hfew : forall x y x' y' : Z,
            (0 <= y - x)%Z -> (y' - x' = (y - x) / 4)%Z -> x' = 0%Z -> y' = 0%Z ->
            (y - x < 4)%Z).
  { intros x y x' y' Hxy Hdiv -> ->.
    destruct (Z_lt_ge_dec (y - x) 4) as [Hlt|Hge]; [exact Hlt|].
    assert (1 <= (y - x) / 4)%Z by (apply Z.div_le_lower_bound; lia). lia. }
  subst m5. destruct (valid_splits_empty _ _ _ _ Hv5 Hcl5) as [-> ->].
  destruct (valid_splits_cloud _ _ _ _ _ Hv4 Hcl4) as [Hab4 _].
  assert (H04 : (0 <= v4 - u4)%Z) by lia.
  pose proof (Hfew u4 v4 0%Z 0%Z H04 Hd5' eq_refl eq_refl) as Hlt4.
  destruct (Nat.eq_dec m4 0) as [E4|N4].
  2: { assert (Hlt : (v4 - u4 < Z.of_nat 16)%Z) by lia.
       assert (Hpos : 0 < m4) by lia.
       exact (Hraise _ _ _ _ _ _ _ _ _ _ _ _ _ Hd4 Ep4 Hv4 Hpos Hcl4 Hlt Hdec4). }
  subst m4. destruct (valid_splits_empty _ _ _ _ Hv4 Hcl4) as [-> ->].
  destruct (valid_splits_cloud _ _ _ _ _ Hv3 Hcl3) as [Hab3 _].
  assert (H03 : (0 <= v3 - u3)%Z) by lia.
  pose proof (Hfew u3 v3 0%Z 0%Z H03 Hd4' eq_refl eq_refl) as Hlt3.
  destruct (Nat.eq_dec m3 0) as [E3|N3].
  2: { assert (Hlt : (v3 - u3 < Z.of_nat 16)%Z) by lia.
       assert (Hpos : 0 < m3) by lia.
       exact (Hraise _ _ _ _ _ _ _ _ _ _ _ _ _ Hd3 Ep3 Hv3 Hpos Hcl3 Hlt Hdec3). }
  subst m3. destruct (valid_splits_empty _ _ _ _ Hv3 Hcl3) as [-> ->].
  destruct (valid_splits_cloud _ _ _ _ _ Hv2 Hcl2) as [Hab2 _].
  assert (H02 : (0 <= v2 - u2)%Z) by lia.
  pose proof (Hfew u2 v2 0%Z 0%Z H02 Hd3' eq_refl eq_refl) as Hlt2.
  destruct (Nat.eq_dec m2 0) as [E2|N2].
  2: { assert (Hlt : (v2 - u2 < Z.of_nat 16)%Z) by lia.
       assert (Hpos : 0 < m2) by lia.
       exact (Hraise _ _ _ _ _ _ _ _ _ _ _ _ _ Hd2 Ep2 Hv2 Hpos Hcl2 Hlt Hdec2). }
  subst m2. destruct (valid_splits_empty _ _ _ _ Hv2 Hcl2) as [-> ->].
  destruct (valid_splits_cloud _ _ _ _ _ Hv1 Hcl1) as [Hab1 _].
  assert (H01 : (0 <= v1 - u1)%Z) by lia.
  pose proof (Hfew u1 v1 0%Z 0%Z H01 Hd2' eq_refl eq_refl) as Hlt1.
  assert (Hlt : (v1 - u1 < Z.of_nat 8)%Z) by lia.
  exact (Hraise _ _ _ _ _ _ _ _ _ _ _ _ _ Hd1 Ep1 Hv1 Hn Hcl1 Hlt Hdec1).
Qed.

End MinimumSize.

(** ** The width of the input features *)

Section InputWidth.
Variables sqrtQ expQ : Q -> Q.
Variable knn_search : Tensor Q -> Tensor Q -> nat -> res (Tensor Z * Tensor Q).
Variable furthest_point_sample_v2 :
  Tensor Q -> list Z -> list Z -> res (Tensor Z).

(** A network built for [c] input channels with [c] other than 3 runs its
    first linear layer on the coordinates followed by the features: a batch
    whose features do not have [c - 3] channels is refused. *)
Theorem PointTransformer_forward_feature_width blocks c num_classes self batch
    n cf :
  PointTransformer_init blocks c num_classes self ->
  shape (batch_point batch) = [n; 3] -> shape (batch_feat batch) = [n; cf] ->
  c <> 3 -> c <> 3 + cf ->
  exists e, PointTransformer_forward sqrtQ expQ knn_search furthest_point_sample_v2
              self batch = Raise e.
Proof.
  intros Hinit Ep Ef Hc3 Hw.
  destruct (PointTransformer_forward sqrtQ expQ knn_search furthest_point_sample_v2
              self batch) as [out|e] eqn:Hf; [|eauto].
  exfalso. apply Hw.
  destruct Hinit as (p0 & p1 & p2 & p3 & p4 & s0 & s1 & s2 & s3 & s4
                     & n0 & n1 & n2 & n3 & n4 & b0 & b1 & b2 & b3 & b4 & l0 & bn & l3
                     & _ & Hs & _ & _ & _ & _ & _ & _ & Hc & He1 & _).
  injection Hs as <- _ _ _ _.
  destruct He1 as ((Hstr & _ & [Hin _] & _) & _ & _).
  change (1 =? 1)%Z with true in Hin. cbv iota in Hin.
  unfold PointTransformer_forward in Hf. rewrite Hc in Hf.
  destruct (c =? 3) eqn:E3; [apply Nat.eqb_eq in E3; contradiction|].
  apply bind_Ok in Hf as (feat_0 & Hcat & Hf).
  apply bind_Ok in Hf as (pxo_1 & H1 & _).
  apply cat2_Ok in Hcat as (Es & _). rewrite Ep, Ef in Es. simpl in Es.
  unfold Encoder_forward in H1. apply bind_Ok in H1 as (pxo' & Htd & _).
  unfold TransitionDown_forward in Htd. rewrite Hstr in Htd. simpl in Htd.
  apply bind_Ok in Htd as (l & Hl & _).
  apply Linear_forward_Ok in Hl as (_ & _ & Hlast & _).
  rewrite Es in Hlast. simpl in Hlast. rewrite Hin in Hlast.
  injection Hlast as <-. reflexivity.
Qed.

End InputWidth.

(** ** Sorting by insertion *)

Lemma insert_by_Permutation x l : Permutation (insert_by x l) (x :: l).
Proof.
  induction l as [|y l IH]; simpl; [reflexivity|].
  destruct (Qle_bool (fst x) (fst y)); [reflexivity|].
  rewrite IH. apply perm_swap.
Qed.

Lemma sort_by_Permutation l : Permutation (sort_by l) l.
Proof.
  induction l as [|x l IH]; simpl; [reflexivity|].
  rewrite insert_by_Permutation, IH. reflexivity.
Qed.

Lemma ordered_cons x l :
  ordered l -> Forall (fun y => (fst x <= fst y)%Q) l -> ordered (x :: l).
Proof.
  intros Ho Hx i j Hij Hj. simpl in Hj.
  destruct j as [|j]; [replace i with 0 by lia; apply Qle_refl|].
  destruct i as [|i]; simpl.
  - rewrite List.Forall_forall in Hx. apply Hx. apply nth_In. lia.
  - apply Ho; lia.
Qed.

Lemma ordered_inv x l :
  ordered (x :: l) -> ordered l /\ Forall (fun y => (fst x <= fst y)%Q) l.
Proof.
  intros Ho. split.
  - intros i j Hij Hj. apply (Ho (S i) (S j)); simpl; lia.
  - apply List.Forall_forall. intros y Hy.
    destruct (In_nth _ _ (0%Q, 0) Hy) as (k & Hk & <-).
    apply (Ho 0 (S k)); simpl; lia.
Qed.

Lemma insert_by_ordered x l : ordered l -> ordered (insert_by x l).
Proof.
  induction l as [|y l IH]; intros Ho; simpl.
  - intros i j Hij Hj. simpl in Hj. replace j with 0 by lia.
    replace i with 0 by lia. apply Qle_refl.
  - destruct (Qle_bool (fst x) (fst y)) eqn:E.
    + apply Qle_bool_iff in E. apply ordered_cons; [exact Ho|].
      apply ordered_inv in Ho as [_ Hy].
      constructor; [exact E|].
      eapply Forall_impl; [exact Hy|]. intros z Hz. simpl in Hz.
      eapply Qle_trans; eassumption.
    + assert (Hyx : (fst y <= fst x)%Q).
      { destruct (Qlt_le_dec (fst x) (fst y)) as [Hlt|Hle]; [|exact Hle].
        apply Qlt_le_weak, Qle_bool_iff in Hlt. congruence. }
      apply ordered_inv in Ho as [Ho Hy].
      apply ordered_cons; [apply IH; exact Ho|].
      apply insert_by_Forall; assumption.
Qed.

Lemma sort_by_ordered l : ordered (sort_by l).
Proof.
  induction l as [|x l IH]; simpl.
  - intros i j _ Hj. simpl in Hj. lia.
  - apply insert_by_ordered. exact IH.
Qed.

Lemma map_snd_zip_seq (l : list Q) :
  map snd (zip_with (fun v i => (v, i)) l (seq 0 (length l))) = seq 0 (length l).
Proof.
  generalize 0. induction l as [|x l IH]; intros s; simpl; [reflexivity|].
  rewrite IH. reflexivity.
Qed.

Lemma zip_seq_entries (l : list Q) : forall s,
  Forall (fun p : Q * nat => s <= snd p /\ fst p = nth (snd p - s) l 0%Q)
    (zip_with (fun v i => (v, i)) l (seq s (length l))).
Proof.
  induction l as [|x l IH]; intros s; simpl; constructor.
  - simpl. split; [lia|]. replace (s - s) with 0 by lia. reflexivity.
  - eapply Forall_impl; [apply (IH (S s))|]. intros [v i] [Hs Hv]. simpl in *.
    split; [lia|]. rewrite Hv.
    replace (i - s) with (S (i - S s)) by lia. reflexivity.
Qed.

(** The insertion argsort meets the specification of [np.argsort]. *)
Lemma argsort_insertion_spec : argsort_spec argsort_insertion.
Proof.
  intros l. unfold argsort_insertion.
  set (input := zip_with (fun v i => (v, i)) l (seq 0 (length l))).
  assert (Hlen : length (sort_by input) = length l).
  { rewrite sort_by_length. unfold input.
    rewrite length_zip_with, length_seq. lia. }
  split.
  - rewrite <- (map_snd_zip_seq l). fold input.
    apply Permutation_map, sort_by_Permutation.
  - intros i j Hij Hj.
    assert (Hent : Forall (fun p : Q * nat => fst p = nth (snd p) l 0%Q)
                     (sort_by input)).
    { apply sort_by_Forall. eapply Forall_impl; [apply (zip_seq_entries l 0)|].
      intros [v k] [_ Hv]. simpl in *. rewrite Hv. f_equal. lia. }
    rewrite List.Forall_forall in Hent.
    assert (Hget : forall k, k < length l ->
              nth (nth k (map snd (sort_by input)) 0) l 0%Q
              = fst (nth k (sort_by input) (0%Q, 0))).
    { intros k Hk.
      change 0 with (snd (0%Q, 0)) at 1. rewrite map_nth.
      symmetry. apply Hent. apply nth_In. lia. }
    rewrite !Hget by lia.
    apply sort_by_ordered; lia.
Qed.

(** ** Data preparation *)

Lemma mapM_py_index_of_nat n sel :
  Forall (fun i => i < n) sel -> mapM (py_index n) (map Z.of_nat sel) = Ok sel.
Proof.
  induction sel as [|i sel IH]; intros Hs; simpl; [reflexivity|].
  apply Forall_cons in Hs as [Hi Hs].
  rewrite py_index_nonneg by lia. simpl. rewrite IH by exact Hs. simpl.
  rewrite Nat2Z.id. reflexivity.
Qed.

Lemma index_rows_of_nat {A} `{Inhabited A} (t : Tensor A) n rest sel :
  shape t = n :: rest -> Forall (fun i => i < n) sel ->
  torch.index_rows t (map Z.of_nat sel)
  = Ok (tab (length sel :: rest)
          (fun ix => match ix with
                     | r :: ix' => get t (nth r sel 0 :: ix')
                     | [] => inhabitant
                     end)).
Proof.
  intros Es Hs. unfold torch.index_rows. rewrite Es.
  rewrite mapM_py_index_of_nat by exact Hs. reflexivity.
Qed.

Lemma map_nth_seq {A B} (f : A -> B) (l : list A) d :
  map (fun r => f (nth r l d)) (seq 0 (length l)) = map f l.
Proof.
  induction l as [|x l IH]; simpl; [reflexivity|].
  rewrite <- seq_shift, map_map. simpl. rewrite IH. reflexivity.
Qed.

Lemma Qle_bool_shift (a b s : Q) : Qle_bool (a - s) (b - s) = Qle_bool a b.
Proof.
  destruct (Qle_bool a b) eqn:E.
  - apply Qle_bool_iff. apply Qle_bool_iff in E. lra.
  - destruct (Qle_bool (a - s) (b - s)) eqn:E'; [|reflexivity].
    apply Qle_bool_iff in E'. assert (Hab : (a <= b)%Q) by lra.
    apply Qle_bool_iff in Hab. congruence.
Qed.

Lemma minQ_shift (l : list Q) s :
  l <> [] -> minQ (map (fun x => x - s)%Q l) = (minQ l - s)%Q.
Proof.
  destruct l as [|x l]; [congruence|]. intros _. simpl.
  revert x. induction l as [|y l IH]; intros x; simpl; [reflexivity|].
  rewrite Qle_bool_shift. destruct (Qle_bool x y); apply IH.
Qed.

Lemma maxQ_shift (l : list Q) s :
  l <> [] -> nn.maxQ (map (fun x => x - s)%Q l) = (nn.maxQ l - s)%Q.
Proof.
  destruct l as [|x l]; [congruence|]. intros _. simpl.
  revert x. induction l as [|y l IH]; intros x; simpl; [reflexivity|].
  rewrite Qle_bool_shift. destruct (Qle_bool x y); apply IH.
Qed.

Lemma kept_le mv n : kept mv n <= n.
Proof.
  unfold kept. destruct (negb (mv =? 0) && (mv <? n)) eqn:E; [|lia].
  apply andb_prop in E as [_ E]. apply Nat.ltb_lt in E. lia.
Qed.

Lemma kept_pos mv n : 0 < n -> 0 < kept mv n.
Proof.
  unfold kept. intros Hn. destruct (negb (mv =? 0) && (mv <? n)) eqn:E; [|lia].
  apply andb_prop in E as [E _]. apply negb_true_iff, Nat.eqb_neq in E. lia.
Qed.

Lemma bix_row (r ch : nat) : torch.bix [3] [r; ch] = [ch].
Proof. reflexivity. Qed.

Lemma bix_vec (ch : nat) : torch.bix [3] [ch] = [ch].
Proof. reflexivity. Qed.

(** The squared distances that [transform] sorts: entry [p] is the squared
    distance of point [p] to the point at [init_idx]. *)
Lemma transform_distances (P : Tensor Q) n init :
  shape P = [n; 3] -> (0 <= init < Z.of_nat n)%Z ->
  exists centre diff dten,
    np.row_at P init = Ok centre /\
    torch.sub P centre = Ok diff /\
    torch.sum_dim (torch.map1 (fun x => x * x)%Q diff) 1 false = Ok dten /\
    length (data dten) = n /\
    forall p, p < n ->
      nth p (data dten) 0%Q = sqdist (row P p) (row P (Z.to_nat init)).
Proof.
  intros Ep Hi.
  set (i0 := Z.to_nat init).
  set (centre := tab [3] (fun ix => get P (i0 :: ix))).
  set (diff := tab [n; 3]
                 (fun ix => Qminus (get P (torch.bix [n; 3] ix))
                                   (get centre (torch.bix [3] ix)))).
  assert (Hc : np.row_at P init = Ok centre).
  { unfold np.row_at. rewrite Ep, py_index_nonneg by exact Hi. reflexivity. }
  assert (Hd : torch.sub P centre = Ok diff).
  { unfold torch.sub, torch.map2. rewrite Ep. reflexivity. }
  set (sq := torch.map1 (fun x => x * x)%Q diff).
  set (dten := tab [n]
                 (fun ix => torch.sumQ
                    (map (fun i => get sq (take 1 ix ++ i :: drop 1 ix)) (seq 0 3)))).
  assert (Hs : torch.sum_dim sq 1 false = Ok dten).
  { unfold torch.sum_dim. reflexivity. }
  exists centre, diff, dten. repeat split; auto.
  - unfold dten, tab. cbn [data]. rewrite length_map, length_seq. simpl. lia.
  - intros p Hp.
    assert (Hg : nth p (data dten) 0%Q = get dten [p]).
    { unfold get. cbn [shape dten tab ravel]. f_equal. simpl. lia. }
    rewrite Hg. unfold dten. rewrite get_tab by bounds.
    assert (Hsq : forall i, i < 3 ->
              get sq [p; i]
              = ((get P [p; i] - get P [i0; i]) * (get P [p; i] - get P [i0; i]))%Q).
    { intros i Hi3. unfold sq.
      rewrite get_map1.
      - unfold diff. rewrite get_tab by bounds.
        rewrite bix_same by assumption. rewrite bix_row.
        unfold centre. rewrite get_tab by bounds.
        reflexivity.
      - unfold diff, tab. cbn [shape data]. rewrite length_map, length_seq.
        rewrite ravel_2. simpl. lia. }
    cbn [take drop app seq map].
    rewrite !Hsq by lia.
    unfold sqdist, row. rewrite Ep. reflexivity.
Qed.

Section TransformProps.
Variable randint : nat -> Z.
Variable argsort : list Q -> list nat.
Hypothesis Hsort : argsort_spec argsort.
Hypothesis Hrand : randint_spec randint.

(** The cropping step: the rows it keeps and what it returns. *)
Lemma crop_cases mv n points feat (labels : Tensor Z) split :
  shape labels = [n] ->
  crop randint argsort mv points feat labels split
  = if negb (mv =? 0) && (mv <? n)
    then crop_nearest randint argsort mv n points feat labels split
    else Ok (points, feat, labels).
Proof.
  intros El. unfold crop, torch.size. rewrite El.
  cbn [lookup list_lookup mbind res_bind].
  destruct (mv =? 0); reflexivity.
Qed.

Lemma transform_crop mv (d : Data) split n :
  valid_data d n -> 0 < n ->
  exists P' F' L' sel i0,
    crop randint argsort mv (data_point d) (data_feat d) (data_label d) split
      = Ok (P', F', L') /\
    length sel = kept mv n /\ NoDup sel /\ Forall (fun i => i < n) sel /\
    (kept mv n = n -> sel = seq 0 n) /\
    i0 < n /\ (contains "train" split = false -> i0 = n / 2) /\
    (forall s u, In s sel -> u < n -> ~ In u sel ->
       (sqdist (row (data_point d) s) (row (data_point d) i0)
        <= sqdist (row (data_point d) u) (row (data_point d) i0))%Q) /\
    shape P' = [kept mv n; 3] /\ shape L' = [kept mv n] /\
    (forall r ch, r < kept mv n -> ch < 3 ->
       get P' [r; ch] = get (data_point d) [nth r sel 0; ch]) /\
    (forall r, r < kept mv n -> get L' [r] = get (data_label d) [nth r sel 0]) /\
    match data_feat d with
    | Some f =>
        exists f', F' = Some f' /\ shape f' = kept mv n :: tail (shape f) /\
          wf f' /\
          forall r j, r < kept mv n -> j < nth 1 (shape f) 0 ->
            get f' [r; j] = get f [nth r sel 0; j]
    | None => F' = None
    end.
Proof.
  intros (Ep & El & Hfeat) Hn. rewrite (crop_cases mv n _ _ _ split El).
  unfold kept, crop_nearest.
  destruct (negb (mv =? 0) && (mv <? n)) eqn:Hcond.
  - apply andb_prop in Hcond as [Hmv0 Hmvn].
    apply negb_true_iff, Nat.eqb_neq in Hmv0. apply Nat.ltb_lt in Hmvn.
    set (init := if contains "train" split then randint n else Z.of_nat (n / 2)).
    assert (Hinit : (0 <= init < Z.of_nat n)%Z).
    { unfold init. destruct (contains "train" split); [apply Hrand; exact Hn|].
      pose proof (Nat.div_lt n 2 Hn ltac:(lia)). lia. }
    destruct (transform_distances _ _ _ Ep Hinit)
      as (centre & diff & dten & Hc & Hd & Hs & Hlen & Hdist).
    cbv zeta. fold init. rewrite Hc. cbn [mbind res_bind]. rewrite Hd.
    cbn [mbind res_bind]. rewrite Hs. cbn [mbind res_bind].
    destruct (Hsort (data dten)) as [Hperm Hord]. rewrite Hlen in Hperm, Hord.
    set (order := argsort (data dten)) in *.
    set (sel := take mv order).
    assert (Hlo : length order = n).
    { rewrite (Permutation_length Hperm), length_seq. reflexivity. }
    assert (Hnd : NoDup order).
    { apply NoDup_ListNoDup. eapply Permutation_NoDup;
        [symmetry; exact Hperm | apply seq_NoDup]. }
    assert (Hall : Forall (fun i => i < n) order).
    { apply List.Forall_forall. intros x Hx.
      apply (Permutation_in _ Hperm), in_seq in Hx. lia. }
    assert (Hlsel : length sel = mv) by (unfold sel; rewrite length_take; lia).
    assert (Hsel : Forall (fun i => i < n) sel) by (apply Forall_take; exact Hall).
    fold order. fold sel.
    rewrite (index_rows_of_nat _ _ _ _ Ep Hsel).
    rewrite (index_rows_of_nat _ _ _ _ El Hsel).
    set (P' := tab (length sel :: [3])
                 (fun ix => match ix with
                            | r :: ix' => get (data_point d) (nth r sel 0 :: ix')
                            | [] => inhabitant
                            end)).
    set (L' := tab (length sel :: [])
                 (fun ix => match ix with
                            | r :: ix' => get (data_label d) (nth r sel 0 :: ix')
                            | [] => inhabitant
                            end)).
    assert (Hnear : forall s u, In s sel -> u < n -> ~ In u sel ->
              (sqdist (row (data_point d) s) (row (data_point d) (Z.to_nat init))
               <= sqdist (row (data_point d) u)
                    (row (data_point d) (Z.to_nat init)))%Q).
    { intros s u Hs' Hu Hnu.
      destruct (In_nth _ _ 0 Hs') as (a & Ha & Hsa). rewrite Hlsel in Ha.
      assert (Hsa' : nth a order 0 = s).
      { rewrite <- Hsa. unfold sel. rewrite <- (firstn_skipn mv order) at 1.
        rewrite app_nth1; [reflexivity|]. rewrite length_take. lia. }
      assert (Huo : In u order).
      { apply (Permutation_in _ (Permutation_sym Hperm)), in_seq. lia. }
      destruct (In_nth _ _ 0 Huo) as (b & Hb & Hub). rewrite Hlo in Hb.
      assert (Hab : mv <= b).
      { destruct (le_lt_dec mv b) as [Hle|Hlt]; [exact Hle|].
        exfalso. apply Hnu. rewrite <- Hub. unfold sel.
        rewrite <- (firstn_skipn mv order) at 1.
        rewrite app_nth1 by (rewrite length_take; lia).
        apply nth_In. rewrite length_take. lia. }
      specialize (Hord a b ltac:(lia) Hb). fold order in Hord.
      rewrite Hsa', Hub in Hord.
      rewrite <- (Hdist s), <- (Hdist u); [exact Hord | exact Hu |].
      rewrite List.Forall_forall in Hsel. apply Hsel. exact Hs'. }
    assert (HP' : forall r ch, r < mv -> ch < 3 ->
              get P' [r; ch] = get (data_point d) [nth r sel 0; ch]).
    { intros r ch Hr Hch. unfold P'.
      rewrite get_tab by bounds. reflexivity. }
    assert (HL' : forall r, r < mv -> get L' [r] = get (data_label d) [nth r sel 0]).
    { intros r Hr. unfold L'.
      rewrite get_tab by bounds. reflexivity. }
    destruct (data_feat d) as [f|] eqn:Ef.
    + destruct Hfeat as (c & Esf & Hwf).
      rewrite (index_rows_of_nat _ _ _ _ Esf Hsel). cbn [mbind res_bind].
      eexists P', _, L', sel, (Z.to_nat init).
      split; [reflexivity|].
      repeat split; auto.
      * unfold sel. rewrite <- (take_drop mv order) in Hnd.
        apply NoDup_app in Hnd as [Hnd _]. exact Hnd.
      * intros Hk. lia.
      * lia.
      * intros Htr. unfold init. rewrite Htr. apply Nat2Z.id.
      * unfold P'. rewrite shape_tab, Hlsel. reflexivity.
      * unfold L'. rewrite shape_tab, Hlsel. reflexivity.
      * eexists. split; [reflexivity|]. rewrite shape_tab, Hlsel, Esf.
        split; [reflexivity|]. split; [apply wf_tab|].
        intros r j Hr Hj. simpl in Hj.
        rewrite get_tab by bounds. reflexivity.
    + cbn [mbind res_bind].
      eexists P', None, L', sel, (Z.to_nat init).
      split; [reflexivity|].
      repeat split; auto.
      * unfold sel. rewrite <- (take_drop mv order) in Hnd.
        apply NoDup_app in Hnd as [Hnd _]. exact Hnd.
      * intros Hk. lia.
      * lia.
      * intros Htr. unfold init. rewrite Htr. apply Nat2Z.id.
      * unfold P'. rewrite shape_tab, Hlsel. reflexivity.
      * unfold L'. rewrite shape_tab, Hlsel. reflexivity.
  - exists (data_point d), (data_feat d), (data_label d), (seq 0 n), (n / 2).
    split; [reflexivity|].
    assert (Hnth : forall r, r < n -> nth r (seq 0 n) 0 = r)
      by (intros r Hr; rewrite seq_nth by exact Hr; reflexivity).
    repeat split; auto.
    + apply length_seq.
    + apply NoDup_ListNoDup, seq_NoDup.
    + apply List.Forall_forall. intros x Hx. apply in_seq in Hx. lia.
    + apply Nat.div_lt; lia.
    + intros s u _ Hu Hnu. exfalso. apply Hnu. apply in_seq. lia.
    + intros r ch Hr _. rewrite Hnth by exact Hr. reflexivity.
    + intros r Hr. rewrite Hnth by exact Hr. reflexivity.
    + destruct (data_feat d) as [f|]; [|reflexivity].
      destruct Hfeat as (c & Esf & Hwf). exists f. rewrite Esf.
      repeat split; auto. intros r j Hr _. rewrite Hnth by exact Hr. reflexivity.
Qed.

(** The centring step. *)
Lemma transform_centre (P' : Tensor Q) m :
  shape P' = [m; 3] -> 0 < m ->
  exists out_p,
    (forall (k : Tensor Q -> res Data),
       (points_min ← np.min0 P';
        points_max ← np.max0 P';
        s ← torch.add points_min points_max;
        points ← torch.isub P' (torch.map1 (fun x => x / 2)%Q s);
        k points) = k out_p) /\
    shape out_p = [m; 3] /\
    forall r ch, r < m -> ch < 3 ->
      get out_p [r; ch]
      = (get P' [r; ch]
         - (minQ (map (fun r => get P' [r; ch]) (seq 0 m))
            + nn.maxQ (map (fun r => get P' [r; ch]) (seq 0 m))) / 2)%Q.
Proof.
  intros Ep Hm.
  set (mn := tab [3] (fun ix => minQ (map (fun r => get P' (r :: ix)) (seq 0 m)))).
  set (mx := tab [3] (fun ix => nn.maxQ (map (fun r => get P' (r :: ix)) (seq 0 m)))).
  assert (Hmn : np.min0 P' = Ok mn).
  { unfold np.min0, np.reduce0. rewrite Ep.
    replace (m =? 0) with false by (symmetry; apply Nat.eqb_neq; lia). reflexivity. }
  assert (Hmx : np.max0 P' = Ok mx).
  { unfold np.max0, np.reduce0. rewrite Ep.
    replace (m =? 0) with false by (symmetry; apply Nat.eqb_neq; lia). reflexivity. }
  set (s := tab [3] (fun ix => Qplus (get mn (torch.bix [3] ix))
                                    (get mx (torch.bix [3] ix)))).
  assert (Hs : torch.add mn mx = Ok s) by reflexivity.
  set (mid := torch.map1 (fun x => x / 2)%Q s).
  set (out_p := mkTensor [m; 3]
                  (data (tab [m; 3]
                           (fun ix => Qminus (get P' ix)
                                        (get mid (torch.bix [3] ix)))))
                  (contig P')).
  assert (Ho : torch.isub P' mid = Ok out_p).
  { unfold torch.isub, torch.map2_. rewrite Ep. cbn [shape mid torch.map1 s tab].
    unfold torch.broadcast_shapes. cbn [rev app torch.broadcast_rev mbind res_bind
                                        Nat.eqb].
    rewrite bool_decide_eq_true_2 by reflexivity. reflexivity. }
  exists out_p.
  split; [|split; [reflexivity|]].
  { intros k. rewrite Hmn. cbn [mbind res_bind]. rewrite Hmx. cbn [mbind res_bind].
    rewrite Hs. cbn [mbind res_bind]. fold mid. rewrite Ho. reflexivity. }
  intros r ch Hr Hch.
  rewrite (get_eq out_p (tab [m; 3]
                           (fun ix => Qminus (get P' ix)
                                        (get mid (torch.bix [3] ix)))))
    by reflexivity.
  rewrite get_tab by bounds. rewrite bix_row.
  unfold mid. rewrite get_map1
    by (unfold s, tab; cbn [shape data ravel]; rewrite length_map, length_seq;
        simpl; lia).
  unfold s. rewrite get_tab by bounds. rewrite bix_vec.
  unfold mn, mx. rewrite !get_tab by bounds. reflexivity.
Qed.

Lemma transform_run mv (d : Data) split n :
  valid_data d n -> 0 < n ->
  exists out sel i0,
    transform randint argsort mv d split = Ok out /\
    length sel = kept mv n /\ NoDup sel /\ Forall (fun i => i < n) sel /\
    (kept mv n = n -> sel = seq 0 n) /\
    i0 < n /\ (contains "train" split = false -> i0 = n / 2) /\
    (forall s u, In s sel -> u < n -> ~ In u sel ->
       (sqdist (row (data_point d) s) (row (data_point d) i0)
        <= sqdist (row (data_point d) u) (row (data_point d) i0))%Q) /\
    shape (data_point out) = [kept mv n; 3] /\
    shape (data_label out) = [kept mv n] /\
    (forall r ch, r < kept mv n -> ch < 3 ->
       get (data_point out) [r; ch]
       = (get (data_point d) [nth r sel 0%nat; ch]
          - (minQ (map (fun s => get (data_point d) [s; ch]) sel)
             + nn.maxQ (map (fun s => get (data_point d) [s; ch]) sel)) / 2)%Q) /\
    (forall r, r < kept mv n ->
       get (data_label out) [r] = get (data_label d) [nth r sel 0]) /\
    match data_feat d with
    | Some f =>
        exists f', data_feat out = Some f' /\
          shape f' = kept mv n :: tail (shape f) /\
          forall r j, r < kept mv n -> j < nth 1 (shape f) 0 ->
            get f' [r; j] = (get f [nth r sel 0%nat; j] / 255)%Q
    | None => data_feat out = None
    end.
Proof.
  intros Hv Hn.
  destruct (transform_crop mv d split n Hv Hn)
    as (P' & F' & L' & sel & i0 & Hcrop & Hlen & Hnd & Hall & Hseq & Hi0 & Htr
        & Hnear & EP' & EL' & HP' & HL' & HF').
  destruct (transform_centre P' (kept mv n) EP' (kept_pos mv n Hn))
    as (out_p & Hcentre & Eo & Hget).
  destruct Hv as (Ep & El & Hfeat).
  set (out := mkData out_p
                (match F' with
                 | Some feat => Some (torch.map1 (fun x => x / 255)%Q feat)
                 | None => None
                 end) L').
  exists out, sel, i0.
  assert (Hrun : transform randint argsort mv d split = Ok out).
  { unfold transform. rewrite Hcrop. cbn [mbind res_bind]. rewrite Hcentre.
    reflexivity. }
  split; [exact Hrun|].
  split; [exact Hlen|]. split; [exact Hnd|]. split; [exact Hall|].
  split; [exact Hseq|]. split; [exact Hi0|]. split; [exact Htr|]. split; [exact Hnear|].
  split; [exact Eo|]. split; [exact EL'|].
  split.
  { intros r ch Hr Hch. cbn [out data_point]. rewrite Hget by assumption.
    rewrite HP' by assumption.
    assert (Hcol : map (fun r0 => get P' [r0; ch]) (seq 0 (kept mv n))
                   = map (fun s => get (data_point d) [s; ch]) sel).
    { rewrite <- Hlen, <- (map_nth_seq (fun s => get (data_point d) [s; ch]) sel 0).
      apply map_ext_in. intros a Ha. apply in_seq in Ha. apply HP'; lia. }
    rewrite Hcol. reflexivity. }
  split; [exact HL'|].
  destruct (data_feat d) as [f|].
  - destruct HF' as (f' & -> & Esf' & Hwf' & Hf').
    exists (torch.map1 (fun x => x / 255)%Q f'). split; [reflexivity|].
    split; [exact Esf'|].
    intros r j Hr Hj. destruct Hfeat as (c & Esf & _). rewrite Esf in Hj, Esf'.
    simpl in Hj, Esf'. rewrite get_map1, Hf'; [reflexivity | exact Hr | | ].
    + rewrite Esf. exact Hj.
    + rewrite Hwf'. unfold numel. rewrite Esf'. apply ravel_lt. bounds.
  - subst F'. reflexivity.
Qed.

End TransformProps.

Section TransformTheorems.
Variable randint : nat -> Z.
Variable argsort : list Q -> list nat.
Hypothesis Hsort : argsort_spec argsort.
Hypothesis Hrand : randint_spec randint.

(** [transform] returns on every input with at least one point, and keeps
    points, features and labels aligned: it keeps [kept max_voxels n] rows,
    the same input rows, each once, for the three arrays.  Output row [r]
    holds the coordinates of the input point [sel r] moved by one shift per
    coordinate, its features divided by 255 and its label.  Without
    cropping the rows stay in their order. *)
Theorem transform_keeps_rows_aligned mv (d : Data) split n :
  valid_data d n -> 0 < n ->
  exists out sel (shift : nat -> Q),
    transform randint argsort mv d split = Ok out /\
    length sel = kept mv n /\ NoDup sel /\ Forall (fun i => i < n) sel /\
    (kept mv n = n -> sel = seq 0 n) /\
    shape (data_point out) = [kept mv n; 3] /\
    shape (data_label out) = [kept mv n] /\
    (forall r ch, r < kept mv n -> ch < 3 ->
       get (data_point out) [r; ch]
       = (get (data_point d) [nth r sel 0%nat; ch] - shift ch)%Q) /\
    (forall r, r < kept mv n ->
       get (data_label out) [r] = get (data_label d) [nth r sel 0]) /\
    match data_feat d with
    | Some f =>
        exists f', data_feat out = Some f' /\
          shape f' = kept mv n :: tail (shape f) /\
          forall r j, r < kept mv n -> j < nth 1 (shape f) 0 ->
            get f' [r; j] = (get f [nth r sel 0%nat; j] / 255)%Q
    | None => data_feat out = None
    end.
Proof.
  intros Hv Hn.
  destruct (transform_run randint argsort Hsort Hrand mv d split n Hv Hn)
    as (out & sel & i0 & Hrun & Hlen & Hnd & Hall & Hseq & _ & _ & _ & Ep & El
        & Hp & Hl & Hf).
  exists out, sel,
    (fun ch => ((minQ (map (fun s => get (data_point d) [s; ch]) sel)
                 + nn.maxQ (map (fun s => get (data_point d) [s; ch]) sel)) / 2)%Q).
  auto 12.
Qed.

(** [transform] centres the points it returns: in every coordinate the
    smallest and the largest value of the output are opposite. *)
Theorem transform_centres_bounding_box mv (d : Data) split n :
  valid_data d n -> 0 < n ->
  exists out,
    transform randint argsort mv d split = Ok out /\
    forall ch, ch < 3 ->
      (minQ (column (data_point out) ch) + nn.maxQ (column (data_point out) ch)
       == 0)%Q.
Proof.
  intros Hv Hn.
  destruct (transform_run randint argsort Hsort Hrand mv d split n Hv Hn)
    as (out & sel & i0 & Hrun & Hlen & _ & _ & _ & _ & _ & _ & Ep & _ & Hp & _).
  exists out. split; [exact Hrun|]. intros ch Hch.
  set (l := map (fun s => get (data_point d) [s; ch]) sel).
  set (sh := ((minQ l + nn.maxQ l) / 2)%Q).
  assert (Hcol : column (data_point out) ch = map (fun x => x - sh)%Q l).
  { unfold column, rows. rewrite Ep. cbn [hd]. unfold l. rewrite map_map.
    rewrite <- Hlen,
      <- (map_nth_seq (fun s => (get (data_point d) [s; ch] - sh)%Q) sel 0).
    apply map_ext_in. intros r Hr. apply in_seq in Hr.
    rewrite Hp by lia. reflexivity. }
  assert (Hne : l <> []).
  { unfold l. intros E. apply (f_equal (@length Q)) in E.
    rewrite length_map, Hlen in E. simpl in E.
    pose proof (kept_pos mv n Hn). lia. }
  rewrite Hcol, minQ_shift, maxQ_shift by exact Hne.
  unfold sh. field.
Qed.

(** When it crops, [transform] keeps the [max_voxels] points nearest to the
    point at [init_idx] (the middle point [n // 2] unless the split is a
    training split): no dropped point is nearer to it than a kept one. *)
Theorem transform_crops_to_nearest mv (d : Data) split n :
  valid_data d n -> 0 < mv -> mv < n ->
  exists out sel i0 (shift : nat -> Q),
    transform randint argsort mv d split = Ok out /\
    shape (data_point out) = [mv; 3] /\ length sel = mv /\
    i0 < n /\ (contains "train" split = false -> i0 = n / 2) /\
    (forall r ch, r < mv -> ch < 3 ->
       get (data_point out) [r; ch]
       = (get (data_point d) [nth r sel 0%nat; ch] - shift ch)%Q) /\
    forall s u, In s sel -> u < n -> ~ In u sel ->
      (sqdist (row (data_point d) s) (row (data_point d) i0)
       <= sqdist (row (data_point d) u) (row (data_point d) i0))%Q.
Proof.
  intros Hv Hmv Hlt.
  assert (Hn : 0 < n) by lia.
  assert (Hk : kept mv n = mv).
  { unfold kept.
    replace (mv =? 0) with false by (symmetry; apply Nat.eqb_neq; lia).
    replace (mv <? n) with true by (symmetry; apply Nat.ltb_lt; lia).
    reflexivity. }
  destruct (transform_run randint argsort Hsort Hrand mv d split n Hv Hn)
    as (out & sel & i0 & Hrun & Hlen & _ & _ & _ & Hi0 & Htr & Hnear & Ep & _
        & Hp & _).
  rewrite Hk in *.
  exists out, sel, i0,
    (fun ch => ((minQ (map (fun s => get (data_point d) [s; ch]) sel)
                 + nn.maxQ (map (fun s => get (data_point d) [s; ch]) sel)) / 2)%Q).
  auto 10.
Qed.

End TransformTheorems.

(** On data without points [transform] raises the ValueError of the
    minimum over an empty array. *)
Theorem transform_empty_raises randint argsort mv (d : Data) split :
  valid_data d 0 ->
  transform randint argsort mv d split = Raise ValueError.
Proof.
  intros (Ep & El & _). unfold transform.
  rewrite (crop_cases _ _ _ 0 _ _ _ _ El).
  replace (mv <? 0) with false by (symmetry; apply Nat.ltb_ge; lia).
  rewrite andb_false_r. cbn [mbind res_bind].
  unfold np.min0, np.reduce0. rewrite Ep. reflexivity.
Qed.

(** ** Non-negative features in the encoder *)

Section EncoderFeatures.
Variables sqrtQ expQ : Q -> Q.
Variable knn_search : Tensor Q -> Tensor Q -> nat -> res (Tensor Z * Tensor Q).
Variable furthest_point_sample_v2 :
  Tensor Q -> list Z -> list Z -> res (Tensor Z).

Lemma nonneg_TransitionDown self pxo point' feat' rs' :
  TransitionDown_forward sqrtQ knn_search furthest_point_sample_v2 self pxo
    = Ok (point', feat', rs') -> nonneg feat'.
Proof.
  destruct pxo as [[point feat] rs]. intros Hf.
  unfold TransitionDown_forward in Hf.
  destruct (negb (stride self =? 1)%Z).
  - apply bind_Ok in Hf as (nrs & _ & Hf). apply bind_Ok in Hf as (idx & _ & Hf).
    apply bind_Ok in Hf as (np & _ & Hf). apply bind_Ok in Hf as (g & _ & Hf).
    apply bind_Ok in Hf as (l & _ & Hf). apply bind_Ok in Hf as (t & _ & Hf).
    apply bind_Ok in Hf as (b & _ & Hf). apply bind_Ok in Hf as (p & Hp & Hf).
    injection Hf as <- <- <-.
    apply nonneg_squeeze_last.
    apply (nonneg_MaxPool1d _ _ _ (nonneg_ReLU b) Hp).
  - apply bind_Ok in Hf as (l & _ & Hf). apply bind_Ok in Hf as (b & _ & Hf).
    injection Hf as <- <- <-. apply nonneg_ReLU.
Qed.

Lemma nonneg_Bottleneck self pxo point' feat' rs' :
  Bottleneck_forward sqrtQ expQ knn_search self pxo = Ok (point', feat', rs') ->
  nonneg feat'.
Proof.
  destruct pxo as [[point feat] rs]. intros Hf.
  unfold Bottleneck_forward in Hf.
  do 7 (apply bind_Ok in Hf as (? & _ & Hf)).
  injection Hf as <- <- <-. apply nonneg_ReLU.
Qed.

Lemma nonneg_blocks bs : forall point feat rs point' feat' rs',
  nonneg feat ->
  blocks_forward sqrtQ expQ knn_search bs (point, feat, rs) = Ok (point', feat', rs') ->
  nonneg feat'.
Proof.
  induction bs as [|b bs IH]; intros point feat rs point' feat' rs' Hn Hb;
    cbn [blocks_forward] in Hb.
  - injection Hb as <- <- <-. exact Hn.
  - apply bind_Ok in Hb as ([[p1 f1] r1] & H1 & Hb).
    apply nonneg_Bottleneck in H1. eapply IH; eauto.
Qed.

(** The features an encoder stage returns have no negative entry:
    [TransitionDown] ends with a ReLU, followed in the subsampling path by
    a maximum over each neighbourhood, and every [Bottleneck] ends with a
    ReLU. *)
Theorem Encoder_features_nonnegative enc pxo point' feat' rs' :
  Encoder_forward sqrtQ expQ knn_search furthest_point_sample_v2 enc pxo
    = Ok (point', feat', rs') ->
  nonneg feat'.
Proof.
  intros He. unfold Encoder_forward in He.
  apply bind_Ok in He as ([[pt ft] rt] & Htd & Hbl).
  apply nonneg_TransitionDown in Htd.
  eapply nonneg_blocks; eauto.
Qed.

End EncoderFeatures.

(** ** The properties at the concrete instances, continued *)

Lemma brute_knn_clamps : knn_clamps brute_knn.
Proof.
  intros points queries k idx dist Hs. unfold brute_knn in Hs.
  destruct (shape points) as [|n [|? [|? ?]]] eqn:Ep; try discriminate.
  destruct (shape queries) as [|nq [|? [|? ?]]] eqn:Eq; try discriminate.
  inv_bind Hs. injection Hs as <- <-.
  unfold rows. rewrite Ep, Eq. reflexivity.
Qed.

Lemma ones_Bottleneck_init in_planes planes share nsample :
  share <> 0 ->
  Bottleneck_init in_planes planes share nsample
    (ones_Bottleneck in_planes planes share nsample).
Proof.
  intros Hs. unfold Bottleneck_init, ones_Bottleneck, Linear_init, BatchNorm1d_init.
  cbn [linear1 bn1 transformer2 bn2 linear3 bn3].
  split; [split; reflexivity|]. split; [reflexivity|]. split; [reflexivity|].
  split; [apply ones_Transformer_init; exact Hs|].
  split; [reflexivity|]. split; [split; reflexivity|]. split; reflexivity.
Qed.

Lemma ones_TransitionDown_init in_planes out_planes_ stride_ nsample :
  TransitionDown_init in_planes out_planes_ stride_ nsample
    (ones_TransitionDown in_planes out_planes_ stride_ nsample).
Proof. unfold TransitionDown_init. repeat split. Qed.

Lemma ones_TransitionUp_init in_planes out_planes_ :
  TransitionUp_init in_planes out_planes_ (ones_TransitionUp in_planes out_planes_).
Proof.
  destruct out_planes_ as [o|]; simpl.
  - do 4 eexists. repeat split.
  - do 3 eexists. repeat split.
Qed.

Lemma ones_Encoder_make in_planes planes blocks share stride_ nsample :
  share <> 0 ->
  make_enc in_planes planes blocks share stride_ nsample
    (ones_Encoder in_planes planes blocks share stride_ nsample).
Proof.
  intros Hs. unfold make_enc, ones_Encoder. cbn [enc_down enc_blocks].
  split; [apply ones_TransitionDown_init|]. split; [apply length_replicate|].
  apply Forall_replicate. apply ones_Bottleneck_init. exact Hs.
Qed.

Lemma ones_Decoder_make in_planes planes blocks share nsample is_head :
  share <> 0 ->
  make_dec in_planes planes blocks share nsample is_head
    (ones_Decoder in_planes planes blocks share nsample is_head).
Proof.
  intros Hs. unfold make_dec, ones_Decoder. cbn [dec_up dec_blocks].
  split; [apply ones_TransitionUp_init|]. split; [apply length_replicate|].
  apply Forall_replicate. apply ones_Bottleneck_init. exact Hs.
Qed.

Lemma ones_stages_built p0 p1 p2 p3 p4 share s0 s1 s2 s3 s4 n0 n1 n2 n3 n4
    b0 b1 b2 b3 b4 blocks c num_classes :
  share <> 0 ->
  PointTransformer_stages [p0; p1; p2; p3; p4] share [s0; s1; s2; s3; s4]
    [n0; n1; n2; n3; n4] (b0 :: b1 :: b2 :: b3 :: b4 :: blocks) c num_classes
    (ones_stages [p0; p1; p2; p3; p4] share [s0; s1; s2; s3; s4]
       [n0; n1; n2; n3; n4] (b0 :: b1 :: b2 :: b3 :: b4 :: blocks) c num_classes).
Proof.
  intros Hs. unfold PointTransformer_stages, ones_stages.
  exists p0, p1, p2, p3, p4, s0, s1, s2, s3, s4, n0, n1, n2, n3, n4,
    b0, b1, b2, b3, b4.
  do 3 eexists.
  cbn [nth pt_c enc1 enc2 enc3 enc4 enc5 dec5 dec4 dec3 dec2 dec1 cls].
  repeat (split; [first [reflexivity | apply ones_Encoder_make; exact Hs
                        | apply ones_Decoder_make; exact Hs]|]).
  repeat split.
Qed.

Lemma knn_batch_searches_one_cloud_each_witness :
  Forall2 (search_of_cloud ex_point ex_point 2 ex_rs ex_rs) (seq 0 2)
    (fst (knn_batch_run brute_knn ex_point ex_point 2 ex_rs ex_rs false)).
Proof.
  set (R := knn_batch_run brute_knn ex_point ex_point 2 ex_rs ex_rs false).
  assert (Hok : exists x, snd R = Ok x) by (vm_compute; eexists; reflexivity).
  destruct Hok as (x & Hx).
  destruct (knn_batch_searches_one_cloud_each brute_knn ex_point ex_point 2 ex_rs
              ex_rs false (fst R) (snd R) (surjective_pairing R))
    as (Hall & _ & Hlen).
  rewrite (Hlen x Hx) in Hall. exact Hall.
Defined.

Lemma knn_batch_no_cloud_raises_witness :
  knn_batch_run brute_knn ex_point ex_point 2 [0%Z] [0%Z] true
  = ([], Raise RuntimeError).
Proof.
  apply (knn_batch_no_cloud_raises brute_knn ex_point ex_point 2 [0%Z] [0%Z] true);
    simpl; lia.
Defined.

Lemma queryandgroup_AssertionError_iff_witness :
  queryandgroup brute_knn 2 ex_point (Some ex_point) ex_feat None ex_rs [0; 4]%Z true
  = Raise AssertionError.
Proof.
  apply (queryandgroup_AssertionError_iff brute_knn brute_knn_no_assert 2 ex_point
           ex_point ex_feat None ex_rs [0; 4]%Z true).
  right. split; [reflexivity | simpl; lia].
Defined.

Lemma queryandgroup_small_cloud_raises_witness :
  exists e, queryandgroup brute_knn 3 ex_point (Some ex_point) ex_feat None
              ex_rs ex_rs true = Raise e.
Proof.
  assert (Hv : valid_splits ex_rs 4) by valid_splits_tac.
  assert (Hc : cloud ex_rs 0 0 2) by (split; reflexivity).
  apply (queryandgroup_small_cloud_raises brute_knn brute_knn_contract
           brute_knn_clamps 3 ex_point ex_point ex_feat ex_rs ex_rs true 4 0 0%Z 2%Z);
    [reflexivity | exact Hv | exact Hv | exact Hc | lia | unfold rows; simpl; lia].
Defined.

Lemma interpolation_more_than_three_raises_witness :
  exists e, interpolation brute_knn ex_point6 ex_point6 ex_feat6 ex_rs6 ex_rs6 4
            = Raise e.
Proof.
  apply (interpolation_more_than_three_raises brute_knn). lia.
Defined.

Lemma Transformer_share_planes_must_divide_witness :
  exists e, Transformer_forward ex_sqrt ex_exp brute_knn (ones_Transformer 1 3 2 2)
              (ex_point, ex_feat, ex_rs) = Raise e.
Proof.
  assert (Hinit : Transformer_init 1 3 2 2 (ones_Transformer 1 3 2 2))
    by (apply ones_Transformer_init; lia).
  apply (Transformer_share_planes_must_divide ex_sqrt ex_exp brute_knn 1 3 2 2
           _ ex_point ex_feat ex_rs 4 1 Hinit);
    [reflexivity | unfold rows; simpl; lia | lia | simpl; lia].
Defined.

Lemma Bottleneck_residual_needs_equal_planes_witness :
  exists e, Bottleneck_forward ex_sqrt ex_exp brute_knn (ones_Bottleneck 2 4 2 2)
              (ex_point, ex_feat2, ex_rs) = Raise e.
Proof.
  assert (Hinit : Bottleneck_init 2 4 2 2 (ones_Bottleneck 2 4 2 2))
    by (apply ones_Bottleneck_init; lia).
  apply (Bottleneck_residual_needs_equal_planes ex_sqrt ex_exp brute_knn 2 4 2 2
           _ ex_point ex_feat2 ex_rs 4 2 Hinit);
    [reflexivity | lia | lia].
Defined.

Lemma TransitionDown_stride_zero_raises_witness :
  TransitionDown_forward ex_sqrt brute_knn fps_reference (ex_TransitionDown 0 4)
    (ex_point, ex_feat, ex_rs) = Raise ZeroDivisionError.
Proof.
  apply (TransitionDown_stride_zero_raises ex_sqrt brute_knn fps_reference
           (ex_TransitionDown 0 4) ex_point ex_feat ex_rs);
    [reflexivity | simpl; lia].
Defined.

Lemma TransitionDown_point_count_bounds_witness :
  exists point' feat' rs',
    TransitionDown_forward ex_sqrt brute_knn fps_reference
      (ex_TransitionDown 2 4) (ex_point, ex_feat, ex_rs) = Ok (point', feat', rs')
    /\ (2 * Z.of_nat (rows point') <= 4)%Z
    /\ (4 - 1 * 2 <= 2 * Z.of_nat (rows point'))%Z.
Proof.
  assert (Hv : valid_pxo (ex_point, ex_feat, ex_rs)) by valid_pxo_tac 4 1.
  assert (Hs : (1 < stride (ex_TransitionDown 2 4))%Z) by (simpl; lia).
  destruct (TransitionDown_forward ex_sqrt brute_knn fps_reference
              (ex_TransitionDown 2 4) (ex_point, ex_feat, ex_rs))
    as [[[point' feat'] rs']|e] eqn:E; [|vm_compute in E; discriminate].
  destruct (TransitionDown_point_count_bounds ex_sqrt brute_knn fps_reference
              (ex_TransitionDown 2 4) _ _ _ _ _ _ fps_reference_contract Hv Hs E)
    as [Hup Hlow].
  exists point', feat', rs'. split; [reflexivity|]. split; [exact Hup | exact Hlow].
Defined.

Lemma Encoder_features_nonnegative_witness :
  exists point' feat' rs',
    Encoder_forward ex_sqrt ex_exp brute_knn fps_reference
      (ones_Encoder 2 2 2 2 1 2) (ex_point6, ex_feat6, ex_rs6)
      = Ok (point', feat', rs')
    /\ nonneg feat'.
Proof.
  assert (Hok : match Encoder_forward ex_sqrt ex_exp brute_knn fps_reference
                        (ones_Encoder 2 2 2 2 1 2) (ex_point6, ex_feat6, ex_rs6) with
                | Ok _ => true
                | Raise _ => false
                end = true) by (lazy; reflexivity).
  destruct (Encoder_forward ex_sqrt ex_exp brute_knn fps_reference
              (ones_Encoder 2 2 2 2 1 2) (ex_point6, ex_feat6, ex_rs6))
    as [[[point' feat'] rs']|e] eqn:E; [|discriminate].
  exists point', feat', rs'. split; [reflexivity|].
  apply (Encoder_features_nonnegative ex_sqrt ex_exp brute_knn fps_reference
           _ _ _ _ _ E).
Defined.

Lemma TransitionUp_features_nonnegative_witness :
  exists out,
    TransitionUp_forward ex_sqrt brute_knn (ones_TransitionUp 2 (Some 2))
      (ex_point6, ex_feat6, ex_rs6) (Some (ex_point6, ex_feat6, ex_rs6)) = Ok out
    /\ nonneg out.
Proof.
  assert (Hok : match TransitionUp_forward ex_sqrt brute_knn
                        (ones_TransitionUp 2 (Some 2))
                        (ex_point6, ex_feat6, ex_rs6)
                        (Some (ex_point6, ex_feat6, ex_rs6)) with
                | Ok _ => true
                | Raise _ => false
                end = true) by (lazy; reflexivity).
  destruct (TransitionUp_forward ex_sqrt brute_knn (ones_TransitionUp 2 (Some 2))
              (ex_point6, ex_feat6, ex_rs6) (Some (ex_point6, ex_feat6, ex_rs6)))
    as [out|e] eqn:E; [|discriminate].
  exists out. split; [reflexivity|].
  apply (TransitionUp_features_nonnegative ex_sqrt brute_knn brute_knn_contract
           2 (Some 2) _ _ _ _ (ones_TransitionUp_init 2 (Some 2)) E).
Defined.

Lemma TransitionUp_fuses_two_levels_witness :
  exists out,
    TransitionUp_forward ex_sqrt brute_knn (ones_TransitionUp 2 (Some 2))
      (ex_point6, ex_feat6, ex_rs6) (Some (ex_point6, ex_feat6, ex_rs6)) = Ok out
    /\ shape out = [6; 2].
Proof.
  assert (Hv : valid_pxo (ex_point6, ex_feat6, ex_rs6)) by valid_pxo_tac 6 2.
  assert (H3 : forall i a b, cloud ex_rs6 i a b -> (3 <= b - a)%Z).
  { intros i a b [Ha Hb].
    do 3 (destruct i as [|i]; simpl in Ha, Hb; try discriminate;
          try (injection Ha as <-; injection Hb as <-; lia)). }
  assert (Hok : match TransitionUp_forward ex_sqrt brute_knn
                        (ones_TransitionUp 2 (Some 2))
                        (ex_point6, ex_feat6, ex_rs6)
                        (Some (ex_point6, ex_feat6, ex_rs6)) with
                | Ok _ => true
                | Raise _ => false
                end = true) by (lazy; reflexivity).
  destruct (TransitionUp_forward ex_sqrt brute_knn (ones_TransitionUp 2 (Some 2))
              (ex_point6, ex_feat6, ex_rs6) (Some (ex_point6, ex_feat6, ex_rs6)))
    as [out|e] eqn:E; [|discriminate].
  exists out. split; [reflexivity|].
  apply (TransitionUp_fuses_two_levels ex_sqrt brute_knn brute_knn_contract
           2 2 _ _ _ _ _ _ _ _ (ones_TransitionUp_init 2 (Some 2)) Hv Hv H3 E).
Defined.

Lemma PointTransformer_forward_scores_witness :
  exists out,
    PointTransformer_forward ex_sqrt ex_exp brute_knn fps_reference
      (ex_PointTransformer 5 3) ex_batch = Ok out
    /\ shape out = [6; 3].
Proof.
  assert (Hst : PointTransformer_stages [2; 2; 2; 2; 2] 2 [1; 2; 1; 1; 1]%Z
                  [2; 2; 2; 2; 2] [1; 1; 1; 1; 1] 5 3 (ex_PointTransformer 5 3))
    by (apply ones_stages_built; lia).
  assert (Hok : match PointTransformer_forward ex_sqrt ex_exp brute_knn
                        fps_reference (ex_PointTransformer 5 3) ex_batch with
                | Ok _ => true
                | Raise _ => false
                end = true) by (lazy; reflexivity).
  destruct (PointTransformer_forward ex_sqrt ex_exp brute_knn fps_reference
              (ex_PointTransformer 5 3) ex_batch) as [out|e] eqn:E; [|discriminate].
  exists out. split; [reflexivity|].
  apply (PointTransformer_forward_scores ex_sqrt ex_exp brute_knn fps_reference
           _ _ _ _ _ _ _ _ ex_batch out 6 Hst eq_refl eq_refl E).
Defined.

Lemma PointTransformer_forward_needs_4096_points_witness :
  exists e, PointTransformer_forward ex_sqrt ex_exp brute_knn fps_reference
              (ones_PointTransformer [2; 2; 2; 2; 2] 5 13) ex_batch = Raise e.
Proof.
  assert (Hinit : PointTransformer_init [2; 2; 2; 2; 2] 5 13
                    (ones_PointTransformer [2; 2; 2; 2; 2] 5 13))
    by (apply ones_stages_built; lia).
  assert (Hv : valid_splits (batch_row_splits ex_batch) 6) by valid_splits_tac.
  assert (Hc : cloud (batch_row_splits ex_batch) 0 0 6) by (split; reflexivity).
  apply (PointTransformer_forward_needs_4096_points ex_sqrt ex_exp brute_knn
           fps_reference brute_knn_contract brute_knn_clamps fps_reference_contract
           _ _ _ _ ex_batch 6 0 0%Z 6%Z Hinit);
    [reflexivity | exact Hv | lia | exact Hc | lia].
Defined.

Lemma ex_randint_spec : randint_spec ex_randint.
Proof. intros n Hn. unfold ex_randint. lia. Qed.

Lemma ex_data_valid : valid_data ex_data 6.
Proof.
  split; [reflexivity|]. split; [reflexivity|]. exists 2. split; reflexivity.
Qed.

Lemma transform_keeps_rows_aligned_witness :
  exists out sel,
    transform ex_randint argsort_insertion 0 ex_data "validation" = Ok out /\
    sel = seq 0 6 /\
    forall r, r < 6 ->
      get (data_label out) [r] = get (data_label ex_data) [nth r sel 0].
Proof.
  destruct (transform_keeps_rows_aligned ex_randint argsort_insertion
              argsort_insertion_spec ex_randint_spec 0 ex_data "validation" 6
              ex_data_valid ltac:(lia))
    as (out & sel & shift & Hrun & _ & _ & _ & Hseq & _ & _ & _ & Hl & _).
  exists out, sel. split; [exact Hrun|]. split; [apply Hseq; reflexivity|].
  exact Hl.
Defined.

Lemma transform_centres_bounding_box_witness :
  exists out,
    transform ex_randint argsort_insertion 4 ex_data "train" = Ok out /\
    forall ch, ch < 3 ->
      (minQ (column (data_point out) ch) + nn.maxQ (column (data_point out) ch)
       == 0)%Q.
Proof.
  apply (transform_centres_bounding_box ex_randint argsort_insertion
           argsort_insertion_spec ex_randint_spec 4 ex_data "train" 6
           ex_data_valid).
  lia.
Defined.

Lemma transform_crops_to_nearest_witness :
  exists out sel i0,
    transform ex_randint argsort_insertion 4 ex_data "validation" = Ok out /\
    length sel = 4 /\ i0 = 3 /\
    forall s u, In s sel -> u < 6 -> ~ In u sel ->
      (sqdist (row ex_point6 s) (row ex_point6 i0)
       <= sqdist (row ex_point6 u) (row ex_point6 i0))%Q.
Proof.
  destruct (transform_crops_to_nearest ex_randint argsort_insertion
              argsort_insertion_spec ex_randint_spec 4 ex_data "validation" 6
              ex_data_valid ltac:(lia) ltac:(lia))
    as (out & sel & i0 & shift & Hrun & _ & Hlen & _ & Htr & _ & Hnear).
  exists out, sel, i0. split; [exact Hrun|]. split; [exact Hlen|].
  split; [apply Htr; reflexivity | exact Hnear].
Defined.

Lemma transform_empty_raises_witness :
  transform ex_randint argsort_insertion 4 ex_data_empty "train" = Raise ValueError.
Proof.
  apply (transform_empty_raises ex_randint argsort_insertion 4 ex_data_empty "train").
  split; [reflexivity|]. split; reflexivity.
Defined.

Lemma ex_exp_pos x : (0 < ex_exp x)%Q.
Proof. unfold ex_exp. pose proof (Qsquare_nonneg x). lra. Qed.

Lemma Transformer_attention_is_weighted_mean_witness :
  exists out (w : Tensor Q),
    Transformer_forward ex_sqrt ex_exp brute_knn (ones_Transformer 2 2 2 2)
      (ex_point, ex_feat2, ex_rs) = Ok out /\
    shape w = [4; 2; 1] /\
    forall q, q < 4 ->
      (torch.sumQ (map (fun j => get w [q; j; 0%nat]) (seq 0 2)) == 1)%Q.
Proof.
  assert (Hinit : Transformer_init 2 2 2 2 (ones_Transformer 2 2 2 2))
    by (apply ones_Transformer_init; lia).
  assert (Hok : match Transformer_forward ex_sqrt ex_exp brute_knn
                        (ones_Transformer 2 2 2 2) (ex_point, ex_feat2, ex_rs) with
                | Ok _ => true
                | Raise _ => false
                end = true) by (lazy; reflexivity).
  destruct (Transformer_forward ex_sqrt ex_exp brute_knn (ones_Transformer 2 2 2 2)
              (ex_point, ex_feat2, ex_rs)) as [out|e] eqn:E; [|discriminate].
  assert (Ef : shape ex_feat2 = [rows ex_point; 2]) by reflexivity.
  assert (Hns : 0 < 2) by lia.
  destruct (Transformer_attention_is_weighted_mean ex_sqrt ex_exp brute_knn
              ex_exp_pos 2 2 2 2 _ _ _ _ 2 _ Hinit Ef Hns E)
    as (fk & fv & gk & gv & pr0 & pr & w & _ & _ & _ & _ & _ & _ & _ & _ & Esw
        & _ & Hsum & _).
  exists out, w. split; [reflexivity|]. split; [exact Esw|].
  intros q Hq. apply Hsum; [exact Hq | simpl; lia].
Defined.

Lemma PointTransformer_forward_feature_width_witness :
  exists e, PointTransformer_forward ex_sqrt ex_exp brute_knn fps_reference
              (ones_PointTransformer [2; 2; 2; 2; 2] 6 13) ex_batch = Raise e.
Proof.
  assert (Hinit : PointTransformer_init [2; 2; 2; 2; 2] 6 13
                    (ones_PointTransformer [2; 2; 2; 2; 2] 6 13))
    by (apply ones_stages_built; lia).
  apply (PointTransformer_forward_feature_width ex_sqrt ex_exp brute_knn
           fps_reference _ _ _ _ ex_batch 6 2 Hinit);
    [reflexivity | reflexivity | lia | lia].
Defined.
